(** * kudu/util/debug-util.cc: remote thread stack-trace collection

    A shallow embedding of the stack buffer ([StackTrace]), the futex based
    [CompletionFlag], the signal protocol ([SignalData],
    [HandleStackTraceSignal], [StackTraceCollector]) and the whole-process
    snapshot ([StackTraceSnapshot]) of [src/kudu/util/debug-util.cc].

    Machine pointers ([void*], [uintptr_t]) are integers in [0, 2^64);
    [int64_t] thread ids and monotonic instants are [Z]. *)

From Stdlib Require Import ZArith List Ascii String Lia Bool.
From stdpp Require Import base tactics list.
Import ListNotations.
Local Open Scope Z_scope.

(* ================================================================== *)
(** * Part I. Definitions *)
(* ================================================================== *)

(** ** The stack buffer *)

(** Modelled from the spec: [kMaxFrames] and [kHexEntryLength] are declared in
    [debug-util.h], which is not part of the sources at hand.  The spec fixes
    the capacity at 16 frames and a hex entry at 16 digits. *)
Definition kMaxFrames : Z := 16.
Definition kHexEntryLength : Z := 16.

(** Modelled from the spec: the two rendering flags of [debug-util.h]; they are
    tested with a bitwise and, so they are two distinct bits. *)
Definition NO_FIX_CALLER_ADDRESSES : Z := 1.
Definition HEX_0X_PREFIX : Z := 2.

(** [kPrintfPointerFieldWidth = 2 + 2 * sizeof(void* )] on a 64-bit target. *)
Definition kPrintfPointerFieldWidth : Z := 2 + 2 * 8.

Definition uintptr_max : Z := 2 ^ 64.

Record StackTrace := mkStackTrace {
  frames_ : list Z;      (* void* frames_[kMaxFrames] *)
  num_frames_ : Z        (* int num_frames_ *)
}.

(** [frames_[i]] *)
Definition frame_at (st : StackTrace) (i : Z) : Z :=
  default 0 (frames_ st !! Z.to_nat i).

(** The half-open range [frames_ .. &frames_[n]]. *)
Definition frames_range (st : StackTrace) (n : Z) : list Z :=
  take (Z.to_nat n) (frames_ st).

(** The defined prefix [frames_[0 .. num_frames_)]. *)
Definition defined_prefix (st : StackTrace) : list Z :=
  frames_range st (num_frames_ st).

(** A buffer as the array declares it: 16 slots holding pointer values, of
    which the first [num_frames_] are defined. *)
Definition StackTrace_wf (st : StackTrace) : Prop :=
  length (frames_ st) = Z.to_nat kMaxFrames /\
  0 <= num_frames_ st <= kMaxFrames /\
  Forall (fun a => 0 <= a < uintptr_max) (frames_ st).

(** [StackTrace()], value-initialised as [vector::resize] does. *)
Definition StackTrace_new : StackTrace :=
  mkStackTrace (replicate (Z.to_nat kMaxFrames) 0) 0.

(** Modelled from the spec: [HasCollected] is defined in [debug-util.h]; a
    buffer has collected when it holds at least one frame. *)
Definition HasCollected (st : StackTrace) : bool := 0 <? num_frames_ st.

(** *** Hex rendering *)

(** A destination buffer is seen through the writes made to it: each
    [*dst = c] is recorded with the offset of [dst] from [buf]. *)
Definition writes := list (Z * ascii).

Definition NUL : ascii := Ascii.zero.

Definition hexdigit (d : Z) : ascii :=
  nth (Z.to_nat d)
      ["0";"1";"2";"3";"4";"5";"6";"7";"8";"9";"a";"b";"c";"d";"e";"f"]%char
      "0"%char.

(** Modelled from the spec: [FastHex64ToBuffer] lives in
    [gutil/strings/numbers], not part of the sources at hand.  It renders a
    64-bit value as exactly 16 lowercase hex digits, most significant first. *)
Fixpoint hex_digits (n : nat) (value : Z) (acc : list ascii) : list ascii :=
  match n with
  | O => acc
  | S n' => hex_digits n' (Z.shiftr value 4) (hexdigit (Z.land value 15) :: acc)
  end.

Definition FastHex64ToBuffer (value : Z) (dst : Z) : writes :=
  imap (fun k c => (dst + Z.of_nat k, c)) (hex_digits 16 value []).

Definition flag_set (flags mask : Z) : bool := negb (Z.land flags mask =? 0).

(** One iteration of the loop of [StringifyToHex], from [dst] on. *)
Definition hex_entry (st : StackTrace) (flags i : Z) (s : Z * writes)
  : Z * writes :=
  let '(dst, w) := s in
  let '(dst, w) :=
    if negb (i =? 0) then (dst + 1, w ++ [(dst, " "%char)]) else (dst, w) in
  let '(dst, w) :=
    if flag_set flags HEX_0X_PREFIX
    then (dst + 2, w ++ [(dst, "0"%char); (dst + 1, "x"%char)])
    else (dst, w) in
  let addr := frame_at st i in
  let addr :=
    if (0 <? addr) && negb (flag_set flags NO_FIX_CALLER_ADDRESSES)
    then addr - 1 else addr in
  (dst + kHexEntryLength, w ++ FastHex64ToBuffer addr dst).

(** [for (int i = 0; i < num_frames_ && dst < limit; i++)], with [n] the
    number of frames still to visit. *)
Fixpoint StringifyToHex_loop (n : nat) (st : StackTrace) (flags limit i : Z)
    (s : Z * writes) : Z * writes :=
  match n with
  | O => s
  | S n' =>
      if fst s <? limit
      then StringifyToHex_loop n' st flags limit (i + 1) (hex_entry st flags i s)
      else s
  end.

(** [StringifyToHex(buf, size, flags)], with the offsets from [buf] for
    pointers: [dst + size] is taken not to wrap around, as it does not when
    [buf] has [size] bytes (at most [PTRDIFF_MAX]). *)
Definition StringifyToHex (st : StackTrace) (size flags : Z) : writes :=
  let dst := 0 in
  let limit := dst + size - kHexEntryLength - 2 in
  let '(dst, w) :=
    StringifyToHex_loop (Z.to_nat (num_frames_ st)) st flags limit 0 (dst, []) in
  w ++ [(dst, NUL)].

(** The C string a buffer holds: the bytes up to the first NUL. *)
Fixpoint c_str (l : list ascii) : list ascii :=
  match l with
  | [] => []
  | c :: r => if Ascii.eqb c NUL then [] else c :: c_str r
  end.

(** The buffer contents after a run of writes that fills it front to back. *)
Definition written (w : writes) : list ascii := map snd w.

Definition ToHexString (st : StackTrace) (flags : Z) : list ascii :=
  let len_per_frame := kHexEntryLength in
  let len_per_frame := len_per_frame + 1 in
  let len_per_frame :=
    if flag_set flags HEX_0X_PREFIX then len_per_frame + 2 else len_per_frame in
  let buf_len := kMaxFrames * len_per_frame + 1 in
  c_str (written (StringifyToHex st buf_len flags)).

(** Every write of a run lands inside a buffer of [size] bytes. *)
Definition in_bounds (size : Z) (w : writes) : Prop :=
  Forall (fun oc => 0 <= fst oc < size) w.

(** Reading the hex fields back, as a consumer of the rendered text does. *)
Definition hex_val (c : ascii) : option Z :=
  let n := Z.of_nat (nat_of_ascii c) in
  if (48 <=? n) && (n <=? 57) then Some (n - 48)
  else if (97 <=? n) && (n <=? 102) then Some (n - 87)
  else None.

Fixpoint parse_hex (l : list ascii) (acc : Z) : option Z :=
  match l with
  | [] => Some acc
  | c :: r => match hex_val c with
              | Some d => parse_hex r (16 * acc + d)
              | None => None
              end
  end.

Fixpoint parse_hex_fields (fuel : nat) (s : list ascii) : list Z :=
  match fuel with
  | O => []
  | S fuel' =>
      let s := match s with
               | c :: r => if Ascii.eqb c " "%char then r else s
               | [] => s
               end in
      let s := match s with
               | c1 :: c2 :: r =>
                   if Ascii.eqb c1 "0"%char && Ascii.eqb c2 "x"%char then r else s
               | _ => s
               end in
      match s with
      | [] => []
      | _ => match parse_hex (take 16 s) 0 with
             | Some v => v :: parse_hex_fields fuel' (drop 16 s)
             | None => []
             end
      end
  end.

(** The address a frame is printed as. *)
Definition fix_caller_address (flags addr : Z) : Z :=
  if (0 <? addr) && negb (flag_set flags NO_FIX_CALLER_ADDRESSES)
  then addr - 1 else addr.

(** *** Comparison *)

(** [std::lexicographical_compare] over two ranges of pointers. *)
Fixpoint lexicographical_compare (l1 l2 : list Z) : bool :=
  match l1, l2 with
  | x :: r1, y :: r2 =>
      if x <? y then true
      else if y <? x then false
      else lexicographical_compare r1 r2
  | [], _ :: _ => true
  | _, _ => false
  end.

(** Both ranges end at [num_frames_] of [this]. *)
Definition LessThan (this s : StackTrace) : bool :=
  lexicographical_compare (frames_range this (num_frames_ this))
                          (frames_range s (num_frames_ this)).

(** The comparison the spec describes: lexicographic over the two defined
    prefixes. *)
Definition less_spec (s t : StackTrace) : bool :=
  lexicographical_compare (defined_prefix s) (defined_prefix t).

(** *** Symbolization *)

Definition newline : string := String (ascii_of_nat 10) EmptyString.

Section Symbolize.
(** [google::Symbolize(pc, out, size)]: the symbol of a program counter. *)
Variable google_Symbolize : Z -> option string.
(** The text [printf] gives for a ["%*p"] conversion: width, pointer. *)
Variable printf_pointer : Z -> Z -> string.

Definition symbol_of (pc : Z) : string :=
  let symbol := "(unknown)"%string in
  if negb (pc =? 0)
  then match google_Symbolize (pc - 1) with
       | Some tmp => tmp
       | None => symbol
       end
  else symbol.

(** ["    @ %*p  %s\n"] *)
Definition symbolize_line (pc : Z) (symbol : string) : string :=
  ("    @ " ++ printf_pointer kPrintfPointerFieldWidth pc ++ "  "
     ++ symbol ++ newline)%string.

Fixpoint Symbolize_loop (n : nat) (st : StackTrace) (i : Z) (ret : string)
  : string :=
  match n with
  | O => ret
  | S n' =>
      let pc := frame_at st i in
      Symbolize_loop n' st (i + 1) (ret ++ symbolize_line pc (symbol_of pc))
  end.

Definition Symbolize (st : StackTrace) : string :=
  Symbolize_loop (Z.to_nat (num_frames_ st)) st 0 "".
End Symbolize.

(** *** Collection *)

(** The local unwinder as [Collect] drives it: the cursor stands on a frame
    whose instruction pointer [unw_get_reg] reads ([None] when it fails), and
    [unw_step] moves to the caller while there is one. *)
Definition unw_cursor := list (option Z).

Fixpoint Collect_loop (cursor : unw_cursor) (skip_frames : Z) (st : StackTrace)
  : StackTrace :=
  match cursor with
  | [] => st
  | r :: callers =>
      if num_frames_ st <? kMaxFrames then
        match r with
        | None => st
        | Some ip =>
            let '(skip_frames, st) :=
              if 0 <? skip_frames then (skip_frames - 1, st)
              else (skip_frames,
                    mkStackTrace (<[Z.to_nat (num_frames_ st) := ip]> (frames_ st))
                                 (num_frames_ st + 1)) in
            match callers with
            | [] => st
            | _ => Collect_loop callers skip_frames st
            end
        end
      else st
  end.

(** [StackTrace::Collect]: [safe] is the answer of [debug::SafeToUnwindStack],
    [f_ptr] the address of [CouldNotCollectStackTraceBecauseInsideLibDl] and
    [cursor] the stack the unwinder walks, innermost frame ([Collect]) first.
    The [skip_frames++] of the code is on an [int]: the model is for
    [skip_frames] below [INT_MAX], where it does not overflow; the callers
    in this file pass 1. *)
Definition Collect (safe : bool) (f_ptr : Z) (cursor : unw_cursor)
    (skip_frames : Z) (st : StackTrace) : StackTrace :=
  if negb safe then
    mkStackTrace (<[0%nat := (f_ptr + 1) mod uintptr_max]> (frames_ st)) 1
  else
    let skip_frames := skip_frames + 1 in
    Collect_loop cursor skip_frames (mkStackTrace (frames_ st) 0).

(** *** The rendered text, field by field *)

(** [n] bytes stored front to back from offset [dst]. *)
Definition put_string (dst : Z) (cs : list ascii) : writes :=
  imap (fun k c => (dst + Z.of_nat k, c)) cs.

(** The bytes one loop iteration stores for frame [i] holding [addr]. *)
Definition field_chars (flags i addr : Z) : list ascii :=
  (if negb (i =? 0) then [" "%char] else []) ++
  (if flag_set flags HEX_0X_PREFIX then ["0"%char; "x"%char] else []) ++
  hex_digits 16 (fix_caller_address flags addr) [].

(** The bytes of [k] consecutive iterations, from frame [i] on. *)
Fixpoint fields (st : StackTrace) (flags : Z) (k : nat) (i : Z) : list ascii :=
  match k with
  | O => []
  | S k' => field_chars flags i (frame_at st i) ++ fields st flags k' (i + 1)
  end.

(** How many iterations the loop of [StringifyToHex] makes: [prefix] tells
    whether [HEX_0X_PREFIX] is set. *)
Fixpoint hex_iterations (n : nat) (prefix : bool) (limit i dst : Z) : nat :=
  match n with
  | O => O
  | S n' =>
      if dst <? limit
      then S (hex_iterations n' prefix limit (i + 1)
                (dst + ((if negb (i =? 0) then 1 else 0)
                        + (if prefix then 2 else 0) + kHexEntryLength)))
      else O
  end.

Definition parse_fields (s : list ascii) : list Z :=
  parse_hex_fields (length s) s.

Definition is_hex_char (c : ascii) : Prop := is_Some (hex_val c).

(** The values the fields of [k] iterations stand for. *)
Fixpoint printed (st : StackTrace) (flags : Z) (k : nat) (i : Z) : list Z :=
  match k with
  | O => []
  | S k' => fix_caller_address flags (frame_at st i) :: printed st flags k' (i + 1)
  end.

(** The characters of several strings, one after the other. *)
Definition concat_strings (l : list string) : string :=
  fold_right String.append EmptyString l.

(** The address of the call a return address belongs to. *)
Definition call_address (a : Z) : Z := if a =? 0 then 0 else a - 1.

(** The same, as a test that can be run. *)
Definition StackTrace_wfb (st : StackTrace) : bool :=
  (length (frames_ st) =? Z.to_nat kMaxFrames)%nat &&
  (0 <=? num_frames_ st) && (num_frames_ st <=? kMaxFrames) &&
  forallb (fun a => (0 <=? a) && (a <? uintptr_max)) (frames_ st).

(** ** Status values *)

Inductive StatusCode :=
| kOk | kNotFound | kNotSupported | kTimedOut | kIncomplete | kIOError
| kInvalidArgument.

Record Status := mkStatus { code : StatusCode; message : string }.

Definition Status_OK : Status := mkStatus kOk "".

Definition ok (s : Status) : bool :=
  match code s with kOk => true | _ => false end.

(** [Status::CloneAndPrepend], as [RETURN_NOT_OK_PREPEND] uses it. *)
Definition CloneAndPrepend (s : Status) (msg : string) : Status :=
  mkStatus (code s) (msg ++ ": " ++ message s).

(** ** The signal protocol: data *)

Module stack_trace_internal.

(** [std::atomic<int32_t> complete_ { 0 }] *)
Record CompletionFlag := mkCompletionFlag { complete_ : Z }.

(** [stack] points at the destination buffer, which is the [stack] member of
    an entry of [infos_]: the pointer is the index of that entry. *)
Record SignalData := mkSignalData {
  stack : nat;
  queued_to_tid : Z;
  result_ready : CompletionFlag
}.

Definition kNotInUse : Z := 0.
Definition kDumpStarted : Z := -1.

End stack_trace_internal.
Import stack_trace_internal.

(** What became of a [SignalData] block obtained with [new]. *)
Inductive Alloc := Live | Leaked | Freed.

(** Where the handler run for one queued signal stands.  The signal carries
    the pointer to its block, and is handled on the thread it was queued to. *)
Inductive HandlerPc :=
| NoSignal                    (* nothing was queued for the block *)
| Pending (my_tid : Z)        (* queued; the handler has not reached its CAS *)
| Collecting (my_tid : Z)     (* the CAS succeeded; [Collect] not yet done *)
| Signalling (my_tid : Z)     (* [Collect] done; [Signal] not yet done *)
| Returned.                   (* the handler has returned *)

Record Cell := mkCell {
  sig : SignalData;
  alloc : Alloc;
  handler : HandlerPc
}.

Record StackTraceCollector := mkCollector {
  tid_ : Z;
  sig_data_ : option nat      (* SignalData*, [None] for nullptr *)
}.

Module ThreadInfo.
Record t := mk {
  tid : Z;
  stack : StackTrace;
  status : Status;
  thread_name : string
}.
End ThreadInfo.
Abbreviation ThreadInfo := ThreadInfo.t.

Inductive InitState := UNINITIALIZED | INIT_ERROR | INITIALIZED.

(** What [sigaction] reports as the handler of a signal. *)
Inductive SigHandler := SIG_DFL | SIG_IGN | OurHandler | OtherHandler.

(** What the tracer has read from the flag and from the clock, latest first. *)
Inductive Observation := ObsFlag (b : bool) | ObsClock (t : Z).

(** The memory the tracer and the handlers share, and the process state. *)
Record World := mkWorld {
  (* StackTraceSnapshot *)
  infos_ : list ThreadInfo;
  collectors_ : list StackTraceCollector;
  num_failed_ : Z;
  capture_thread_names_ : bool;
  (* the SignalData blocks ever allocated, by address *)
  heap : list Cell;
  (* the process-wide signal set-up *)
  g_stack_trace_signum : Z;
  state : InitState;
  sigactions : Z -> SigHandler;
  (* how often the tracer has let the other threads run, read the clock *)
  n_yield : nat;
  n_clock : nat;
  observed : list Observation
}.

(** The collaborators of the library. *)
Record Env := mkEnv {
  (* MonoTime::Now(), in nanoseconds, by the number of the reading *)
  clock : nat -> Z;
  (* each time the tracer reaches shared memory: the blocks whose handler
     takes one step just before, in order *)
  sched : nat -> list nat;
  (* rt_tgsigqueueinfo(getpid(), tid, ...) returns 0 *)
  sigqueue_ok : Z -> bool;
  (* debug::SafeToUnwindStack() on a thread *)
  SafeToUnwindStack : Z -> bool;
  (* the stack the unwinder walks on a thread *)
  unwind : Z -> unw_cursor;
  (* &CouldNotCollectStackTraceBecauseInsideLibDl *)
  sentinel : Z;
  IsBeingDebugged : bool;
  (* the entries of /proc/self/task/, [None] when opendir fails *)
  proc_self_task : option (list string);
  (* ErrnoToString(errno) after a failed opendir *)
  opendir_error : string;
  safe_strtou32 : string -> option Z;
  (* the contents of /proc/self/task/<tid>/comm *)
  comm : Z -> option string;
  (* StripTrailingNewline of gutil/strings/strip *)
  StripTrailingNewline : string -> string;
  (* std::sort of the entries *)
  std_sort : (ThreadInfo -> ThreadInfo -> bool) -> list ThreadInfo -> list ThreadInfo
}.

(** Modelled from the spec: [MonoTime::Max()] is declared in [monotime.h]; it
    is the instant no reading of the clock reaches. *)
Definition MonoTime_Max : Z := 2 ^ 63 - 1.

(** [MonoDelta::FromSeconds(1)] in nanoseconds. *)
Definition one_second : Z := 1000000000.

(** The conversion of an integer to [pid_t], a 32-bit signed integer: the
    value modulo 2^32 that lies in its range. *)
Definition to_pid_t (v : Z) : Z :=
  (v + 2147483648) mod 4294967296 - 2147483648.

(** The values of a [pid_t]. *)
Definition in_pid_t (v : Z) : Prop := -2147483648 <= v <= 2147483647.

(** ** The monad of the code: state, aborts, faults and unfinished waits *)

Inductive Outcome (A : Type) :=
| Done (a : A)
| Aborted          (* a CHECK failed *)
| Fault            (* an access to freed or unmapped memory *)
| Waiting.         (* a wait that has not returned within the fuel given *)
Arguments Done {A} a.
Arguments Aborted {A}.
Arguments Fault {A}.
Arguments Waiting {A}.

Definition M (A : Type) : Type := World -> Outcome (A * World).

Definition ret {A} (a : A) : M A := fun w => Done (a, w).

Definition bind {A B} (m : M A) (k : A -> M B) : M B :=
  fun w => match m w with
           | Done (a, w') => k a w'
           | Aborted => Aborted
           | Fault => Fault
           | Waiting => Waiting
           end.

Notation "'let*' x ':=' m 'in' k" := (bind m (fun x => k))
  (at level 10, x pattern, m at level 100, k at level 200).

Definition abort {A} : M A := fun _ => Aborted.
Definition fault {A} : M A := fun _ => Fault.
Definition waiting {A} : M A := fun _ => Waiting.
Definition get : M World := fun w => Done (w, w).
Definition modify (f : World -> World) : M unit := fun w => Done (tt, f w).

(** *** Field updates *)

Definition set_infos (f : list ThreadInfo -> list ThreadInfo) (w : World) : World :=
  mkWorld (f (infos_ w)) (collectors_ w) (num_failed_ w)
          (capture_thread_names_ w) (heap w) (g_stack_trace_signum w)
          (state w) (sigactions w) (n_yield w) (n_clock w) (observed w).

Definition set_collectors
    (f : list StackTraceCollector -> list StackTraceCollector) (w : World) : World :=
  mkWorld (infos_ w) (f (collectors_ w)) (num_failed_ w)
          (capture_thread_names_ w) (heap w) (g_stack_trace_signum w)
          (state w) (sigactions w) (n_yield w) (n_clock w) (observed w).

Definition set_num_failed (f : Z -> Z) (w : World) : World :=
  mkWorld (infos_ w) (collectors_ w) (f (num_failed_ w))
          (capture_thread_names_ w) (heap w) (g_stack_trace_signum w)
          (state w) (sigactions w) (n_yield w) (n_clock w) (observed w).

Definition set_heap (f : list Cell -> list Cell) (w : World) : World :=
  mkWorld (infos_ w) (collectors_ w) (num_failed_ w)
          (capture_thread_names_ w) (f (heap w)) (g_stack_trace_signum w)
          (state w) (sigactions w) (n_yield w) (n_clock w) (observed w).

Definition set_signal_setup (signum : Z) (st : InitState)
    (acts : Z -> SigHandler) (w : World) : World :=
  mkWorld (infos_ w) (collectors_ w) (num_failed_ w)
          (capture_thread_names_ w) (heap w) signum st acts
          (n_yield w) (n_clock w) (observed w).

Definition set_n_yield (f : nat -> nat) (w : World) : World :=
  mkWorld (infos_ w) (collectors_ w) (num_failed_ w)
          (capture_thread_names_ w) (heap w) (g_stack_trace_signum w)
          (state w) (sigactions w) (f (n_yield w)) (n_clock w) (observed w).

Definition set_n_clock (f : nat -> nat) (w : World) : World :=
  mkWorld (infos_ w) (collectors_ w) (num_failed_ w)
          (capture_thread_names_ w) (heap w) (g_stack_trace_signum w)
          (state w) (sigactions w) (n_yield w) (f (n_clock w)) (observed w).

Definition observe (o : Observation) (w : World) : World :=
  mkWorld (infos_ w) (collectors_ w) (num_failed_ w)
          (capture_thread_names_ w) (heap w) (g_stack_trace_signum w)
          (state w) (sigactions w) (n_yield w) (n_clock w) (o :: observed w).

Definition set_sig (f : SignalData -> SignalData) (c : Cell) : Cell :=
  mkCell (f (sig c)) (alloc c) (handler c).
Definition set_alloc (a : Alloc) (c : Cell) : Cell :=
  mkCell (sig c) a (handler c).
Definition set_handler (h : HandlerPc) (c : Cell) : Cell :=
  mkCell (sig c) (alloc c) h.

Definition set_queued_to_tid (v : Z) (d : SignalData) : SignalData :=
  mkSignalData (stack d) v (result_ready d).
Definition set_stack (s : nat) (d : SignalData) : SignalData :=
  mkSignalData s (queued_to_tid d) (result_ready d).
Definition set_result_ready (f : CompletionFlag) (d : SignalData) : SignalData :=
  mkSignalData (stack d) (queued_to_tid d) f.

Definition set_info_stack (s : StackTrace) (i : ThreadInfo) : ThreadInfo :=
  ThreadInfo.mk (ThreadInfo.tid i) s (ThreadInfo.status i) (ThreadInfo.thread_name i).
Definition set_info_tid (t : Z) (i : ThreadInfo) : ThreadInfo :=
  ThreadInfo.mk t (ThreadInfo.stack i) (ThreadInfo.status i) (ThreadInfo.thread_name i).
Definition set_info_status (s : Status) (i : ThreadInfo) : ThreadInfo :=
  ThreadInfo.mk (ThreadInfo.tid i) (ThreadInfo.stack i) s (ThreadInfo.thread_name i).
Definition set_info_thread_name (n : string) (i : ThreadInfo) : ThreadInfo :=
  ThreadInfo.mk (ThreadInfo.tid i) (ThreadInfo.stack i) (ThreadInfo.status i) n.

(** *** Memory accesses *)

(** A block that may be dereferenced: allocated and not freed.  A leaked
    block stays mapped. *)
Definition deref (p : nat) : M Cell :=
  fun w => match heap w !! p with
           | Some c => match alloc c with
                       | Freed => Fault
                       | _ => Done (c, w)
                       end
           | None => Fault
           end.

Definition put_cell (p : nat) (c : Cell) (w : World) : World :=
  set_heap (fun h => <[p := c]> h) w.

Definition put_info_at (i : nat) (info : ThreadInfo) (w : World) : World :=
  set_infos (fun l => <[i := info]> l) w.

Definition store (p : nat) (c : Cell) : M unit := modify (put_cell p c).

(** [new SignalData()] *)
Definition new_SignalData : M nat :=
  fun w =>
    let data := mkSignalData 0 kNotInUse (mkCompletionFlag 0) in
    Done (length (heap w), set_heap (fun h => h ++ [mkCell data Live NoSignal]) w).

(** [delete p] *)
Definition delete (p : nat) : M unit :=
  let* c := deref p in store p (set_alloc Freed c).

(** [ANNOTATE_LEAKING_OBJECT_PTR(p)]: the block is given up, not freed. *)
Definition leak (p : nat) : M unit :=
  let* c := deref p in store p (set_alloc Leaked c).

(** [infos_[i]] and [collectors_[i]] *)
Definition get_info (i : nat) : M ThreadInfo :=
  fun w => match infos_ w !! i with
           | Some info => Done (info, w)
           | None => Fault
           end.

Definition put_info (i : nat) (info : ThreadInfo) : M unit :=
  modify (put_info_at i info).

Definition get_collector (this : nat) : M StackTraceCollector :=
  fun w => match collectors_ w !! this with
           | Some c => Done (c, w)
           | None => Fault
           end.

Definition put_collector (this : nat) (c : StackTraceCollector) : M unit :=
  modify (set_collectors (fun l => <[this := c]> l)).

(** ** The signal protocol: code *)

Section Protocol.
Context (e : Env).

(** [MonoTime::Now()] *)
Definition MonoTime_Now : M Z :=
  fun w => let t := clock e (n_clock w) in
           Done (t, observe (ObsClock t) (set_n_clock S w)).

(** *** The target thread: [HandleStackTraceSignal] *)

(** [sig_data->queued_to_tid.compare_exchange_strong(expected, desired)] *)
Definition compare_exchange_strong (p : nat) (expected desired : Z) : M bool :=
  let* c := deref p in
  if queued_to_tid (sig c) =? expected
  then let* _ := store p (set_sig (set_queued_to_tid desired) c) in ret true
  else ret false.

(** [sig_data->stack->Collect(/*skip_frames=*/1)] on the thread [my_tid]. *)
Definition handler_Collect (my_tid : Z) (p : nat) : M unit :=
  let* c := deref p in
  let* info := get_info (stack (sig c)) in
  put_info (stack (sig c))
    (set_info_stack
       (Collect (SafeToUnwindStack e my_tid) (sentinel e) (unwind e my_tid) 1
                (ThreadInfo.stack info)) info).

(** [CompletionFlag::Signal] on the flag of block [p]: the store; the futex
    wake that follows changes nothing in memory. *)
Definition Signal (p : nat) : M unit :=
  let* c := deref p in
  store p (set_sig (set_result_ready (mkCompletionFlag 1)) c).

(** The handler, run without interruption on the thread [my_tid], with the
    payload pointer of the signal. *)
Definition HandleStackTraceSignal (my_tid : Z) (sig_data : option nat) : M unit :=
  match sig_data with
  | None => ret tt
  | Some p =>
      let* swapped := compare_exchange_strong p my_tid kDumpStarted in
      if negb swapped then ret tt
      else
        let* _ := handler_Collect my_tid p in
        Signal p
  end.

Definition set_pc (p : nat) (h : HandlerPc) : M unit :=
  fun w => match heap w !! p with
           | Some c => Done (tt, put_cell p (set_handler h c) w)
           | None => Done (tt, w)
           end.

(** One step of the handler run that belongs to block [p]: the same three
    actions, one at a time, so that the tracer can run in between. *)
Definition handler_step (p : nat) : M unit :=
  fun w =>
    match heap w !! p with
    | None => Done (tt, w)
    | Some c =>
        match handler c with
        | Pending my_tid =>
            (let* swapped := compare_exchange_strong p my_tid kDumpStarted in
             set_pc p (if swapped then Collecting my_tid else Returned)) w
        | Collecting my_tid =>
            (let* _ := handler_Collect my_tid p in set_pc p (Signalling my_tid)) w
        | Signalling my_tid =>
            (let* _ := Signal p in set_pc p Returned) w
        | NoSignal | Returned => Done (tt, w)
        end
    end.

Fixpoint run_handlers (ps : list nat) : M unit :=
  match ps with
  | [] => ret tt
  | p :: ps' => let* _ := handler_step p in run_handlers ps'
  end.

(** The other threads run: whatever the schedule lets the handlers do before
    the tracer's next access to shared memory. *)
Definition yield : M unit :=
  fun w => run_handlers (sched e (n_yield w)) (set_n_yield S w).

(** *** [CompletionFlag], on the flag of block [p] *)

(** The tracer's atomic load of [complete_]. *)
Definition load_complete (p : nat) : M bool :=
  let* _ := yield in
  let* c := deref p in
  let b := negb (complete_ (result_ready (sig c)) =? 0) in
  let* _ := modify (observe (ObsFlag b)) in
  ret b.

(** [sys_futex(&complete_, FUTEX_WAIT, 0, &ts)]: returns when the word is not
    0, on a wake-up or when the time is over; what the other threads do
    meanwhile they do before the load that follows. *)
Definition sys_futex_wait (p : nat) (rem : Z) : M unit := ret tt.

Fixpoint WaitUntil_loop (fuel : nat) (p : nat) (deadline now : Z) : M bool :=
  if now <? deadline then
    match fuel with
    | O => waiting
    | S fuel' =>
        let rem := deadline - now in
        let* _ := sys_futex_wait p rem in
        let* c := load_complete p in
        if c then ret true
        else
          let* now := MonoTime_Now in
          WaitUntil_loop fuel' p deadline now
    end
  else load_complete p.

Definition WaitUntil (fuel : nat) (p : nat) (deadline : Z) : M bool :=
  let* c := load_complete p in
  if c then ret true
  else
    let* now := MonoTime_Now in
    WaitUntil_loop fuel p deadline now.

(** The tracer's [sig_data_->queued_to_tid.exchange(desired)]. *)
Definition exchange (p : nat) (desired : Z) : M Z :=
  let* _ := yield in
  let* d := deref p in
  let* _ := store p (set_sig (set_queued_to_tid desired) d) in
  ret (queued_to_tid (sig d)).

(** *** Installing the handler *)

(** [InitSignalHandlerUnlocked(signum)], with every [sigaction] taken to
    succeed: the model is for signal numbers [sigaction] takes
    ([sigaction_accepts] below); for the others the code aborts at its
    [PCHECK] or [CHECK_ERR] where the model goes on. *)
Definition InitSignalHandlerUnlocked (signum : Z) : M bool :=
  fun w =>
    let acts := sigactions w in
    let g := g_stack_trace_signum w in
    let acts :=
      if negb (signum =? g) &&
         match state w with INITIALIZED => true | _ => false end
      then match acts g with
           | OurHandler => fun n => if n =? g then SIG_DFL else acts n
           | _ => acts
           end
      else acts in
    let '(g, st) :=
      if negb (signum =? g) then (signum, UNINITIALIZED) else (g, state w) in
    let '(st, acts) :=
      match st with
      | UNINITIALIZED =>
          match acts g with
          | SIG_DFL | SIG_IGN =>
              (INITIALIZED, fun n => if n =? g then OurHandler else acts n)
          | _ => (INIT_ERROR, acts)
          end
      | _ => (st, acts)
      end in
    Done (match st with INITIALIZED => true | _ => false end,
          set_signal_setup g st acts w).

(** [syscall(SYS_rt_tgsigqueueinfo, getpid(), tid, signum, &info) == 0]: when
    it succeeds the signal is pending on thread [tid] with [data] as payload,
    and its delivery runs [HandleStackTraceSignal].  The model is for a world
    in which the handler is installed for the library's signal whenever the
    state is INITIALIZED ([signal_ready] below), as
    [InitSignalHandlerUnlocked] leaves it, and for a [tid] that is a value
    of [pid_t], which the system call takes. *)
Definition rt_tgsigqueueinfo (tid : Z) (data : nat) : M bool :=
  if sigqueue_ok e tid
  then let* _ := set_pc data (Pending tid) in ret true
  else ret false.

(** *** [StackTraceCollector], the object [collectors_[this]] *)

Definition RevokeSigData (fuel : nat) (this : nat) : M bool :=
  let* c := get_collector this in
  match sig_data_ c with
  | None => fault
  | Some p =>
      let* old_val := exchange p kNotInUse in
      if old_val =? tid_ c then
        let* _ := leak p in
        let* _ := put_collector this (mkCollector (tid_ c) None) in
        ret false
      else if negb (old_val =? kDumpStarted) then abort
      else
        let* done := WaitUntil fuel p MonoTime_Max in
        if negb done then abort
        else
          let* _ := delete p in
          let* _ := put_collector this (mkCollector (tid_ c) None) in
          ret true
  end.

(** [~StackTraceCollector] *)
Definition destroy_collector (fuel : nat) (this : nat) : M unit :=
  let* c := get_collector this in
  match sig_data_ c with
  | Some _ => let* _ := RevokeSigData fuel this in ret tt
  | None => ret tt
  end.

Definition TriggerAsync (this : nat) (tid : Z) (stack : nat) : M Status :=
  let* c := get_collector this in
  if negb (match sig_data_ c with None => true | Some _ => false end
           && (tid_ c =? 0))
  then abort
  else
    let* w := get in
    let* installed := InitSignalHandlerUnlocked (g_stack_trace_signum w) in
    if negb installed then
      ret (mkStatus kNotSupported
             "unable to take thread stack: signal handler unavailable")
    else
      let* data := new_SignalData in
      let* d := deref data in
      let* _ := store data (set_sig (set_queued_to_tid tid) d) in
      let* d := deref data in
      let* _ := store data (set_sig (set_stack stack) d) in
      let* sent := rt_tgsigqueueinfo tid data in
      if negb sent then
        let* _ := delete data in
        ret (mkStatus kNotFound
               "unable to deliver signal: process may have exited")
      else
        let* _ := put_collector this (mkCollector tid (Some data)) in
        ret Status_OK.

Definition AwaitCollection (fuel : nat) (this : nat) (deadline : Z) : M Status :=
  let* c := get_collector this in
  match sig_data_ c with
  | None => abort
  | Some p =>
      let* _ := WaitUntil fuel p deadline in
      let* completed := RevokeSigData fuel this in
      if negb completed then
        ret (mkStatus kTimedOut
               "thread did not respond: maybe it is blocking signals")
      else ret Status_OK
  end.

(** ** The snapshot *)

(** [tids->push_back(tid)] stores the [uint32_t] that [safe_strtou32] has
    parsed in a vector of [pid_t]: the value is converted to a 32-bit signed
    integer on the way. *)
Definition ListThreads (tids : list Z) : Status * list Z :=
  match proc_self_task e with
  | None =>
      (mkStatus kIOError ("failed to open task dir: " ++ opendir_error e), tids)
  | Some entries =>
      (Status_OK,
       fold_left
         (fun tids d_name =>
            match d_name with
            | String "." _ => tids
            | _ => match safe_strtou32 e d_name with
                   | Some tid => tids ++ [to_pid_t tid]
                   | None => tids
                   end
            end)
         entries tids)
  end.

Definition ThreadInfo_new : ThreadInfo :=
  ThreadInfo.mk 0 StackTrace_new Status_OK "".

Definition update_info (i : nat) (f : ThreadInfo -> ThreadInfo) : M unit :=
  let* info := get_info i in put_info i (f info).

(** [collectors_.clear()]: every collector is destroyed, then the vector is
    empty. *)
Fixpoint destroy_collectors (fuel : nat) (n : nat) (i : nat) : M unit :=
  match n with
  | O => ret tt
  | S n' =>
      let* _ := destroy_collector fuel i in
      destroy_collectors fuel n' (S i)
  end.

Definition collectors_clear (fuel : nat) : M unit :=
  let* w := get in
  let* _ := destroy_collectors fuel (length (collectors_ w)) 0 in
  modify (set_collectors (fun _ => [])).

Fixpoint trigger_loop (n : nat) (tids : list Z) (i : nat) : M unit :=
  match n with
  | O => ret tt
  | S n' =>
      let tid := default 0 (tids !! i) in
      let* _ := update_info i (set_info_tid tid) in
      let* s := TriggerAsync i tid i in
      let* _ := update_info i (set_info_status s) in
      trigger_loop n' tids (S i)
  end.

Fixpoint names_loop (n : nat) (i : nat) : M unit :=
  match n with
  | O => ret tt
  | S n' =>
      let* info := get_info i in
      let* _ :=
        if negb (ok (ThreadInfo.status info)) then ret tt
        else
          match comm e (ThreadInfo.tid info) with
          | None => update_info i (set_info_thread_name "<unknown name>")
          | Some buf =>
              update_info i (set_info_thread_name (StripTrailingNewline e buf))
          end in
      names_loop n' (S i)
  end.

Fixpoint await_loop (fuel : nat) (n : nat) (deadline : Z) (i : nat) : M unit :=
  match n with
  | O => ret tt
  | S n' =>
      let* info := get_info i in
      (* Status::AndThen: the continuation runs when the status is OK *)
      let* s := if ok (ThreadInfo.status info)
                then AwaitCollection fuel i deadline
                else ret (ThreadInfo.status info) in
      let* _ := update_info i (set_info_status s) in
      let* _ :=
        if negb (ok s) then
          let* _ := modify (set_num_failed (fun n => n + 1)) in
          let* _ := yield in
          let* info := get_info i in
          if HasCollected (ThreadInfo.stack info) then abort else ret tt
        else ret tt in
      await_loop fuel n' deadline (S i)
  end.

Definition SnapshotAllStacks (fuel : nat) : M Status :=
  if IsBeingDebugged e then
    ret (mkStatus kIncomplete
           "not collecting stack trace since debugger or strace is attached")
  else
    let '(s, tids) := ListThreads [] in
    if negb (ok s) then ret (CloneAndPrepend s "could not list threads")
    else
      let* _ := collectors_clear fuel in
      let* _ := modify (set_collectors (fun _ =>
                  replicate (length tids) (mkCollector 0 None))) in
      let* _ := modify (set_infos (fun _ =>
                  replicate (length tids) ThreadInfo_new)) in
      let* _ := trigger_loop (length tids) tids 0 in
      let* w := get in
      let* _ := if capture_thread_names_ w
                then names_loop (length (infos_ w)) 0 else ret tt in
      let* _ := modify (set_num_failed (fun _ => 0)) in
      let* now := MonoTime_Now in
      let deadline := now + one_second in
      let* w := get in
      let* _ := await_loop fuel (length (infos_ w)) deadline 0 in
      let* _ := collectors_clear fuel in
      let* _ := yield in
      let* _ := modify (set_infos (std_sort e (fun a b =>
                  LessThan (ThreadInfo.stack a) (ThreadInfo.stack b)))) in
      ret Status_OK.

End Protocol.

(** ** The steps of a handler, as a relation on worlds *)

Section HandlerSteps.
Context (e : Env).

Inductive handler_trans (q : nat) (w : World) : World -> Prop :=
| HT_absent :
    heap w !! q = None -> handler_trans q w w
| HT_idle c :
    heap w !! q = Some c ->
    handler c = NoSignal \/ handler c = Returned ->
    handler_trans q w w
| HT_cas_won c t :
    heap w !! q = Some c -> handler c = Pending t -> alloc c <> Freed ->
    queued_to_tid (sig c) = t ->
    handler_trans q w
      (put_cell q (mkCell (set_queued_to_tid kDumpStarted (sig c)) (alloc c)
                          (Collecting t)) w)
| HT_cas_lost c t :
    heap w !! q = Some c -> handler c = Pending t -> alloc c <> Freed ->
    queued_to_tid (sig c) <> t ->
    handler_trans q w (put_cell q (set_handler Returned c) w)
| HT_collect c t info :
    heap w !! q = Some c -> handler c = Collecting t -> alloc c <> Freed ->
    infos_ w !! stack (sig c) = Some info ->
    handler_trans q w
      (put_cell q (set_handler (Signalling t) c)
         (put_info_at (stack (sig c))
            (set_info_stack
               (Collect (SafeToUnwindStack e t) (sentinel e) (unwind e t) 1
                        (ThreadInfo.stack info)) info) w))
| HT_signal c t :
    heap w !! q = Some c -> handler c = Signalling t -> alloc c <> Freed ->
    handler_trans q w
      (put_cell q (mkCell (set_result_ready (mkCompletionFlag 1) (sig c))
                          (alloc c) Returned) w).

(** Any number of handler steps, in the order of a schedule. *)
Inductive handlers_trans : list nat -> World -> World -> Prop :=
| HTs_nil w : handlers_trans [] w w
| HTs_cons q qs w w1 w2 :
    handler_trans q w w1 -> handlers_trans qs w1 w2 ->
    handlers_trans (q :: qs) w w2.

End HandlerSteps.

(** ** What the handlers can do to the memory the tracer looks at *)

(** A handler only moves forward, on the thread it started on. *)
Definition pc_le (h h' : HandlerPc) : Prop :=
  match h, h' with
  | NoSignal, NoSignal => True
  | Pending t, Pending t' | Pending t, Collecting t' | Pending t, Signalling t'
  | Collecting t, Collecting t' | Collecting t, Signalling t'
  | Signalling t, Signalling t' => t = t'
  | Pending _, Returned | Collecting _, Returned | Signalling _, Returned
  | Returned, Returned => True
  | _, _ => False
  end.

Definition flag_of (c : Cell) : Z := complete_ (result_ready (sig c)).
Definition queued_of (c : Cell) : Z := queued_to_tid (sig c).

(** A block after some steps of its handler: it is neither freed nor moved,
    the handler has advanced, [queued_to_tid] changed only through the CAS
    of a pending handler, the flag only from 0 to 1. *)
Definition cell_le (c c' : Cell) : Prop :=
  alloc c' = alloc c /\
  stack (sig c') = stack (sig c) /\
  pc_le (handler c) (handler c') /\
  (queued_of c' = queued_of c \/
   (handler c = Pending (queued_of c) /\ queued_of c' = kDumpStarted)) /\
  (flag_of c' = flag_of c \/ flag_of c' = 1).

(** An entry of [infos_] after some handler steps: only [stack] may differ. *)
Definition info_le (i i' : ThreadInfo) : Prop :=
  ThreadInfo.tid i' = ThreadInfo.tid i /\
  ThreadInfo.status i' = ThreadInfo.status i /\
  ThreadInfo.thread_name i' = ThreadInfo.thread_name i.

(** The world after some handler steps. *)
Definition world_le (w w' : World) : Prop :=
  collectors_ w' = collectors_ w /\
  num_failed_ w' = num_failed_ w /\
  capture_thread_names_ w' = capture_thread_names_ w /\
  g_stack_trace_signum w' = g_stack_trace_signum w /\
  state w' = state w /\
  sigactions w' = sigactions w /\
  n_yield w' = n_yield w /\
  n_clock w' = n_clock w /\
  observed w' = observed w /\
  Forall2 cell_le (heap w) (heap w') /\
  Forall2 info_le (infos_ w) (infos_ w').

(** ** What a wait has seen *)

(** Whether a run of observations, oldest first, holds a load of the flag
    that gave 1 before any reading of the clock at or past the deadline. *)
Fixpoint seen_before_deadline (deadline : Z) (obs : list Observation) : bool :=
  match obs with
  | [] => false
  | ObsFlag true :: _ => true
  | ObsFlag false :: obs' => seen_before_deadline deadline obs'
  | ObsClock t :: obs' =>
      if deadline <=? t then false else seen_before_deadline deadline obs'
  end.

(** The observations of the loop of [WaitUntil] entered with the reading
    [now], oldest first, and the value returned. *)
Inductive loop_obs (deadline : Z) : Z -> bool -> list Observation -> Prop :=
| LO_timeout now b :
    deadline <= now -> loop_obs deadline now b [ObsFlag b]
| LO_seen now :
    now < deadline -> loop_obs deadline now true [ObsFlag true]
| LO_again now t b obs :
    now < deadline -> loop_obs deadline t b obs ->
    loop_obs deadline now b (ObsFlag false :: ObsClock t :: obs).

Inductive wait_obs (deadline : Z) : bool -> list Observation -> Prop :=
| WO_immediate : wait_obs deadline true [ObsFlag true]
| WO_loop t b obs :
    loop_obs deadline t b obs ->
    wait_obs deadline b (ObsFlag false :: ObsClock t :: obs).

(** An environment for examples: a clock and a schedule, one live thread per
    positive id, nothing unsafe to unwind, two frames below every handler. *)
Definition example_env (clk : nat -> Z) (sch : nat -> list nat) : Env :=
  mkEnv clk sch (fun tid => 0 <? tid) (fun _ => true)
        (fun tid => [Some 4198401; Some 4198417; Some 4198433; Some (4198449 + tid)])
        4198400 false (Some ["."; ".."; "7"; "8"]%string) ""
        (fun s => if String.eqb s "7" then Some 7
                  else if String.eqb s "8" then Some 8 else None)
        (fun _ => None) (fun s => s) (fun _ l => l).

Definition example_world (infos : list ThreadInfo)
    (collectors : list StackTraceCollector) (cells : list Cell) : World :=
  mkWorld infos collectors 0 false cells 12 INITIALIZED
          (fun n => if n =? 12 then OurHandler else SIG_DFL) 0 0 [].

(** Two worlds that differ at most in the signal set-up. *)
Definition same_memory (w w' : World) : Prop :=
  infos_ w' = infos_ w /\ collectors_ w' = collectors_ w /\
  num_failed_ w' = num_failed_ w /\
  capture_thread_names_ w' = capture_thread_names_ w /\
  heap w' = heap w /\ n_yield w' = n_yield w /\ n_clock w' = n_clock w /\
  observed w' = observed w.

(** The block [TriggerAsync] hands to the signal, once the signal is queued. *)
Definition queued_cell (tid : Z) (stack : nat) : Cell :=
  mkCell (mkSignalData stack tid (mkCompletionFlag 0)) Live (Pending tid).

(** The block [TriggerAsync] frees when the signal could not be queued. *)
Definition undelivered_cell (tid : Z) (stack : nat) : Cell :=
  mkCell (mkSignalData stack tid (mkCompletionFlag 0)) Freed NoSignal.

Definition push_cell (c : Cell) (w : World) : World :=
  set_heap (fun h => h ++ [c]) w.

Definition put_collector_at (this : nat) (c : StackTraceCollector) (w : World)
  : World :=
  set_collectors (fun l => <[this := c]> l) w.

(** The memory after the tracer has waited: as after handler steps, with the
    counters of the environment and the record of observations moved on. *)
Definition mem_le (w w' : World) : Prop :=
  collectors_ w' = collectors_ w /\
  num_failed_ w' = num_failed_ w /\
  capture_thread_names_ w' = capture_thread_names_ w /\
  g_stack_trace_signum w' = g_stack_trace_signum w /\
  state w' = state w /\
  sigactions w' = sigactions w /\
  (n_yield w <= n_yield w')%nat /\
  (n_clock w <= n_clock w')%nat /\
  Forall2 cell_le (heap w) (heap w') /\
  Forall2 info_le (infos_ w) (infos_ w').

(** ** The protocol invariant *)

(** The states a block goes through, by who may still touch it: the letters
    are the transitions of the comment above [SignalData]. *)
Definition cell_ok (c : Cell) : Prop :=
  match alloc c, handler c with
  | Live, Pending t =>                   (* after (A) *)
      0 < t /\ queued_of c = t /\ flag_of c = 0
  | Live, Collecting t | Live, Signalling t =>   (* after (B), maybe (E) *)
      0 < t /\ (queued_of c = kDumpStarted \/ queued_of c = kNotInUse) /\
      flag_of c = 0
  | Live, Returned =>                    (* after (C) or (G), maybe (F) *)
      (queued_of c = kDumpStarted \/ queued_of c = kNotInUse) /\ flag_of c = 1
  | Leaked, Pending t =>                 (* after (D), signal still pending *)
      0 < t /\ queued_of c = kNotInUse
  | Leaked, Returned =>                  (* after (D), the handler has left *)
      queued_of c = kNotInUse
  | Freed, NoSignal | Freed, Returned => True
  | _, _ => False
  end.

(** The handler has written the destination buffer. *)
Definition past_collect (h : HandlerPc) : Prop :=
  match h with
  | Signalling _ | Returned => True
  | _ => False
  end.

(** How many steps a handler that won its CAS has still to make. *)
Definition steps_left (h : HandlerPc) : nat :=
  match h with
  | Collecting _ => 2
  | Signalling _ => 1
  | _ => 0
  end.

(** The invariant of a snapshot in progress.  [busy] names the block, if any,
    that [RevokeSigData] has taken back from a handler which is still at
    work. *)
Definition Inv (e : Env) (busy : option nat) (w : World) : Prop :=
  (* every block is in a state of the protocol *)
  Forall cell_ok (heap w) /\
  (* a block in use belongs to the collector of its destination *)
  (forall p c, heap w !! p = Some c -> alloc c = Live ->
     exists col, collectors_ w !! stack (sig c) = Some col /\
                 sig_data_ col = Some p) /\
  (* the block of a collector is in use, for that collector's thread *)
  (forall i col p, collectors_ w !! i = Some col -> sig_data_ col = Some p ->
     exists c, heap w !! p = Some c /\ alloc c = Live /\ stack (sig c) = i /\
               0 < tid_ col /\
               (forall t, handler c = Pending t -> t = tid_ col)) /\
  (* a buffer that holds frames was written by the handler of its collector,
     and once the collector has let go of the block its status is OK *)
  (forall i info, infos_ w !! i = Some info ->
     num_frames_ (ThreadInfo.stack info) <> 0 ->
     match collectors_ w !! i with
     | Some (mkCollector _ (Some p)) =>
         exists c, heap w !! p = Some c /\ past_collect (handler c)
     | _ => ok (ThreadInfo.status info) = true
     end) /\
  (* a handler that won its CAS has been scheduled *)
  (forall p c, heap w !! p = Some c -> (0 < steps_left (handler c))%nat ->
     exists k, (k < n_yield w)%nat /\ In p (sched e k)) /\
  (length (collectors_ w) <= length (infos_ w))%nat /\
  (* only the busy block is in use with [kNotInUse] in it *)
  (forall p c, heap w !! p = Some c -> alloc c = Live ->
     queued_of c = kNotInUse -> busy = Some p) /\
  (* an entry that has failed has no block *)
  (forall i info col, infos_ w !! i = Some info ->
     collectors_ w !! i = Some col ->
     ok (ThreadInfo.status info) = false -> sig_data_ col = None).

(** What is assumed of the collaborators. *)
Record EnvOk (e : Env) : Prop := mkEnvOk {
  (* the clock does not reach MonoTime::Max() and does not go back *)
  clock_below_max : forall n, clock e n < MonoTime_Max;
  clock_monotone : forall a b, (a <= b)%nat -> clock e a <= clock e b;
  (* a thread that has run its handler once gets to run it again *)
  sched_fair : forall k p, In p (sched e k) ->
                           exists j, (k < j)%nat /\ In p (sched e j);
  (* signals can only be queued to threads, whose ids are positive *)
  tids_positive : forall tid, sigqueue_ok e tid = true -> 0 < tid;
  (* std::sort rearranges its range *)
  sort_permutes : forall lt l, Permutation (std_sort e lt l) l
}.

(** A computation that takes fuel returns, with the same result, for every
    amount of fuel from some amount on. *)
Definition terminates {A} (m : nat -> M A) (w : World)
    (Q : A -> World -> Prop) : Prop :=
  exists F a w', Q a w' /\ forall fuel, (F <= fuel)%nat -> m fuel w = Done (a, w').

(** The entries whose collection failed. *)
Definition failed (info : ThreadInfo) : bool := negb (ok (ThreadInfo.status info)).

Definition failed_count (l : list ThreadInfo) : Z :=
  Z.of_nat (length (List.filter failed l)).

(** A block a collector holds. *)
Definition held (w : World) (p : nat) : Prop :=
  exists i col, collectors_ w !! i = Some col /\ sig_data_ col = Some p.

(** The block [RevokeSigData] has taken back from a handler at work: in use,
    with [kNotInUse] in it, its handler past the CAS. *)
Definition taken_back (c : Cell) : Prop :=
  alloc c = Live /\ queued_of c = kNotInUse.

(** What a collection leaves of the entries: their ids, statuses and names,
    the failure counter and the number of collectors. *)
Definition snap_le (w w' : World) : Prop :=
  Forall2 info_le (infos_ w) (infos_ w') /\
  num_failed_ w' = num_failed_ w /\
  capture_thread_names_ w' = capture_thread_names_ w /\
  length (collectors_ w') = length (collectors_ w).

(** What a snapshot stores in the entry of a thread: OK or the time-out of
    [AwaitCollection] when the signal was queued to that thread, the error of
    the queuing when it was not, or the error of the handler's set-up. *)
Definition recorded (e : Env) (info : ThreadInfo) : Prop :=
  let s := ThreadInfo.status info in
  let queued := sigqueue_ok e (ThreadInfo.tid info) in
  (s = Status_OK /\ queued = true) \/
  (s = mkStatus kTimedOut
         "thread did not respond: maybe it is blocking signals" /\
   queued = true) \/
  (s = mkStatus kNotFound
         "unable to deliver signal: process may have exited" /\
   queued = false) \/
  s = mkStatus kNotSupported
        "unable to take thread stack: signal handler unavailable".

(** A collector whose entry is still OK holds the block of its signal. *)
Definition armed (w : World) (j : nat) : Prop :=
  forall info col, infos_ w !! j = Some info -> collectors_ w !! j = Some col ->
    ok (ThreadInfo.status info) = true -> is_Some (sig_data_ col).

(** The snapshot after its first loop: an entry per thread id, each with the
    outcome of [TriggerAsync], and a block wherever that outcome is OK. *)
Definition triggered (e : Env) (tids : list Z) (w : World) : Prop :=
  Inv e None w /\
  length (collectors_ w) = length tids /\
  ThreadInfo.tid <$> infos_ w = tids /\
  Forall (recorded e) (infos_ w) /\
  (forall j, armed w j).

(** The snapshot in its last loop, before entry [i]: the collectors below [i]
    hold nothing any more, and the failures below [i] are counted. *)
Definition awaited (e : Env) (tids : list Z) (i : nat) (w : World) : Prop :=
  Inv e None w /\
  length (collectors_ w) = length tids /\
  ThreadInfo.tid <$> infos_ w = tids /\
  Forall (recorded e) (infos_ w) /\
  (forall j, (i <= j)%nat -> armed w j) /\
  (forall j col, (j < i)%nat -> collectors_ w !! j = Some col ->
                 sig_data_ col = None) /\
  num_failed_ w = failed_count (take i (infos_ w)).

(** Environments for examples of a snapshot of the threads 7 and 8: a clock
    that reads a second more each time and then stands still, and a schedule
    on which no thread, or only the thread of the first block, runs its
    handler. *)
Definition slow_clock (n : nat) : Z := Z.of_nat (Nat.min n 2) * one_second.

Definition blocked_env : Env := example_env slow_clock (fun _ => []).

Definition one_blocked_env : Env := example_env slow_clock (fun _ => [0%nat]).

(** The id, the code of the status and the number of frames of an entry. *)
Definition entry_summary (info : ThreadInfo) : Z * StatusCode * Z :=
  (ThreadInfo.tid info, code (ThreadInfo.status info),
   num_frames_ (ThreadInfo.stack info)).

(** ** The rest of the stack buffer *)

(** The instruction pointers the unwinder yields, innermost first, up to the
    first frame whose [unw_get_reg] fails. *)
Fixpoint unwound (cursor : unw_cursor) : list Z :=
  match cursor with
  | Some ip :: callers => ip :: unwound callers
  | _ => []
  end.

(** Modelled from the spec: [Equals] is defined in [debug-util.h]; two
    buffers are equal when they hold the same number of frames and their
    defined prefixes hold the same frames. *)
Definition Equals (this s : StackTrace) : bool :=
  (num_frames_ s =? num_frames_ this) &&
  bool_decide (frames_range this (num_frames_ this) =
               frames_range s (num_frames_ this)).

Section HashCode.
(** [util_hash::CityHash64(buf, len)] of gutil, by the bytes it is given. *)
Variable CityHash64 : list Z -> Z.

(** The eight bytes a pointer takes in memory, least significant first. *)
Definition pointer_bytes (a : Z) : list Z :=
  map (fun k => Z.land (Z.shiftr a (8 * Z.of_nat k)) 255) (seq 0 8).

(** The hash of the first [sizeof(frames_[0]) * num_frames_] bytes of
    [frames_]. *)
Definition HashCode (st : StackTrace) : Z :=
  CityHash64 (take (8 * Z.to_nat (num_frames_ st))
                   (flat_map pointer_bytes (frames_ st))).
End HashCode.

Section LogFormat.
(** The text [printf] gives for a ["%*p"] conversion: width, pointer. *)
Variable printf_pointer : Z -> Z -> string.

(** ["    @ %*p\n"] *)
Definition log_format_line (pc : Z) : string :=
  ("    @ " ++ printf_pointer kPrintfPointerFieldWidth pc ++ newline)%string.

Fixpoint ToLogFormatHexString_loop (n : nat) (st : StackTrace) (i : Z)
    (ret : string) : string :=
  match n with
  | O => ret
  | S n' =>
      let pc := frame_at st i in
      ToLogFormatHexString_loop n' st (i + 1) (ret ++ log_format_line pc)
  end.

Definition ToLogFormatHexString (st : StackTrace) : string :=
  ToLogFormatHexString_loop (Z.to_nat (num_frames_ st)) st 0 "".
End LogFormat.

(** *** The stack of the calling thread *)

Section CurrentStack.
(** The calling thread as [Collect] finds it: the answer of
    [debug::SafeToUnwindStack], the address of the sentinel function and the
    stack the unwinder walks. *)
Variable safe : bool.
Variable f_ptr : Z.
Variable cursor : unw_cursor.
(** [StackTrace trace;] sets [num_frames_] to 0 and leaves the array as the
    memory was: [garbage]. *)
Variable garbage : list Z.

Definition StackTrace_local : StackTrace := mkStackTrace garbage 0.

(** Modelled from the spec: the [flags] of [StringifyToHex] default to 0 in
    [debug-util.h]. *)
Definition HexStackTraceToString (size : Z) : writes :=
  let trace := StackTrace_local in
  let trace := Collect safe f_ptr cursor 1 trace in
  StringifyToHex trace size 0.

(** [char buf[1024]; HexStackTraceToString(buf, 1024); return buf;] *)
Definition GetStackTraceHex : list ascii :=
  c_str (written (HexStackTraceToString 1024)).

Definition GetLogFormatStackTraceHex (printf_pointer : Z -> Z -> string)
  : string :=
  let trace := StackTrace_local in
  let trace := Collect safe f_ptr cursor 1 trace in
  ToLogFormatHexString printf_pointer trace.
End CurrentStack.

(** ** Groups of equal stacks *)

(** [ArrayView<ThreadInfo>(&infos_[start], n)] *)
Definition ArrayView (infos : list ThreadInfo) (start n : nat)
  : list ThreadInfo :=
  take n (drop start infos).

(** The two loops of [VisitGroups], one round for each [++group_end]: [n] is
    the distance from [group_end] to [infos_.end()], and [a] what the visitor
    has made of the groups it was given. *)
Fixpoint VisitGroups_loop {A} (visitor : list ThreadInfo -> A -> A)
    (infos : list ThreadInfo) (n : nat) (group_start group_end : nat) (a : A)
  : A :=
  match n with
  | O => a
  | S n' =>
      let group_end := S group_end in
      if negb (group_end =? length infos)%nat &&
         match infos !! group_end, infos !! group_start with
         | Some x, Some s => Equals (ThreadInfo.stack x) (ThreadInfo.stack s)
         | _, _ => false
         end
      then VisitGroups_loop visitor infos n' group_start group_end a
      else
        let a := visitor (ArrayView infos group_start
                                    (group_end - group_start)) a in
        VisitGroups_loop visitor infos n' group_end group_end a
  end.

Definition VisitGroups {A} (visitor : list ThreadInfo -> A -> A)
    (infos : list ThreadInfo) (a : A) : A :=
  VisitGroups_loop visitor infos (length infos) 0 0 a.

(** The groups a visitor is given, in the order of the calls. *)
Definition groups (infos : list ThreadInfo) : list (list ThreadInfo) :=
  VisitGroups (fun g gs => gs ++ [g]) infos [].

(** ** Setting the signal *)

(** [SetStackTraceSignal]; the spin lock it holds meanwhile keeps other
    callers out and changes nothing else. *)
Definition SetStackTraceSignal (signum : Z) : M Status :=
  let* installed := InitSignalHandlerUnlocked signum in
  if negb installed
  then ret (mkStatus kInvalidArgument "unable to install signal handler")
  else ret Status_OK.

(** The handler is installed for the signal the library uses, and for no
    other signal. *)
Definition signal_setup_ok (w : World) : Prop :=
  forall n, sigactions w n = OurHandler <->
            state w = INITIALIZED /\ n = g_stack_trace_signum w.

(** The signal numbers [sigaction] takes, to report the action and to set a
    handler: 1 to 64, without SIGKILL (9) and SIGSTOP (19), whose action
    cannot be changed, and without the two signals (32, 33) the C library
    keeps for its threads.  For any other number a [sigaction] of
    [InitSignalHandlerUnlocked] fails and the code aborts at its [PCHECK]
    or [CHECK_ERR]. *)
Definition sigaction_accepts (signum : Z) : Prop :=
  1 <= signum <= 64 /\ signum <> 9 /\ signum <> 19 /\
  signum <> 32 /\ signum <> 33.

(** Two worlds with the same signal set-up. *)
Definition same_setup (w w' : World) : Prop :=
  g_stack_trace_signum w' = g_stack_trace_signum w /\
  state w' = state w /\ sigactions w' = sigactions w.

(** The signal set-up as the library leaves it: the handler is installed for
    the library's signal exactly when the state says so, and a signal that
    is in use or still to be tried is one [sigaction] takes.  In such a world
    the signal [TriggerAsync] queues runs [HandleStackTraceSignal]. *)
Definition signal_ready (w : World) : Prop :=
  signal_setup_ok w /\
  (state w <> INIT_ERROR -> sigaction_accepts (g_stack_trace_signum w)).

(** The runs of a list of entries, by recursion on the list: [cur] is the
    run in progress, which [s] began, and [l] the entries still to come. *)
Fixpoint runs_from (cur : list ThreadInfo) (s : ThreadInfo)
    (l : list ThreadInfo) : list (list ThreadInfo) :=
  match l with
  | [] => [cur]
  | x :: l' =>
      if Equals (ThreadInfo.stack x) (ThreadInfo.stack s)
      then runs_from (cur ++ [x]) s l'
      else cur :: runs_from [x] x l'
  end.

Definition runs (l : list ThreadInfo) : list (list ThreadInfo) :=
  match l with
  | [] => []
  | s :: l' => runs_from [s] s l'
  end.

(** ** What a collection delivers *)

(** A buffer as the handler of thread [tid] leaves it: [Collect(1)] run on
    that thread, over whatever the buffer held. *)
Definition collected (e : Env) (tid : Z) (st : StackTrace) : Prop :=
  exists st0,
    st = Collect (SafeToUnwindStack e tid) (sentinel e) (unwind e tid) 1 st0.

(** The handler of a block a collector holds runs on the thread the
    collector names, and once it is past [Collect] the destination of the
    collector holds what it collected. *)
Definition Traced (e : Env) (w : World) : Prop :=
  forall i col p c,
    collectors_ w !! i = Some col -> sig_data_ col = Some p ->
    heap w !! p = Some c ->
    (forall t, handler c = Collecting t \/ handler c = Signalling t ->
               t = tid_ col) /\
    (past_collect (handler c) ->
     exists info, infos_ w !! i = Some info /\
                  collected e (tid_ col) (ThreadInfo.stack info)).

(** Every collector that holds a block names the thread of its entry. *)
Definition paired (w : World) : Prop :=
  forall j info col p,
    infos_ w !! j = Some info -> collectors_ w !! j = Some col ->
    sig_data_ col = Some p -> tid_ col = ThreadInfo.tid info.

(** The entries of a snapshot whose collection is over, those before [i]:
    an entry that is OK holds the stack of its own thread. *)
Definition delivered (e : Env) (i : nat) (w : World) : Prop :=
  Traced e w /\ paired w /\
  forall j info,
    (j < i)%nat -> infos_ w !! j = Some info ->
    ok (ThreadInfo.status info) = true ->
    collected e (ThreadInfo.tid info) (ThreadInfo.stack info).

Section ThreadStack.
Context (e : Env).

(** [GetThreadStack(tid, stack)].  The collector [c] is a local of the
    function: it is built in the slot [c] of the collectors and destroyed on
    each way out, as the end of its scope does. *)
Definition GetThreadStack (fuel : nat) (c : nat) (tid : Z) (stack : nat)
  : M Status :=
  let* _ := put_collector c (mkCollector 0 None) in
  let* s := TriggerAsync e c tid stack in
  if negb (ok s) then
    let* _ := destroy_collector e fuel c in ret s
  else
    let* now := MonoTime_Now e in
    let* s := AwaitCollection e fuel c (now + one_second) in
    if negb (ok s) then
      let* _ := destroy_collector e fuel c in ret s
    else
      let* _ := destroy_collector e fuel c in ret Status_OK.

End ThreadStack.

(** What a wait of the tracer keeps, from [w] to [w']: the invariant, the
    tie between handlers and destinations, the memory up to handler steps,
    and every entry whose collector holds no block. *)
Definition kept (e : Env) (busy : option nat) (w w' : World) : Prop :=
  Inv e busy w' /\ Traced e w' /\ mem_le w w' /\
  forall i, (forall col, collectors_ w !! i = Some col ->
                         sig_data_ col = None) ->
            infos_ w' !! i = infos_ w !! i.

(* ================================================================== *)
(** * Part II. Theorems *)
(* ================================================================== *)

(** A case analysis on the scrutinee of an innermost [match] of the goal. *)
Ltac case_innermost :=
  match goal with
  | |- context [match ?x with _ => _ end] =>
      lazymatch x with
      | context [match _ with _ => _ end] => fail
      | _ => destruct x
      end
  end.

Lemma StackTrace_wfb_true (st : StackTrace) :
  StackTrace_wfb st = true -> StackTrace_wf st.
Proof.
  unfold StackTrace_wfb, StackTrace_wf. rewrite !andb_true_iff.
  intros [[[Hl H0] H1] Hr]. split; [|split].
  - apply Nat.eqb_eq, Hl.
  - lia.
  - apply Forall_forall. intros a Ha%list_elem_of_In.
    rewrite forallb_forall in Hr. apply Hr in Ha. lia.
Qed.

Example StringifyToHex_two_frames :
  c_str (written (StringifyToHex
      (mkStackTrace (4198473 :: 0 :: replicate 14 0) 2) 1024 0))
  = list_ascii_of_string "0000000000401048 0000000000000000".
Proof. reflexivity. Qed.

Example parse_two_frames :
  parse_hex_fields 40 (list_ascii_of_string "0x0000000000401048 0x0000000000000000")
  = [4198472; 0].
Proof. reflexivity. Qed.

(** ** Comparison of stack buffers *)

Lemma lexicographical_compare_irrefl (l : list Z) :
  lexicographical_compare l l = false.
Proof.
  induction l as [|x l IH]; simpl; [reflexivity|].
  rewrite Z.ltb_irrefl. exact IH.
Qed.

Lemma LessThan_irrefl (s : StackTrace) : LessThan s s = false.
Proof. apply lexicographical_compare_irrefl. Qed.

Lemma lexicographical_compare_take_trans (a b c : list Z) (n m : nat) :
  length a = length b ->
  lexicographical_compare (take n a) (take n b) = true ->
  lexicographical_compare (take m b) (take m c) = true ->
  lexicographical_compare (take n a) (take n c) = true.
Proof.
  revert b c n m.
  induction a as [|x a IH]; intros b c n m Hlen Hab Hbc.
  - destruct b; [|discriminate]. destruct n; discriminate.
  - destruct b as [|y b]; [discriminate|].
    destruct n as [|n]; [discriminate|].
    destruct m as [|m]; [discriminate|].
    destruct c as [|z c]; [discriminate|].
    simpl in *.
    destruct (Z.ltb_spec x y), (Z.ltb_spec y x), (Z.ltb_spec y z),
      (Z.ltb_spec z y), (Z.ltb_spec x z), (Z.ltb_spec z x);
      try discriminate; try lia; try reflexivity.
    apply (IH b c n m); [congruence | assumption | assumption].
Qed.

(** The comparison of the code is a strict order on buffers whose arrays have
    the declared length, whatever the arrays hold past [num_frames_]. *)
Lemma LessThan_trans (s t u : StackTrace) :
  length (frames_ s) = length (frames_ t) ->
  LessThan s t = true -> LessThan t u = true -> LessThan s u = true.
Proof.
  unfold LessThan, frames_range. intros Hlen Hst Htu.
  eapply lexicographical_compare_take_trans; eauto.
Qed.

(** C5: [LessThan] ends the range of the other buffer at [num_frames_] of
    [this], so a buffer whose defined prefix [1] is a proper prefix of the
    other's [1; 2] does not compare smaller, although the lexicographic
    comparison of the two defined prefixes says it does. *)
Theorem LessThan_proper_prefix_not_smaller :
  let s := mkStackTrace (1 :: replicate 15 0) 1 in
  let t := mkStackTrace (1 :: 2 :: replicate 14 0) 2 in
  StackTrace_wf s /\ StackTrace_wf t /\
  defined_prefix t = defined_prefix s ++ [2] /\
  less_spec s t = true /\
  LessThan s t = false /\ LessThan t s = false.
Proof.
  cbv zeta. split; [|split].
  - apply StackTrace_wfb_true. vm_compute. reflexivity.
  - apply StackTrace_wfb_true. vm_compute. reflexivity.
  - repeat split; reflexivity.
Qed.

(** ** Hex rendering *)

Lemma put_string_app (dst : Z) (a b : list ascii) :
  put_string dst (a ++ b) = put_string dst a ++ put_string (dst + Z.of_nat (length a)) b.
Proof.
  unfold put_string. rewrite imap_app. f_equal.
  apply imap_ext. intros k c _. f_equal. lia.
Qed.

Lemma written_put_string (dst : Z) (cs : list ascii) :
  written (put_string dst cs) = cs.
Proof.
  unfold written, put_string. revert dst.
  induction cs as [|c cs IH]; intros dst; [reflexivity|].
  simpl. f_equal. unfold compose.
  erewrite imap_ext; [apply (IH (dst + 1))|].
  intros k x _. simpl. f_equal. lia.
Qed.

Lemma in_bounds_put_string (size : Z) (cs : list ascii) (c : ascii) :
  in_bounds size (put_string 0 (cs ++ [c])) <-> Z.of_nat (length cs) < size.
Proof.
  unfold in_bounds, put_string. rewrite Forall_lookup. split.
  - intros H.
    specialize (H (length cs) (0 + Z.of_nat (length cs), c)).
    rewrite list_lookup_imap in H.
    rewrite lookup_app_r, Nat.sub_diag in H by lia. simpl in H.
    specialize (H eq_refl). lia.
  - intros H k [o x] Hk. rewrite list_lookup_imap in Hk.
    destruct ((cs ++ [c]) !! k) eqn:E; [|discriminate]. simpl in Hk.
    apply lookup_lt_Some in E. rewrite length_app in E. simpl in E.
    injection Hk as <- <-. simpl. lia.
Qed.

Lemma length_hex_digits (n : nat) (v : Z) (acc : list ascii) :
  length (hex_digits n v acc) = (n + length acc)%nat.
Proof.
  revert v acc. induction n as [|n IH]; intros v acc; simpl; [reflexivity|].
  rewrite IH. simpl. lia.
Qed.

Lemma length_field_chars (flags i addr : Z) :
  Z.of_nat (length (field_chars flags i addr)) =
  (if negb (i =? 0) then 1 else 0)
  + (if flag_set flags HEX_0X_PREFIX then 2 else 0) + kHexEntryLength.
Proof.
  unfold field_chars. rewrite !length_app, length_hex_digits.
  destruct (negb (i =? 0)), (flag_set flags HEX_0X_PREFIX); reflexivity.
Qed.

Lemma hex_entry_fields (st : StackTrace) (flags i dst : Z) (w : writes) :
  hex_entry st flags i (dst, w) =
  (dst + Z.of_nat (length (field_chars flags i (frame_at st i))),
   w ++ put_string dst (field_chars flags i (frame_at st i))).
Proof.
  rewrite length_field_chars. unfold hex_entry, field_chars.
  rewrite !put_string_app.
  destruct (negb (i =? 0)), (flag_set flags HEX_0X_PREFIX); simpl length;
    unfold fix_caller_address, FastHex64ToBuffer, put_string; simpl imap;
    rewrite <- ?app_assoc; simpl app;
    repeat (f_equal; try lia).
Qed.

Lemma StringifyToHex_loop_fields (n : nat) (st : StackTrace)
    (flags limit i dst : Z) (w : writes) :
  let k := hex_iterations n (flag_set flags HEX_0X_PREFIX) limit i dst in
  StringifyToHex_loop n st flags limit i (dst, w) =
  (dst + Z.of_nat (length (fields st flags k i)),
   w ++ put_string dst (fields st flags k i)).
Proof.
  revert i dst w. induction n as [|n IH]; intros i dst w;
    cbn [StringifyToHex_loop hex_iterations fst].
  - cbn [fields length put_string imap]. rewrite app_nil_r. f_equal. lia.
  - destruct (dst <? limit).
    + rewrite hex_entry_fields, IH. rewrite length_field_chars.
      cbn [fields]. rewrite put_string_app, length_app, <- app_assoc.
      rewrite Nat2Z.inj_add, length_field_chars. f_equal. lia.
    + cbn [fields length put_string imap]. rewrite app_nil_r. f_equal. lia.
Qed.

(** The writes of [StringifyToHex] fill the buffer front to back: the fields
    of the frames the loop reaches, then the terminator. *)
Lemma StringifyToHex_fields (st : StackTrace) (size flags : Z) :
  let k := hex_iterations (Z.to_nat (num_frames_ st))
             (flag_set flags HEX_0X_PREFIX) (size - kHexEntryLength - 2) 0 0 in
  StringifyToHex st size flags = put_string 0 (fields st flags k 0 ++ [NUL]).
Proof.
  unfold StringifyToHex. cbv zeta. rewrite StringifyToHex_loop_fields.
  rewrite put_string_app. cbn [app]. change (0 + size) with size. f_equal.
  unfold put_string. cbn [imap Z.of_nat]. rewrite Z.add_0_r. reflexivity.
Qed.

(** Where the terminator lands decides whether the writes stay inside. *)
Lemma StringifyToHex_in_bounds_iff (st : StackTrace) (size flags : Z) :
  let k := hex_iterations (Z.to_nat (num_frames_ st))
             (flag_set flags HEX_0X_PREFIX) (size - kHexEntryLength - 2) 0 0 in
  in_bounds size (StringifyToHex st size flags) <->
  Z.of_nat (length (fields st flags k 0)) < size.
Proof.
  simpl. rewrite StringifyToHex_fields. apply in_bounds_put_string.
Qed.

Lemma length_fields_no_prefix (st : StackTrace) (flags limit : Z) (n : nat)
    (i dst : Z) :
  flag_set flags HEX_0X_PREFIX = false ->
  dst <= limit + kHexEntryLength ->
  dst + Z.of_nat (length (fields st flags (hex_iterations n false limit i dst) i))
  <= limit + kHexEntryLength.
Proof.
  intros Hp. revert i dst. induction n as [|n IH]; intros i dst Hd; simpl.
  - lia.
  - destruct (Z.ltb_spec dst limit); simpl; [|lia].
    rewrite length_app, Nat2Z.inj_add, length_field_chars, Hp.
    specialize (IH (i + 1)
      (dst + ((if negb (i =? 0) then 1 else 0) + 0 + kHexEntryLength))).
    unfold kHexEntryLength in *. destruct (negb (i =? 0)); lia.
Qed.

(** Without [HEX_0X_PREFIX] the reservation made for [limit] is enough: every
    write, the terminator included, stays inside a buffer of positive size. *)
Lemma StringifyToHex_in_bounds_no_prefix (st : StackTrace) (size flags : Z) :
  0 < size ->
  flag_set flags HEX_0X_PREFIX = false ->
  in_bounds size (StringifyToHex st size flags).
Proof.
  intros Hs Hp. apply StringifyToHex_in_bounds_iff. rewrite Hp.
  destruct (Z.to_nat (num_frames_ st)) as [|n]; [simpl; lia|].
  simpl. destruct (Z.ltb_spec 0 (size - kHexEntryLength - 2)); [|simpl; lia].
  simpl. rewrite length_app, Nat2Z.inj_add, length_field_chars, Hp. simpl.
  pose proof (length_fields_no_prefix st flags (size - kHexEntryLength - 2) n
                (0 + 1) (0 + (0 + 0 + kHexEntryLength)) Hp) as H1.
  unfold kHexEntryLength in *. lia.
Qed.

(** C4: with [HEX_0X_PREFIX] the two bytes of the prefix are not part of the
    reservation made for [limit]: for two frames and a buffer of 37 bytes the
    second field ends at offset 36 and the terminator is stored at offset 37,
    one byte past the buffer. *)
Theorem StringifyToHex_0x_prefix_writes_past_size :
  let st := mkStackTrace (1 :: 2 :: replicate 14 0) 2 in
  StackTrace_wf st /\
  In (37, NUL) (StringifyToHex st 37 HEX_0X_PREFIX) /\
  ~ in_bounds 37 (StringifyToHex st 37 HEX_0X_PREFIX).
Proof.
  split; [|split].
  - apply StackTrace_wfb_true. vm_compute. reflexivity.
  - apply in_app_iff. right. vm_compute. left. reflexivity.
  - intros H. apply StringifyToHex_in_bounds_iff in H. vm_compute in H.
    discriminate.
Qed.

(** ** Reading the hex fields back *)

Lemma hex_val_hexdigit (d : Z) : 0 <= d < 16 -> hex_val (hexdigit d) = Some d.
Proof.
  intros H.
  assert (d = 0 \/ d = 1 \/ d = 2 \/ d = 3 \/ d = 4 \/ d = 5 \/ d = 6 \/ d = 7 \/
          d = 8 \/ d = 9 \/ d = 10 \/ d = 11 \/ d = 12 \/ d = 13 \/ d = 14 \/
          d = 15) as Hd by lia.
  repeat (destruct Hd as [-> | Hd]; [reflexivity|]). subst d. reflexivity.
Qed.

Lemma land_15_range (v : Z) : 0 <= Z.land v 15 < 16.
Proof.
  change 15 with (Z.ones 4). rewrite Z.land_ones by lia.
  apply Z.mod_pos_bound. reflexivity.
Qed.

Lemma is_hex_char_hexdigit (v : Z) : is_hex_char (hexdigit (Z.land v 15)).
Proof. red. rewrite hex_val_hexdigit by apply land_15_range. eauto. Qed.

Lemma hex_digits_is_hex (n : nat) (v : Z) (acc : list ascii) :
  Forall is_hex_char acc -> Forall is_hex_char (hex_digits n v acc).
Proof.
  revert v acc. induction n as [|n IH]; intros v acc Hacc; simpl; [exact Hacc|].
  apply IH. constructor; [apply is_hex_char_hexdigit | exact Hacc].
Qed.

Lemma is_hex_char_neq (c d : ascii) :
  is_hex_char c -> hex_val d = None -> Ascii.eqb c d = false.
Proof.
  intros [x Hx] Hd. destruct (Ascii.eqb_spec c d); [congruence|reflexivity].
Qed.

Lemma parse_hex_digits (n : nat) (v a : Z) (acc : list ascii) :
  parse_hex (hex_digits n v acc) a =
  parse_hex acc (a * 16 ^ Z.of_nat n + v mod 16 ^ Z.of_nat n).
Proof.
  revert v a acc. induction n as [|n IH]; intros v a acc.
  - simpl. rewrite Z.mod_1_r. f_equal. lia.
  - cbn [hex_digits]. rewrite IH. cbn [parse_hex].
    rewrite hex_val_hexdigit by apply land_15_range.
    f_equal. change 15 with (Z.ones 4).
    rewrite Z.land_ones, Z.shiftr_div_pow2 by lia.
    rewrite Nat2Z.inj_succ, Z.pow_succ_r by lia.
    change (2 ^ 4) with 16.
    rewrite (Z.rem_mul_r v 16 (16 ^ Z.of_nat n)) by lia. lia.
Qed.

Lemma parse_FastHex64 (v : Z) :
  0 <= v < uintptr_max -> parse_hex (hex_digits 16 v []) 0 = Some v.
Proof.
  intros H. rewrite parse_hex_digits. simpl parse_hex. f_equal.
  rewrite Z.mod_small; [lia|]. exact H.
Qed.

Lemma fix_caller_address_range (flags a : Z) :
  0 <= a < uintptr_max -> 0 <= fix_caller_address flags a < uintptr_max.
Proof.
  unfold fix_caller_address. intros H.
  destruct (Z.ltb_spec 0 a), (negb _); simpl; lia.
Qed.

(** One field, with or without its separating space and its prefix, parses
    to the value its sixteen digits stand for. *)
Lemma parse_hex_fields_step (fuel : nat) (sp pre : bool) (digits rest : list ascii)
    (v : Z) :
  length digits = 16%nat ->
  Forall is_hex_char digits ->
  parse_hex digits 0 = Some v ->
  parse_hex_fields (S fuel)
    ((if sp then [" "%char] else []) ++
     (if pre then ["0"%char; "x"%char] else []) ++ digits ++ rest)
  = v :: parse_hex_fields fuel rest.
Proof.
  intros Hlen Hhex Hparse.
  assert (take 16 (digits ++ rest) = digits) as Htake
    by (rewrite take_app_length'; [reflexivity | symmetry; exact Hlen]).
  assert (drop 16 (digits ++ rest) = rest) as Hdrop
    by (rewrite drop_app_length'; [reflexivity | symmetry; exact Hlen]).
  destruct digits as [|d0 [|d1 ds]]; try discriminate.
  apply Forall_cons in Hhex as [H0 Hhex]. apply Forall_cons in Hhex as [H1 _].
  pose proof (is_hex_char_neq d0 " " H0 eq_refl) as E0.
  pose proof (is_hex_char_neq d1 "x" H1 eq_refl) as E1.
  destruct sp, pre; cbn [parse_hex_fields app Ascii.eqb Bool.eqb andb];
    rewrite ?E0, ?E1, ?andb_false_r;
    change (d0 :: d1 :: ds ++ rest) with ((d0 :: d1 :: ds) ++ rest);
    rewrite Htake, Hdrop, Hparse; reflexivity.
Qed.

Lemma parse_hex_fields_nil (fuel : nat) : parse_hex_fields fuel [] = [].
Proof. destruct fuel; reflexivity. Qed.

Lemma parse_hex_fields_fields (st : StackTrace) (flags : Z) (fuel k : nat) (i : Z) :
  Forall (fun a => 0 <= a < uintptr_max) (frames_ st) ->
  (k <= fuel)%nat ->
  parse_hex_fields fuel (fields st flags k i) = printed st flags k i.
Proof.
  intros Hr. revert fuel i. induction k as [|k IH]; intros fuel i Hf.
  - apply parse_hex_fields_nil.
  - destruct fuel as [|fuel]; [lia|]. cbn [fields printed].
    unfold field_chars. rewrite <- !app_assoc.
    rewrite (parse_hex_fields_step fuel (negb (i =? 0))
               (flag_set flags HEX_0X_PREFIX) _ _
               (fix_caller_address flags (frame_at st i))).
    + f_equal. apply IH. lia.
    + apply length_hex_digits.
    + apply hex_digits_is_hex. constructor.
    + apply parse_FastHex64, fix_caller_address_range.
      unfold frame_at. destruct (frames_ st !! Z.to_nat i) as [a|] eqn:E; simpl.
      * eapply Forall_lookup_1 in Hr; eauto.
      * unfold uintptr_max. lia.
Qed.

Lemma printed_take (st : StackTrace) (flags : Z) (k j : nat) :
  (j + k <= length (frames_ st))%nat ->
  printed st flags k (Z.of_nat j) =
  map (fix_caller_address flags) (take k (drop j (frames_ st))).
Proof.
  revert j. induction k as [|k IH]; intros j Hj; [reflexivity|].
  destruct (lookup_lt_is_Some_2 (frames_ st) j) as [a Ha]; [lia|].
  rewrite (drop_S _ _ _ Ha). cbn [printed take map].
  unfold frame_at at 1. rewrite Nat2Z.id, Ha. simpl default. f_equal.
  replace (Z.of_nat j + 1) with (Z.of_nat (S j)) by lia.
  apply IH. lia.
Qed.

Lemma hex_iterations_le (n : nat) (p : bool) (limit i dst : Z) :
  (hex_iterations n p limit i dst <= n)%nat.
Proof.
  revert i dst. induction n as [|n IH]; intros i dst; simpl; [lia|].
  destruct (dst <? limit); [|lia]. specialize (IH (i + 1)
    (dst + ((if negb (i =? 0) then 1 else 0) + (if p then 2 else 0)
            + kHexEntryLength))). lia.
Qed.

Lemma fields_no_NUL (st : StackTrace) (flags : Z) (k : nat) (i : Z) :
  Forall (fun c => Ascii.eqb c NUL = false) (fields st flags k i).
Proof.
  revert i. induction k as [|k IH]; intros i; simpl; [constructor|].
  apply Forall_app. split; [|apply IH].
  unfold field_chars. rewrite !Forall_app. repeat split.
  - destruct (negb (i =? 0)); repeat constructor.
  - destruct (flag_set flags HEX_0X_PREFIX); repeat constructor.
  - eapply Forall_impl; [apply hex_digits_is_hex; constructor|].
    intros c Hc. apply is_hex_char_neq; [exact Hc | reflexivity].
Qed.

Lemma c_str_terminated (l r : list ascii) :
  Forall (fun c => Ascii.eqb c NUL = false) l -> c_str (l ++ NUL :: r) = l.
Proof.
  induction 1 as [|c l Hc _ IH]; simpl; [reflexivity|].
  rewrite Hc, IH. reflexivity.
Qed.

(** The text [StringifyToHex] leaves in the buffer is the run of fields of
    the frames its loop reached. *)
Lemma c_str_StringifyToHex (st : StackTrace) (size flags : Z) :
  let k := hex_iterations (Z.to_nat (num_frames_ st))
             (flag_set flags HEX_0X_PREFIX) (size - kHexEntryLength - 2) 0 0 in
  c_str (written (StringifyToHex st size flags)) = fields st flags k 0.
Proof.
  simpl. rewrite StringifyToHex_fields, written_put_string.
  apply c_str_terminated, fields_no_NUL.
Qed.

Lemma length_fields_ge (st : StackTrace) (flags : Z) (k : nat) (i : Z) :
  (k <= length (fields st flags k i))%nat.
Proof.
  revert i. induction k as [|k IH]; intros i; simpl; [lia|].
  rewrite length_app. specialize (IH (i + 1)).
  unfold field_chars. rewrite !length_app, length_hex_digits. simpl. lia.
Qed.

Lemma parse_fields_StringifyToHex (st : StackTrace) (size flags : Z) :
  StackTrace_wf st ->
  let k := hex_iterations (Z.to_nat (num_frames_ st))
             (flag_set flags HEX_0X_PREFIX) (size - kHexEntryLength - 2) 0 0 in
  parse_fields (c_str (written (StringifyToHex st size flags))) =
  map (fix_caller_address flags) (take k (frames_ st)).
Proof.
  intros (Hlen & Hn & Hr). simpl.
  rewrite c_str_StringifyToHex. unfold parse_fields.
  rewrite parse_hex_fields_fields; [|exact Hr|apply length_fields_ge].
  rewrite (printed_take st flags _ 0); [reflexivity|].
  pose proof (hex_iterations_le (Z.to_nat (num_frames_ st))
    (flag_set flags HEX_0X_PREFIX) (size - kHexEntryLength - 2) 0 0).
  unfold kMaxFrames in *. lia.
Qed.

(** The buffer [ToHexString] sizes for itself holds every frame. *)
Lemma hex_iterations_ToHexString (n : nat) (p : bool) :
  (n <= 16)%nat ->
  hex_iterations n p
    (kMaxFrames * (if p then kHexEntryLength + 1 + 2 else kHexEntryLength + 1)
     + 1 - kHexEntryLength - 2) 0 0 = n.
Proof.
  intros Hn. destruct p;
    do 17 (destruct n as [|n]; [vm_compute; reflexivity|]); lia.
Qed.

Lemma parse_fields_ToHexString (st : StackTrace) (flags : Z) :
  StackTrace_wf st ->
  parse_fields (ToHexString st flags) =
  map (fix_caller_address flags) (defined_prefix st).
Proof.
  intros Hwf. unfold ToHexString. cbv zeta.
  rewrite parse_fields_StringifyToHex by exact Hwf.
  destruct Hwf as (Hlen & Hn & Hr).
  unfold defined_prefix, frames_range. do 2 f_equal.
  pose proof (hex_iterations_ToHexString (Z.to_nat (num_frames_ st))
                (flag_set flags HEX_0X_PREFIX)) as H.
  destruct (flag_set flags HEX_0X_PREFIX); apply H; unfold kMaxFrames in *; lia.
Qed.

(** ** Symbolization and the synthetic frame *)

Lemma string_append_assoc (a b c : string) :
  ((a ++ b) ++ c = a ++ (b ++ c))%string.
Proof. induction a as [|x a IH]; simpl; [reflexivity|]. rewrite IH. reflexivity. Qed.

Lemma string_append_nil_r (a : string) : (a ++ "")%string = a.
Proof. induction a as [|x a IH]; simpl; [reflexivity|]. rewrite IH. reflexivity. Qed.

Section SymbolizeFacts.
Variable google_Symbolize : Z -> option string.
Variable printf_pointer : Z -> Z -> string.

Let line (pc : Z) : string :=
  symbolize_line printf_pointer pc (symbol_of google_Symbolize pc).

Lemma Symbolize_loop_lines (n j : nat) (st : StackTrace) (ret : string) :
  (j + n <= length (frames_ st))%nat ->
  Symbolize_loop google_Symbolize printf_pointer n st (Z.of_nat j) ret =
  (ret ++ concat_strings (map line (take n (drop j (frames_ st)))))%string.
Proof.
  revert j ret. induction n as [|n IH]; intros j ret Hj.
  - simpl. rewrite string_append_nil_r. reflexivity.
  - destruct (lookup_lt_is_Some_2 (frames_ st) j) as [a Ha]; [lia|].
    rewrite (drop_S _ _ _ Ha). cbn [Symbolize_loop take map concat_strings fold_right].
    replace (Z.of_nat j + 1) with (Z.of_nat (S j)) by lia.
    rewrite IH by lia. unfold frame_at. rewrite Nat2Z.id, Ha. simpl default.
    rewrite string_append_assoc. reflexivity.
Qed.

(** One line per defined frame, the symbol looked up at the frame's address
    less one, or [(unknown)] for a null frame or a failed lookup. *)
Lemma Symbolize_lines (st : StackTrace) :
  StackTrace_wf st ->
  Symbolize google_Symbolize printf_pointer st =
  concat_strings (map line (defined_prefix st)).
Proof.
  intros (Hlen & Hn & _). unfold Symbolize.
  rewrite (Symbolize_loop_lines _ 0); [reflexivity|].
  unfold kMaxFrames in *. simpl. lia.
Qed.
End SymbolizeFacts.

(** C7: when [SafeToUnwindStack] answers no, [Collect] leaves exactly one
    frame, the address of the sentinel function plus one, and symbolizing the
    buffer gives the single line that carries the sentinel's name. *)
Theorem Collect_unsafe_single_marker_frame
    (google_Symbolize : Z -> option string) (printf_pointer : Z -> Z -> string)
    (f_ptr skip_frames : Z) (cursor : unw_cursor) (st : StackTrace)
    (marker : string) :
  StackTrace_wf st ->
  0 <= f_ptr -> f_ptr + 1 < uintptr_max ->
  google_Symbolize f_ptr = Some marker ->
  let st' := Collect false f_ptr cursor skip_frames st in
  num_frames_ st' = 1 /\
  defined_prefix st' = [f_ptr + 1] /\
  StackTrace_wf st' /\
  Symbolize google_Symbolize printf_pointer st' =
    symbolize_line printf_pointer (f_ptr + 1) marker.
Proof.
  intros (Hlen & Hn & Hr) H0 H1 Hs. cbv zeta. unfold Collect. simpl negb. cbv iota.
  rewrite Z.mod_small by lia.
  destruct (frames_ st) as [|a fs] eqn:E; [discriminate|].
  assert (StackTrace_wf (mkStackTrace (<[0%nat:=f_ptr + 1]> (a :: fs)) 1)) as Hwf.
  { repeat split; simpl; try (unfold kMaxFrames; lia).
    - exact Hlen.
    - apply Forall_cons in Hr as [_ Hr]. constructor; [lia | exact Hr]. }
  repeat split; try apply Hwf.
  rewrite Symbolize_lines by exact Hwf.
  change (defined_prefix (mkStackTrace (<[0%nat:=f_ptr + 1]> (a :: fs)) 1))
    with [f_ptr + 1].
  cbn [map concat_strings fold_right]. rewrite string_append_nil_r.
  unfold symbol_of. replace (f_ptr + 1 - 1) with f_ptr by lia. rewrite Hs.
  destruct (Z.eqb_spec (f_ptr + 1) 0); [lia|]. reflexivity.
Qed.

Lemma Collect_unsafe_single_marker_frame_witness :
  let gs := fun pc => if pc =? 4198400
                      then Some "kudu::CouldNotCollectStackTraceBecauseInsideLibDl()"%string
                      else None in
  let pp := fun (w p : Z) => "          0x401001"%string in
  let st' := Collect false 4198400 [] 1 StackTrace_new in
  num_frames_ st' = 1 /\
  defined_prefix st' = [4198401] /\
  StackTrace_wf st' /\
  Symbolize gs pp st' =
    symbolize_line pp 4198401 "kudu::CouldNotCollectStackTraceBecauseInsideLibDl()".
Proof.
  apply (Collect_unsafe_single_marker_frame _ _ 4198400 1 [] StackTrace_new).
  - apply StackTrace_wfb_true. vm_compute. reflexivity.
  - lia.
  - reflexivity.
  - reflexivity.
Defined.

Lemma fix_caller_address_call_address (flags a : Z) :
  flag_set flags NO_FIX_CALLER_ADDRESSES = false -> 0 <= a ->
  fix_caller_address flags a = call_address a.
Proof.
  intros Hf Ha. unfold fix_caller_address, call_address. rewrite Hf.
  destruct (Z.ltb_spec 0 a), (Z.eqb_spec a 0); simpl; lia.
Qed.

(** C8: unless [NO_FIX_CALLER_ADDRESSES] is set, the 16-digit fields that
    [StringifyToHex] leaves in a buffer read back as the addresses of the
    frames it reached, each less one (a null frame stays null); the buffer
    [ToHexString] sizes holds them all; and [Symbolize] looks every non-null
    frame up at its address less one, whatever the flags. *)
Theorem hex_fields_and_symbols_use_call_address
    (google_Symbolize : Z -> option string) (printf_pointer : Z -> Z -> string)
    (st : StackTrace) (size flags : Z) :
  StackTrace_wf st ->
  flag_set flags NO_FIX_CALLER_ADDRESSES = false ->
  (exists k : nat, (k <= Z.to_nat (num_frames_ st))%nat /\
     parse_fields (c_str (written (StringifyToHex st size flags))) =
     map call_address (take k (frames_ st))) /\
  parse_fields (ToHexString st flags) = map call_address (defined_prefix st) /\
  Symbolize google_Symbolize printf_pointer st =
    concat_strings
      (map (fun pc =>
              symbolize_line printf_pointer pc
                (if pc =? 0 then "(unknown)"%string
                 else match google_Symbolize (call_address pc) with
                      | Some symbol => symbol
                      | None => "(unknown)"%string
                      end))
           (defined_prefix st)).
Proof.
  intros Hwf Hf.
  assert (forall l, Forall (fun a => 0 <= a < uintptr_max) l ->
            map (fix_caller_address flags) l = map call_address l) as Hmap.
  { intros l Hl. apply map_ext_Forall. eapply Forall_impl; [exact Hl|].
    intros a Ha. apply fix_caller_address_call_address; [exact Hf | apply Ha]. }
  pose proof Hwf as (Hlen & Hn & Hr).
  split; [|split].
  - eexists. split; [apply hex_iterations_le|].
    rewrite parse_fields_StringifyToHex by exact Hwf.
    apply Hmap, Forall_take, Hr.
  - rewrite parse_fields_ToHexString by exact Hwf.
    apply Hmap, Forall_take, Hr.
  - rewrite Symbolize_lines by exact Hwf. f_equal.
    apply map_ext. intros pc. unfold symbol_of, call_address.
    destruct (pc =? 0); reflexivity.
Qed.

Lemma hex_fields_and_symbols_use_call_address_witness :
  let st := mkStackTrace (4198473 :: 0 :: replicate 14 0) 2 in
  parse_fields (ToHexString st HEX_0X_PREFIX) = [4198472; 0].
Proof.
  apply (hex_fields_and_symbols_use_call_address
           (fun _ => None) (fun _ _ => EmptyString)
           (mkStackTrace (4198473 :: 0 :: replicate 14 0) 2) 1024 HEX_0X_PREFIX).
  - apply StackTrace_wfb_true. vm_compute. reflexivity.
  - reflexivity.
Defined.

(** ** The handler, step by step *)

Lemma put_cell_put_cell (p : nat) (c1 c2 : Cell) (w : World) :
  put_cell p c2 (put_cell p c1 w) = put_cell p c2 w.
Proof.
  unfold put_cell, set_heap. cbn. rewrite list_insert_insert_eq. reflexivity.
Qed.

Lemma heap_put_cell (p : nat) (c : Cell) (w : World) :
  heap (put_cell p c w) = <[p := c]> (heap w).
Proof. reflexivity. Qed.

Lemma heap_put_cell_eq (p : nat) (c c0 : Cell) (w : World) :
  heap w !! p = Some c0 -> heap (put_cell p c w) !! p = Some c.
Proof.
  intros H. rewrite heap_put_cell. apply list_lookup_insert_eq.
  eapply lookup_lt_Some, H.
Qed.

Lemma deref_Done (p : nat) (w : World) (c : Cell) (w' : World) :
  deref p w = Done (c, w') <->
  heap w !! p = Some c /\ alloc c <> Freed /\ w' = w.
Proof.
  unfold deref. destruct (heap w !! p) as [c0|]; [|split; [discriminate|]].
  - destruct (alloc c0) eqn:Ea; split.
    + intros [= <- <-]. rewrite Ea. repeat split; congruence.
    + intros ([= ->] & _ & ->). reflexivity.
    + intros [= <- <-]. rewrite Ea. repeat split; congruence.
    + intros ([= ->] & _ & ->). reflexivity.
    + discriminate.
    + intros ([= ->] & H & _). congruence.
  - intros ([=] & _).
Qed.

Lemma deref_live (p : nat) (w : World) (c : Cell) :
  heap w !! p = Some c -> alloc c <> Freed -> deref p w = Done (c, w).
Proof. intros H1 H2. apply deref_Done. auto. Qed.

(** A step of [handler_step] that returns is a transition of the relation:
    a handler never aborts and never waits. *)
Lemma handler_step_trans (e : Env) (q : nat) (w w' : World) :
  handler_step e q w = Done (tt, w') -> handler_trans e q w w'.
Proof.
  unfold handler_step. destruct (heap w !! q) as [c|] eqn:Hq.
  - destruct (handler c) as [|t|t|t|] eqn:Hh.
    + intros [= <-]. eapply HT_idle; eauto.
    + unfold bind, compare_exchange_strong, bind.
      destruct (deref q w) as [[c1 w1]| | |] eqn:Hd; try discriminate.
      apply deref_Done in Hd as (Hq' & Ha & ->).
      assert (c1 = c) as -> by congruence.
      destruct (Z.eqb_spec (queued_to_tid (sig c)) t) as [Heq|Hne].
      * unfold store, modify, ret, set_pc.
        rewrite (heap_put_cell_eq q _ c w Hq), put_cell_put_cell.
        intros [= <-]. apply (HT_cas_won e q w c t); auto.
      * unfold ret, set_pc. rewrite Hq. intros [= <-].
        apply (HT_cas_lost e q w c t); auto.
    + unfold bind, handler_Collect, bind.
      destruct (deref q w) as [[c1 w1]| | |] eqn:Hd; try discriminate.
      apply deref_Done in Hd as (Hq' & Ha & ->).
      assert (c1 = c) as -> by congruence.
      unfold get_info. destruct (infos_ w !! stack (sig c)) as [info|] eqn:Hi;
        [|discriminate].
      unfold put_info, modify, set_pc. cbn [heap put_info_at set_infos].
      rewrite Hq. intros [= <-]. apply (HT_collect e q w c t info); auto.
    + unfold bind, Signal, bind.
      destruct (deref q w) as [[c1 w1]| | |] eqn:Hd; try discriminate.
      apply deref_Done in Hd as (Hq' & Ha & ->).
      assert (c1 = c) as -> by congruence.
      unfold store, modify, set_pc.
      rewrite (heap_put_cell_eq q _ c w Hq), put_cell_put_cell.
      intros [= <-]. apply (HT_signal e q w c t); auto.
    + intros [= <-]. eapply HT_idle; eauto.
  - intros [= <-]. apply HT_absent, Hq.
Qed.

Lemma handler_step_outcome (e : Env) (q : nat) (w : World) :
  (exists w', handler_step e q w = Done (tt, w')) \/ handler_step e q w = Fault.
Proof.
  unfold handler_step. destruct (heap w !! q) as [c|] eqn:Hq; [|eauto].
  destruct (handler c) as [|t|t|t|]; eauto;
    unfold bind, compare_exchange_strong, handler_Collect, Signal, bind, deref,
      store, modify, ret, set_pc, get_info, put_info;
    rewrite ?Hq;
    repeat (cbn; case_innermost); cbn; eauto.
Qed.

Lemma run_handlers_trans (e : Env) (qs : list nat) (w w' : World) :
  run_handlers e qs w = Done (tt, w') -> handlers_trans e qs w w'.
Proof.
  revert w. induction qs as [|q qs IH]; intros w; simpl.
  - intros [= <-]. constructor.
  - unfold bind at 1. destruct (handler_step e q w) as [[[] w1]| | |] eqn:Hs;
      try discriminate.
    intros H. econstructor; [apply handler_step_trans, Hs | apply IH, H].
Qed.

(** ** Handler steps leave the tracer's own state alone *)

Lemma pc_le_refl (h : HandlerPc) : pc_le h h.
Proof. destruct h; simpl; auto. Qed.

Lemma pc_le_trans (a b c : HandlerPc) : pc_le a b -> pc_le b c -> pc_le a c.
Proof. destruct a, b, c; simpl; intros; try congruence; auto; contradiction. Qed.

Lemma cell_le_refl (c : Cell) : cell_le c c.
Proof. unfold cell_le. pose proof (pc_le_refl (handler c)). intuition. Qed.

Lemma info_le_refl (i : ThreadInfo) : info_le i i.
Proof. unfold info_le. auto. Qed.

Lemma cell_le_trans (a b c : Cell) : cell_le a b -> cell_le b c -> cell_le a c.
Proof.
  unfold cell_le. intros (A1 & A2 & A3 & A5 & A6) (B1 & B2 & B3 & B5 & B6).
  split; [congruence|]. split; [congruence|].
  split; [eapply pc_le_trans; eauto|]. split.
  - destruct B5 as [B5|[B5 B5']]; [destruct A5 as [A5|A5]|].
    + left. congruence.
    + right. rewrite B5. exact A5.
    + right. split; [|exact B5'].
      rewrite B5 in A3. destruct (handler a) as [|t| | |] eqn:Ha; simpl in A3;
        try contradiction.
      destruct A5 as [A5|[A5 A5']]; [congruence|exact A5].
  - destruct B6 as [B6|B6]; [destruct A6 as [A6|A6]|]; auto.
    + left. congruence.
    + right. congruence.
Qed.

Lemma info_le_trans (a b c : ThreadInfo) : info_le a b -> info_le b c -> info_le a c.
Proof. unfold info_le. intuition congruence. Qed.

Lemma Forall2_diag {A} (R : A -> A -> Prop) (l : list A) :
  (forall x, R x x) -> Forall2 R l l.
Proof. intros HR. induction l; constructor; auto. Qed.

Lemma Forall2_insert_same {A} (R : A -> A -> Prop) (l : list A) (i : nat) (x y : A) :
  (forall x, R x x) -> l !! i = Some x -> R x y -> Forall2 R l (<[i := y]> l).
Proof.
  intros HR Hi Hxy. rewrite <- (list_insert_id l i x Hi) at 1.
  apply Forall2_insert; [apply Forall2_diag, HR | exact Hxy].
Qed.

Lemma world_le_refl (w : World) : world_le w w.
Proof.
  unfold world_le. repeat split;
    auto using Forall2_diag, cell_le_refl, info_le_refl.
Qed.

Lemma world_le_trans (a b c : World) : world_le a b -> world_le b c -> world_le a c.
Proof.
  unfold world_le.
  intros (A1 & A2 & A3 & A4 & A5 & A6 & A7 & A8 & A9 & A10 & A11)
         (B1 & B2 & B3 & B4 & B5 & B6 & B7 & B8 & B9 & B10 & B11).
  repeat split; try congruence.
  - eapply Forall2_trans; [|exact A10|exact B10]. apply cell_le_trans.
  - eapply Forall2_trans; [|exact A11|exact B11]. apply info_le_trans.
Qed.

Lemma world_le_put_cell (w : World) (q : nat) (c c' : Cell) :
  heap w !! q = Some c -> cell_le c c' -> world_le w (put_cell q c' w).
Proof.
  intros Hq Hle. unfold world_le, put_cell, set_heap. cbn.
  repeat split; auto using Forall2_diag, info_le_refl.
  eapply Forall2_insert_same; eauto using cell_le_refl.
Qed.

Lemma world_le_put_info (w : World) (i : nat) (info info' : ThreadInfo) :
  infos_ w !! i = Some info -> info_le info info' ->
  world_le w (put_info_at i info' w).
Proof.
  intros Hi Hle. unfold world_le, put_info_at, set_infos. cbn.
  repeat split; auto using Forall2_diag, cell_le_refl.
  eapply Forall2_insert_same; eauto using info_le_refl.
Qed.

(** What one handler step may change. *)
Lemma handler_trans_world_le (e : Env) (q : nat) (w w' : World) :
  handler_trans e q w w' -> world_le w w'.
Proof.
  inversion 1 as [Hq|c Hq Hh|c t Hq Hh Ha Hcas|c t Hq Hh Ha Hcas
                  |c t info Hq Hh Ha Hi|c t Hq Hh Ha]; subst.
  - apply world_le_refl.
  - apply world_le_refl.
  - eapply world_le_put_cell; [exact Hq|].
    unfold cell_le, queued_of, flag_of. cbn. rewrite Hh. cbn.
    repeat split; auto.
  - eapply world_le_put_cell; [exact Hq|].
    unfold cell_le, queued_of, flag_of. cbn. rewrite Hh. cbn.
    repeat split; auto.
  - eapply world_le_trans; cycle 1.
    + eapply world_le_put_cell; [exact Hq|].
      unfold cell_le, queued_of, flag_of. cbn. rewrite Hh. cbn.
      repeat split; auto.
    + eapply world_le_put_info; [exact Hi|]. unfold info_le. cbn. auto.
  - eapply world_le_put_cell; [exact Hq|].
    unfold cell_le, queued_of, flag_of. cbn. rewrite Hh. cbn.
    repeat split; auto.
Qed.

Lemma handlers_trans_world_le (e : Env) (qs : list nat) (w w' : World) :
  handlers_trans e qs w w' -> world_le w w'.
Proof.
  induction 1 as [w|q qs w w1 w2 H1 _ IH].
  - apply world_le_refl.
  - eapply world_le_trans; [eapply handler_trans_world_le, H1 | exact IH].
Qed.

Lemma world_le_lookup_cell (w w' : World) (p : nat) (c : Cell) :
  world_le w w' -> heap w !! p = Some c ->
  exists c', heap w' !! p = Some c' /\ cell_le c c'.
Proof.
  intros Hle Hp. destruct Hle as (_ & _ & _ & _ & _ & _ & _ & _ & _ & Hh & _).
  eapply Forall2_lookup_l in Hh as (c' & ? & ?); eauto.
Qed.

Lemma world_le_lookup_info (w w' : World) (i : nat) (info : ThreadInfo) :
  world_le w w' -> infos_ w !! i = Some info ->
  exists info', infos_ w' !! i = Some info' /\ info_le info info'.
Proof.
  intros Hle Hp. destruct Hle as (_ & _ & _ & _ & _ & _ & _ & _ & _ & _ & Hh).
  eapply Forall2_lookup_l in Hh as (c' & ? & ?); eauto.
Qed.

(** [yield] either lets the handlers make their steps or stops at a fault of
    one of them. *)
Lemma yield_Done (e : Env) (w w' : World) :
  yield e w = Done (tt, w') ->
  world_le (set_n_yield S w) w' /\
  handlers_trans e (sched e (n_yield w)) (set_n_yield S w) w'.
Proof.
  unfold yield. intros H%run_handlers_trans.
  split; [eapply handlers_trans_world_le|]; eauto.
Qed.

(** ** [CompletionFlag::WaitUntil] *)

Lemma load_complete_Done (e : Env) (p : nat) (w : World) (b : bool) (w' : World) :
  load_complete e p w = Done (b, w') ->
  exists w1 c, yield e w = Done (tt, w1) /\ heap w1 !! p = Some c /\
               alloc c <> Freed /\ b = negb (flag_of c =? 0) /\
               w' = observe (ObsFlag b) w1.
Proof.
  unfold load_complete, bind.
  destruct (yield e w) as [[[] w1]| | |] eqn:Hy; try discriminate.
  destruct (deref p w1) as [[c w2]| | |] eqn:Hd; try discriminate.
  apply deref_Done in Hd as (Hp & Ha & ->).
  unfold modify, ret. intros [= <- <-]. eauto 10.
Qed.

Lemma WaitUntil_loop_obs (e : Env) (fuel p : nat) (deadline now : Z)
    (w : World) (b : bool) (w' : World) :
  WaitUntil_loop e fuel p deadline now w = Done (b, w') ->
  exists obs, observed w' = rev obs ++ observed w /\ loop_obs deadline now b obs.
Proof.
  revert now w. induction fuel as [|fuel IH]; intros now w; cbn [WaitUntil_loop];
    destruct (Z.ltb_spec now deadline) as [Hlt|Hge].
  - discriminate.
  - intros (w1 & c & Hy & _ & _ & _ & ->)%load_complete_Done.
    apply yield_Done in Hy as [Hle _].
    exists [ObsFlag b]. split; [|constructor; lia].
    cbn. f_equal. apply Hle.
  - unfold bind at 1. unfold sys_futex_wait at 1, ret at 1. unfold bind at 1.
    destruct (load_complete e p w) as [[c w1]| | |] eqn:Hl; try discriminate.
    apply load_complete_Done in Hl as (w0 & c0 & Hy & _ & _ & _ & ->).
    apply yield_Done in Hy as [Hle _].
    assert (observed w0 = observed w) as Hobs by apply Hle.
    destruct c.
    + intros [= <- <-]. exists [ObsFlag true]. split; [|constructor; lia].
      cbn. f_equal. exact Hobs.
    + unfold bind, MonoTime_Now. intros H. apply IH in H as (obs & Ho & Hl).
      exists (ObsFlag false :: ObsClock (clock e (n_clock (observe (ObsFlag false) w0))) :: obs).
      split; [|constructor; [lia | exact Hl]].
      rewrite Ho. cbn. rewrite <- !app_assoc. cbn. rewrite Hobs. reflexivity.
  - intros (w1 & c & Hy & _ & _ & _ & ->)%load_complete_Done.
    apply yield_Done in Hy as [Hle _].
    exists [ObsFlag b]. split; [|constructor; lia].
    cbn. f_equal. apply Hle.
Qed.

(** The observations [WaitUntil] makes, oldest first, and what it returns. *)
Lemma WaitUntil_obs (e : Env) (fuel p : nat) (deadline : Z)
    (w : World) (b : bool) (w' : World) :
  WaitUntil e fuel p deadline w = Done (b, w') ->
  exists obs, observed w' = rev obs ++ observed w /\ wait_obs deadline b obs.
Proof.
  unfold WaitUntil. unfold bind at 1.
  destruct (load_complete e p w) as [[c w1]| | |] eqn:Hl; try discriminate.
  apply load_complete_Done in Hl as (w0 & c0 & Hy & _ & _ & _ & ->).
  apply yield_Done in Hy as [Hle _].
  assert (observed w0 = observed w) as Hobs by apply Hle.
  destruct c.
  - intros [= <- <-]. exists [ObsFlag true]. split; [|constructor].
    cbn. f_equal. exact Hobs.
  - unfold bind, MonoTime_Now. intros H.
    apply WaitUntil_loop_obs in H as (obs & Ho & Hl).
    eexists (ObsFlag false :: ObsClock _ :: obs).
    split; [|constructor; exact Hl].
    rewrite Ho. cbn. rewrite <- !app_assoc. cbn. rewrite Hobs. reflexivity.
Qed.

Lemma loop_obs_facts (deadline now : Z) (b : bool) (obs : list Observation) :
  loop_obs deadline now b obs ->
  last obs = Some (ObsFlag b) /\
  (b = true <-> In (ObsFlag true) obs) /\
  (b = false -> deadline <= now \/ exists t, In (ObsClock t) obs /\ deadline <= t) /\
  (now < deadline -> seen_before_deadline deadline obs = true -> b = true).
Proof.
  induction 1 as [now b Hge|now Hlt|now t b obs Hlt _ (IH1 & IH2 & IH3 & IH4)].
  - repeat split; auto.
    + intros ->. left. reflexivity.
    + intros [[= ->]|[]]. reflexivity.
    + lia.
  - repeat split; auto.
    + intros _. left. reflexivity.
    + discriminate.
  - repeat split.
    + change (ObsFlag false :: ObsClock t :: obs)
        with ([ObsFlag false; ObsClock t] ++ obs).
      destruct obs as [|o obs]; [discriminate|].
      rewrite last_app_cons. cbn [last] in *. exact IH1.
    + intros Hb. right. right. apply IH2, Hb.
    + intros [[=]|[[=]|Hin]]. apply IH2, Hin.
    + intros Hb. right. destruct (IH3 Hb) as [Hge|(t' & Hin & Hge)].
      * exists t. split; [right; left; reflexivity | exact Hge].
      * exists t'. split; [right; right; exact Hin | exact Hge].
    + intros _. cbn [seen_before_deadline].
      destruct (Z.leb_spec deadline t); [discriminate|]. apply IH4. lia.
Qed.

Lemma wait_obs_facts (deadline : Z) (b : bool) (obs : list Observation) :
  wait_obs deadline b obs ->
  last obs = Some (ObsFlag b) /\
  (b = true <-> In (ObsFlag true) obs) /\
  (head obs = Some (ObsFlag true) -> obs = [ObsFlag true]) /\
  (seen_before_deadline deadline obs = true -> b = true) /\
  (b = false -> exists t, In (ObsClock t) obs /\ deadline <= t).
Proof.
  destruct 1 as [|t b obs Hl].
  - repeat split; auto.
    + intros _. left. reflexivity.
    + discriminate.
  - destruct (loop_obs_facts _ _ _ _ Hl) as (L1 & L2 & L3 & L4).
    repeat split.
    + change (ObsFlag false :: ObsClock t :: obs)
        with ([ObsFlag false; ObsClock t] ++ obs).
      destruct obs as [|o obs]; [discriminate|].
      rewrite last_app_cons. cbn [last] in *. exact L1.
    + intros Hb. right. right. apply L2, Hb.
    + intros [[=]|[[=]|Hin]]. apply L2, Hin.
    + discriminate.
    + cbn [seen_before_deadline].
      destruct (Z.leb_spec deadline t); [discriminate|]. apply L4. lia.
    + intros Hb. destruct (L3 Hb) as [Hge|(t' & Hin & Hge)].
      * exists t. split; [right; left; reflexivity | exact Hge].
      * exists t'. split; [right; right; exact Hin | exact Hge].
Qed.

(** Once the clock has read the deadline or later the wait makes one more
    load, its last. *)
Lemma loop_obs_stops (deadline now : Z) (b : bool) (obs : list Observation) :
  loop_obs deadline now b obs ->
  (deadline <= now -> exists b', obs = [ObsFlag b']) /\
  forall pre t post,
    obs = pre ++ ObsClock t :: post -> deadline <= t ->
    exists b', post = [ObsFlag b'].
Proof.
  induction 1 as [now b Hge|now Hlt|now t0 b obs Hlt Hl [IH0 IH]].
  - split; [eauto|]. intros [|o [|o' pre]] t post Heq; discriminate.
  - split; [eauto|]. intros [|o [|o' pre]] t post Heq; discriminate.
  - split; [lia|]. intros [|o [|o' pre]] t post Heq Hge.
    + discriminate.
    + injection Heq as _ <- <-. apply IH0, Hge.
    + injection Heq as _ _ ->. apply (IH pre t post eq_refl Hge).
Qed.

Lemma wait_obs_stops (deadline : Z) (b : bool) (obs : list Observation) :
  wait_obs deadline b obs ->
  forall pre t post,
    obs = pre ++ ObsClock t :: post -> deadline <= t ->
    exists b', post = [ObsFlag b'].
Proof.
  destruct 1 as [|t0 b obs Hl].
  - intros [|o [|o' pre]] t post Heq; discriminate.
  - destruct (loop_obs_stops _ _ _ _ Hl) as [IH0 IH].
    intros [|o [|o' pre]] t post Heq Hge.
    + discriminate.
    + injection Heq as _ <- <-. apply IH0, Hge.
    + injection Heq as _ _ ->. apply (IH pre t post eq_refl Hge).
Qed.

(** C6, as stated, fails: the deadline (50) has passed at the first reading
    of the clock (100), every load made before that reading gave 0, the
    handler sets the flag afterwards, and the last load, made once the loop
    is over, returns true. *)
Lemma WaitUntil_true_after_deadline :
  match WaitUntil
          (example_env (fun _ => 100)
             (fun k => if (k =? 1)%nat then [0; 0; 0]%nat else []))
          1 0 50
          (example_world [ThreadInfo_new] [mkCollector 7 (Some 0%nat)]
             [mkCell (mkSignalData 0 7 (mkCompletionFlag 0)) Live (Pending 7)])
  with
  | Done (b, w') =>
      b = true /\
      rev (observed w') = [ObsFlag false; ObsClock 100; ObsFlag true] /\
      seen_before_deadline 50 (rev (observed w')) = false
  | _ => False
  end.
Proof. vm_compute. repeat split. Qed.

(** ** [TriggerAsync] *)

Lemma InitSignalHandlerUnlocked_Done (signum : Z) (w : World) :
  exists b w0, InitSignalHandlerUnlocked signum w = Done (b, w0) /\
               same_memory w w0.
Proof.
  unfold InitSignalHandlerUnlocked.
  repeat match goal with
         | |- context [let '(_, _) := ?x in _] => destruct x eqn:?
         end.
  do 2 eexists. split; [reflexivity|].
  unfold same_memory. cbn. repeat split.
Qed.

Lemma insert_app_length {A} (l : list A) (x y : A) :
  <[length l := y]> (l ++ [x]) = l ++ [y].
Proof.
  rewrite insert_app_r_alt by lia. rewrite Nat.sub_diag. reflexivity.
Qed.

Lemma lookup_app_length {A} (l : list A) (x : A) :
  (l ++ [x]) !! length l = Some x.
Proof. apply list_lookup_middle. reflexivity. Qed.

(** What [TriggerAsync] does on a fresh collector: it fails without a trace
    when the handler cannot be installed, it frees its block again when the
    signal cannot be queued, and otherwise it leaves the block, holding the
    target's id and the destination, with the pending signal. *)
Lemma TriggerAsync_fresh (e : Env) (this : nat) (tid : Z) (stk : nat) (w : World) :
  collectors_ w !! this = Some (mkCollector 0 None) ->
  exists b w0,
    InitSignalHandlerUnlocked (g_stack_trace_signum w) w = Done (b, w0) /\
    same_memory w w0 /\
    TriggerAsync e this tid stk w =
    if negb b then
      Done (mkStatus kNotSupported
              "unable to take thread stack: signal handler unavailable", w0)
    else if sigqueue_ok e tid then
      Done (Status_OK,
            put_collector_at this (mkCollector tid (Some (length (heap w))))
              (push_cell (queued_cell tid stk) w0))
    else
      Done (mkStatus kNotFound
              "unable to deliver signal: process may have exited",
            push_cell (undelivered_cell tid stk) w0).
Proof.
  intros Hc.
  destruct (InitSignalHandlerUnlocked_Done (g_stack_trace_signum w) w)
    as (b & w0 & Hinit & Hsame).
  exists b, w0. split; [exact Hinit|]. split; [exact Hsame|].
  destruct Hsame as (_ & _ & _ & _ & Hheap & _).
  unfold TriggerAsync. unfold bind at 1. unfold get_collector. rewrite Hc.
  cbn [sig_data_ tid_ negb andb Z.eqb].
  unfold bind at 1. unfold get at 1. unfold bind at 1. rewrite Hinit.
  destruct b; cbn [negb]; [|reflexivity].
  unfold bind at 1. unfold new_SignalData at 1.
  unfold bind at 1. unfold deref at 1. cbn [heap set_heap].
  rewrite lookup_app_length. cbn [alloc].
  unfold bind at 1. unfold store at 1, modify at 1.
  unfold bind at 1. unfold deref at 1. cbn [heap set_heap put_cell].
  rewrite insert_app_length, lookup_app_length. cbn [alloc set_sig].
  unfold bind at 1. unfold store at 1, modify at 1.
  unfold bind at 1. unfold rt_tgsigqueueinfo.
  destruct (sigqueue_ok e tid).
  - unfold bind at 1. unfold set_pc. cbn [heap set_heap put_cell].
    rewrite !insert_app_length, lookup_app_length.
    unfold ret at 1. cbn [negb]. unfold bind at 1.
    unfold put_collector, modify, ret.
    unfold put_collector_at, push_cell, queued_cell, put_cell, set_heap,
      set_collectors. cbn.
    rewrite !insert_app_length, Hheap. reflexivity.
  - unfold ret at 1. cbn [negb]. unfold bind at 1.
    unfold delete, bind, deref. cbn [heap set_heap put_cell].
    rewrite !insert_app_length, lookup_app_length. cbn [alloc set_sig].
    unfold store, modify, ret.
    unfold push_cell, undelivered_cell, put_cell, set_heap. cbn.
    rewrite !insert_app_length. reflexivity.
Qed.

Lemma TriggerAsync_Done_fresh (e : Env) (this : nat) (tid : Z) (stk : nat)
    (w : World) (s : Status) (w1 : World) :
  TriggerAsync e this tid stk w = Done (s, w1) ->
  collectors_ w !! this = Some (mkCollector 0 None).
Proof.
  unfold TriggerAsync. unfold bind at 1. unfold get_collector.
  destruct (collectors_ w !! this) as [[t [q|]]|]; try discriminate.
  cbn [sig_data_ tid_ andb negb].
  destruct (Z.eqb_spec t 0) as [->|]; [reflexivity|discriminate].
Qed.

(** ** [RevokeSigData] and [AwaitCollection] *)

Lemma exchange_eq (e : Env) (p : nat) (v : Z) (w w1 : World) (d : Cell) :
  yield e w = Done (tt, w1) -> heap w1 !! p = Some d -> alloc d <> Freed ->
  exchange e p v w =
  Done (queued_of d, put_cell p (set_sig (set_queued_to_tid v) d) w1).
Proof.
  intros Hy Hp Ha. unfold exchange, bind. rewrite Hy.
  rewrite (deref_live p w1 d Hp Ha). reflexivity.
Qed.

Lemma exchange_Done (e : Env) (p : nat) (v old : Z) (w w2 : World) :
  exchange e p v w = Done (old, w2) ->
  exists w1 d, yield e w = Done (tt, w1) /\ heap w1 !! p = Some d /\
               alloc d <> Freed /\ old = queued_of d /\
               w2 = put_cell p (set_sig (set_queued_to_tid v) d) w1.
Proof.
  unfold exchange, bind.
  destruct (yield e w) as [[[] w1]| | |] eqn:Hy; try discriminate.
  destruct (deref p w1) as [[d w1']| | |] eqn:Hd; try discriminate.
  apply deref_Done in Hd as (Hp & Ha & ->).
  unfold store, modify, ret. intros [= <- <-]. eauto 10.
Qed.

(** The world [RevokeSigData] leaves when it gives the block up. *)
Lemma leak_and_forget (p this : nat) (tid : Z) (d : Cell) (w : World) :
  heap w !! p = Some d -> alloc d <> Freed ->
  (let* _ := leak p in
   let* _ := put_collector this (mkCollector tid None) in
   ret false) w =
  Done (false, put_collector_at this (mkCollector tid None)
                 (put_cell p (set_alloc Leaked d) w)).
Proof.
  intros Hp Ha. unfold bind, leak, bind. rewrite (deref_live p w d Hp Ha).
  reflexivity.
Qed.

(** The world [RevokeSigData] leaves when it frees the block. *)
Lemma delete_and_forget (p this : nat) (tid : Z) (d : Cell) (w : World) :
  heap w !! p = Some d -> alloc d <> Freed ->
  (let* _ := delete p in
   let* _ := put_collector this (mkCollector tid None) in
   ret true) w =
  Done (true, put_collector_at this (mkCollector tid None)
                (put_cell p (set_alloc Freed d) w)).
Proof.
  intros Hp Ha. unfold bind, delete, bind. rewrite (deref_live p w d Hp Ha).
  reflexivity.
Qed.

Lemma RevokeSigData_unfold (e : Env) (fuel this : nat) (w : World)
    (c : StackTraceCollector) (p : nat) :
  collectors_ w !! this = Some c -> sig_data_ c = Some p ->
  RevokeSigData e fuel this w =
  match exchange e p kNotInUse w with
  | Done (old_val, w2) =>
      if old_val =? tid_ c then
        (let* _ := leak p in
         let* _ := put_collector this (mkCollector (tid_ c) None) in
         ret false) w2
      else if negb (old_val =? kDumpStarted) then Aborted
      else match WaitUntil e fuel p MonoTime_Max w2 with
           | Done (true, w3) =>
               (let* _ := delete p in
                let* _ := put_collector this (mkCollector (tid_ c) None) in
                ret true) w3
           | Done (false, _) => Aborted
           | Aborted => Aborted
           | Fault => Fault
           | Waiting => Waiting
           end
  | Aborted => Aborted
  | Fault => Fault
  | Waiting => Waiting
  end.
Proof.
  intros Hc Hp. unfold RevokeSigData. unfold bind at 1. unfold get_collector.
  rewrite Hc, Hp. unfold bind at 1.
  destruct (exchange e p kNotInUse w) as [[old w2]| | |]; try reflexivity.
  destruct (old =? tid_ c); [reflexivity|].
  destruct (negb (old =? kDumpStarted)); [reflexivity|].
  unfold bind at 1.
  destruct (WaitUntil e fuel p MonoTime_Max w2) as [[[] w3]| | |]; reflexivity.
Qed.

(** A handler step never aborts and never waits; neither do the waits of the
    tracer abort. *)
Lemma run_handlers_not_Aborted (e : Env) (qs : list nat) (w : World) :
  run_handlers e qs w <> Aborted.
Proof.
  revert w. induction qs as [|q qs IH]; intros w; simpl; [discriminate|].
  unfold bind. destruct (handler_step_outcome e q w) as [[w' ->]| ->];
    [apply IH | discriminate].
Qed.

Lemma load_complete_not_Aborted (e : Env) (p : nat) (w : World) :
  load_complete e p w <> Aborted.
Proof.
  unfold load_complete, bind, yield.
  pose proof (run_handlers_not_Aborted e (sched e (n_yield w)) (set_n_yield S w)).
  destruct (run_handlers _ _ _) as [[[] w1]| | |]; try congruence.
  unfold deref. destruct (heap w1 !! p) as [c|]; [|discriminate].
  destruct (alloc c); discriminate.
Qed.

Lemma WaitUntil_loop_not_Aborted (e : Env) (fuel p : nat) (deadline now : Z)
    (w : World) :
  WaitUntil_loop e fuel p deadline now w <> Aborted.
Proof.
  revert now w. induction fuel as [|fuel IH]; intros now w; cbn [WaitUntil_loop];
    destruct (now <? deadline); try discriminate;
    try apply load_complete_not_Aborted.
  unfold bind at 1, sys_futex_wait at 1, ret at 1. unfold bind at 1.
  pose proof (load_complete_not_Aborted e p w).
  destruct (load_complete e p w) as [[[] w1]| | |]; try congruence.
  - discriminate.
  - unfold bind, MonoTime_Now. apply IH.
Qed.

Lemma WaitUntil_not_Aborted (e : Env) (fuel p : nat) (deadline : Z) (w : World) :
  WaitUntil e fuel p deadline w <> Aborted.
Proof.
  unfold WaitUntil. unfold bind at 1.
  pose proof (load_complete_not_Aborted e p w).
  destruct (load_complete e p w) as [[[] w1]| | |]; try congruence.
  - discriminate.
  - unfold bind, MonoTime_Now. apply WaitUntil_loop_not_Aborted.
Qed.

(** With [MonoTime::Max()] for a deadline the wait cannot time out: it only
    returns once a load has seen the flag set. *)
Lemma WaitUntil_loop_Max (e : Env) (fuel p : nat) (now : Z) (w : World)
    (b : bool) (w' : World) :
  (forall n, clock e n < MonoTime_Max) -> now < MonoTime_Max ->
  WaitUntil_loop e fuel p MonoTime_Max now w = Done (b, w') ->
  b = true /\ exists d, heap w' !! p = Some d /\ alloc d <> Freed /\ flag_of d <> 0.
Proof.
  intros Hclk. revert now w. induction fuel as [|fuel IH]; intros now w Hnow;
    cbn [WaitUntil_loop]; destruct (Z.ltb_spec now MonoTime_Max); try lia;
    try discriminate.
  unfold bind at 1, sys_futex_wait at 1, ret at 1. unfold bind at 1.
  destruct (load_complete e p w) as [[c w1]| | |] eqn:Hl; try discriminate.
  apply load_complete_Done in Hl as (w0 & d & _ & Hp & Ha & Hb & ->).
  destruct c.
  - intros [= <- <-]. split; [reflexivity|]. exists d. cbn. repeat split; auto.
    intros Hz. rewrite Hz in Hb. discriminate.
  - unfold bind, MonoTime_Now. apply IH, Hclk.
Qed.

Lemma WaitUntil_Max (e : Env) (fuel p : nat) (w : World) (b : bool) (w' : World) :
  (forall n, clock e n < MonoTime_Max) ->
  WaitUntil e fuel p MonoTime_Max w = Done (b, w') ->
  b = true /\ exists d, heap w' !! p = Some d /\ alloc d <> Freed /\ flag_of d <> 0.
Proof.
  intros Hclk. unfold WaitUntil. unfold bind at 1.
  destruct (load_complete e p w) as [[c w1]| | |] eqn:Hl; try discriminate.
  apply load_complete_Done in Hl as (w0 & d & _ & Hp & Ha & Hb & ->).
  destruct c.
  - intros [= <- <-]. split; [reflexivity|]. exists d. cbn. repeat split; auto.
    intros Hz. rewrite Hz in Hb. discriminate.
  - unfold bind, MonoTime_Now. apply WaitUntil_loop_Max; [exact Hclk|apply Hclk].
Qed.

Lemma mem_le_refl (w : World) : mem_le w w.
Proof.
  unfold mem_le. repeat split;
    auto using Forall2_diag, cell_le_refl, info_le_refl.
Qed.

Lemma mem_le_trans (a b c : World) : mem_le a b -> mem_le b c -> mem_le a c.
Proof.
  unfold mem_le.
  intros (A1 & A2 & A3 & A4 & A5 & A6 & A7 & A8 & A9 & A10)
         (B1 & B2 & B3 & B4 & B5 & B6 & B7 & B8 & B9 & B10).
  repeat split; try congruence; try lia.
  - eapply Forall2_trans; [|exact A9|exact B9]. apply cell_le_trans.
  - eapply Forall2_trans; [|exact A10|exact B10]. apply info_le_trans.
Qed.

Lemma yield_mem_le (e : Env) (w w' : World) :
  yield e w = Done (tt, w') -> mem_le w w' /\ n_yield w' = S (n_yield w).
Proof.
  intros [Hle _]%yield_Done.
  destruct Hle as (A1 & A2 & A3 & A4 & A5 & A6 & A7 & A8 & A9 & A10 & A11).
  cbn in *. unfold mem_le. repeat split; try congruence; try lia; auto.
Qed.

Lemma mem_le_lookup_cell (w w' : World) (p : nat) (c : Cell) :
  mem_le w w' -> heap w !! p = Some c ->
  exists c', heap w' !! p = Some c' /\ cell_le c c'.
Proof.
  intros Hle Hp. destruct Hle as (_ & _ & _ & _ & _ & _ & _ & _ & Hh & _).
  eapply Forall2_lookup_l in Hh as (c' & ? & ?); eauto.
Qed.

Lemma mem_le_lookup_info (w w' : World) (i : nat) (info : ThreadInfo) :
  mem_le w w' -> infos_ w !! i = Some info ->
  exists info', infos_ w' !! i = Some info' /\ info_le info info'.
Proof.
  intros Hle Hp. destruct Hle as (_ & _ & _ & _ & _ & _ & _ & _ & _ & Hh).
  eapply Forall2_lookup_l in Hh as (c' & ? & ?); eauto.
Qed.

Lemma load_complete_mem_le (e : Env) (p : nat) (w : World) (b : bool) (w' : World) :
  load_complete e p w = Done (b, w') -> mem_le w w'.
Proof.
  intros (w1 & c & Hy & _ & _ & _ & ->)%load_complete_Done.
  apply yield_mem_le in Hy as [Hle _]. exact Hle.
Qed.

Lemma MonoTime_Now_mem_le (e : Env) (w : World) :
  mem_le w (observe (ObsClock (clock e (n_clock w))) (set_n_clock S w)).
Proof.
  unfold mem_le. cbn. repeat split;
    auto using Forall2_diag, cell_le_refl, info_le_refl.
Qed.

Lemma WaitUntil_loop_mem_le (e : Env) (fuel p : nat) (deadline now : Z)
    (w : World) (b : bool) (w' : World) :
  WaitUntil_loop e fuel p deadline now w = Done (b, w') -> mem_le w w'.
Proof.
  revert now w. induction fuel as [|fuel IH]; intros now w; cbn [WaitUntil_loop];
    destruct (now <? deadline); try discriminate;
    try apply load_complete_mem_le.
  unfold bind at 1, sys_futex_wait at 1, ret at 1. unfold bind at 1.
  destruct (load_complete e p w) as [[c w1]| | |] eqn:Hl; try discriminate.
  apply load_complete_mem_le in Hl. destruct c.
  - intros [= <- <-]. exact Hl.
  - unfold bind, MonoTime_Now. intros H%IH.
    eapply mem_le_trans; [exact Hl|].
    eapply mem_le_trans; [apply MonoTime_Now_mem_le | exact H].
Qed.

Lemma WaitUntil_mem_le (e : Env) (fuel p : nat) (deadline : Z)
    (w : World) (b : bool) (w' : World) :
  WaitUntil e fuel p deadline w = Done (b, w') -> mem_le w w'.
Proof.
  unfold WaitUntil. unfold bind at 1.
  destruct (load_complete e p w) as [[c w1]| | |] eqn:Hl; try discriminate.
  apply load_complete_mem_le in Hl. destruct c.
  - intros [= <- <-]. exact Hl.
  - unfold bind, MonoTime_Now. intros H%WaitUntil_loop_mem_le.
    eapply mem_le_trans; [exact Hl|].
    eapply mem_le_trans; [apply MonoTime_Now_mem_le | exact H].
Qed.

(** C3: [AwaitCollection] runs the timed wait and drops what it returns; the
    status is OK exactly when [RevokeSigData], run next, returns true, and
    the [TimedOut] status otherwise.  There is a run in which the timed wait
    returns false, the handler having won its CAS just before the deadline
    check, and the status is OK all the same. *)
Theorem AwaitCollection_follows_RevokeSigData (e : Env) (fuel this : nat)
    (deadline : Z) (w : World) (c : StackTraceCollector) (p : nat) :
  collectors_ w !! this = Some c -> sig_data_ c = Some p ->
  (forall s w',
      AwaitCollection e fuel this deadline w = Done (s, w') <->
      exists timely w1 completed,
        WaitUntil e fuel p deadline w = Done (timely, w1) /\
        RevokeSigData e fuel this w1 = Done (completed, w') /\
        s = if completed then Status_OK
            else mkStatus kTimedOut
                   "thread did not respond: maybe it is blocking signals") /\
  (let e0 := example_env (fun _ => 100)
               (fun k => match k with
                         | 1%nat => [0%nat]
                         | 3%nat => [0%nat; 0%nat]
                         | _ => []
                         end) in
   let w0 := example_world [ThreadInfo_new] [mkCollector 7 (Some 0%nat)]
               [queued_cell 7 0] in
   match WaitUntil e0 1 0 50 w0 with
   | Done (false, w1) =>
       match RevokeSigData e0 1 0 w1 with
       | Done (true, w') => AwaitCollection e0 1 0 50 w0 = Done (Status_OK, w')
       | _ => False
       end
   | _ => False
   end).
Proof.
  intros Hc Hp. split.
  - intros s w'. unfold AwaitCollection. unfold bind at 1. unfold get_collector.
    rewrite Hc, Hp. unfold bind at 1.
    destruct (WaitUntil e fuel p deadline w) as [[timely w1]| | |].
    2-4: (split; [discriminate|intros (? & ? & ? & Hx & _); discriminate Hx]).
    unfold bind.
    destruct (RevokeSigData e fuel this w1) as [[completed w2]| | |] eqn:Hr.
    2-4: (split; [discriminate|];
          intros (? & ? & ? & Hx & Hy & _); injection Hx as <- <-;
          rewrite Hr in Hy; discriminate Hy).
    split.
    + intros H. exists timely, w1, completed.
      destruct completed; cbn in H; injection H as <- <-; auto.
    + intros (t' & w1' & c' & Hx & Hy & ->). injection Hx as <- <-.
      rewrite Hr in Hy. injection Hy as <- <-. destruct completed; reflexivity.
  - vm_compute. reflexivity.
Qed.

Lemma AwaitCollection_follows_RevokeSigData_witness :
  let e := example_env (fun _ => 100) (fun _ => []) in
  let w := example_world [ThreadInfo_new] [mkCollector 7 (Some 0%nat)]
             [queued_cell 7 0] in
  match AwaitCollection e 1 0 50 w with
  | Done (s, w') =>
      exists timely w1 completed,
        WaitUntil e 1 0 50 w = Done (timely, w1) /\
        RevokeSigData e 1 0 w1 = Done (completed, w') /\
        s = if completed then Status_OK
            else mkStatus kTimedOut
                   "thread did not respond: maybe it is blocking signals"
  | _ => False
  end.
Proof.
  intros e w.
  destruct (AwaitCollection e 1 0 50 w) as [[s w']| | |] eqn:Ha;
    try (vm_compute in Ha; discriminate).
  exact (proj1 (proj1 (AwaitCollection_follows_RevokeSigData e 1 0 50 w
                         (mkCollector 7 (Some 0%nat)) 0 eq_refl eq_refl) s w') Ha).
Defined.

(** ** The handler after a revocation, and on the wrong thread *)

(** Whenever the CAS of the handler finds another value than the id of its
    thread, the handler returns and the world is as it was. *)
Lemma HandleStackTraceSignal_CAS_fails (e : Env) (my_tid : Z) (p : nat)
    (w : World) (d : Cell) :
  heap w !! p = Some d -> alloc d <> Freed -> queued_of d <> my_tid ->
  compare_exchange_strong p my_tid kDumpStarted w = Done (false, w) /\
  HandleStackTraceSignal e my_tid (Some p) w = Done (tt, w).
Proof.
  intros Hp Ha Hq.
  assert (compare_exchange_strong p my_tid kDumpStarted w = Done (false, w)) as H.
  { unfold compare_exchange_strong, bind. rewrite (deref_live p w d Hp Ha).
    apply Z.eqb_neq in Hq. unfold queued_of in Hq. rewrite Hq. reflexivity. }
  split; [exact H|]. unfold HandleStackTraceSignal, bind. rewrite H. reflexivity.
Qed.

Lemma RevokeSigData_false_inv (e : Env) (fuel this : nat) (w w1 : World)
    (c : StackTraceCollector) (p : nat) :
  collectors_ w !! this = Some c -> sig_data_ c = Some p ->
  RevokeSigData e fuel this w = Done (false, w1) ->
  exists w0 d,
    yield e w = Done (tt, w0) /\ heap w0 !! p = Some d /\ alloc d <> Freed /\
    queued_of d = tid_ c /\
    w1 = put_collector_at this (mkCollector (tid_ c) None)
           (put_cell p (mkCell (set_queued_to_tid kNotInUse (sig d)) Leaked
                               (handler d)) w0).
Proof.
  intros Hc Hp. rewrite (RevokeSigData_unfold e fuel this w c p Hc Hp).
  destruct (exchange e p kNotInUse w) as [[old w2]| | |] eqn:Hx; try discriminate.
  apply exchange_Done in Hx as (w0 & d & Hy & Hd & Ha & -> & ->).
  destruct (Z.eqb_spec (queued_of d) (tid_ c)) as [Heq|Hne].
  - rewrite (leak_and_forget p this (tid_ c)
               (set_sig (set_queued_to_tid kNotInUse) d)).
    + intros [= <-]. exists w0, d. repeat split; auto.
      rewrite put_cell_put_cell. reflexivity.
    + eapply heap_put_cell_eq; eauto.
    + exact Ha.
  - destruct (negb _); [discriminate|].
    destruct (WaitUntil _ _ _ _ _) as [[[] w3]| | |]; try discriminate.
    unfold bind. destruct (delete p w3) as [[[] w4]| | |]; discriminate.
Qed.

(** C1: once [RevokeSigData] has taken the target's id out of
    [queued_to_tid] (it returned false), the CAS of a handler run on any
    thread fails and the handler returns: nothing in the world has changed,
    neither the destination buffer nor [result_ready]. *)
Theorem handler_after_revocation_returns_at_CAS (e : Env) (fuel this : nat)
    (w w1 : World) (c : StackTraceCollector) (p : nat) (my_tid : Z) :
  collectors_ w !! this = Some c -> sig_data_ c = Some p ->
  RevokeSigData e fuel this w = Done (false, w1) ->
  0 < my_tid ->
  (exists d, heap w1 !! p = Some d /\ alloc d = Leaked /\
             queued_of d = kNotInUse) /\
  compare_exchange_strong p my_tid kDumpStarted w1 = Done (false, w1) /\
  HandleStackTraceSignal e my_tid (Some p) w1 = Done (tt, w1).
Proof.
  intros Hc Hp Hr Htid.
  destruct (RevokeSigData_false_inv e fuel this w w1 c p Hc Hp Hr)
    as (w0 & d & _ & Hd & Ha & _ & ->).
  assert (heap (put_collector_at this (mkCollector (tid_ c) None)
                  (put_cell p (mkCell (set_queued_to_tid kNotInUse (sig d))
                                      Leaked (handler d)) w0)) !! p =
          Some (mkCell (set_queued_to_tid kNotInUse (sig d)) Leaked (handler d)))
    as Hd1 by exact (heap_put_cell_eq p _ _ w0 Hd).
  split; [eexists; split; [exact Hd1|split; reflexivity]|].
  eapply HandleStackTraceSignal_CAS_fails; [exact Hd1|discriminate|].
  unfold queued_of, kNotInUse. cbn. lia.
Qed.

Lemma handler_after_revocation_returns_at_CAS_witness :
  let e := example_env (fun _ => 100) (fun _ => []) in
  let w := example_world [ThreadInfo_new] [mkCollector 7 (Some 0%nat)]
             [queued_cell 7 0] in
  match RevokeSigData e 0 0 w with
  | Done (_, w1) => HandleStackTraceSignal e 7 (Some 0%nat) w1 = Done (tt, w1)
  | _ => False
  end.
Proof.
  intros e w.
  destruct (RevokeSigData e 0 0 w) as [[b w1]| | |] eqn:Hr;
    try (vm_compute in Hr; discriminate).
  assert (b = false) as -> by (vm_compute in Hr; congruence).
  apply (handler_after_revocation_returns_at_CAS e 0 0 w w1
           (mkCollector 7 (Some 0%nat)) 0 7 eq_refl eq_refl Hr).
  reflexivity.
Defined.

Lemma TriggerAsync_OK_inv (e : Env) (this : nat) (tid : Z) (stk : nat)
    (w w1 : World) :
  TriggerAsync e this tid stk w = Done (Status_OK, w1) ->
  exists w0,
    same_memory w w0 /\ sigqueue_ok e tid = true /\
    w1 = put_collector_at this (mkCollector tid (Some (length (heap w))))
           (push_cell (queued_cell tid stk) w0).
Proof.
  intros H.
  assert (collectors_ w !! this = Some (mkCollector 0 None)) as Hc.
  { revert H. unfold TriggerAsync. unfold bind at 1. unfold get_collector.
    destruct (collectors_ w !! this) as [[t [q|]]|]; try discriminate.
    cbn [sig_data_ tid_ andb negb].
    destruct (Z.eqb_spec t 0) as [->|]; [reflexivity|discriminate]. }
  destruct (TriggerAsync_fresh e this tid stk w Hc) as (b & w0 & _ & Hs & Ht).
  rewrite Ht in H. exists w0. split; [exact Hs|].
  destruct b; cbn [negb] in H; [|discriminate].
  destruct (sigqueue_ok e tid); [|discriminate].
  injection H as <-. auto.
Qed.

(** C10: the handler compares [queued_to_tid] with the id of the thread it
    runs on.  On a thread other than the one [TriggerAsync] stored, its CAS
    fails and it returns with the world unchanged: right after the trigger,
    and also after any steps of the handlers of the process, the intended
    one included. *)
Theorem misdirected_signal_is_ignored (e : Env) (this : nat) (tid : Z)
    (stk : nat) (w w1 : World) (my_tid : Z) :
  TriggerAsync e this tid stk w = Done (Status_OK, w1) ->
  my_tid <> tid ->
  exists p,
    collectors_ w1 !! this = Some (mkCollector tid (Some p)) /\
    heap w1 !! p = Some (queued_cell tid stk) /\
    HandleStackTraceSignal e my_tid (Some p) w1 = Done (tt, w1) /\
    (0 < my_tid ->
     forall qs w2,
       run_handlers e qs w1 = Done (tt, w2) ->
       HandleStackTraceSignal e my_tid (Some p) w2 = Done (tt, w2)).
Proof.
  intros Ht Hne.
  assert (this < length (collectors_ w))%nat as Hlen.
  { revert Ht. unfold TriggerAsync. unfold bind at 1. unfold get_collector.
    destruct (collectors_ w !! this) eqn:E; [|discriminate].
    intros _. eapply lookup_lt_Some, E. }
  apply TriggerAsync_OK_inv in Ht as (w0 & Hs & _ & ->).
  destruct Hs as (_ & Hcol & _ & _ & Hheap & _).
  exists (length (heap w)).
  assert (heap (put_collector_at this (mkCollector tid (Some (length (heap w))))
                  (push_cell (queued_cell tid stk) w0)) !! length (heap w) =
          Some (queued_cell tid stk)) as Hp.
  { cbn. rewrite Hheap. apply lookup_app_length. }
  split; [cbn; rewrite Hcol; apply list_lookup_insert_eq, Hlen|].
  split; [exact Hp|]. split.
  - eapply HandleStackTraceSignal_CAS_fails; [exact Hp|discriminate|].
    cbn. congruence.
  - intros Hpos qs w2 Hrun.
    apply run_handlers_trans, handlers_trans_world_le in Hrun.
    destruct (world_le_lookup_cell _ _ _ _ Hrun Hp) as (d & Hd & Hle).
    destruct Hle as (Ha & _ & _ & Hq & _).
    eapply HandleStackTraceSignal_CAS_fails; [exact Hd| |].
    + rewrite Ha. discriminate.
    + cbn in Hq. unfold kDumpStarted in Hq. destruct Hq as [Hq|[_ Hq]]; lia.
Qed.

Lemma misdirected_signal_is_ignored_witness :
  let e := example_env (fun _ => 100) (fun _ => []) in
  let w := example_world [ThreadInfo_new] [mkCollector 0 None] [] in
  match TriggerAsync e 0 7 0 w with
  | Done (_, w1) => HandleStackTraceSignal e 8 (Some 0%nat) w1 = Done (tt, w1)
  | _ => False
  end.
Proof.
  intros e w.
  destruct (TriggerAsync e 0 7 0 w) as [[s w1]| | |] eqn:Ht;
    try (vm_compute in Ht; discriminate).
  assert (s = Status_OK) as -> by (vm_compute in Ht; injection Ht as <- _; reflexivity).
  destruct (misdirected_signal_is_ignored e 0 7 0 w w1 8 Ht) as (p & Hc & Hp & H & _);
    [discriminate|].
  assert (p = 0%nat) as ->.
  { apply lookup_lt_Some in Hp.
    assert (length (heap w1) = 1%nat) as Hl
        by (vm_compute in Ht; injection Ht as <-; reflexivity).
    lia. }
  exact H.
Defined.

(** ** The invariant is kept by the handlers *)

Lemma Inv_step (e : Env) (busy busy' : option nat) (w w' : World) (q : nat)
    (c c' : Cell) :
  Inv e busy w ->
  heap w !! q = Some c ->
  heap w' = <[q := c']> (heap w) ->
  collectors_ w' = collectors_ w ->
  n_yield w' = n_yield w ->
  Forall2 info_le (infos_ w) (infos_ w') ->
  (forall i info info',
      infos_ w !! i = Some info -> infos_ w' !! i = Some info' ->
      ThreadInfo.stack info' = ThreadInfo.stack info \/
      (i = stack (sig c) /\ alloc c = Live /\ past_collect (handler c'))) ->
  cell_ok c' -> alloc c' = alloc c -> stack (sig c') = stack (sig c) ->
  (forall t, handler c' = Pending t -> handler c = Pending t) ->
  (past_collect (handler c) -> past_collect (handler c')) ->
  ((0 < steps_left (handler c'))%nat ->
   (0 < steps_left (handler c))%nat \/
   exists k, (k < n_yield w)%nat /\ In q (sched e k)) ->
  (alloc c' = Live -> queued_of c' = kNotInUse -> busy' = Some q) ->
  (forall p, busy = Some p -> p <> q -> busy' = Some p) ->
  Inv e busy' w'.
Proof.
  intros (I1 & I2 & I3 & I4 & I5 & I6 & I7 & I8)
         Hq Hheap Hcol Hny Hinfos Hstack Hok Halloc Hstk Hpend Hpast Hsteps Hqueued
         Hbusy.
  assert (q < length (heap w))%nat as Hlt by (eapply lookup_lt_Some, Hq).
  assert (forall p x, heap w' !! p = Some x ->
            (p = q /\ x = c') \/ (p <> q /\ heap w !! p = Some x)) as Hlook.
  { intros p x. rewrite Hheap. intros Hx%list_lookup_insert_Some.
    destruct Hx as [(-> & -> & _)|[Hne Hx]]; auto. }
  assert (forall p x, heap w !! p = Some x ->
            exists x', heap w' !! p = Some x' /\
                       (p = q /\ x = c /\ x' = c' \/ p <> q /\ x' = x)) as Hkeep.
  { intros p x Hx. rewrite Hheap. destruct (decide (p = q)) as [->|Hne].
    - exists c'. rewrite list_lookup_insert_eq by exact Hlt.
      split; [reflexivity|]. left. repeat split. congruence.
    - exists x. rewrite list_lookup_insert_ne by congruence. auto. }
  unfold Inv. rewrite Hcol, Hny. repeat split.
  - rewrite Hheap. apply Forall_insert; assumption.
  - intros p x Hx Hlive. destruct (Hlook p x Hx) as [[-> ->]|[Hne Hx']].
    + rewrite Hstk. apply (I2 q c Hq). congruence.
    + apply (I2 p x Hx' Hlive).
  - intros i col p Hi Hp. destruct (I3 i col p Hi Hp) as (x & Hx & Ha & Hs & Ht & Hpd).
    destruct (Hkeep p x Hx) as (x' & Hx' & [(-> & -> & ->)|[Hne ->]]).
    + exists c'. repeat split; try congruence. intros t Hc'. apply Hpd, Hpend, Hc'.
    + exists x. auto.
  - intros i info' Hi' Hn.
    destruct (Forall2_lookup_r _ _ _ _ _ Hinfos Hi') as (info & Hi & Hle).
    destruct (Hstack i info info' Hi Hi') as [Hsame|(-> & Hlive & Hpc)].
    + rewrite Hsame in Hn. specialize (I4 i info Hi Hn).
      destruct (collectors_ w !! i) as [[t [p|]]|].
      * destruct I4 as (x & Hx & Hpx).
        destruct (Hkeep p x Hx) as (x' & Hx' & [(-> & -> & ->)|[Hne ->]]); eauto.
      * destruct Hle as (_ & -> & _). exact I4.
      * destruct Hle as (_ & -> & _). exact I4.
    + destruct (I2 q c Hq Hlive) as (col & Hc & Hs). rewrite Hc.
      destruct col as [t s]. cbn in Hs. subst s.
      exists c'. split; [|exact Hpc].
      rewrite Hheap. apply list_lookup_insert_eq, Hlt.
  - intros p x Hx Hst. destruct (Hlook p x Hx) as [[-> ->]|[Hne Hx']].
    + destruct (Hsteps Hst) as [Hold|Hk]; [apply (I5 q c Hq Hold)|exact Hk].
    + apply (I5 p x Hx' Hst).
  - rewrite <- (Forall2_length _ _ _ Hinfos). exact I6.
  - intros p x Hx Hlive Hz. destruct (Hlook p x Hx) as [[-> ->]|[Hne Hx']].
    + auto.
    + apply Hbusy; [|exact Hne]. apply (I7 p x Hx' Hlive Hz).
  - intros i info' col Hi' Hc Hf.
    destruct (Forall2_lookup_r _ _ _ _ _ Hinfos Hi') as (info & Hi & Hle).
    apply (I8 i info col Hi Hc). destruct Hle as (_ & <- & _). exact Hf.
Qed.

Lemma Inv_cell_ok (e : Env) (busy : option nat) (w : World) (p : nat) (c : Cell) :
  Inv e busy w -> heap w !! p = Some c -> cell_ok c.
Proof. intros (I1 & _) Hp. eapply Forall_lookup_1; eauto. Qed.

Lemma handler_trans_Inv (e : Env) (busy : option nat) (q : nat) (w w' : World) :
  Inv e busy w ->
  (exists k, (k < n_yield w)%nat /\ In q (sched e k)) ->
  handler_trans e q w w' -> Inv e busy w'.
Proof.
  intros HI Hsched Ht.
  inversion Ht as [Hq|c Hq Hh|c t Hq Hh Ha Hcas|c t Hq Hh Ha Hcas
                   |c t info Hq Hh Ha Hi|c t Hq Hh Ha]; subst; try exact HI;
    pose proof (Inv_cell_ok e busy w q c HI Hq) as Hok;
    unfold cell_ok in Hok; rewrite Hh in Hok.
  - (* the CAS succeeds *)
    assert (alloc c = Live /\ 0 < queued_to_tid (sig c) /\ flag_of c = 0)
      as (Hal & Ht0 & Hf).
    { destruct (alloc c); try contradiction.
      - tauto.
      - unfold kNotInUse, queued_of in Hok. lia. }
    eapply (Inv_step e busy busy w _ q c); try exact HI; try exact Hq;
      try reflexivity.
    1: apply Forall2_diag, info_le_refl.
    1: intros i info info' H1 H2; left; cbn in H2; congruence.
    1: { unfold cell_ok. cbn. rewrite Hal. unfold queued_of, flag_of. cbn.
         unfold flag_of in Hf. auto. }
    all: try (cbn; discriminate); try (rewrite Hh; cbn; tauto);
      try (intros _; right; exact Hsched); auto.
  - (* the CAS fails *)
    assert (alloc c = Leaked /\ queued_of c = kNotInUse) as (Hal & Hz).
    { destruct (alloc c); try contradiction.
      - destruct Hok as (_ & Heq & _). unfold queued_of in Heq. congruence.
      - tauto. }
    eapply (Inv_step e busy busy w _ q c); try exact HI; try exact Hq;
      try reflexivity.
    1: apply Forall2_diag, info_le_refl.
    1: intros i info info' H1 H2; left; cbn in H2; congruence.
    1: { unfold cell_ok. cbn. rewrite Hal. exact Hz. }
    all: try (cbn; discriminate); try (rewrite Hh; cbn; tauto);
      try (cbn; lia); try (cbn; rewrite Hal; discriminate); auto.
  - (* Collect *)
    assert (alloc c = Live) as Hal by (destruct (alloc c); tauto).
    rewrite Hal in Hok.
    eapply (Inv_step e busy busy w _ q c); try exact HI; try exact Hq;
      try reflexivity.
    1: { cbn. eapply Forall2_insert_same; [apply info_le_refl|exact Hi|].
         unfold info_le. cbn. auto. }
    1: { intros i info0 info' H1 H2. cbn in H2.
         destruct (decide (i = stack (sig c))) as [->|Hne].
         - right. cbn. auto.
         - left. rewrite list_lookup_insert_ne in H2 by congruence. congruence. }
    1: { unfold cell_ok. cbn. rewrite Hal. exact Hok. }
    all: try (cbn; discriminate); try (cbn; tauto);
      try (intros _; left; rewrite Hh; cbn; lia); auto.
    destruct HI as (_ & _ & _ & _ & _ & _ & I7 & _). intros _. apply (I7 q c Hq Hal).
  - (* Signal *)
    assert (alloc c = Live) as Hal by (destruct (alloc c); tauto).
    rewrite Hal in Hok.
    eapply (Inv_step e busy busy w _ q c); try exact HI; try exact Hq;
      try reflexivity.
    1: apply Forall2_diag, info_le_refl.
    1: intros i info info' H1 H2; left; cbn in H2; congruence.
    1: { unfold cell_ok. cbn. rewrite Hal. unfold queued_of, flag_of. cbn.
         destruct Hok as (_ & Hqd & _). auto. }
    all: try (cbn; discriminate); try (cbn; tauto); try (cbn; lia); auto.
    destruct HI as (_ & _ & _ & _ & _ & _ & I7 & _). intros _. apply (I7 q c Hq Hal).
Qed.

Lemma handlers_trans_Inv (e : Env) (busy : option nat) (qs : list nat) (w w' : World) :
  Inv e busy w ->
  (forall q, In q qs -> exists k, (k < n_yield w)%nat /\ In q (sched e k)) ->
  handlers_trans e qs w w' -> Inv e busy w'.
Proof.
  intros HI Hs Ht. induction Ht as [w|q qs w w1 w2 H1 _ IH]; [exact HI|].
  apply IH.
  - eapply handler_trans_Inv; [exact HI| |exact H1]. apply Hs. left. reflexivity.
  - intros q' Hq'. apply handler_trans_world_le in H1.
    destruct H1 as (_ & _ & _ & _ & _ & _ & -> & _). apply Hs. right. exact Hq'.
Qed.

(** Under the invariant no handler step faults. *)
Lemma handler_step_Inv_Done (e : Env) (busy : option nat) (q : nat) (w : World) :
  Inv e busy w -> exists w', handler_step e q w = Done (tt, w').
Proof.
  intros HI. destruct (handler_step_outcome e q w) as [?|Hf]; [assumption|].
  exfalso. revert Hf. unfold handler_step.
  destruct (heap w !! q) as [c|] eqn:Hq; [|discriminate].
  pose proof (Inv_cell_ok e busy w q c HI Hq) as Hok. unfold cell_ok in Hok.
  assert (forall h, handler c = h -> h <> NoSignal -> h <> Returned ->
                    alloc c <> Freed) as Hnf.
  { intros h Hh H1 H2 Hfr. rewrite Hh, Hfr in Hok. destruct h; auto. }
  destruct (handler c) as [|t|t|t|] eqn:Hh; try discriminate.
  - unfold bind, compare_exchange_strong, bind.
    rewrite (deref_live q w c Hq) by (eapply Hnf; [reflexivity|discriminate..]).
    unfold store, modify, ret, set_pc.
    repeat (cbn; case_innermost); discriminate.
  - assert (alloc c = Live) as Hal by (destruct (alloc c); tauto).
    unfold bind, handler_Collect, bind.
    rewrite (deref_live q w c Hq) by (rewrite Hal; discriminate).
    destruct HI as (_ & I2 & _ & _ & _ & I6 & _).
    destruct (I2 q c Hq Hal) as (col & Hc & _).
    apply lookup_lt_Some in Hc.
    destruct (lookup_lt_is_Some_2 (infos_ w) (stack (sig c))) as [info Hi]; [lia|].
    unfold get_info. rewrite Hi. unfold put_info, modify, set_pc.
    repeat (cbn; case_innermost); discriminate.
  - assert (alloc c = Live) as Hal by (destruct (alloc c); tauto).
    unfold bind, Signal, bind.
    rewrite (deref_live q w c Hq) by (rewrite Hal; discriminate).
    unfold store, modify, set_pc.
    repeat (cbn; case_innermost); discriminate.
Qed.

Lemma Inv_n_yield (e : Env) (busy : option nat) (w : World) :
  Inv e busy w -> Inv e busy (set_n_yield S w).
Proof.
  intros (I1 & I2 & I3 & I4 & I5 & I6 & I7 & I8). unfold Inv. cbn.
  repeat split; auto.
  intros p c Hp Hs. destruct (I5 p c Hp Hs) as (k & Hk & Hin).
  exists k. split; [lia|exact Hin].
Qed.

Lemma run_handlers_Inv (e : Env) (busy : option nat) (qs : list nat) (w : World) :
  Inv e busy w ->
  (forall q, In q qs -> exists k, (k < n_yield w)%nat /\ In q (sched e k)) ->
  exists w', run_handlers e qs w = Done (tt, w') /\ Inv e busy w'.
Proof.
  revert w. induction qs as [|q qs IH]; intros w HI Hs.
  - exists w. split; [reflexivity|exact HI].
  - destruct (handler_step_Inv_Done e busy q w HI) as (w1 & H1).
    pose proof (handler_step_trans e q w w1 H1) as Ht.
    assert (Inv e busy w1) as HI1
      by (eapply handler_trans_Inv; [exact HI| |exact Ht]; apply Hs; left; reflexivity).
    destruct (IH w1 HI1) as (w2 & H2 & HI2).
    { intros q' Hq'. apply handler_trans_world_le in Ht.
      destruct Ht as (_ & _ & _ & _ & _ & _ & -> & _). apply Hs. right. exact Hq'. }
    exists w2. split; [|exact HI2]. cbn. unfold bind. rewrite H1. exact H2.
Qed.

(** [yield] returns and keeps the invariant. *)
Lemma yield_Inv (e : Env) (busy : option nat) (w : World) :
  Inv e busy w ->
  exists w', yield e w = Done (tt, w') /\ Inv e busy w' /\ mem_le w w' /\
             n_yield w' = S (n_yield w).
Proof.
  intros HI. unfold yield.
  destruct (run_handlers_Inv e busy (sched e (n_yield w)) (set_n_yield S w))
    as (w' & Hr & HI').
  - apply Inv_n_yield, HI.
  - intros q Hq. exists (n_yield w). split; [cbn; lia|exact Hq].
  - exists w'. split; [exact Hr|]. split; [exact HI'|].
    apply (yield_mem_le e w w'). exact Hr.
Qed.

(** ** Waiting under the invariant *)

Lemma Inv_ext (e : Env) (busy : option nat) (w w' : World) :
  heap w' = heap w -> collectors_ w' = collectors_ w ->
  infos_ w' = infos_ w -> n_yield w' = n_yield w ->
  Inv e busy w -> Inv e busy w'.
Proof. unfold Inv. intros -> -> -> ->. tauto. Qed.

Lemma mem_le_observe (o : Observation) (w : World) : mem_le w (observe o w).
Proof.
  unfold mem_le. cbn. repeat split;
    auto using Forall2_diag, cell_le_refl, info_le_refl.
Qed.

Lemma held_mem_le (w w' : World) (p : nat) : mem_le w w' -> held w p -> held w' p.
Proof. intros (Hc & _) (i & col & H1 & H2). exists i, col. rewrite Hc. auto. Qed.

Lemma Inv_held_live (e : Env) (busy : option nat) (w : World) (p : nat) :
  Inv e busy w -> held w p ->
  exists c, heap w !! p = Some c /\ alloc c = Live.
Proof.
  intros (_ & _ & I3 & _) (i & col & H1 & H2).
  destruct (I3 i col p H1 H2) as (c & Hc & Ha & _). eauto.
Qed.

Lemma steps_left_pc_le (h h' : HandlerPc) :
  pc_le h h' -> past_collect h \/ (0 < steps_left h)%nat ->
  (steps_left h' <= steps_left h)%nat.
Proof. destruct h, h'; cbn; intros; try lia; try tauto. Qed.

(** A handler that has won its CAS and is scheduled makes a step. *)
Lemma handlers_trans_progress (e : Env) (qs : list nat) (w w' : World)
    (p : nat) (c0 : Cell) :
  handlers_trans e qs w w' -> In p qs -> heap w !! p = Some c0 ->
  (0 < steps_left (handler c0))%nat ->
  exists c, heap w' !! p = Some c /\
            (steps_left (handler c) < steps_left (handler c0))%nat.
Proof.
  intros Ht. revert c0. induction Ht as [w|q qs w w1 w2 H1 H2 IH];
    intros c0 Hin Hp Hs; [destruct Hin|].
  assert (forall c1, heap w1 !! p = Some c1 ->
            past_collect (handler c1) ->
            (steps_left (handler c1) < steps_left (handler c0))%nat ->
            exists c, heap w2 !! p = Some c /\
                      (steps_left (handler c) < steps_left (handler c0))%nat) as Hrest.
  { intros c1 Hc1 Hpast Hlt. apply handlers_trans_world_le in H2.
    destruct (world_le_lookup_cell _ _ _ _ H2 Hc1) as (c & Hc & Hle).
    exists c. split; [exact Hc|].
    destruct Hle as (_ & _ & Hpc & _).
    assert (steps_left (handler c) <= steps_left (handler c1))%nat; [|lia].
    apply steps_left_pc_le; [exact Hpc|left; exact Hpast]. }
  destruct (decide (q = p)) as [->|Hne].
  - inversion H1 as [Hq|c Hq Hh|c t Hq Hh Ha Hcas|c t Hq Hh Ha Hcas
                     |c t info Hq Hh Ha Hi|c t Hq Hh Ha]; subst;
      try (assert (c = c0) as -> by congruence);
      try (rewrite Hh in Hs; cbn in Hs; lia); try congruence.
    + destruct Hh as [Hh|Hh]; rewrite Hh in Hs; cbn in Hs; lia.
    + apply (Hrest (set_handler (Signalling t) c0)).
      * cbn. apply list_lookup_insert_eq. eapply lookup_lt_Some, Hq.
      * exact I.
      * rewrite Hh. cbn. lia.
    + apply (Hrest (mkCell (set_result_ready (mkCompletionFlag 1) (sig c0))
                           (alloc c0) Returned)).
      * cbn. apply list_lookup_insert_eq. eapply lookup_lt_Some, Hq.
      * exact I.
      * rewrite Hh. cbn. lia.
  - destruct Hin as [?|Hin]; [congruence|].
    pose proof (handler_trans_world_le e q w w1 H1) as Hle.
    destruct (world_le_lookup_cell _ _ _ _ Hle Hp) as (c1 & Hc1 & Hle1).
    destruct Hle1 as (_ & _ & Hpc & _).
    assert (steps_left (handler c1) <= steps_left (handler c0))%nat as Hle01
      by (apply steps_left_pc_le; [exact Hpc|right; exact Hs]).
    destruct (Nat.eq_dec (steps_left (handler c1)) 0%nat) as [Hz|Hnz].
    + apply (Hrest c1 Hc1); [|lia].
      destruct (handler c0), (handler c1); cbn in *; try lia; tauto.
    + destruct (IH c1 Hin Hc1) as (c & Hc & Hlt); [lia|].
      exists c. split; [exact Hc|lia].
Qed.

Lemma load_complete_Inv (e : Env) (busy : option nat) (p : nat) (w : World) :
  Inv e busy w -> held w p ->
  exists b w' c,
    load_complete e p w = Done (b, w') /\ Inv e busy w' /\ mem_le w w' /\
    n_yield w' = S (n_yield w) /\ n_clock w' = n_clock w /\
    heap w' !! p = Some c /\ alloc c = Live /\ b = negb (flag_of c =? 0) /\
    (forall c0, heap w !! p = Some c0 -> In p (sched e (n_yield w)) ->
                (0 < steps_left (handler c0))%nat ->
                (steps_left (handler c) < steps_left (handler c0))%nat).
Proof.
  intros HI Hh.
  destruct (yield_Inv e busy w HI) as (w1 & Hy & HI1 & Hle & Hny).
  destruct (Inv_held_live e busy w1 p HI1 (held_mem_le _ _ _ Hle Hh))
    as (c & Hc & Ha).
  exists (negb (flag_of c =? 0)), (observe (ObsFlag (negb (flag_of c =? 0))) w1), c.
  split.
  { unfold load_complete, bind. rewrite Hy.
    rewrite (deref_live p w1 c Hc) by (rewrite Ha; discriminate). reflexivity. }
  split; [eapply Inv_ext; [..|exact HI1]; reflexivity|].
  split; [eapply mem_le_trans; [exact Hle|apply mem_le_observe]|].
  split; [exact Hny|].
  split; [destruct (yield_Done e w w1 Hy) as [Hw _]; apply Hw|].
  repeat split; auto.
  intros c0 Hc0 Hin Hs.
  destruct (yield_Done e w w1 Hy) as [_ Ht].
  destruct (handlers_trans_progress e _ _ _ p c0 Ht Hin Hc0 Hs) as (c' & Hc' & Hlt).
  congruence.
Qed.

(** ** Termination of the waits *)

Lemma terminates_ret {A} (m : nat -> M A) (w : World) (Q : A -> World -> Prop)
    (a : A) (w' : World) :
  (forall fuel, m fuel w = Done (a, w')) -> Q a w' -> terminates m w Q.
Proof. intros Hm HQ. exists 0%nat, a, w'. auto. Qed.

Lemma terminates_bind {A B} (m : nat -> M A) (k : nat -> A -> M B) (w : World)
    (Q1 : A -> World -> Prop) (Q2 : B -> World -> Prop) :
  terminates m w Q1 ->
  (forall a w1, Q1 a w1 -> terminates (fun fuel => k fuel a) w1 Q2) ->
  terminates (fun fuel => bind (m fuel) (k fuel)) w Q2.
Proof.
  intros (F1 & a & w1 & HQ1 & H1) Hk.
  destruct (Hk a w1 HQ1) as (F2 & b & w2 & HQ2 & H2).
  exists (Nat.max F1 F2), b, w2. split; [exact HQ2|].
  intros fuel Hf. unfold bind. rewrite H1 by lia. apply H2. lia.
Qed.

Lemma terminates_weaken {A} (m : nat -> M A) (w : World)
    (Q Q' : A -> World -> Prop) :
  terminates m w Q -> (forall a w', Q a w' -> Q' a w') -> terminates m w Q'.
Proof. intros (F & a & w' & HQ & H) HQQ. exists F, a, w'. auto. Qed.

Lemma terminates_ext {A} (m m' : nat -> M A) (w : World) (Q : A -> World -> Prop) :
  (forall fuel, m' fuel w = m fuel w) -> terminates m w Q -> terminates m' w Q.
Proof. intros He (F & a & w' & HQ & H). exists F, a, w'. split; [auto|]. intros. rewrite He. auto. Qed.

(** What a computation that returns satisfies, it satisfies as the result
    of a run. *)
Lemma terminates_run {A} (m : nat -> M A) (w : World)
    (Q : A -> World -> Prop) :
  terminates m w Q ->
  terminates m w (fun a w' => Q a w' /\ exists fuel, m fuel w = Done (a, w')).
Proof.
  intros (F & a & w' & HQ & H). exists F, a, w'.
  split; [|exact H]. split; [exact HQ|]. exists F. apply H, le_n.
Qed.

Lemma Inv_clock (e : Env) (busy : option nat) (o : Observation) (w : World) :
  Inv e busy w -> Inv e busy (observe o (set_n_clock S w)).
Proof. apply Inv_ext; reflexivity. Qed.

Lemma held_observe_clock (o : Observation) (w : World) (p : nat) :
  held w p -> held (observe o (set_n_clock S w)) p.
Proof. intros H. exact H. Qed.

(** The loop of a timed wait comes to its end once the clock has reached
    the deadline: it makes at most one round per reading below it. *)
Lemma WaitUntil_loop_terminates (e : Env) (busy : option nat) (p : nat)
    (deadline : Z) (j : nat) :
  (forall m, (j <= m)%nat -> deadline <= clock e m) ->
  forall (d : nat) (w : World) (now : Z),
    (j - n_clock w <= d)%nat -> Inv e busy w -> held w p ->
    terminates (fun fuel => WaitUntil_loop e fuel p deadline now) w
      (fun _ w' => Inv e busy w' /\ mem_le w w').
Proof.
  intros Hj.
  assert (forall w now, deadline <= now -> Inv e busy w -> held w p ->
            terminates (fun fuel => WaitUntil_loop e fuel p deadline now) w
              (fun _ w' => Inv e busy w' /\ mem_le w w')) as Hlast.
  { intros w now Hnow HI Hh.
    destruct (load_complete_Inv e busy p w HI Hh)
      as (b & w' & c & Hl & HI' & Hle & _).
    apply (terminates_ret _ _ _ b w'); [|auto].
    intros [|fuel]; cbn [WaitUntil_loop];
      destruct (Z.ltb_spec now deadline); try lia; exact Hl. }
  induction d as [|d IH]; intros w now Hd HI Hh;
    (destruct (Z.ltb_spec now deadline) as [Hlt|Hge]; [|apply Hlast; auto]);
    destruct (load_complete_Inv e busy p w HI Hh)
      as (b & w1 & c & Hl & HI1 & Hle1 & _ & Hclk1 & _).
  - (* the next reading is at or past the deadline *)
    destruct b.
    + exists 1%nat, true, w1. split; [auto|]. intros [|fuel] Hf; [lia|].
      cbn [WaitUntil_loop]. destruct (Z.ltb_spec now deadline); [|lia].
      unfold bind at 1, sys_futex_wait at 1, ret at 1. unfold bind at 1.
      rewrite Hl. reflexivity.
    + destruct (Hlast (observe (ObsClock (clock e (n_clock w1))) (set_n_clock S w1))
                  (clock e (n_clock w1))) as (F & b & w2 & (HI2 & Hle2) & H2).
      * apply Hj. lia.
      * apply Inv_clock, HI1.
      * apply held_observe_clock. eapply held_mem_le; eauto.
      * exists (S F), b, w2. split.
        -- split; [exact HI2|]. eapply mem_le_trans; [exact Hle1|].
           eapply mem_le_trans; [apply MonoTime_Now_mem_le|exact Hle2].
        -- intros [|fuel] Hf; [lia|].
           cbn [WaitUntil_loop]. destruct (Z.ltb_spec now deadline); [|lia].
           unfold bind at 1, sys_futex_wait at 1, ret at 1. unfold bind at 1.
           rewrite Hl. unfold bind, MonoTime_Now. apply H2. lia.
  - destruct b.
    + exists 1%nat, true, w1. split; [auto|]. intros [|fuel] Hf; [lia|].
      cbn [WaitUntil_loop]. destruct (Z.ltb_spec now deadline); [|lia].
      unfold bind at 1, sys_futex_wait at 1, ret at 1. unfold bind at 1.
      rewrite Hl. reflexivity.
    + destruct (IH (observe (ObsClock (clock e (n_clock w1))) (set_n_clock S w1))
                  (clock e (n_clock w1))) as (F & b & w2 & (HI2 & Hle2) & H2).
      * cbn. lia.
      * apply Inv_clock, HI1.
      * apply held_observe_clock. eapply held_mem_le; eauto.
      * exists (S F), b, w2. split.
        -- split; [exact HI2|]. eapply mem_le_trans; [exact Hle1|].
           eapply mem_le_trans; [apply MonoTime_Now_mem_le|exact Hle2].
        -- intros [|fuel] Hf; [lia|].
           cbn [WaitUntil_loop]. destruct (Z.ltb_spec now deadline); [|lia].
           unfold bind at 1, sys_futex_wait at 1, ret at 1. unfold bind at 1.
           rewrite Hl. unfold bind, MonoTime_Now. apply H2. lia.
Qed.

Lemma WaitUntil_terminates (e : Env) (busy : option nat) (p : nat)
    (deadline : Z) (w : World) :
  (exists j, forall m, (j <= m)%nat -> deadline <= clock e m) ->
  Inv e busy w -> held w p ->
  terminates (fun fuel => WaitUntil e fuel p deadline) w
    (fun _ w' => Inv e busy w' /\ mem_le w w').
Proof.
  intros [j Hj] HI Hh.
  destruct (load_complete_Inv e busy p w HI Hh)
    as (b & w1 & c & Hl & HI1 & Hle1 & _).
  destruct b.
  - apply (terminates_ret _ _ _ true w1); [|auto].
    intros fuel. unfold WaitUntil, bind. rewrite Hl. reflexivity.
  - destruct (WaitUntil_loop_terminates e busy p deadline j Hj
                (j - n_clock (observe (ObsClock (clock e (n_clock w1)))
                                      (set_n_clock S w1)))
                (observe (ObsClock (clock e (n_clock w1))) (set_n_clock S w1))
                (clock e (n_clock w1)))
      as (F & b & w2 & (HI2 & Hle2) & H2).
    + lia.
    + apply Inv_clock, HI1.
    + apply held_observe_clock. eapply held_mem_le; eauto.
    + exists F, b, w2. split.
      * split; [exact HI2|]. eapply mem_le_trans; [exact Hle1|].
        eapply mem_le_trans; [apply MonoTime_Now_mem_le|exact Hle2].
      * intros fuel Hf. unfold WaitUntil. unfold bind at 1. rewrite Hl.
        unfold bind, MonoTime_Now. apply H2, Hf.
Qed.

(** C6, as the code has it: [WaitUntil] returns true at once when the flag is
    already 1, and in general it returns what its last load of the flag gave,
    so it returns true exactly when one of its loads saw 1.  A load that saw
    1 before the clock reached the deadline gives true, and false is only
    returned after a reading of the clock at or past the deadline.  The wait
    gives up at the deadline: a reading of the clock at or past it is
    followed by one load, whose value is returned; so with a clock that
    comes to read the deadline or later, and the flag in a block that stays
    allocated (the invariant of the protocol), the call returns, for any
    fuel from some amount on. *)
Theorem WaitUntil_true_iff_flag_observed (e : Env) (fuel p : nat)
    (deadline : Z) (w : World) :
  let returned := fun (b : bool) (w' : World) =>
    exists obs,
      observed w' = rev obs ++ observed w /\
      last obs = Some (ObsFlag b) /\
      (b = true <-> In (ObsFlag true) obs) /\
      (head obs = Some (ObsFlag true) -> obs = [ObsFlag true]) /\
      (seen_before_deadline deadline obs = true -> b = true) /\
      (b = false -> exists t, In (ObsClock t) obs /\ deadline <= t) /\
      (forall pre t post,
          obs = pre ++ ObsClock t :: post -> deadline <= t ->
          post = [ObsFlag b]) in
  (forall c w1,
      heap w !! p = Some c -> flag_of c = 1 -> alloc c <> Freed ->
      yield e w = Done (tt, w1) ->
      WaitUntil e fuel p deadline w = Done (true, observe (ObsFlag true) w1)) /\
  (forall b w',
      WaitUntil e fuel p deadline w = Done (b, w') -> returned b w') /\
  (forall busy,
      (exists j, forall m, (j <= m)%nat -> deadline <= clock e m) ->
      Inv e busy w -> held w p ->
      terminates (fun fuel' => WaitUntil e fuel' p deadline) w returned).
Proof.
  intros returned.
  assert (forall fuel0 b w',
            WaitUntil e fuel0 p deadline w = Done (b, w') -> returned b w')
    as Hret.
  { intros fuel0 b w' H. apply WaitUntil_obs in H as (obs & Ho & Hw).
    exists obs. split; [exact Ho|].
    destruct (wait_obs_facts _ _ _ Hw) as (F1 & F2 & F3 & F4 & F5).
    repeat (split; [assumption|]).
    intros pre t post Heq Hge.
    destruct (wait_obs_stops _ _ _ Hw pre t post Heq Hge) as [b' ->].
    subst obs.
    change (pre ++ [ObsClock t; ObsFlag b'])
      with (pre ++ [ObsClock t] ++ [ObsFlag b']) in F1.
    rewrite app_assoc, last_snoc in F1. congruence. }
  split; [|split].
  - intros c w1 Hp Hf Ha Hy.
    pose proof Hy as [Hle _]%yield_Done.
    destruct (world_le_lookup_cell _ _ p c Hle Hp) as (c' & Hp' & Hc).
    destruct Hc as (Ha' & _ & _ & _ & Hf').
    assert (flag_of c' = 1) as Hf1 by (destruct Hf'; congruence).
    unfold WaitUntil, bind at 1, load_complete, bind. rewrite Hy.
    rewrite (deref_live p w1 c') by congruence.
    unfold modify, ret. unfold flag_of in Hf1. rewrite Hf1. reflexivity.
  - apply Hret.
  - intros busy Hdl HI Hheld.
    destruct (WaitUntil_terminates e busy p deadline w Hdl HI Hheld)
      as (F & b & w' & _ & H).
    exists F, b, w'. split; [|exact H]. apply (Hret F), H, le_n.
Qed.

Lemma WaitUntil_true_iff_flag_observed_witness :
  let e := example_env (fun _ => 100)
             (fun k => if (k =? 1)%nat then [0; 0; 0]%nat else []) in
  let w := example_world [ThreadInfo_new] [mkCollector 7 (Some 0%nat)]
             [mkCell (mkSignalData 0 7 (mkCompletionFlag 0)) Live (Pending 7)] in
  exists obs,
    last obs = Some (ObsFlag true) /\ (true = true <-> In (ObsFlag true) obs).
Proof.
  intros e w.
  destruct (WaitUntil e 1 0 50 w) as [[b w']| | |] eqn:E;
    try (vm_compute in E; discriminate).
  assert (b = true) as -> by (vm_compute in E; congruence).
  destruct (proj1 (proj2 (WaitUntil_true_iff_flag_observed e 1 0 50 w)) true w' E)
    as (obs & _ & H1 & H2 & _).
  exists obs. split; assumption.
Defined.

Lemma sched_fair_after (e : Env) (p k : nat) :
  EnvOk e -> In p (sched e k) ->
  forall n, exists j, (n <= j)%nat /\ In p (sched e j).
Proof.
  intros He Hk. induction n as [|n (j & Hj & Hin)].
  - exists k. split; [lia|exact Hk].
  - destruct (decide (n = j)) as [->|Hne].
    + destruct (sched_fair e He j p Hin) as (j' & Hj' & Hin').
      exists j'. split; [lia|exact Hin'].
    + exists j. split; [lia|exact Hin].
Qed.

Lemma taken_back_handler (c : Cell) :
  cell_ok c -> taken_back c ->
  (0 < steps_left (handler c))%nat /\ flag_of c = 0 \/
  handler c = Returned /\ flag_of c = 1.
Proof.
  unfold cell_ok, taken_back, kNotInUse. intros Hok [Ha Hq]. rewrite Ha in Hok.
  destruct (handler c); cbn; try contradiction; try tauto; try lia.
Qed.

Lemma taken_back_step (e : Env) (p : nat) (w w1 : World) (c0 : Cell) :
  Inv e (Some p) w -> Inv e (Some p) w1 -> mem_le w w1 ->
  heap w !! p = Some c0 -> taken_back c0 ->
  exists c1, heap w1 !! p = Some c1 /\ taken_back c1 /\
             (steps_left (handler c1) <= steps_left (handler c0))%nat.
Proof.
  intros HI HI1 Hle Hp [Ha Hq].
  destruct (mem_le_lookup_cell _ _ _ _ Hle Hp) as (c1 & Hp1 & Hc).
  pose proof (Inv_cell_ok _ _ _ _ _ HI Hp) as Hok.
  destruct (taken_back_handler c0 Hok (conj Ha Hq)) as [[Hs _]|[Hr _]];
    destruct Hc as (Ha1 & _ & Hpc & Hq1 & _).
  - exists c1. split; [exact Hp1|]. split.
    + split; [congruence|]. destruct Hq1 as [Hq1|[Hpend _]]; [congruence|].
      rewrite Hpend in Hs. cbn in Hs. lia.
    + apply steps_left_pc_le; [exact Hpc|right; exact Hs].
  - exists c1. split; [exact Hp1|]. split.
    + split; [congruence|]. destruct Hq1 as [Hq1|[Hpend _]]; [congruence|].
      congruence.
    + apply steps_left_pc_le; [exact Hpc|left; rewrite Hr; exact I].
Qed.

(** The wait without a deadline returns, with true, once the handler that
    has won its CAS has been scheduled for its remaining steps. *)
Lemma WaitUntil_loop_Max_terminates (e : Env) (p : nat) :
  EnvOk e ->
  forall (r : nat) (w : World) (now : Z) (c0 : Cell),
    Inv e (Some p) w -> held w p -> now < MonoTime_Max ->
    heap w !! p = Some c0 -> taken_back c0 ->
    (steps_left (handler c0) <= r)%nat ->
    terminates (fun fuel => WaitUntil_loop e fuel p MonoTime_Max now) w
      (fun b w' => b = true /\ Inv e (Some p) w' /\ mem_le w w' /\
                   exists c, heap w' !! p = Some c /\ taken_back c /\
                             flag_of c <> 0).
Proof.
  intros He.
  (* one round of the loop, given what the rest of the loop does *)
  assert (forall (w : World) (now : Z) (c0 : Cell) (r : nat),
    Inv e (Some p) w -> held w p -> now < MonoTime_Max ->
    heap w !! p = Some c0 -> taken_back c0 ->
    (forall w2 c2,
        Inv e (Some p) w2 -> held w2 p -> mem_le w w2 ->
        n_yield w2 = S (n_yield w) ->
        heap w2 !! p = Some c2 -> taken_back c2 ->
        (steps_left (handler c2) <= steps_left (handler c0))%nat ->
        (In p (sched e (n_yield w)) -> (0 < steps_left (handler c0))%nat ->
         (steps_left (handler c2) < steps_left (handler c0))%nat) ->
        flag_of c2 = 0 ->
        terminates (fun fuel => WaitUntil_loop e fuel p MonoTime_Max
                                  (clock e (n_clock w2)))
          (observe (ObsClock (clock e (n_clock w2))) (set_n_clock S w2))
          (fun b w' => b = true /\ Inv e (Some p) w' /\
                       mem_le (observe (ObsClock (clock e (n_clock w2)))
                                       (set_n_clock S w2)) w' /\
                       exists c, heap w' !! p = Some c /\ taken_back c /\
                                 flag_of c <> 0)) ->
    terminates (fun fuel => WaitUntil_loop e fuel p MonoTime_Max now) w
      (fun b w' => b = true /\ Inv e (Some p) w' /\ mem_le w w' /\
                   exists c, heap w' !! p = Some c /\ taken_back c /\
                             flag_of c <> 0)) as Hround.
  { intros w now c0 r HI Hh Hnow Hp Htb Hrest.
    destruct (load_complete_Inv e (Some p) p w HI Hh)
      as (b & w1 & c1 & Hl & HI1 & Hle1 & Hny1 & Hclk1 & Hp1 & Ha1 & Hb & Hprog).
    destruct (taken_back_step e p w w1 c0 HI HI1 Hle1 Hp Htb)
      as (c1' & Hp1' & Htb1 & Hs1).
    assert (c1' = c1) as -> by congruence.
    destruct b.
    - exists 1%nat, true, w1. split.
      + split; [reflexivity|]. split; [exact HI1|]. split; [exact Hle1|].
        exists c1. split; [exact Hp1|]. split; [exact Htb1|].
        intros Hz. rewrite Hz in Hb. discriminate.
      + intros [|fuel] Hf; [lia|]. cbn [WaitUntil_loop].
        destruct (Z.ltb_spec now MonoTime_Max); [|lia].
        unfold bind at 1, sys_futex_wait at 1, ret at 1. unfold bind at 1.
        rewrite Hl. reflexivity.
    - destruct (Hrest w1 c1) as (F & b & w2 & (-> & HI2 & Hle2 & Hc2) & H2); auto.
      + eapply held_mem_le; eauto.
      + symmetry in Hb. apply negb_false_iff, Z.eqb_eq in Hb. exact Hb.
      + exists (S F), true, w2. split.
        * split; [reflexivity|]. split; [exact HI2|]. split; [|exact Hc2].
          eapply mem_le_trans; [exact Hle1|].
          eapply mem_le_trans; [apply MonoTime_Now_mem_le|exact Hle2].
        * intros [|fuel] Hf; [lia|]. cbn [WaitUntil_loop].
          destruct (Z.ltb_spec now MonoTime_Max); [|lia].
          unfold bind at 1, sys_futex_wait at 1, ret at 1. unfold bind at 1.
          rewrite Hl. unfold bind, MonoTime_Now. apply H2. lia. }
  induction r as [|r IHr]; intros w now c0 HI Hh Hnow Hp Htb Hr.
  - (* the handler has returned: the flag is set *)
    apply (Hround w now c0 0%nat); auto.
    intros w2 c2 HI2 Hh2 Hle2 Hny2 Hp2 Htb2 Hs2 _ Hf2. exfalso.
    destruct (taken_back_handler c2 (Inv_cell_ok _ _ _ _ _ HI2 Hp2) Htb2)
      as [[Hs _]|[_ Hf]]; [lia|congruence].
  - destruct (Nat.le_gt_cases (steps_left (handler c0)) r) as [Hle|Hgt];
      [eapply IHr; eauto|].
    (* the handler has steps to make: it is scheduled again *)
    destruct HI as (I1 & I2 & I3 & I4 & I5 & I6 & I7 & I8).
    destruct (I5 p c0 Hp) as (k & Hk & Hin); [lia|].
    destruct (sched_fair_after e p k He Hin (n_yield w)) as (j & Hj & Hinj).
    pose proof (conj I1 (conj I2 (conj I3 (conj I4 (conj I5 (conj I6 (conj I7 I8)))))))
      as HI.
    clear I1 I2 I3 I4 I5 I6 I7 I8 k Hk Hin.
    remember (j - n_yield w)%nat as d eqn:Hd.
    assert (j - n_yield w <= d)%nat as Hd' by lia. clear Hd.
    revert w now c0 HI Hh Hnow Hp Htb Hr Hgt Hj Hd'.
    induction d as [|d IHd]; intros w now c0 HI Hh Hnow Hp Htb Hr Hgt Hj Hd'.
    + apply (Hround w now c0 0%nat); auto.
      intros w2 c2 HI2 Hh2 Hle2 Hny2 Hp2 Htb2 Hs2 Hprog Hf2.
      assert (n_yield w = j) as Hnj by lia.
      eapply (terminates_weaken _ _ _ _ (IHr _ _ c2 _ _ _ _ _ _)); auto.
      Unshelve.
      all: try (apply Inv_clock; exact HI2); try exact Hh2;
        try apply (clock_below_max e He); try exact Hp2; try exact Htb2.
      rewrite Hnj in Hprog. specialize (Hprog Hinj). lia.
    + apply (Hround w now c0 0%nat); auto.
      intros w2 c2 HI2 Hh2 Hle2 Hny2 Hp2 Htb2 Hs2 Hprog Hf2.
      destruct (Nat.le_gt_cases (steps_left (handler c2)) r) as [Hle2'|Hgt2].
      * eapply (terminates_weaken _ _ _ _ (IHr _ _ c2 _ _ _ _ _ _)); auto.
        Unshelve.
        all: try (apply Inv_clock; exact HI2); try exact Hh2;
          try apply (clock_below_max e He); try exact Hp2; try exact Htb2;
          try exact Hle2'.
      * destruct (decide (n_yield w = j)) as [Hnj|Hnj].
        { rewrite Hnj in Hprog. specialize (Hprog Hinj). lia. }
        eapply (terminates_weaken _ _ _ _
                  (IHd _ _ c2 _ _ _ _ _ _ _ _ _)); auto.
        Unshelve.
        all: try (apply Inv_clock; exact HI2); try exact Hh2;
          try apply (clock_below_max e He); try exact Hp2; try exact Htb2;
          cbn; try lia.
Qed.

(** ** [RevokeSigData] and [AwaitCollection] keep the invariant and return *)

Lemma Inv_take_back (e : Env) (p : nat) (w : World) (d : Cell) :
  Inv e None w -> heap w !! p = Some d -> alloc d = Live ->
  queued_of d = kDumpStarted ->
  Inv e (Some p) (put_cell p (set_sig (set_queued_to_tid kNotInUse) d) w).
Proof.
  intros HI Hp Ha Hq.
  pose proof (Inv_cell_ok _ _ _ _ _ HI Hp) as Hok.
  eapply (Inv_step e None (Some p) w _ p d); try exact HI; try exact Hp;
    try reflexivity.
  1: apply Forall2_diag, info_le_refl.
  1: intros i info info' H1 H2; left; cbn in H2; congruence.
  1: { unfold cell_ok in *. cbn. rewrite Ha in *. unfold queued_of, flag_of in *.
       cbn. unfold kDumpStarted in Hq.
       destruct (handler d); try contradiction; try tauto; try lia. }
  all: auto; discriminate.
Qed.

Lemma Inv_release (e : Env) (busy : option nat) (this p : nat) (tid : Z)
    (w : World) (col : StackTraceCollector) (d c' : Cell) :
  Inv e busy w -> (forall q, busy = Some q -> q = p) ->
  collectors_ w !! this = Some col -> sig_data_ col = Some p ->
  heap w !! p = Some d -> cell_ok c' -> alloc c' <> Live ->
  (forall info, infos_ w !! this = Some info ->
                ok (ThreadInfo.status info) = true) ->
  Inv e None (put_collector_at this (mkCollector tid None) (put_cell p c' w)).
Proof.
  intros (I1 & I2 & I3 & I4 & I5 & I6 & I7 & I8) Hbusy Hcol Hsd Hp Hok Hnl Hst.
  assert (p < length (heap w))%nat as Hlt by (eapply lookup_lt_Some, Hp).
  assert (this < length (collectors_ w))%nat as Hlt' by (eapply lookup_lt_Some, Hcol).
  destruct (I3 this col p Hcol Hsd) as (d0 & Hd0 & Hd0a & Hd0s & _).
  assert (d0 = d) as -> by congruence.
  assert (forall p' x, <[p := c']> (heap w) !! p' = Some x -> alloc x = Live ->
            p' <> p /\ heap w !! p' = Some x) as Hlive.
  { intros p' x Hx Hl. apply list_lookup_insert_Some in Hx.
    destruct Hx as [(-> & -> & _)|[Hne Hx]]; [contradiction|auto]. }
  unfold Inv. cbn [heap collectors_ infos_ n_yield put_collector_at put_cell
                   set_collectors set_heap].
  repeat split.
  - apply Forall_insert; assumption.
  - intros p' x Hx Hl. destruct (Hlive p' x Hx Hl) as [Hne Hx'].
    destruct (I2 p' x Hx' Hl) as (col' & Hc' & Hs').
    exists col'. split; [|exact Hs'].
    rewrite list_lookup_insert_ne; [exact Hc'|].
    intros Heq. rewrite <- Heq in Hc'. congruence.
  - intros i col' p' Hi Hs'. apply list_lookup_insert_Some in Hi.
    destruct Hi as [(_ & <- & _)|[Hne Hi]]; [discriminate|].
    destruct (I3 i col' p' Hi Hs') as (x & Hx & Hxa & Hxs & Hrest).
    exists x. split; [|auto].
    rewrite list_lookup_insert_ne; [exact Hx|]. intros ->. congruence.
  - intros i info Hi Hn. destruct (decide (i = this)) as [->|Hne].
    + rewrite list_lookup_insert_eq by exact Hlt'. apply Hst, Hi.
    + rewrite list_lookup_insert_ne by congruence.
      specialize (I4 i info Hi Hn).
      destruct (collectors_ w !! i) as [[t [p'|]]|] eqn:Hci; auto.
      destruct I4 as (x & Hx & Hpx). exists x. split; [|exact Hpx].
      rewrite list_lookup_insert_ne; [exact Hx|]. intros ->.
      destruct (I3 i _ p' Hci eq_refl) as (x' & Hx' & _ & Hs' & _). congruence.
  - intros p' x Hx Hs. apply list_lookup_insert_Some in Hx.
    destruct Hx as [(-> & -> & _)|[Hne Hx]].
    + exfalso. unfold cell_ok in Hok.
      destruct (alloc x), (handler x); cbn in Hs; try contradiction; try lia.
    + apply (I5 p' x Hx Hs).
  - rewrite length_insert. exact I6.
  - intros p' x Hx Hl Hz. destruct (Hlive p' x Hx Hl) as [Hne Hx'].
    exfalso. apply Hne. apply Hbusy. apply (I7 p' x Hx' Hl Hz).
  - intros i info col' Hi Hc Hf. apply list_lookup_insert_Some in Hc.
    destruct Hc as [(_ & <- & _)|[Hne Hc]]; [reflexivity|].
    apply (I8 i info col' Hi Hc Hf).
Qed.

Lemma WaitUntil_Max_terminates (e : Env) (p : nat) (w : World) (c0 : Cell) :
  EnvOk e -> Inv e (Some p) w -> held w p ->
  heap w !! p = Some c0 -> taken_back c0 ->
  terminates (fun fuel => WaitUntil e fuel p MonoTime_Max) w
    (fun b w' => b = true /\ Inv e (Some p) w' /\ mem_le w w' /\
                 exists c, heap w' !! p = Some c /\ taken_back c /\
                           flag_of c <> 0).
Proof.
  intros He HI Hh Hp Htb.
  destruct (load_complete_Inv e (Some p) p w HI Hh)
    as (b & w1 & c1 & Hl & HI1 & Hle1 & _ & _ & Hp1 & _ & Hb & _).
  destruct (taken_back_step e p w w1 c0 HI HI1 Hle1 Hp Htb)
    as (c1' & Hp1' & Htb1 & _).
  assert (c1' = c1) as -> by congruence.
  destruct b.
  - apply (terminates_ret _ _ _ true w1).
    + intros fuel. unfold WaitUntil, bind. rewrite Hl. reflexivity.
    + split; [reflexivity|]. split; [exact HI1|]. split; [exact Hle1|].
      exists c1. split; [exact Hp1|]. split; [exact Htb1|].
      intros Hz. rewrite Hz in Hb. discriminate.
  - destruct (WaitUntil_loop_Max_terminates e p He (steps_left (handler c1))
                (observe (ObsClock (clock e (n_clock w1))) (set_n_clock S w1))
                (clock e (n_clock w1)) c1
                (Inv_clock _ _ _ _ HI1)
                (held_observe_clock _ _ _ (held_mem_le _ _ _ Hle1 Hh))
                (clock_below_max e He _) Hp1 Htb1 (le_n _))
      as (F & b & w2 & (-> & HI2 & Hle2 & Hc2) & H2).
    exists F, true, w2. split.
    + split; [reflexivity|]. split; [exact HI2|]. split; [|exact Hc2].
      eapply mem_le_trans; [exact Hle1|].
      eapply mem_le_trans; [apply MonoTime_Now_mem_le|exact Hle2].
    + intros fuel Hf. unfold WaitUntil. unfold bind at 1. rewrite Hl.
      unfold bind, MonoTime_Now. apply H2, Hf.
Qed.

Lemma mem_le_snap_le (w w' : World) : mem_le w w' -> snap_le w w'.
Proof.
  intros (Hc & Hn & Hcap & _ & _ & _ & _ & _ & _ & Hi).
  unfold snap_le. rewrite Hc. auto.
Qed.

Lemma snap_le_trans (a b c : World) : snap_le a b -> snap_le b c -> snap_le a c.
Proof.
  intros (A1 & A2 & A3 & A4) (B1 & B2 & B3 & B4).
  unfold snap_le. repeat split; try congruence.
  eapply Forall2_trans; [|exact A1|exact B1]. apply info_le_trans.
Qed.

Lemma snap_le_refl (w : World) : snap_le w w.
Proof. unfold snap_le. auto using Forall2_diag, info_le_refl. Qed.

Lemma snap_le_release (this p : nat) (col : StackTraceCollector) (c : Cell)
    (w : World) :
  snap_le w (put_collector_at this col (put_cell p c w)).
Proof.
  unfold snap_le. cbn. rewrite length_insert.
  auto using Forall2_diag, info_le_refl.
Qed.

Lemma snap_le_status (w w' : World) (i : nat) :
  snap_le w w' ->
  (forall info, infos_ w !! i = Some info -> ok (ThreadInfo.status info) = true) ->
  forall info', infos_ w' !! i = Some info' -> ok (ThreadInfo.status info') = true.
Proof.
  intros (Hi & _) Hok info' Hi'.
  destruct (Forall2_lookup_r _ _ _ _ _ Hi Hi') as (info & H1 & (_ & Hs & _)).
  rewrite Hs. apply Hok, H1.
Qed.

(** [RevokeSigData] on a collector that holds a block: it returns, it keeps
    the invariant, the collector holds nothing afterwards, and when it
    returns false the destination buffer is still empty. *)
Lemma RevokeSigData_terminates (e : Env) (this : nat) (w : World)
    (col : StackTraceCollector) (p : nat) :
  EnvOk e -> Inv e None w ->
  collectors_ w !! this = Some col -> sig_data_ col = Some p ->
  (forall info, infos_ w !! this = Some info ->
                ok (ThreadInfo.status info) = true) ->
  terminates (fun fuel => RevokeSigData e fuel this) w
    (fun completed w' =>
       Inv e None w' /\ snap_le w w' /\
       collectors_ w' = <[this := mkCollector (tid_ col) None]> (collectors_ w) /\
       (completed = false ->
        forall info', infos_ w' !! this = Some info' ->
                      num_frames_ (ThreadInfo.stack info') = 0)).
Proof.
  intros He HI Hcol Hsd Hst.
  destruct (yield_Inv e None w HI) as (w1 & Hy & HI1 & Hle1 & _).
  assert (collectors_ w1 = collectors_ w) as Hc1 by apply Hle1.
  assert (collectors_ w1 !! this = Some col) as Hcol1 by (rewrite Hc1; exact Hcol).
  pose proof HI1 as (_ & _ & I3 & I4 & _ & _ & I7 & _).
  destruct (I3 this col p Hcol1 Hsd) as (d & Hd & Ha & Hs & Htid & Hpend).
  pose proof (Inv_cell_ok _ _ _ _ _ HI1 Hd) as Hok.
  assert (alloc d <> Freed) as Hnf by (rewrite Ha; discriminate).
  pose proof (exchange_eq e p kNotInUse w w1 d Hy Hd Hnf) as Hx.
  assert (queued_of d <> kNotInUse) as Hnz.
  { intros Hz. specialize (I7 p d Hd Ha Hz). discriminate. }
  assert (forall info', infos_ w1 !! this = Some info' ->
                        ok (ThreadInfo.status info') = true) as Hst1
    by (apply (snap_le_status w w1); [apply mem_le_snap_le, Hle1|exact Hst]).
  set (d0 := set_sig (set_queued_to_tid kNotInUse) d) in *.
  assert (heap (put_cell p d0 w1) !! p = Some d0) as Hd0
    by (eapply heap_put_cell_eq; eauto).
  assert ((handler d = Pending (tid_ col) /\ queued_of d = tid_ col) \/
          queued_of d = kDumpStarted) as [[Hh Hq]|Hq].
  { unfold cell_ok in Hok. rewrite Ha in Hok.
    destruct (handler d) as [|t|t|t|] eqn:Hh; try contradiction.
    - left. destruct Hok as (_ & Hq & _). rewrite <- (Hpend t eq_refl). auto.
    - right. tauto.
    - right. tauto.
    - right. tauto. }
  - (* the signal was not handled: the block is leaked *)
    eapply terminates_ret.
    + intros fuel. rewrite (RevokeSigData_unfold e fuel this w col p Hcol Hsd), Hx.
      rewrite Hq, Z.eqb_refl.
      rewrite (leak_and_forget p this (tid_ col) d0 _ Hd0 Hnf).
      rewrite put_cell_put_cell. reflexivity.
    + split; [|split; [|split]].
      * refine (Inv_release e None this p (tid_ col) w1 col d
                  (set_alloc Leaked d0) HI1 _ Hcol1 Hsd Hd _ _ Hst1).
        -- discriminate.
        -- unfold cell_ok. cbn. rewrite Hh. unfold queued_of. cbn. auto.
        -- cbn. discriminate.
      * eapply snap_le_trans; [apply mem_le_snap_le, Hle1|apply snap_le_release].
      * cbn. rewrite Hc1. reflexivity.
      * intros _ info' Hi'. cbn in Hi'.
        destruct (Z.eq_dec (num_frames_ (ThreadInfo.stack info')) 0) as [|Hn]; [assumption|].
        specialize (I4 this info' Hi' Hn). rewrite Hcol1 in I4.
        destruct col as [tc sd]. cbn in Hsd. subst sd.
        destruct I4 as (x & Hx' & Hpx). assert (x = d) as -> by congruence.
        rewrite Hh in Hpx. contradiction.
  - (* the handler has won its CAS: wait for it, then free the block *)
    assert (Inv e (Some p) (put_cell p d0 w1)) as HI2
      by (apply Inv_take_back; assumption).
    assert (held (put_cell p d0 w1) p) as Hh2 by (exists this, col; auto).
    assert (taken_back d0) as Htb0 by (split; [exact Ha|reflexivity]).
    destruct (WaitUntil_Max_terminates e p _ d0 He HI2 Hh2 Hd0 Htb0)
      as (F & b & w3 & (-> & HI3 & Hle3 & c3 & Hc3 & Htb3 & Hf3) & H3).
    assert (alloc c3 <> Freed) as Hnf3
      by (destruct Htb3 as [-> _]; discriminate).
    assert (collectors_ w3 = collectors_ w) as Hcw3
      by (destruct Hle3 as (-> & _); exact Hc1).
    exists F, true,
      (put_collector_at this (mkCollector (tid_ col) None)
         (put_cell p (set_alloc Freed c3) w3)).
    split.
    + split; [|split; [|split]].
      * refine (Inv_release e (Some p) this p (tid_ col) w3 col c3
                  (set_alloc Freed c3) HI3 _ _ Hsd Hc3 _ _ _).
        -- intros q [= ->]. reflexivity.
        -- rewrite Hcw3. exact Hcol.
        -- destruct (taken_back_handler c3 (Inv_cell_ok _ _ _ _ _ HI3 Hc3) Htb3)
             as [[_ Hz]|[Hr _]]; [contradiction|].
           unfold cell_ok. cbn. rewrite Hr. exact I.
        -- cbn. discriminate.
        -- apply (snap_le_status w1 w3); [|exact Hst1].
           apply (mem_le_snap_le (put_cell p d0 w1) w3 Hle3).
      * eapply snap_le_trans; [apply mem_le_snap_le, Hle1|].
        eapply snap_le_trans;
          [apply (mem_le_snap_le (put_cell p d0 w1) w3 Hle3)|apply snap_le_release].
      * cbn. rewrite Hcw3. reflexivity.
      * discriminate.
    + intros fuel Hf.
      rewrite (RevokeSigData_unfold e fuel this w col p Hcol Hsd), Hx.
      assert ((queued_of d =? tid_ col) = false) as ->
          by (apply Z.eqb_neq; unfold kDumpStarted in Hq; lia).
      rewrite Hq, Z.eqb_refl. cbn [negb]. rewrite (H3 fuel Hf).
      apply (delete_and_forget p this (tid_ col) c3 w3 Hc3 Hnf3).
Qed.

(** C2: [RevokeSigData] swaps [kNotInUse] into [queued_to_tid] and goes by
    the value it gets back.  The target's id: the block is marked as leaked,
    stays allocated, and the call returns false.  [kDumpStarted]: the call
    waits on [result_ready] with [MonoTime::Max()] for a deadline, so it
    neither times out nor aborts; it keeps waiting as long as the wait does,
    and once the wait is over it frees the block and returns true, the wait
    having seen the flag set.  The wait does come to an end: under the
    invariant of the protocol and a fair schedule the call returns, with
    true and the block freed, for any fuel from some amount on.  Any other
    value: the call aborts. *)
Theorem RevokeSigData_cases (e : Env) (fuel this : nat) (w w1 : World)
    (c : StackTraceCollector) (p : nat) (d : Cell) :
  collectors_ w !! this = Some c -> sig_data_ c = Some p -> 0 < tid_ c ->
  (forall n, clock e n < MonoTime_Max) ->
  yield e w = Done (tt, w1) -> heap w1 !! p = Some d -> alloc d <> Freed ->
  let old_val := queued_of d in
  let w2 := put_cell p (set_sig (set_queued_to_tid kNotInUse) d) w1 in
  exchange e p kNotInUse w = Done (old_val, w2) /\
  (old_val = tid_ c ->
   exists w',
     RevokeSigData e fuel this w = Done (false, w') /\
     heap w' !! p =
       Some (mkCell (set_queued_to_tid kNotInUse (sig d)) Leaked (handler d)) /\
     collectors_ w' !! this = Some (mkCollector (tid_ c) None)) /\
  (old_val = kDumpStarted ->
   RevokeSigData e fuel this w <> Aborted /\
   (WaitUntil e fuel p MonoTime_Max w2 = Waiting ->
    RevokeSigData e fuel this w = Waiting) /\
   (forall b w',
       RevokeSigData e fuel this w = Done (b, w') ->
       b = true /\
       exists w3 d3,
         WaitUntil e fuel p MonoTime_Max w2 = Done (true, w3) /\
         heap w3 !! p = Some d3 /\ flag_of d3 <> 0 /\
         heap w' !! p = Some (set_alloc Freed d3) /\
         collectors_ w' !! this = Some (mkCollector (tid_ c) None)) /\
   (forall b3 w3,
       WaitUntil e fuel p MonoTime_Max w2 = Done (b3, w3) ->
       exists d3,
         b3 = true /\ heap w3 !! p = Some d3 /\ flag_of d3 <> 0 /\
         RevokeSigData e fuel this w =
         Done (true, put_collector_at this (mkCollector (tid_ c) None)
                       (put_cell p (set_alloc Freed d3) w3))) /\
   (EnvOk e -> Inv e None w ->
    terminates (fun fuel' => RevokeSigData e fuel' this) w
      (fun b w' =>
         b = true /\
         exists d3, flag_of d3 <> 0 /\
                    heap w' !! p = Some (set_alloc Freed d3) /\
                    collectors_ w' !! this = Some (mkCollector (tid_ c) None)))) /\
  (old_val <> tid_ c -> old_val <> kDumpStarted ->
   RevokeSigData e fuel this w = Aborted).
Proof.
  intros Hc Hp Htid Hclk Hy Hd Ha old_val w2.
  pose proof (exchange_eq e p kNotInUse w w1 d Hy Hd Ha) as Hx.
  fold old_val in Hx. fold w2 in Hx.
  assert (heap w2 !! p = Some (set_sig (set_queued_to_tid kNotInUse) d)) as Hd2
    by (unfold w2; eapply heap_put_cell_eq; eauto).
  assert (this < length (collectors_ w1))%nat as Hlen.
  { apply yield_mem_le in Hy as [Hle _]. destruct Hle as (-> & _).
    eapply lookup_lt_Some, Hc. }
  (* what the call does by what the wait does, for any fuel *)
  assert (forall fuel0, old_val = kDumpStarted ->
            match WaitUntil e fuel0 p MonoTime_Max w2 with
            | Done (b3, w3) =>
                exists d3,
                  b3 = true /\ heap w3 !! p = Some d3 /\ flag_of d3 <> 0 /\
                  length (collectors_ w3) = length (collectors_ w1) /\
                  RevokeSigData e fuel0 this w =
                  Done (true, put_collector_at this (mkCollector (tid_ c) None)
                                (put_cell p (set_alloc Freed d3) w3))
            | Waiting => RevokeSigData e fuel0 this w = Waiting
            | Fault => RevokeSigData e fuel0 this w = Fault
            | Aborted => False
            end) as Hwait.
  { intros fuel0 Hold.
    pose proof (RevokeSigData_unfold e fuel0 this w c p Hc Hp) as Hr.
    rewrite Hx in Hr.
    assert ((old_val =? tid_ c) = false) as Hne
      by (apply Z.eqb_neq; unfold kDumpStarted in Hold; lia).
    rewrite Hne, Hold, Z.eqb_refl in Hr. cbn [negb] in Hr.
    pose proof (WaitUntil_not_Aborted e fuel0 p MonoTime_Max w2) as Hna.
    destruct (WaitUntil e fuel0 p MonoTime_Max w2) as [[b3 w3]| | |] eqn:Hw;
      try congruence.
    destruct (WaitUntil_Max e fuel0 p w2 b3 w3 Hclk Hw)
      as (-> & d3 & Hd3 & Ha3 & Hf3).
    rewrite (delete_and_forget p this (tid_ c) _ w3 Hd3 Ha3) in Hr.
    exists d3. split; [reflexivity|]. split; [exact Hd3|]. split; [exact Hf3|].
    split; [|exact Hr].
    apply WaitUntil_mem_le in Hw. destruct Hw as (-> & _). reflexivity. }
  split; [exact Hx|]. split; [|split].
  - intros Hold.
    pose proof (RevokeSigData_unfold e fuel this w c p Hc Hp) as Hr.
    rewrite Hx in Hr. rewrite Hold, Z.eqb_refl in Hr.
    rewrite (leak_and_forget p this (tid_ c) _ w2 Hd2 Ha) in Hr.
    eexists. split; [exact Hr|]. split.
    + cbn [heap put_collector_at set_collectors].
      exact (heap_put_cell_eq p _ _ w2 Hd2).
    + cbn. apply list_lookup_insert_eq. exact Hlen.
  - intros Hold.
    assert (forall fuel0 b w',
              RevokeSigData e fuel0 this w = Done (b, w') ->
              b = true /\
              exists w3 d3,
                WaitUntil e fuel0 p MonoTime_Max w2 = Done (true, w3) /\
                heap w3 !! p = Some d3 /\ flag_of d3 <> 0 /\
                heap w' !! p = Some (set_alloc Freed d3) /\
                collectors_ w' !! this = Some (mkCollector (tid_ c) None))
      as Hdone.
    { intros fuel0 b w' Hb. specialize (Hwait fuel0 Hold).
      destruct (WaitUntil e fuel0 p MonoTime_Max w2) as [[b3 w3]| | |];
        try congruence; try contradiction.
      destruct Hwait as (d3 & -> & Hd3 & Hf3 & Hl3 & Hr).
      rewrite Hr in Hb. injection Hb as <- <-.
      split; [reflexivity|]. exists w3, d3. repeat split; auto.
      - cbn [heap put_collector_at set_collectors].
        eapply heap_put_cell_eq; eauto.
      - cbn. apply list_lookup_insert_eq. rewrite Hl3. exact Hlen. }
    pose proof (Hwait fuel Hold) as Hw.
    split; [|split; [|split; [|split]]].
    + destruct (WaitUntil e fuel p MonoTime_Max w2) as [[b3 w3]| | |];
        try contradiction; try congruence.
      destruct Hw as (d3 & _ & _ & _ & _ & ->). discriminate.
    + intros Hwt. rewrite Hwt in Hw. exact Hw.
    + apply Hdone.
    + intros b3 w3 Hw3. rewrite Hw3 in Hw.
      destruct Hw as (d3 & H1 & H2 & H3 & _ & H4). exists d3. auto.
    + intros He HI.
      assert (forall info, infos_ w !! this = Some info ->
                           ok (ThreadInfo.status info) = true) as Hst.
      { intros info Hi.
        destruct (ok (ThreadInfo.status info)) eqn:Hok; [reflexivity|].
        destruct HI as (_ & _ & _ & _ & _ & _ & _ & I8).
        specialize (I8 this info c Hi Hc Hok). congruence. }
      destruct (RevokeSigData_terminates e this w c p He HI Hc Hp Hst)
        as (F & b & w' & _ & H).
      destruct (Hdone F b w' (H F (le_n F)))
        as (-> & w3 & d3 & _ & _ & Hf3 & Hfreed & Hcol).
      exists F, true, w'. split; [|exact H].
      split; [reflexivity|]. exists d3. auto.
  - intros Hne1 Hne2.
    pose proof (RevokeSigData_unfold e fuel this w c p Hc Hp) as Hr.
    rewrite Hx in Hr.
    apply Z.eqb_neq in Hne1, Hne2. rewrite Hne1, Hne2 in Hr. exact Hr.
Qed.

(** The two ways out, run: a signal still pending, whose block is given up;
    and a handler at work, which the call waits for before it frees the
    block. *)
Lemma RevokeSigData_cases_witness :
  (let e := example_env (fun _ => 100) (fun _ => []) in
   let w := example_world [ThreadInfo_new] [mkCollector 7 (Some 0%nat)]
              [queued_cell 7 0] in
   exists w',
     RevokeSigData e 0 0 w = Done (false, w') /\
     heap w' !! 0%nat =
       Some (mkCell (mkSignalData 0 kNotInUse (mkCompletionFlag 0)) Leaked
                    (Pending 7)) /\
     collectors_ w' !! 0%nat = Some (mkCollector 7 None)) /\
  (let e := example_env (fun _ => 100)
              (fun k => if (k =? 0)%nat then [] else [0%nat]) in
   let w := example_world [ThreadInfo_new] [mkCollector 7 (Some 0%nat)]
              [mkCell (mkSignalData 0 kDumpStarted (mkCompletionFlag 0)) Live
                      (Collecting 7)] in
   exists w',
     RevokeSigData e 2 0 w = Done (true, w') /\
     (alloc <$> heap w') = [Freed] /\
     collectors_ w' !! 0%nat = Some (mkCollector 7 None)).
Proof.
  split.
  - intros e w.
    refine (proj1 (proj2
      (RevokeSigData_cases e 0 0 w (set_n_yield S w) (mkCollector 7 (Some 0%nat))
         0 (queued_cell 7 0) eq_refl eq_refl _ _ eq_refl eq_refl _)) eq_refl).
    + reflexivity.
    + intros n. reflexivity.
    + discriminate.
  - intros e w.
    pose proof (proj1 (proj2 (proj2
      (RevokeSigData_cases e 2 0 w (set_n_yield S w) (mkCollector 7 (Some 0%nat))
         0 (mkCell (mkSignalData 0 kDumpStarted (mkCompletionFlag 0)) Live
                   (Collecting 7))
         eq_refl eq_refl ltac:(reflexivity) ltac:(intros n; reflexivity)
         eq_refl eq_refl ltac:(discriminate)))) eq_refl) as (_ & _ & Hdone & _).
    assert (exists b w', RevokeSigData e 2 0 w = Done (b, w') /\
                         (alloc <$> heap w') = [Freed])
      as (b & w' & Hr & Hfreed) by (vm_compute; eauto).
    destruct (Hdone b w' Hr) as (-> & _ & _ & _ & _ & _ & _ & Hcol).
    exists w'. auto.
Defined.


(** ** The snapshot keeps the invariant *)

(** Storing an id, a status or a name in an entry. *)
Lemma Inv_put_info (e : Env) (busy : option nat) (i : nat)
    (info info' : ThreadInfo) (w : World) :
  Inv e busy w -> infos_ w !! i = Some info ->
  ThreadInfo.stack info' = ThreadInfo.stack info ->
  (ok (ThreadInfo.status info') = false ->
   ok (ThreadInfo.status info) = false \/
   (num_frames_ (ThreadInfo.stack info) = 0 /\
    forall col, collectors_ w !! i = Some col -> sig_data_ col = None)) ->
  Inv e busy (put_info_at i info' w).
Proof.
  intros (I1 & I2 & I3 & I4 & I5 & I6 & I7 & I8) Hi Hs Hst.
  assert (i < length (infos_ w))%nat as Hlt by (eapply lookup_lt_Some, Hi).
  unfold Inv. cbn [heap collectors_ infos_ n_yield put_info_at set_infos].
  rewrite length_insert.
  split; [exact I1|]. split; [exact I2|]. split; [exact I3|].
  split; [|split; [exact I5|split; [exact I6|split; [exact I7|]]]].
  - intros j info0 Hj Hn. apply list_lookup_insert_Some in Hj.
    destruct Hj as [(<- & <- & _)|[Hne Hj]]; [|apply (I4 j info0 Hj Hn)].
    rewrite Hs in Hn. specialize (I4 i info Hi Hn).
    destruct (collectors_ w !! i) as [[t [p|]]|] eqn:Hc; [exact I4| |];
      (destruct (ok (ThreadInfo.status info')) eqn:Hok; [reflexivity|];
       destruct (Hst eq_refl) as [Hf|[Hz _]]; [congruence|contradiction]).
  - intros j info0 col Hj Hc Hf. apply list_lookup_insert_Some in Hj.
    destruct Hj as [(<- & <- & _)|[Hne Hj]]; [|apply (I8 j info0 col Hj Hc Hf)].
    destruct (Hst Hf) as [Hf'|[_ Hn]]; [apply (I8 i info col Hi Hc Hf')|auto].
Qed.

(** A block that is not in use joins the heap. *)
Lemma Inv_push_dead (e : Env) (busy : option nat) (c : Cell) (w : World) :
  Inv e busy w -> cell_ok c -> alloc c <> Live ->
  steps_left (handler c) = 0%nat ->
  Inv e busy (push_cell c w).
Proof.
  intros (I1 & I2 & I3 & I4 & I5 & I6 & I7 & I8) Hok Hnl Hsl.
  assert (forall p x, (heap w ++ [c]) !! p = Some x ->
            heap w !! p = Some x \/ x = c) as Hold.
  { intros p x Hx. apply lookup_app_Some in Hx.
    destruct Hx as [Hx|[_ Hx]]; [left; exact Hx|right].
    apply list_lookup_singleton_Some in Hx. symmetry. apply Hx. }
  unfold Inv. cbn [heap collectors_ infos_ n_yield push_cell set_heap].
  split; [apply Forall_app; split; [exact I1|constructor; [exact Hok|constructor]]|].
  split.
  { intros p x Hx Hl. destruct (Hold p x Hx) as [Hx'| ->]; [|contradiction].
    apply (I2 p x Hx' Hl). }
  split.
  { intros i col p Hi Hsd. destruct (I3 i col p Hi Hsd) as (x & Hx & Hrest).
    exists x. split; [|exact Hrest]. apply lookup_app_l_Some, Hx. }
  split.
  { intros i info Hi Hn. specialize (I4 i info Hi Hn).
    destruct (collectors_ w !! i) as [[t [p|]]|]; auto.
    destruct I4 as (x & Hx & Hpx). exists x. split; [|exact Hpx].
    apply lookup_app_l_Some, Hx. }
  split.
  { intros p x Hx Hs. destruct (Hold p x Hx) as [Hx'| ->]; [|lia].
    apply (I5 p x Hx' Hs). }
  split; [exact I6|]. split; [|exact I8].
  intros p x Hx Hl Hz. destruct (Hold p x Hx) as [Hx'| ->]; [|contradiction].
  apply (I7 p x Hx' Hl Hz).
Qed.

(** The block of a queued signal joins the heap and its collector. *)
Lemma Inv_trigger (e : Env) (i : nat) (tid : Z) (w : World) :
  Inv e None w ->
  collectors_ w !! i = Some (mkCollector 0 None) ->
  0 < tid ->
  (forall info, infos_ w !! i = Some info ->
     num_frames_ (ThreadInfo.stack info) = 0 /\
     ok (ThreadInfo.status info) = true) ->
  Inv e None (put_collector_at i (mkCollector tid (Some (length (heap w))))
                (push_cell (queued_cell tid i) w)).
Proof.
  intros (I1 & I2 & I3 & I4 & I5 & I6 & I7 & I8) Hc Ht Hinfo.
  assert (i < length (collectors_ w))%nat as Hlt by (eapply lookup_lt_Some, Hc).
  assert (forall p x, (heap w ++ [queued_cell tid i]) !! p = Some x ->
            heap w !! p = Some x \/
            (p = length (heap w) /\ x = queued_cell tid i)) as Hold.
  { intros p x Hx. apply lookup_app_Some in Hx.
    destruct Hx as [Hx|[Hge Hx]]; [left; exact Hx|right].
    apply list_lookup_singleton_Some in Hx. destruct Hx as [Hp <-].
    split; [lia|reflexivity]. }
  unfold Inv. cbn [heap collectors_ infos_ n_yield push_cell set_heap
                   put_collector_at set_collectors].
  rewrite length_insert.
  split.
  { apply Forall_app. split; [exact I1|]. constructor; [|constructor].
    unfold cell_ok, queued_cell, queued_of, flag_of. cbn. auto. }
  split.
  { intros p x Hx Hl. destruct (Hold p x Hx) as [Hx'|[-> ->]].
    - destruct (I2 p x Hx' Hl) as (col & Hcol & Hsd).
      exists col. split; [|exact Hsd].
      rewrite list_lookup_insert_ne; [exact Hcol|].
      intros Heq. rewrite <- Heq in Hcol. rewrite Hc in Hcol.
      injection Hcol as <-. discriminate.
    - cbn. eexists. split; [apply list_lookup_insert_eq, Hlt|reflexivity]. }
  split.
  { intros j col p Hj Hsd. apply list_lookup_insert_Some in Hj.
    destruct Hj as [(<- & <- & _)|[Hne Hj]].
    - injection Hsd as <-. exists (queued_cell tid i).
      split; [apply lookup_app_length|]. cbn.
      repeat split; auto. intros t [= <-]. reflexivity.
    - destruct (I3 j col p Hj Hsd) as (x & Hx & Hrest).
      exists x. split; [|exact Hrest]. apply lookup_app_l_Some, Hx. }
  split.
  { intros j info Hj Hn. destruct (decide (j = i)) as [->|Hne].
    - destruct (Hinfo info Hj) as [Hz _]. contradiction.
    - rewrite list_lookup_insert_ne by congruence.
      specialize (I4 j info Hj Hn).
      destruct (collectors_ w !! j) as [[t [p|]]|]; auto.
      destruct I4 as (x & Hx & Hpx). exists x. split; [|exact Hpx].
      apply lookup_app_l_Some, Hx. }
  split.
  { intros p x Hx Hs. destruct (Hold p x Hx) as [Hx'|[-> ->]].
    - apply (I5 p x Hx' Hs).
    - cbn in Hs. lia. }
  split; [exact I6|]. split.
  { intros p x Hx Hl Hz. destruct (Hold p x Hx) as [Hx'|[-> ->]].
    - apply (I7 p x Hx' Hl Hz).
    - unfold queued_of, queued_cell, kNotInUse in Hz. cbn in Hz. lia. }
  intros j info col Hj Hcj Hf. apply list_lookup_insert_Some in Hcj.
  destruct Hcj as [(<- & <- & _)|[Hne Hcj]].
  - destruct (Hinfo info Hj) as [_ Hok]. congruence.
  - apply (I8 j info col Hj Hcj Hf).
Qed.

(** Fresh entries and collectors, on a snapshot that holds no block. *)
Lemma Inv_reset (e : Env) (n : nat) (w : World) :
  Inv e None w -> collectors_ w = [] ->
  Inv e None (set_infos (fun _ => replicate n ThreadInfo_new)
                (set_collectors (fun _ => replicate n (mkCollector 0 None)) w)).
Proof.
  intros (I1 & I2 & I3 & I4 & I5 & I6 & I7 & I8) Hc.
  assert (forall p c, heap w !! p = Some c -> alloc c = Live -> False) as Hnl.
  { intros p c Hp Hl. destruct (I2 p c Hp Hl) as (col & Hcol & _).
    rewrite Hc in Hcol. discriminate. }
  unfold Inv. cbn [heap collectors_ infos_ n_yield set_infos set_collectors].
  split; [exact I1|].
  split; [intros p c Hp Hl; destruct (Hnl p c Hp Hl)|].
  split.
  { intros i col p Hi Hsd. apply lookup_replicate in Hi as [-> _]. discriminate. }
  split.
  { intros i info Hi Hn. apply lookup_replicate in Hi as [-> _].
    cbn in Hn. contradiction. }
  split; [exact I5|].
  split; [rewrite !length_replicate; lia|].
  split; [intros p c Hp Hl; destruct (Hnl p c Hp Hl)|].
  intros i info col _ Hi _. apply lookup_replicate in Hi as [-> _]. reflexivity.
Qed.

(** The collectors go, once none holds a block. *)
Lemma Inv_clear (e : Env) (w : World) :
  Inv e None w ->
  (forall j col, collectors_ w !! j = Some col -> sig_data_ col = None) ->
  Inv e None (set_collectors (fun _ => []) w).
Proof.
  intros (I1 & I2 & I3 & I4 & I5 & I6 & I7 & I8) Hnone.
  assert (forall p c, heap w !! p = Some c -> alloc c = Live -> False) as Hnl.
  { intros p c Hp Hl. destruct (I2 p c Hp Hl) as (col & Hcol & Hsd).
    rewrite (Hnone _ _ Hcol) in Hsd. discriminate. }
  unfold Inv. cbn [heap collectors_ infos_ n_yield set_collectors].
  split; [exact I1|].
  split; [intros p c Hp Hl; destruct (Hnl p c Hp Hl)|].
  split; [intros i col p Hi; discriminate|].
  split.
  { intros i info Hi Hn. cbn. specialize (I4 i info Hi Hn).
    destruct (collectors_ w !! i) as [[t [p|]]|] eqn:Hci; auto.
    specialize (Hnone _ _ Hci). discriminate. }
  split; [exact I5|].
  split; [cbn; lia|].
  split; [intros p c Hp Hl; destruct (Hnl p c Hp Hl)|].
  intros i info col _ Hi. discriminate.
Qed.

Lemma update_info_Done (i : nat) (f : ThreadInfo -> ThreadInfo) (w : World)
    (info : ThreadInfo) :
  infos_ w !! i = Some info ->
  update_info i f w = Done (tt, put_info_at i (f info) w).
Proof.
  intros Hi. unfold update_info, bind, get_info. rewrite Hi. reflexivity.
Qed.

(** One round of the first loop of the snapshot, on a fresh entry and a fresh
    collector: the id and the status of [TriggerAsync] are stored in the
    entry, and the collector holds a block exactly when the status is OK. *)
Lemma trigger_step (e : Env) (i : nat) (tid : Z) (w : World) :
  EnvOk e -> Inv e None w ->
  collectors_ w !! i = Some (mkCollector 0 None) ->
  infos_ w !! i = Some ThreadInfo_new ->
  exists s col w1,
    (forall B (k : M B),
       (let* _ := update_info i (set_info_tid tid) in
        let* s := TriggerAsync e i tid i in
        let* _ := update_info i (set_info_status s) in k) w = k w1) /\
    Inv e None w1 /\
    infos_ w1 = <[i := ThreadInfo.mk tid StackTrace_new s ""]> (infos_ w) /\
    collectors_ w1 = <[i := col]> (collectors_ w) /\
    (ok s = true -> is_Some (sig_data_ col)) /\
    recorded e (ThreadInfo.mk tid StackTrace_new s "") /\
    num_failed_ w1 = num_failed_ w /\
    capture_thread_names_ w1 = capture_thread_names_ w /\
    n_clock w1 = n_clock w.
Proof.
  intros He HI Hc Hi.
  assert (i < length (infos_ w))%nat as Hlt by (eapply lookup_lt_Some, Hi).
  set (infoA := set_info_tid tid ThreadInfo_new).
  set (wA := put_info_at i infoA w).
  assert (Inv e None wA) as HIA.
  { apply (Inv_put_info e None i ThreadInfo_new infoA w HI Hi); [reflexivity|].
    cbn. discriminate. }
  assert (infos_ wA !! i = Some infoA) as HiA
    by (cbn; apply list_lookup_insert_eq, Hlt).
  destruct (TriggerAsync_fresh e i tid i wA Hc) as (b & w0 & _ & Hsame & Ht).
  destruct Hsame as (S1 & S2 & S3 & S4 & S5 & S6 & S7 & S8).
  assert (Inv e None w0) as HI0 by (apply (Inv_ext e None wA); auto).
  assert (forall s wB col,
            TriggerAsync e i tid i wA = Done (s, wB) ->
            Inv e None wB -> infos_ wB = infos_ wA ->
            collectors_ wB = <[i := col]> (collectors_ w) ->
            (ok s = false -> col = mkCollector 0 None) ->
            (ok s = true -> is_Some (sig_data_ col)) ->
            recorded e (ThreadInfo.mk tid StackTrace_new s "") ->
            num_failed_ wB = num_failed_ w ->
            capture_thread_names_ wB = capture_thread_names_ w ->
            n_clock wB = n_clock w ->
            exists s col w1,
              (forall B (k : M B),
                 (let* _ := update_info i (set_info_tid tid) in
                  let* s := TriggerAsync e i tid i in
                  let* _ := update_info i (set_info_status s) in k) w = k w1) /\
              Inv e None w1 /\
              infos_ w1 = <[i := ThreadInfo.mk tid StackTrace_new s ""]> (infos_ w) /\
              collectors_ w1 = <[i := col]> (collectors_ w) /\
              (ok s = true -> is_Some (sig_data_ col)) /\
              recorded e (ThreadInfo.mk tid StackTrace_new s "") /\
              num_failed_ w1 = num_failed_ w /\
              capture_thread_names_ w1 = capture_thread_names_ w /\
              n_clock w1 = n_clock w) as Hfin.
  { intros s wB col HT HIB HinfB HcB Hfail Harm Hrec Hnf Hcap Hnc.
    assert (infos_ wB !! i = Some infoA) as HiB by (rewrite HinfB; exact HiA).
    exists s, col, (put_info_at i (set_info_status s infoA) wB).
    split.
    { intros B k. unfold bind at 1. rewrite (update_info_Done _ _ _ _ Hi).
      fold infoA. fold wA. unfold bind at 1. rewrite HT.
      unfold bind. rewrite (update_info_Done _ _ _ _ HiB). reflexivity. }
    split.
    { apply (Inv_put_info e None i infoA _ wB HIB HiB); [reflexivity|].
      cbn. intros Hf. right. split; [reflexivity|].
      intros col' Hcol'. rewrite HcB in Hcol'.
      rewrite list_lookup_insert_eq in Hcol' by (eapply lookup_lt_Some, Hc).
      injection Hcol' as <-. rewrite (Hfail Hf). reflexivity. }
    split.
    { cbn. rewrite HinfB. cbn. apply list_insert_insert_eq. }
    auto 10. }
  rewrite Ht in Hfin. destruct b; cbn [negb] in Hfin.
  - destruct (sigqueue_ok e tid) eqn:Hq.
    + (* the signal is queued *)
      eapply (Hfin _ _ (mkCollector tid (Some (length (heap wA)))));
        [reflexivity| | | | | | | | |].
      1: { rewrite <- S5.
           apply (Inv_trigger e i tid w0 HI0);
             [rewrite S2; exact Hc|apply (tids_positive e He), Hq|].
           rewrite S1. intros info Hinfo. rewrite HiA in Hinfo.
           injection Hinfo as <-. split; reflexivity. }
      all: cbn; try exact S1; try exact S3; try exact S4; try exact S7;
        try discriminate.
      * rewrite S2. reflexivity.
      * intros _. eexists. reflexivity.
      * left. auto.
    + (* the signal cannot be queued *)
      eapply (Hfin _ _ (mkCollector 0 None));
        [reflexivity| | | | | | | | |].
      1: apply Inv_push_dead; [exact HI0|exact I|discriminate|reflexivity].
      all: cbn; try exact S1; try exact S3; try exact S4; try exact S7;
        try discriminate.
      * rewrite S2. cbn. symmetry. apply list_insert_id, Hc.
      * reflexivity.
      * right. right. left. auto.
  - (* the handler cannot be installed *)
    eapply (Hfin _ _ (mkCollector 0 None));
      [reflexivity| | | | | | | | |].
    1: exact HI0.
    all: cbn; try exact S1; try exact S3; try exact S4; try exact S7;
      try discriminate.
    + rewrite S2. cbn. symmetry. apply list_insert_id, Hc.
    + reflexivity.
    + right. right. right. reflexivity.
Qed.

(** The first loop of the snapshot, from entry [i] on. *)
Lemma trigger_loop_Done (e : Env) (tids : list Z) (He : EnvOk e) :
  forall n i w,
    (i + n = length tids)%nat ->
    Inv e None w ->
    length (infos_ w) = length tids -> length (collectors_ w) = length tids ->
    (forall j, (i <= j)%nat -> (j < length tids)%nat ->
       collectors_ w !! j = Some (mkCollector 0 None) /\
       infos_ w !! j = Some ThreadInfo_new) ->
    (forall j info, (j < i)%nat -> infos_ w !! j = Some info ->
       tids !! j = Some (ThreadInfo.tid info) /\ recorded e info) ->
    (forall j, (j < i)%nat -> armed w j) ->
    exists w',
      trigger_loop e n tids i w = Done (tt, w') /\
      triggered e tids w' /\
      capture_thread_names_ w' = capture_thread_names_ w /\
      n_clock w' = n_clock w.
Proof.
  induction n as [|n IH]; intros i w Hn HI Hli Hlc Hfresh Hdone Harm.
  - exists w. split; [reflexivity|]. split; [|auto].
    rewrite Nat.add_0_r in Hn. subst i.
    split; [exact HI|]. split; [exact Hlc|]. split; [|split].
    + apply list_eq. intros j. rewrite list_lookup_fmap.
      destruct (infos_ w !! j) as [info|] eqn:Hj; cbn.
      * symmetry. apply (Hdone j info); [|exact Hj].
        rewrite <- Hli. eapply lookup_lt_Some, Hj.
      * symmetry. apply lookup_ge_None. rewrite <- Hli.
        apply lookup_ge_None, Hj.
    + apply Forall_lookup. intros j info Hj.
      apply (Hdone j info); [|exact Hj]. rewrite <- Hli. eapply lookup_lt_Some, Hj.
    + intros j. destruct (decide (j < length tids)%nat) as [Hlt|Hge];
        [apply Harm, Hlt|].
      intros info col Hj. apply lookup_lt_Some in Hj. lia.
  - assert (i < length tids)%nat as Hlt by lia.
    destruct (Hfresh i (le_n _) Hlt) as [Hc Hi].
    destruct (tids !! i) as [tid|] eqn:Htid;
      [|apply lookup_ge_None in Htid; lia].
    destruct (trigger_step e i tid w He HI Hc Hi)
      as (s & col & w1 & Hk & HI1 & Hinf1 & Hcol1 & Hs & Hrec & _ & Hcap & Hnc).
    destruct (IH (S i) w1) as (w' & Hrun & Htr & Hcap' & Hnc').
    + lia.
    + exact HI1.
    + rewrite Hinf1, length_insert. exact Hli.
    + rewrite Hcol1, length_insert. exact Hlc.
    + intros j Hj Hj'. rewrite Hinf1, Hcol1.
      rewrite !list_lookup_insert_ne by lia. apply Hfresh; lia.
    + intros j info Hj Hinfo. rewrite Hinf1 in Hinfo.
      apply list_lookup_insert_Some in Hinfo.
      destruct Hinfo as [(<- & <- & _)|[Hne Hinfo]].
      * split; [exact Htid|exact Hrec].
      * apply Hdone; [lia|exact Hinfo].
    + intros j Hj info col' Hinfo Hcol'. rewrite Hinf1 in Hinfo.
      rewrite Hcol1 in Hcol'.
      apply list_lookup_insert_Some in Hinfo.
      destruct Hinfo as [(<- & <- & _)|[Hne Hinfo]].
      * rewrite list_lookup_insert_eq in Hcol' by (rewrite Hlc; exact Hlt).
        injection Hcol' as <-. exact Hs.
      * rewrite list_lookup_insert_ne in Hcol' by exact Hne.
        apply (Harm j); [lia|exact Hinfo|exact Hcol'].
    + exists w'. split; [|split; [exact Htr|split; congruence]].
      cbn [trigger_loop]. rewrite Htid. cbn [default]. rewrite Hk. exact Hrun.
Qed.

(** Storing a name in an entry changes nothing of what was triggered. *)
Lemma triggered_put_name (e : Env) (tids : list Z) (i : nat) (name : string)
    (info : ThreadInfo) (w : World) :
  triggered e tids w -> infos_ w !! i = Some info ->
  triggered e tids (put_info_at i (set_info_thread_name name info) w).
Proof.
  intros (HI & Hlc & Htids & Hrec & Harm) Hi.
  split; [|split; [exact Hlc|split; [|split]]].
  - apply (Inv_put_info e None i info _ w HI Hi); [reflexivity|].
    cbn. intros Hf. left. exact Hf.
  - cbn. rewrite list_fmap_insert. cbn. rewrite <- Htids.
    apply list_insert_id. rewrite list_lookup_fmap, Hi. reflexivity.
  - cbn. apply Forall_insert; [exact Hrec|].
    apply (proj1 (Forall_lookup _ _) Hrec i info Hi).
  - intros j info' col Hinfo Hcol Hok. cbn in Hinfo, Hcol.
    apply list_lookup_insert_Some in Hinfo.
    destruct Hinfo as [(<- & <- & _)|[Hne Hinfo]].
    + apply (Harm i info col Hi Hcol Hok).
    + apply (Harm j info' col Hinfo Hcol Hok).
Qed.

(** The loop that reads the names of the threads. *)
Lemma names_loop_Done (e : Env) (tids : list Z) :
  forall n i w,
    (i + n = length tids)%nat ->
    triggered e tids w ->
    exists w',
      names_loop e n i w = Done (tt, w') /\
      triggered e tids w' /\
      n_clock w' = n_clock w.
Proof.
  induction n as [|n IH]; intros i w Hn Htr.
  - exists w. auto.
  - assert (length (infos_ w) = length tids) as Hli.
    { destruct Htr as (_ & _ & <- & _). rewrite length_fmap. reflexivity. }
    destruct (lookup_lt_is_Some_2 (infos_ w) i) as [info Hi]; [lia|].
    assert (exists w1,
              (forall B (k : M B),
                 (let* _ :=
                    if negb (ok (ThreadInfo.status info)) then ret tt
                    else
                      match comm e (ThreadInfo.tid info) with
                      | None => update_info i (set_info_thread_name "<unknown name>")
                      | Some buf =>
                          update_info i
                            (set_info_thread_name (StripTrailingNewline e buf))
                      end in k) w = k w1) /\
              triggered e tids w1 /\ n_clock w1 = n_clock w)
      as (w1 & Hk & Htr1 & Hnc1).
    { destruct (ok (ThreadInfo.status info)); cbn [negb].
      - destruct (comm e (ThreadInfo.tid info)) as [buf|];
          (eexists; split;
           [intros B k; unfold bind; rewrite (update_info_Done _ _ _ _ Hi);
            reflexivity|]);
          (split; [apply triggered_put_name; assumption|reflexivity]).
      - exists w. split; [intros B k; reflexivity|]. auto. }
    destruct (IH (S i) w1) as (w' & Hrun & Htr' & Hnc'); [lia|exact Htr1|].
    exists w'. split; [|split; [exact Htr'|congruence]].
    cbn [names_loop]. unfold bind at 1, get_info at 1. rewrite Hi.
    rewrite Hk. exact Hrun.
Qed.

(** Destroying collectors that hold no block does nothing. *)
Lemma destroy_collectors_none (e : Env) (fuel : nat) (w : World) :
  (forall j col, collectors_ w !! j = Some col -> sig_data_ col = None) ->
  forall n i, (i + n <= length (collectors_ w))%nat ->
              destroy_collectors e fuel n i w = Done (tt, w).
Proof.
  intros Hnone. induction n as [|n IH]; intros i Hn; [reflexivity|].
  cbn [destroy_collectors].
  destruct (lookup_lt_is_Some_2 (collectors_ w) i) as [col Hi]; [lia|].
  unfold bind at 1, destroy_collector, bind, get_collector. rewrite Hi.
  rewrite (Hnone i col Hi). cbn [ret]. apply IH. lia.
Qed.

Lemma collectors_clear_none (e : Env) (fuel : nat) (w : World) :
  (forall j col, collectors_ w !! j = Some col -> sig_data_ col = None) ->
  collectors_clear e fuel w = Done (tt, set_collectors (fun _ => []) w).
Proof.
  intros Hnone. unfold collectors_clear, bind, get.
  rewrite (destroy_collectors_none e fuel w Hnone) by (cbn; lia).
  reflexivity.
Qed.

(** ** What handler steps leave of the entries *)

Lemma info_le_tids (l l' : list ThreadInfo) :
  Forall2 info_le l l' -> ThreadInfo.tid <$> l' = ThreadInfo.tid <$> l.
Proof.
  induction 1 as [|x y l l' (Ht & _) _ IH]; [reflexivity|].
  cbn. rewrite Ht. f_equal. exact IH.
Qed.

Lemma info_le_recorded (e : Env) (l l' : list ThreadInfo) :
  Forall2 info_le l l' -> Forall (recorded e) l -> Forall (recorded e) l'.
Proof.
  induction 1 as [|x y l l' (Ht & Hs & _) _ IH]; [constructor|].
  intros Hr. apply Forall_cons in Hr as [Hx Hl].
  constructor; [|apply IH, Hl].
  unfold recorded in *. rewrite Ht, Hs. exact Hx.
Qed.

Lemma info_le_failed_count (l l' : list ThreadInfo) :
  Forall2 info_le l l' -> failed_count l' = failed_count l.
Proof.
  unfold failed_count. intros H. f_equal.
  induction H as [|x y l l' (_ & Hs & _) _ IH]; [reflexivity|].
  assert (failed y = failed x) as Hf by (unfold failed; rewrite Hs; reflexivity).
  cbn [List.filter]. rewrite Hf.
  destruct (failed x); cbn [length]; congruence.
Qed.

Lemma failed_count_snoc (l : list ThreadInfo) (x : ThreadInfo) :
  failed_count (l ++ [x]) = failed_count l + (if failed x then 1 else 0).
Proof.
  unfold failed_count. rewrite List.filter_app, length_app. cbn [List.filter].
  destruct (failed x); cbn [length]; lia.
Qed.

(** One round of the last loop: entry [i] has got the status [s], its
    collector holds nothing, and a failure is counted. *)
Lemma awaited_step (e : Env) (tids : list Z) (i : nat) (s : Status)
    (info : ThreadInfo) (col' : StackTraceCollector) (w w4 : World) :
  awaited e tids i w -> infos_ w !! i = Some info ->
  Inv e None w4 ->
  collectors_ w4 = <[i := col']> (collectors_ w) -> sig_data_ col' = None ->
  Forall2 info_le (<[i := set_info_status s info]> (infos_ w)) (infos_ w4) ->
  num_failed_ w4 = num_failed_ w + (if ok s then 0 else 1) ->
  recorded e (set_info_status s info) ->
  awaited e tids (S i) w4.
Proof.
  intros (HI & Hlc & Htids & Hrec & Harm & Hnone & Hnf) Hi HI4 Hc4 Hsd HR Hnf4 Hrs.
  assert (i < length (infos_ w))%nat as Hlt by (eapply lookup_lt_Some, Hi).
  split; [exact HI4|]. split; [rewrite Hc4, length_insert; exact Hlc|].
  split; [|split; [|split; [|split]]].
  - rewrite (info_le_tids _ _ HR), list_fmap_insert. cbn. rewrite <- Htids.
    apply list_insert_id. rewrite list_lookup_fmap, Hi. reflexivity.
  - apply (info_le_recorded e _ _ HR). apply Forall_insert; assumption.
  - intros j Hj info4 col4 Hinfo4 Hcol4 Hok4.
    destruct (Forall2_lookup_r _ _ _ _ _ HR Hinfo4) as (x & Hx & (_ & Hs & _)).
    rewrite list_lookup_insert_ne in Hx by lia.
    rewrite Hc4, list_lookup_insert_ne in Hcol4 by lia.
    apply (Harm j ltac:(lia) x col4 Hx Hcol4). rewrite <- Hs. exact Hok4.
  - intros j col Hj Hcol. rewrite Hc4 in Hcol.
    apply list_lookup_insert_Some in Hcol.
    destruct Hcol as [(_ & <- & _)|[Hne Hcol]]; [exact Hsd|].
    apply (Hnone j col); [lia|exact Hcol].
  - rewrite Hnf4, Hnf.
    rewrite (info_le_failed_count _ _ (Forall2_take _ _ _ (S i) HR)).
    rewrite (take_S_r _ i (set_info_status s info))
      by (apply list_lookup_insert_eq, Hlt).
    rewrite take_insert_ge by lia. rewrite failed_count_snoc.
    unfold failed at 1. cbn [set_info_status ThreadInfo.status].
    destruct (ok s); reflexivity.
Qed.




Lemma bind_Done {A B} (m : M A) (k : A -> M B) (w : World) (b : B)
    (w' : World) :
  bind m k w = Done (b, w') ->
  exists a w1, m w = Done (a, w1) /\ k a w1 = Done (b, w').
Proof.
  unfold bind. destruct (m w) as [[a w1]| | |]; try discriminate. eauto.
Qed.

Lemma update_info_inv (i : nat) (f : ThreadInfo -> ThreadInfo) (w w' : World) :
  update_info i f w = Done (tt, w') ->
  exists info, infos_ w !! i = Some info /\ w' = put_info_at i (f info) w.
Proof.
  unfold update_info, bind, get_info.
  destruct (infos_ w !! i) as [info|]; [|discriminate].
  intros [= <-]. eauto.
Qed.

(** ** The signal set-up stays as the library leaves it *)

Lemma same_setup_refl (w : World) : same_setup w w.
Proof. unfold same_setup. auto. Qed.

Lemma same_setup_trans (a b c : World) :
  same_setup a b -> same_setup b c -> same_setup a c.
Proof. unfold same_setup. intros (-> & -> & ->) (-> & -> & ->). auto. Qed.

Lemma mem_le_same_setup (w w' : World) : mem_le w w' -> same_setup w w'.
Proof. intros (_ & _ & _ & Hg & Hs & Ha & _). unfold same_setup. auto. Qed.

Lemma signal_ready_same_setup (w w' : World) :
  same_setup w w' -> signal_ready w -> signal_ready w'.
Proof.
  unfold signal_ready, signal_setup_ok. intros (-> & -> & ->). auto.
Qed.

(** A call for the signal in use leaves the set-up as the library has it. *)
Lemma InitSignalHandlerUnlocked_ready (w : World) (b : bool) (w0 : World) :
  signal_ready w ->
  InitSignalHandlerUnlocked (g_stack_trace_signum w) w = Done (b, w0) ->
  signal_ready w0.
Proof.
  intros [Hok Hacc]. unfold InitSignalHandlerUnlocked.
  rewrite Z.eqb_refl. cbn [negb andb].
  assert (forall n, sigactions w n = OurHandler ->
                    state w = INITIALIZED /\ n = g_stack_trace_signum w) as Hok1
    by (intros n; apply Hok).
  destruct (state w) eqn:Hst; cbn beta iota.
  - destruct (sigactions w (g_stack_trace_signum w)) eqn:Hag; cbn beta iota;
      intros [= <- <-]; (split; [|cbn; intros _; apply Hacc; discriminate]);
      intros n; cbn;
      try (destruct (Z.eqb_spec n (g_stack_trace_signum w)) as [->|Hn]);
      split; try (intros H; apply Hok1 in H; destruct H; congruence);
      try (intros [H _]; discriminate); try tauto; try congruence.
  - intros [= <- <-]. split; [|cbn; congruence].
    intros n. cbn. pose proof (Hok n) as Hn. rewrite Hst in Hn. exact Hn.
  - intros [= <- <-]. split; [|cbn; intros _; apply Hacc; congruence].
    intros n. cbn. pose proof (Hok n) as Hn. rewrite Hst in Hn. exact Hn.
Qed.

Lemma TriggerAsync_ready (e : Env) (this : nat) (tid : Z) (stk : nat)
    (w : World) (s : Status) (w' : World) :
  signal_ready w -> TriggerAsync e this tid stk w = Done (s, w') ->
  signal_ready w'.
Proof.
  intros Hr H.
  pose proof (TriggerAsync_Done_fresh e this tid stk w s w' H) as Hfresh.
  destruct (TriggerAsync_fresh e this tid stk w Hfresh)
    as (b & w0 & Hinit & _ & Ht).
  apply (InitSignalHandlerUnlocked_ready w b w0 Hr) in Hinit.
  rewrite Ht in H. destruct b; cbn [negb] in H;
    [destruct (sigqueue_ok e tid)|]; injection H as <- <-; exact Hinit.
Qed.

Lemma RevokeSigData_same_setup (e : Env) (fuel this : nat) (w : World)
    (b : bool) (w' : World) :
  RevokeSigData e fuel this w = Done (b, w') -> same_setup w w'.
Proof.
  destruct (collectors_ w !! this) as [c|] eqn:Hc;
    [|unfold RevokeSigData, bind, get_collector; rewrite Hc; discriminate].
  destruct (sig_data_ c) as [p|] eqn:Hsd;
    [|unfold RevokeSigData, bind, get_collector; rewrite Hc, Hsd; discriminate].
  rewrite (RevokeSigData_unfold e fuel this w c p Hc Hsd).
  destruct (exchange e p kNotInUse w) as [[old w2]| | |] eqn:Hx;
    try discriminate.
  apply exchange_Done in Hx as (w0 & d & Hy & Hd & Hnf & -> & ->).
  apply yield_mem_le in Hy as [Hle0 _]. apply mem_le_same_setup in Hle0.
  assert (heap (put_cell p (set_sig (set_queued_to_tid kNotInUse) d) w0) !! p =
          Some (set_sig (set_queued_to_tid kNotInUse) d)) as Hd0
    by (eapply heap_put_cell_eq; eauto).
  destruct (queued_of d =? tid_ c).
  - rewrite (leak_and_forget p this (tid_ c) _ _ Hd0 Hnf).
    intros [= <- <-]. exact Hle0.
  - destruct (negb (queued_of d =? kDumpStarted)); [discriminate|].
    destruct (WaitUntil e fuel p MonoTime_Max _) as [[[] w3]| | |] eqn:Hw;
      try discriminate.
    apply WaitUntil_mem_le, mem_le_same_setup in Hw.
    unfold bind at 1, delete, bind, deref.
    destruct (heap w3 !! p) as [d3|] eqn:Hd3; [|discriminate].
    destruct (alloc d3) eqn:Ha3; try discriminate;
      intros [= <- <-];
      apply (same_setup_trans _ _ _ Hle0), Hw.
Qed.

Lemma AwaitCollection_same_setup (e : Env) (fuel this : nat) (deadline : Z)
    (w : World) (s : Status) (w' : World) :
  AwaitCollection e fuel this deadline w = Done (s, w') -> same_setup w w'.
Proof.
  unfold AwaitCollection. intros H.
  apply bind_Done in H as (c0 & w1 & H1 & H).
  unfold get_collector in H1.
  destruct (collectors_ w !! this) as [c|]; [|discriminate].
  injection H1 as <- <-.
  destruct (sig_data_ c) as [p|]; [|discriminate].
  apply bind_Done in H as (b1 & w1 & H1 & H).
  apply WaitUntil_mem_le, mem_le_same_setup in H1.
  apply bind_Done in H as (b2 & w2 & H2 & H).
  apply RevokeSigData_same_setup in H2.
  assert (w' = w2) as ->
    by (destruct (negb b2); injection H as _ <-; reflexivity).
  apply (same_setup_trans _ _ _ H1 H2).
Qed.

Lemma destroy_collector_same_setup (e : Env) (fuel this : nat)
    (w w' : World) :
  destroy_collector e fuel this w = Done (tt, w') -> same_setup w w'.
Proof.
  unfold destroy_collector. intros H.
  apply bind_Done in H as (c0 & w1 & H1 & H).
  unfold get_collector in H1.
  destruct (collectors_ w !! this) as [c|]; [|discriminate].
  injection H1 as <- <-.
  destruct (sig_data_ c) as [p|].
  - apply bind_Done in H as (b & w2 & H2 & H). injection H as <-.
    apply (RevokeSigData_same_setup e fuel this w b w2 H2).
  - injection H as <-. (unfold same_setup; cbn; auto).
Qed.

Lemma destroy_collectors_same_setup (e : Env) (fuel : nat) :
  forall n i w w',
    destroy_collectors e fuel n i w = Done (tt, w') -> same_setup w w'.
Proof.
  induction n as [|n IH]; intros i w w'; cbn [destroy_collectors].
  - intros [= <-]. (unfold same_setup; cbn; auto).
  - intros H. apply bind_Done in H as ([] & w1 & H1 & H).
    apply destroy_collector_same_setup in H1. apply IH in H.
    apply (same_setup_trans _ _ _ H1 H).
Qed.

Lemma collectors_clear_same_setup (e : Env) (fuel : nat) (w w' : World) :
  collectors_clear e fuel w = Done (tt, w') -> same_setup w w'.
Proof.
  unfold collectors_clear. intros H.
  apply bind_Done in H as (w0 & w1 & H1 & H). injection H1 as <- <-.
  apply bind_Done in H as ([] & w1 & H1 & H).
  apply destroy_collectors_same_setup in H1. injection H as <-. exact H1.
Qed.

Lemma update_info_same_setup (i : nat) (f : ThreadInfo -> ThreadInfo)
    (w w' : World) :
  update_info i f w = Done (tt, w') -> same_setup w w'.
Proof.
  intros H. apply update_info_inv in H as (info & _ & ->).
  (unfold same_setup; cbn; auto).
Qed.

Lemma trigger_loop_ready (e : Env) (tids : list Z) :
  forall n i w w',
    signal_ready w -> trigger_loop e n tids i w = Done (tt, w') ->
    signal_ready w'.
Proof.
  induction n as [|n IH]; intros i w w' Hr; cbn [trigger_loop].
  - intros [= <-]. exact Hr.
  - intros H.
    apply bind_Done in H as ([] & w1 & H1 & H).
    apply update_info_same_setup in H1.
    apply bind_Done in H as (s & w2 & H2 & H).
    apply TriggerAsync_ready in H2;
      [|apply (signal_ready_same_setup w w1 H1 Hr)].
    apply bind_Done in H as ([] & w3 & H3 & H).
    apply update_info_same_setup in H3.
    apply (IH (S i) w3 w'); [|exact H].
    apply (signal_ready_same_setup w2 w3 H3 H2).
Qed.

Lemma names_loop_same_setup (e : Env) :
  forall n i w w',
    names_loop e n i w = Done (tt, w') -> same_setup w w'.
Proof.
  induction n as [|n IH]; intros i w w'; cbn [names_loop].
  - intros [= <-]. (unfold same_setup; cbn; auto).
  - intros H. apply bind_Done in H as (info0 & w1 & H1 & H).
    unfold get_info in H1.
    destruct (infos_ w !! i) as [info|]; [|discriminate].
    injection H1 as <- <-.
    apply bind_Done in H as ([] & w2 & H2 & H).
    apply IH in H. refine (same_setup_trans _ _ _ _ H).
    destruct (negb (ok (ThreadInfo.status info))).
    + injection H2 as <-. (unfold same_setup; cbn; auto).
    + destruct (comm e (ThreadInfo.tid info));
        apply (update_info_same_setup _ _ _ _ H2).
Qed.

Lemma await_loop_same_setup (e : Env) (fuel : nat) (deadline : Z) :
  forall n i w w',
    await_loop e fuel n deadline i w = Done (tt, w') -> same_setup w w'.
Proof.
  induction n as [|n IH]; intros i w w'; cbn [await_loop].
  - intros [= <-]. (unfold same_setup; cbn; auto).
  - intros H. apply bind_Done in H as (info0 & w1 & H1 & H).
    unfold get_info in H1.
    destruct (infos_ w !! i) as [info|]; [|discriminate].
    injection H1 as <- <-.
    apply bind_Done in H as (s & w2 & H2 & H).
    assert (same_setup w w2) as S2.
    { destruct (ok (ThreadInfo.status info)).
      - apply (AwaitCollection_same_setup _ _ _ _ _ _ _ H2).
      - injection H2 as _ <-. (unfold same_setup; cbn; auto). }
    apply bind_Done in H as ([] & w3 & H3 & H).
    apply update_info_same_setup in H3.
    apply bind_Done in H as ([] & w4 & H4 & H).
    apply IH in H.
    refine (same_setup_trans _ _ _ S2 (same_setup_trans _ _ _ H3
              (same_setup_trans _ _ _ _ H))).
    destruct (negb (ok s)).
    + apply bind_Done in H4 as ([] & w5 & H5 & H4). injection H5 as <-.
      apply bind_Done in H4 as ([] & w6 & H6 & H4).
      apply yield_mem_le in H6 as [H6 _]. apply mem_le_same_setup in H6.
      apply bind_Done in H4 as (info0' & w7 & H7 & H4).
      unfold get_info in H7.
      destruct (infos_ w6 !! i) as [info'|]; [|discriminate].
      injection H7 as <- <-.
      destruct (HasCollected (ThreadInfo.stack info')); [discriminate|].
      injection H4 as <-. exact H6.
    + injection H4 as <-. (unfold same_setup; cbn; auto).
Qed.

(** A snapshot leaves the signal set-up as the library has it. *)
Lemma SnapshotAllStacks_ready (e : Env) (fuel : nat) (w : World)
    (s : Status) (w' : World) :
  signal_ready w -> SnapshotAllStacks e fuel w = Done (s, w') ->
  signal_ready w'.
Proof.
  intros Hr. unfold SnapshotAllStacks.
  destruct (IsBeingDebugged e); [intros [= _ <-]; exact Hr|].
  destruct (ListThreads e []) as [s0 tids].
  destruct (negb (ok s0)); [intros [= _ <-]; exact Hr|].
  intros H.
  apply bind_Done in H as ([] & w1 & H1 & H).
  apply collectors_clear_same_setup in H1.
  apply bind_Done in H as ([] & w2 & H2 & H). injection H2 as <-.
  apply bind_Done in H as ([] & w3 & H3 & H). injection H3 as <-.
  apply bind_Done in H as ([] & w4 & H4 & H).
  apply trigger_loop_ready in H4;
    [|apply (signal_ready_same_setup w1); [(unfold same_setup; cbn; auto)|];
      apply (signal_ready_same_setup w w1 H1 Hr)].
  apply bind_Done in H as (w5 & w5' & H5 & H). injection H5 as <- <-.
  apply bind_Done in H as ([] & w6 & H6 & H).
  assert (same_setup w4 w6) as S6.
  { destruct (capture_thread_names_ w4).
    - apply (names_loop_same_setup _ _ _ _ _ H6).
    - injection H6 as <-. (unfold same_setup; cbn; auto). }
  apply bind_Done in H as ([] & w7 & H7 & H). injection H7 as <-.
  apply bind_Done in H as (now & w8 & H8 & H). injection H8 as <- <-.
  apply bind_Done in H as (w9 & w9' & H9 & H). injection H9 as <- <-.
  apply bind_Done in H as ([] & w10 & H10 & H).
  apply await_loop_same_setup in H10.
  apply bind_Done in H as ([] & w11 & H11 & H).
  apply collectors_clear_same_setup in H11.
  apply bind_Done in H as ([] & w12 & H12 & H).
  apply yield_mem_le in H12 as [H12 _]. apply mem_le_same_setup in H12.
  apply bind_Done in H as ([] & w13 & H13 & H). injection H13 as <-.
  injection H as _ <-.
  apply (signal_ready_same_setup w12); [(unfold same_setup; cbn; auto)|].
  apply (signal_ready_same_setup _ _ H12).
  apply (signal_ready_same_setup _ _ H11).
  apply (signal_ready_same_setup _ _ H10).
  apply (signal_ready_same_setup w6); [(unfold same_setup; cbn; auto)|].
  apply (signal_ready_same_setup _ _ S6). exact H4.
Qed.


(** So does [GetThreadStack]. *)
Lemma GetThreadStack_ready (e : Env) (fuel c : nat) (tid : Z) (stk : nat)
    (w : World) (s : Status) (w' : World) :
  signal_ready w -> GetThreadStack e fuel c tid stk w = Done (s, w') ->
  signal_ready w'.
Proof.
  intros Hr. unfold GetThreadStack. intros H.
  apply bind_Done in H as ([] & w1 & H1 & H). injection H1 as <-.
  apply bind_Done in H as (s1 & w2 & H2 & H).
  apply TriggerAsync_ready in H2;
    [|apply (signal_ready_same_setup w); [unfold same_setup; cbn; auto|exact Hr]].
  destruct (negb (ok s1)).
  - apply bind_Done in H as ([] & w3 & H3 & H). injection H as _ <-.
    apply (signal_ready_same_setup w2 w3); [|exact H2].
    apply (destroy_collector_same_setup _ _ _ _ _ H3).
  - apply bind_Done in H as (now & w3 & H3 & H). injection H3 as <- <-.
    apply bind_Done in H as (s2 & w4 & H4 & H).
    apply AwaitCollection_same_setup in H4.
    assert (exists w5, destroy_collector e fuel c w4 = Done (tt, w5) /\ w' = w5)
      as (w5 & H5 & ->).
    { destruct (negb (ok s2));
        apply bind_Done in H as ([] & w5 & H5 & H); injection H as _ <-; eauto. }
    apply destroy_collector_same_setup in H5.
    apply (signal_ready_same_setup w4 w5 H5).
    apply (signal_ready_same_setup _ w4 H4).
    apply (signal_ready_same_setup w2); [unfold same_setup; cbn; auto|exact H2].
Qed.


Lemma example_env_ok (sch : nat -> list nat) :
  (forall k p, In p (sch k) -> exists j, (k < j)%nat /\ In p (sch j)) ->
  EnvOk (example_env slow_clock sch).
Proof.
  intros Hfair. constructor; cbn.
  - intros n. unfold slow_clock, MonoTime_Max, one_second. lia.
  - intros a b Hab. unfold slow_clock, one_second. lia.
  - exact Hfair.
  - intros tid. apply Z.ltb_lt.
  - intros lt l. apply Permutation_refl.
Qed.

Lemma example_world_setup_ok (infos : list ThreadInfo)
    (collectors : list StackTraceCollector) (cells : list Cell) :
  signal_setup_ok (example_world infos collectors cells).
Proof.
  intros n. cbn. destruct (Z.eqb_spec n 12); split; intros H;
    try discriminate; auto. destruct H. contradiction.
Qed.

Lemma example_world_ready (infos : list ThreadInfo)
    (collectors : list StackTraceCollector) (cells : list Cell) :
  signal_ready (example_world infos collectors cells).
Proof.
  split; [apply example_world_setup_ok|].
  intros _. cbn. unfold sigaction_accepts. lia.
Qed.

Lemma Inv_empty (e : Env) : Inv e None (example_world [] [] []).
Proof.
  unfold Inv. cbn. repeat split; try constructor; intros; discriminate.
Qed.

(** Two threads that never run the handler: both collections time out, both
    failures are counted, and the snapshot returns OK. *)
Example SnapshotAllStacks_all_blocked :
  match SnapshotAllStacks blocked_env 4 (example_world [] [] []) with
  | Done (s, w') =>
      s = Status_OK /\ num_failed_ w' = 2 /\
      map entry_summary (infos_ w') = [(7, kTimedOut, 0); (8, kTimedOut, 0)]
  | _ => False
  end.
Proof. vm_compute. auto. Qed.

(** One blocked thread of two: the snapshot returns OK with one failure, in
    the entry of the blocked thread, which holds no frame. *)
Example SnapshotAllStacks_one_blocked :
  match SnapshotAllStacks one_blocked_env 4 (example_world [] [] []) with
  | Done (s, w') =>
      s = Status_OK /\ num_failed_ w' = 1 /\
      map entry_summary (infos_ w') = [(7, kOk, 2); (8, kTimedOut, 0)]
  | _ => False
  end.
Proof. vm_compute. auto. Qed.


(* ================================================================== *)
(** * Part III. Further properties of the code *)
(* ================================================================== *)

(** ** [Collect] on a stack that is safe to unwind *)

Lemma Collect_loop_frames (cursor : unw_cursor) :
  forall (skip : Z) (fr : list Z) (n : nat),
    0 <= skip -> (n <= 16)%nat -> length fr = 16%nat ->
    let new := take (16 - n) (drop (Z.to_nat skip) (unwound cursor)) in
    Collect_loop cursor skip (mkStackTrace fr (Z.of_nat n)) =
    mkStackTrace (take n fr ++ new ++ drop (n + length new) fr)
                 (Z.of_nat (n + length new)).
Proof.
  induction cursor as [|r callers IH]; intros skip fr n Hs Hn Hl; cbv zeta.
  - cbn [Collect_loop unwound]. rewrite drop_nil, take_nil. cbn [app length].
    rewrite Nat.add_0_r, take_drop. reflexivity.
  - cbn [Collect_loop num_frames_ frames_]. unfold kMaxFrames.
    destruct (Z.ltb_spec (Z.of_nat n) 16) as [Hlt|Hge].
    2: { replace (16 - n)%nat with 0%nat by lia. rewrite take_0; cbn [app length].
         rewrite Nat.add_0_r, take_drop. reflexivity. }
    destruct r as [ip|].
    2: { cbn [unwound]. rewrite drop_nil, take_nil. cbn [app length].
         rewrite Nat.add_0_r, take_drop. reflexivity. }
    cbn [unwound].
    destruct (Z.ltb_spec 0 skip) as [Hpos|Hzero].
    + (* the frame is skipped *)
      replace (Z.to_nat skip) with (S (Z.to_nat (skip - 1))) by lia.
      cbn [skipn].
      destruct callers as [|r' callers'].
      * cbn [unwound]. rewrite drop_nil, take_nil. cbn [app length].
        rewrite Nat.add_0_r, take_drop. reflexivity.
      * apply (IH (skip - 1) fr n); [lia|exact Hn|exact Hl].
    + (* the frame is stored *)
      assert (skip = 0) as -> by lia. change (Z.to_nat 0) with 0%nat.
      rewrite drop_0.
      rewrite Nat2Z.id.
      replace (Z.of_nat n + 1) with (Z.of_nat (S n)) by lia.
      assert (n < length fr)%nat as Hnl by lia.
      destruct callers as [|r' callers'].
      * cbn [unwound]. replace (16 - n)%nat with (S (15 - n)) by lia.
        cbn [firstn]. rewrite take_nil. cbn [length].
        replace (n + 1)%nat with (S n) by lia.
        f_equal. rewrite insert_take_drop by exact Hnl. reflexivity.
      * rewrite (IH 0 (<[n := ip]> fr) (S n));
          [|lia|lia|rewrite length_insert; exact Hl].
        change (Z.to_nat 0) with 0%nat. rewrite drop_0.
        replace (16 - n)%nat with (S (16 - S n)) by lia.
        set (rest := take (16 - S n) (unwound (r' :: callers'))).
        cbn [firstn length]. fold rest.
        replace (n + S (length rest))%nat with (S n + length rest)%nat by lia.
        f_equal.
        rewrite (take_S_r _ n ip) by (apply list_lookup_insert_eq; exact Hnl).
        rewrite take_insert_ge by lia. rewrite drop_insert_lt by lia.
        rewrite <- app_assoc.
        reflexivity.
Qed.

(** [Collect] on a stack that is safe to unwind, for a [skip_frames] whose
    increment does not overflow. *)
Lemma Collect_safe (f_ptr skip_frames : Z) (cursor : unw_cursor)
    (st : StackTrace) :
  0 <= skip_frames < 2147483647 ->
  length (frames_ st) = Z.to_nat kMaxFrames ->
  let new := take (Z.to_nat kMaxFrames)
                  (drop (Z.to_nat (skip_frames + 1)) (unwound cursor)) in
  let st' := Collect true f_ptr cursor skip_frames st in
  num_frames_ st' = Z.of_nat (length new) /\
  defined_prefix st' = new /\
  frames_ st' = new ++ drop (length new) (frames_ st).
Proof.
  intros Hs Hl. cbv zeta.
  assert (Collect true f_ptr cursor skip_frames st =
          mkStackTrace
            (take 16 (drop (Z.to_nat (skip_frames + 1)) (unwound cursor)) ++
             drop (length (take 16 (drop (Z.to_nat (skip_frames + 1))
                                         (unwound cursor))))
                  (frames_ st))
            (Z.of_nat (length (take 16 (drop (Z.to_nat (skip_frames + 1))
                                             (unwound cursor)))))) as ->.
  { unfold Collect. cbn [negb].
    change (Z.to_nat kMaxFrames) with 16%nat in Hl.
    pose proof (Collect_loop_frames cursor (skip_frames + 1) (frames_ st) 0
                  ltac:(lia) ltac:(lia) Hl) as H.
    cbv zeta in H. change (Z.of_nat 0) with 0 in H. rewrite H.
    rewrite take_0, Nat.sub_0_r. reflexivity. }
  change (Z.to_nat kMaxFrames) with 16%nat.
  cbn [num_frames_ frames_]. split; [reflexivity|]. split; [|reflexivity].
  unfold defined_prefix, frames_range. cbn [num_frames_ frames_].
  rewrite Nat2Z.id. apply take_app_length.
Qed.

(** X1: on a stack that is safe to unwind, [Collect(skip_frames)] leaves in
    the buffer the instruction pointers the unwinder yields, innermost first,
    without the first [skip_frames + 1] (its own frame and the frames asked
    to be skipped) and cut at the 16 slots of the array; [num_frames_] is
    their number, and the slots after them keep what they held.  This is for
    [skip_frames] from 0 to [INT_MAX - 1], where the [skip_frames++] of the
    code, on an [int], does not overflow. *)
Theorem Collect_safe_frames (f_ptr skip_frames : Z) (cursor : unw_cursor)
    (st : StackTrace) :
  0 <= skip_frames -> skip_frames < 2147483647 ->
  length (frames_ st) = Z.to_nat kMaxFrames ->
  let new := take (Z.to_nat kMaxFrames)
                  (drop (Z.to_nat (skip_frames + 1)) (unwound cursor)) in
  let st' := Collect true f_ptr cursor skip_frames st in
  num_frames_ st' = Z.of_nat (length new) /\
  defined_prefix st' = new /\
  frames_ st' = new ++ drop (length new) (frames_ st).
Proof.
  intros Hs Hmax Hl. cbv zeta. unfold Collect. cbn [negb].
  change (Z.to_nat kMaxFrames) with 16%nat in *.
  pose proof (Collect_loop_frames cursor (skip_frames + 1) (frames_ st) 0
                ltac:(lia) ltac:(lia) Hl) as H.
  cbv zeta in H. change (Z.of_nat 0) with 0 in H. rewrite H. clear H.
  rewrite take_0, Nat.sub_0_r. cbn [app num_frames_ frames_ Nat.add].
  split; [reflexivity|]. split; [|reflexivity].
  unfold defined_prefix, frames_range. cbn [num_frames_ frames_].
  rewrite Nat2Z.id. apply take_app_length.
Qed.

Lemma Collect_safe_frames_witness :
  defined_prefix
    (Collect true 4198400 [Some 10; Some 20; Some 30; None; Some 40] 1
             StackTrace_new) = [30].
Proof.
  apply (Collect_safe_frames 4198400 1
           [Some 10; Some 20; Some 30; None; Some 40] StackTrace_new).
  - lia.
  - lia.
  - reflexivity.
Defined.

(** [Collect] leaves a buffer as the array declares it, whether the stack is
    safe to unwind or not and however deep it is. *)
Lemma Collect_wf (safe : bool) (f_ptr skip_frames : Z) (cursor : unw_cursor)
    (st : StackTrace) :
  0 <= skip_frames < 2147483647 ->
  length (frames_ st) = Z.to_nat kMaxFrames ->
  Forall (fun a => 0 <= a < uintptr_max) (frames_ st) ->
  Forall (fun a => 0 <= a < uintptr_max) (unwound cursor) ->
  StackTrace_wf (Collect safe f_ptr cursor skip_frames st).
Proof.
  intros Hs Hl Hr Hc. destruct safe.
  - destruct (Collect_safe f_ptr skip_frames cursor st Hs Hl)
      as (Hn & _ & Hf).
    cbv zeta in Hn, Hf. unfold StackTrace_wf. rewrite Hn, Hf.
    set (new := take (Z.to_nat kMaxFrames)
                     (drop (Z.to_nat (skip_frames + 1)) (unwound cursor))).
    assert (length new <= Z.to_nat kMaxFrames)%nat as Hnew
      by (unfold new; rewrite length_take; lia).
    split; [|split].
    + rewrite length_app, length_drop, Hl. lia.
    + unfold kMaxFrames in *. lia.
    + apply Forall_app. split.
      * apply Forall_take, Forall_drop, Hc.
      * apply Forall_drop, Hr.
  - unfold Collect. cbn [negb]. unfold StackTrace_wf. cbn [frames_ num_frames_].
    split; [rewrite length_insert; exact Hl|].
    split; [unfold kMaxFrames; lia|].
    apply Forall_insert; [exact Hr|].
    apply Z.mod_pos_bound. reflexivity.
Qed.

(** ** The size of the hex text *)

Lemma length_fields_le (st : StackTrace) (flags : Z) (k : nat) (i : Z) :
  Z.of_nat (length (fields st flags k i)) <=
  Z.of_nat k * (kHexEntryLength + 1 +
                (if flag_set flags HEX_0X_PREFIX then 2 else 0)).
Proof.
  revert i. induction k as [|k IH]; intros i; [cbn; lia|].
  cbn [fields]. rewrite length_app, Nat2Z.inj_add, length_field_chars.
  specialize (IH (i + 1)). unfold kHexEntryLength in *.
  destruct (negb (i =? 0)), (flag_set flags HEX_0X_PREFIX); lia.
Qed.

(** X2: the buffer [ToHexString] sizes for itself is large enough with every
    combination of flags: for a buffer of at most 16 frames no write of
    [StringifyToHex] falls outside it, and the text holds the field of every
    frame, none is cut off. *)
Theorem ToHexString_holds_every_frame (st : StackTrace) (flags : Z) :
  StackTrace_wf st ->
  let len_per_frame :=
    kHexEntryLength + 1 + (if flag_set flags HEX_0X_PREFIX then 2 else 0) in
  let buf_len := kMaxFrames * len_per_frame + 1 in
  in_bounds buf_len (StringifyToHex st buf_len flags) /\
  ToHexString st flags = fields st flags (Z.to_nat (num_frames_ st)) 0.
Proof.
  intros (Hl & Hn & _). cbv zeta.
  pose proof (hex_iterations_ToHexString (Z.to_nat (num_frames_ st))
                (flag_set flags HEX_0X_PREFIX)) as Hk.
  assert (Z.to_nat (num_frames_ st) <= 16)%nat as Hn16
    by (unfold kMaxFrames in Hn; lia).
  specialize (Hk Hn16).
  split.
  - apply StringifyToHex_in_bounds_iff.
    pose proof (length_fields_le st flags (Z.to_nat (num_frames_ st)) 0) as Hle.
    assert (hex_iterations (Z.to_nat (num_frames_ st))
              (flag_set flags HEX_0X_PREFIX)
              (kMaxFrames * (kHexEntryLength + 1 +
                             (if flag_set flags HEX_0X_PREFIX then 2 else 0))
               + 1 - kHexEntryLength - 2) 0 0 = Z.to_nat (num_frames_ st))
      as -> by (destruct (flag_set flags HEX_0X_PREFIX); exact Hk).
    unfold kMaxFrames, kHexEntryLength in *.
    destruct (flag_set flags HEX_0X_PREFIX); lia.
  - unfold ToHexString. cbv zeta. rewrite c_str_StringifyToHex.
    destruct (flag_set flags HEX_0X_PREFIX); rewrite Hk; reflexivity.
Qed.

Lemma ToHexString_holds_every_frame_witness :
  ToHexString (mkStackTrace (4198473 :: 0 :: replicate 14 0) 2) HEX_0X_PREFIX =
  fields (mkStackTrace (4198473 :: 0 :: replicate 14 0) 2) HEX_0X_PREFIX 2 0.
Proof.
  apply (ToHexString_holds_every_frame
           (mkStackTrace (4198473 :: 0 :: replicate 14 0) 2) HEX_0X_PREFIX).
  apply StackTrace_wfb_true. vm_compute. reflexivity.
Defined.

Lemma hex_iterations_no_prefix (size : Z) (n : nat) :
  forall i, 1 <= i ->
    hex_iterations n false (size - kHexEntryLength - 2) i
                   ((kHexEntryLength + 1) * i - 1) =
    Z.to_nat (Z.min (Z.of_nat n)
                    (Z.max 0 ((size - 1) / (kHexEntryLength + 1) - i))).
Proof.
  unfold kHexEntryLength. induction n as [|n IH]; intros i Hi.
  - cbn [hex_iterations]. lia.
  - cbn [hex_iterations].
    destruct (Z.eqb_spec i 0) as [->|_]; [lia|]. cbn [negb].
    unfold kHexEntryLength.
    replace ((16 + 1) * i - 1 + (1 + 0 + 16)) with ((16 + 1) * (i + 1) - 1)
      by lia.
    rewrite (IH (i + 1)) by lia.
    pose proof (Z.div_mod (size - 1) (16 + 1) ltac:(lia)) as Hdm.
    pose proof (Z.mod_pos_bound (size - 1) (16 + 1) ltac:(lia)) as Hmb.
    destruct (Z.ltb_spec ((16 + 1) * i - 1) (size - 16 - 2)); lia.
Qed.

Lemma hex_iterations_no_prefix_from_0 (size : Z) (n : nat) :
  hex_iterations n false (size - kHexEntryLength - 2) 0 0 =
  Z.to_nat (if size <? kHexEntryLength + 3 then 0
            else Z.min (Z.of_nat n) ((size - 1) / (kHexEntryLength + 1))).
Proof.
  destruct n as [|n].
  - cbn [hex_iterations]. destruct (size <? kHexEntryLength + 3); lia.
  - cbn [hex_iterations]. unfold kHexEntryLength at 1 4.
    destruct (Z.ltb_spec 0 (size - 16 - 2)) as [Hlt|Hge];
      destruct (Z.ltb_spec size (16 + 3)); try lia.
    cbn [Z.eqb negb].
    pose proof (hex_iterations_no_prefix size n 1 ltac:(lia)) as Hit.
    unfold kHexEntryLength in Hit |- *.
    replace (0 + (0 + 0 + 16)) with ((16 + 1) * 1 - 1) by lia.
    change (0 + 1) with 1. rewrite Hit.
    pose proof (Z.div_mod (size - 1) (16 + 1) ltac:(lia)) as Hdm.
    pose proof (Z.mod_pos_bound (size - 1) (16 + 1) ltac:(lia)) as Hmb.
    lia.
Qed.

(** X3: without [HEX_0X_PREFIX], [StringifyToHex] stays inside a buffer of
    any positive size, and it tells how many frames the buffer gets: none
    below 19 bytes, and otherwise as many as there are, up to the number of
    fields of 17 bytes that fit in [size - 1] bytes.  So a buffer of exactly
    the bytes the text and its terminator take loses the last frame.  The
    size is that of a buffer, at most [PTRDIFF_MAX] bytes, so that the
    [dst + size] of the code does not wrap around. *)
Theorem StringifyToHex_no_prefix_frames (st : StackTrace) (size flags : Z) :
  flag_set flags HEX_0X_PREFIX = false ->
  0 <= num_frames_ st -> 0 < size -> size <= 9223372036854775807 ->
  let k := if size <? kHexEntryLength + 3 then 0
           else Z.min (num_frames_ st) ((size - 1) / (kHexEntryLength + 1)) in
  in_bounds size (StringifyToHex st size flags) /\
  c_str (written (StringifyToHex st size flags)) =
    fields st flags (Z.to_nat k) 0.
Proof.
  intros Hp Hn Hs Hmax. cbv zeta.
  split; [apply StringifyToHex_in_bounds_no_prefix; assumption|].
  rewrite c_str_StringifyToHex, Hp, hex_iterations_no_prefix_from_0. f_equal.
  destruct (size <? kHexEntryLength + 3); [reflexivity|]. lia.
Qed.

Lemma StringifyToHex_no_prefix_frames_witness :
  c_str (written (StringifyToHex
                    (mkStackTrace (4198473 :: 5 :: replicate 14 0) 2) 34 0)) =
  fields (mkStackTrace (4198473 :: 5 :: replicate 14 0) 2) 0 1 0.
Proof.
  apply (StringifyToHex_no_prefix_frames
           (mkStackTrace (4198473 :: 5 :: replicate 14 0) 2) 34 0).
  - reflexivity.
  - cbn. lia.
  - lia.
  - lia.
Defined.

(** ** The stack of the calling thread as text *)

(** X4: [GetStackTraceHex] never cuts a stack short: the 1024 bytes of its
    buffer hold the field of every frame [Collect(1)] leaves, no write falls
    outside them, and the fields read back as the call addresses of those
    frames: on a stack that is safe to unwind, those of the frames above
    [HexStackTraceToString], at most 16 of them. *)
Theorem GetStackTraceHex_call_addresses (safe : bool) (f_ptr : Z)
    (cursor : unw_cursor) (garbage : list Z) :
  length garbage = Z.to_nat kMaxFrames ->
  Forall (fun a => 0 <= a < uintptr_max) garbage ->
  Forall (fun a => 0 <= a < uintptr_max) (unwound cursor) ->
  in_bounds 1024 (HexStackTraceToString safe f_ptr cursor garbage 1024) /\
  parse_fields (GetStackTraceHex safe f_ptr cursor garbage) =
    map call_address
        (defined_prefix (Collect safe f_ptr cursor 1 (StackTrace_local garbage))) /\
  (safe = true ->
   parse_fields (GetStackTraceHex safe f_ptr cursor garbage) =
     map call_address (take 16 (drop 2 (unwound cursor)))).
Proof.
  intros Hl Hg Hc.
  pose proof (Collect_wf safe f_ptr 1 cursor (StackTrace_local garbage)
                ltac:(lia) Hl Hg Hc) as Hwf.
  assert (parse_fields (GetStackTraceHex safe f_ptr cursor garbage) =
          map call_address
              (defined_prefix
                 (Collect safe f_ptr cursor 1 (StackTrace_local garbage))))
    as Hparse.
  { unfold GetStackTraceHex, HexStackTraceToString. cbv zeta.
    rewrite (parse_fields_StringifyToHex _ 1024 0 Hwf).
    change (flag_set 0 HEX_0X_PREFIX) with false.
    rewrite (hex_iterations_no_prefix_from_0 1024).
    destruct Hwf as (Hlen & Hn & Hr).
    change (1024 <? kHexEntryLength + 3) with false. cbv iota.
    change ((1024 - 1) / (kHexEntryLength + 1)) with 60.
    rewrite Z.min_l by (unfold kMaxFrames in Hn; lia). rewrite Nat2Z.id.
    apply map_ext_Forall. apply Forall_take.
    eapply Forall_impl; [exact Hr|]. intros a Ha. cbv beta in Ha |- *.
    apply fix_caller_address_call_address; [reflexivity|lia]. }
  split; [|split].
  - apply StringifyToHex_in_bounds_no_prefix; [lia|reflexivity].
  - exact Hparse.
  - intros ->. rewrite Hparse. f_equal.
    apply (Collect_safe f_ptr 1 cursor (StackTrace_local garbage));
      [lia|exact Hl].
Qed.

Lemma GetStackTraceHex_call_addresses_witness :
  parse_fields
    (GetStackTraceHex true 4198400
       [Some 4198401; Some 4198417; Some 4198433; Some 4198449]
       (replicate 16 7)) = [4198432; 4198448].
Proof.
  apply (GetStackTraceHex_call_addresses true 4198400
           [Some 4198401; Some 4198417; Some 4198433; Some 4198449]
           (replicate 16 7)).
  - reflexivity.
  - repeat constructor; unfold uintptr_max; lia.
  - repeat constructor; unfold uintptr_max; lia.
  - reflexivity.
Defined.

(** ** The log format *)

Section LogFormatFacts.
Variable printf_pointer : Z -> Z -> string.

Lemma ToLogFormatHexString_loop_lines (n j : nat) (st : StackTrace)
    (ret : string) :
  (j + n <= length (frames_ st))%nat ->
  ToLogFormatHexString_loop printf_pointer n st (Z.of_nat j) ret =
  (ret ++ concat_strings
            (map (log_format_line printf_pointer)
                 (take n (drop j (frames_ st)))))%string.
Proof.
  revert j ret. induction n as [|n IH]; intros j ret Hj.
  - simpl. rewrite string_append_nil_r. reflexivity.
  - destruct (lookup_lt_is_Some_2 (frames_ st) j) as [a Ha]; [lia|].
    rewrite (drop_S _ _ _ Ha).
    cbn [ToLogFormatHexString_loop firstn map concat_strings fold_right].
    replace (Z.of_nat j + 1) with (Z.of_nat (S j)) by lia.
    rewrite IH by lia. unfold frame_at. rewrite Nat2Z.id, Ha. simpl default.
    rewrite string_append_assoc. reflexivity.
Qed.

Lemma ToLogFormatHexString_lines (st : StackTrace) :
  StackTrace_wf st ->
  ToLogFormatHexString printf_pointer st =
  concat_strings (map (log_format_line printf_pointer) (defined_prefix st)).
Proof.
  intros (Hlen & Hn & _). unfold ToLogFormatHexString.
  rewrite (ToLogFormatHexString_loop_lines _ 0); [reflexivity|].
  unfold kMaxFrames in *. simpl. lia.
Qed.
End LogFormatFacts.

(** X5: [GetLogFormatStackTraceHex] gives one line for each frame above its
    caller on a stack that is safe to unwind, at most 16, innermost first,
    and the line shows the return address as the unwinder read it: the log
    format does not move the address back to the call as the hex format
    does. *)
Theorem GetLogFormatStackTraceHex_lines (printf_pointer : Z -> Z -> string)
    (f_ptr : Z) (cursor : unw_cursor) (garbage : list Z) :
  length garbage = Z.to_nat kMaxFrames ->
  Forall (fun a => 0 <= a < uintptr_max) garbage ->
  Forall (fun a => 0 <= a < uintptr_max) (unwound cursor) ->
  GetLogFormatStackTraceHex true f_ptr cursor garbage printf_pointer =
  concat_strings (map (log_format_line printf_pointer)
                      (take 16 (drop 2 (unwound cursor)))).
Proof.
  intros Hl Hg Hc. unfold GetLogFormatStackTraceHex. cbv zeta.
  rewrite ToLogFormatHexString_lines
    by (apply Collect_wf; [lia|exact Hl|exact Hg|exact Hc]).
  do 2 f_equal.
  apply (Collect_safe f_ptr 1 cursor (StackTrace_local garbage));
    [lia|exact Hl].
Qed.

Lemma GetLogFormatStackTraceHex_lines_witness :
  GetLogFormatStackTraceHex true 4198400
    [Some 4198401; Some 4198417; Some 4198433] (replicate 16 7)
    (fun _ pc => if (pc =? 4198433)%Z then "0x401021"%string else "?"%string) =
  ("    @ 0x401021" ++ newline)%string.
Proof.
  apply (GetLogFormatStackTraceHex_lines
           (fun _ pc => if (pc =? 4198433)%Z then "0x401021"%string else "?"%string)
           4198400 [Some 4198401; Some 4198417; Some 4198433]
           (replicate 16 7)).
  - reflexivity.
  - repeat constructor; unfold uintptr_max; lia.
  - repeat constructor; unfold uintptr_max; lia.
Defined.

(** ** Order, equality and hash of stack buffers *)

Lemma lexicographical_compare_neither (l1 l2 : list Z) :
  lexicographical_compare l1 l2 = false ->
  lexicographical_compare l2 l1 = false -> l1 = l2.
Proof.
  revert l2. induction l1 as [|x l1 IH]; intros [|y l2]; cbn;
    try discriminate; [reflexivity|].
  destruct (Z.ltb_spec x y), (Z.ltb_spec y x); try discriminate; try lia.
  intros H1 H2. assert (x = y) as -> by lia. f_equal. apply IH; assumption.
Qed.

Lemma Equals_true (s t : StackTrace) :
  Equals s t = true <->
  num_frames_ t = num_frames_ s /\ defined_prefix s = defined_prefix t.
Proof.
  unfold Equals, defined_prefix. rewrite andb_true_iff, Z.eqb_eq,
    bool_decide_eq_true.
  split; intros [Hn Hp]; (split; [exact Hn|]); [rewrite Hn|rewrite Hn in Hp];
    exact Hp.
Qed.

(** X6: among buffers that hold the same number of frames, [LessThan] is the
    lexicographic order of the defined prefixes and goes with [Equals]: two
    buffers are [Equals] exactly when they hold the same number of frames
    and neither is [LessThan] the other. *)
Theorem LessThan_Equals_same_length (s t : StackTrace) :
  (num_frames_ s = num_frames_ t -> LessThan s t = less_spec s t) /\
  (Equals s t = true <->
   num_frames_ s = num_frames_ t /\
   LessThan s t = false /\ LessThan t s = false).
Proof.
  split.
  - intros Hn. unfold LessThan, less_spec, defined_prefix. rewrite Hn.
    reflexivity.
  - rewrite Equals_true. unfold LessThan, defined_prefix. split.
    + intros [Hn Hp]. split; [symmetry; exact Hn|].
      rewrite Hn in Hp |- *. rewrite Hp.
      split; apply lexicographical_compare_irrefl.
    + intros (Hn & H1 & H2). rewrite <- Hn in H2 |- *.
      split; [reflexivity|].
      apply lexicographical_compare_neither; assumption.
Qed.

Section HashCodeFacts.
Variable CityHash64 : list Z -> Z.

Lemma length_pointer_bytes (a : Z) : length (pointer_bytes a) = 8%nat.
Proof. reflexivity. Qed.

Lemma take_pointer_bytes (l : list Z) (n : nat) :
  take (8 * n) (flat_map pointer_bytes l) = flat_map pointer_bytes (take n l).
Proof.
  revert n. induction l as [|a l IH]; intros n.
  - rewrite take_nil. cbn. apply take_nil.
  - destruct n as [|n]; [reflexivity|].
    cbn [flat_map firstn].
    replace (8 * S n)%nat with (length (pointer_bytes a) + 8 * n)%nat
      by (rewrite length_pointer_bytes; lia).
    rewrite take_app_add. f_equal. apply IH.
Qed.

(** X7: [HashCode] reads the defined prefix and nothing else, so buffers
    that are [Equals] have the same hash, whatever their arrays hold after
    the defined frames. *)
Theorem Equals_HashCode (s t : StackTrace) :
  Equals s t = true -> HashCode CityHash64 s = HashCode CityHash64 t.
Proof.
  intros [Hnt Hp]%Equals_true. unfold HashCode.
  rewrite !take_pointer_bytes. unfold defined_prefix, frames_range in Hp.
  rewrite Hnt, Hp, Hnt. reflexivity.
Qed.
End HashCodeFacts.

Lemma Equals_HashCode_witness :
  HashCode (fun bytes => fold_left Z.add bytes 0)
           (mkStackTrace (5 :: 9 :: replicate 14 0) 1) =
  HashCode (fun bytes => fold_left Z.add bytes 0)
           (mkStackTrace (5 :: replicate 15 7) 1).
Proof.
  apply (Equals_HashCode (fun bytes => fold_left Z.add bytes 0)
           (mkStackTrace (5 :: 9 :: replicate 14 0) 1)
           (mkStackTrace (5 :: replicate 15 7) 1)).
  reflexivity.
Defined.

(** ** The groups [VisitGroups] hands to its visitor *)

Lemma VisitGroups_loop_runs {A} (visitor : list ThreadInfo -> A -> A)
    (infos : list ThreadInfo) :
  forall (l pre cur : list ThreadInfo) (s : ThreadInfo) (a : A),
    infos = pre ++ cur ++ l -> head cur = Some s ->
    VisitGroups_loop visitor infos (S (length l)) (length pre)
                     (length pre + length cur - 1) a =
    fold_left (fun a g => visitor g a) (runs_from cur s l) a.
Proof.
  induction l as [|x l IH]; intros pre cur s a Hi Hs.
  - assert (0 < length cur)%nat as Hc by (destruct cur; [discriminate|cbn; lia]).
    cbn [VisitGroups_loop runs_from fold_left length].
    replace (S (length pre + length cur - 1)) with (length infos)
      by (rewrite Hi, !length_app; cbn; lia).
    rewrite Nat.eqb_refl. cbn [negb andb]. f_equal.
    unfold ArrayView. rewrite Hi, app_nil_r, drop_app_length.
    apply take_ge. rewrite !length_app. lia.
  - assert (0 < length cur)%nat as Hc by (destruct cur; [discriminate|cbn; lia]).
    set (n' := length (x :: l)).
    cbn [VisitGroups_loop runs_from].
    change n' with (S (length l)). clear n'.
    set (ge := S (length pre + length cur - 1)).
    assert (ge = length (pre ++ cur)) as Hge
      by (unfold ge; rewrite length_app; lia).
    assert (infos !! ge = Some x) as Hx.
    { rewrite Hi, app_assoc, Hge. apply list_lookup_middle. reflexivity. }
    assert (infos !! length pre = Some s) as Hps.
    { rewrite Hi. destruct cur as [|s' cur']; [discriminate|].
      injection Hs as ->. apply list_lookup_middle. reflexivity. }
    assert ((ge =? length infos)%nat = false) as ->.
    { apply Nat.eqb_neq. rewrite Hi, Hge, !length_app. cbn. lia. }
    rewrite Hx, Hps. cbn [negb andb].
    destruct (Equals (ThreadInfo.stack x) (ThreadInfo.stack s)).
    + replace ge with (length pre + length (cur ++ [x]) - 1)%nat
        by (unfold ge; rewrite length_app; cbn; lia).
      apply (IH pre (cur ++ [x]) s a).
      * rewrite Hi, <- app_assoc. reflexivity.
      * destruct cur; [discriminate|exact Hs].
    + cbn [fold_left].
      replace (ArrayView infos (length pre) (ge - length pre)) with cur.
      2: { unfold ArrayView. rewrite Hi, drop_app_length.
           replace (ge - length pre)%nat with (length cur)
             by (unfold ge; lia).
           rewrite take_app_length. reflexivity. }
      replace ge with (length (pre ++ cur) + length [x] - 1)%nat at 2
        by (rewrite Hge; cbn; lia).
      rewrite Hge at 1.
      apply (IH (pre ++ cur) [x] x (visitor cur a)).
      * rewrite Hi, <- !app_assoc. reflexivity.
      * reflexivity.
Qed.

Lemma VisitGroups_runs {A} (visitor : list ThreadInfo -> A -> A)
    (infos : list ThreadInfo) (a : A) :
  VisitGroups visitor infos a =
  fold_left (fun a g => visitor g a) (runs infos) a.
Proof.
  unfold VisitGroups, runs. destruct infos as [|s l]; [reflexivity|].
  apply (VisitGroups_loop_runs visitor (s :: l) l [] [s] s a); reflexivity.
Qed.

Lemma fold_left_snoc {B} (l : list B) (acc : list B) :
  fold_left (fun gs g => gs ++ [g]) l acc = acc ++ l.
Proof.
  revert acc. induction l as [|x l IH]; intros acc; cbn.
  - rewrite app_nil_r. reflexivity.
  - rewrite IH, <- app_assoc. reflexivity.
Qed.

Lemma groups_runs (infos : list ThreadInfo) : groups infos = runs infos.
Proof. unfold groups. rewrite VisitGroups_runs. apply fold_left_snoc. Qed.

Lemma concat_runs_from (l cur : list ThreadInfo) (s : ThreadInfo) :
  concat (runs_from cur s l) = cur ++ l.
Proof.
  revert cur s. induction l as [|x l IH]; intros cur s; cbn [runs_from].
  - cbn. rewrite app_nil_r. reflexivity.
  - destruct (Equals _ _).
    + rewrite IH, <- app_assoc. reflexivity.
    + cbn [concat]. rewrite IH. reflexivity.
Qed.

Lemma runs_from_nonempty (l cur : list ThreadInfo) (s : ThreadInfo) :
  cur <> [] -> Forall (fun g => g <> []) (runs_from cur s l).
Proof.
  revert cur s. induction l as [|x l IH]; intros cur s Hc; cbn [runs_from].
  - constructor; [exact Hc|constructor].
  - destruct (Equals _ _).
    + apply IH. destruct cur; discriminate.
    + constructor; [exact Hc|]. apply IH. discriminate.
Qed.

(** X8: [VisitGroups] hands every entry to the visitor exactly once and in
    the order of [infos_]: the views of its calls, one after the other, are
    the entries; no view is empty, so for no entries there is no call; and
    whatever the visitor does, it is run on these views in this order. *)
Theorem VisitGroups_partition {A} (visitor : list ThreadInfo -> A -> A)
    (infos : list ThreadInfo) (a : A) :
  VisitGroups visitor infos a =
    fold_left (fun a g => visitor g a) (groups infos) a /\
  concat (groups infos) = infos /\
  Forall (fun g => g <> []) (groups infos).
Proof.
  rewrite groups_runs. split; [apply VisitGroups_runs|].
  unfold runs. destruct infos as [|s l]; [split; [reflexivity|constructor]|].
  split; [apply concat_runs_from|apply runs_from_nonempty; discriminate].
Qed.

Lemma runs_from_equal (l cur : list ThreadInfo) (s : ThreadInfo) :
  head cur = Some s ->
  Forall (fun x => Equals (ThreadInfo.stack x) (ThreadInfo.stack s) = true)
         (tail cur) ->
  Forall (fun g => exists s' rest, g = s' :: rest /\
            Forall (fun x => Equals (ThreadInfo.stack x)
                                    (ThreadInfo.stack s') = true) rest)
         (runs_from cur s l).
Proof.
  revert cur s. induction l as [|x l IH]; intros cur s Hs Hc; cbn [runs_from].
  - constructor; [|constructor].
    destruct cur as [|s' rest]; [discriminate|]. injection Hs as ->.
    exists s, rest. auto.
  - destruct (Equals _ _) eqn:He.
    + apply IH.
      * destruct cur; [discriminate|exact Hs].
      * destruct cur as [|s' rest]; [discriminate|]. cbn [tail app] in *.
        apply Forall_app. split; [exact Hc|]. constructor; [exact He|constructor].
    + constructor.
      * destruct cur as [|s' rest]; [discriminate|]. injection Hs as ->.
        exists s, rest. auto.
      * apply IH; [reflexivity|constructor].
Qed.

Lemma runs_from_head (l cur : list ThreadInfo) (s : ThreadInfo) :
  head cur = Some s ->
  exists g gs, runs_from cur s l = g :: gs /\ head g = Some s.
Proof.
  revert cur. induction l as [|x l IH]; intros cur Hs; cbn [runs_from].
  - eauto.
  - destruct (Equals _ _); [|eauto].
    apply IH. destruct cur; [discriminate|exact Hs].
Qed.

Lemma runs_from_adjacent (l cur : list ThreadInfo) (s : ThreadInfo) :
  head cur = Some s ->
  forall i g1 g2 s1 s2,
    runs_from cur s l !! i = Some g1 ->
    runs_from cur s l !! S i = Some g2 ->
    head g1 = Some s1 -> head g2 = Some s2 ->
    Equals (ThreadInfo.stack s2) (ThreadInfo.stack s1) = false.
Proof.
  revert cur s. induction l as [|x l IH]; intros cur s Hs i g1 g2 s1 s2;
    cbn [runs_from].
  - intros _ H2. destruct i; discriminate.
  - destruct (Equals _ _) eqn:He.
    + apply IH. destruct cur; [discriminate|exact Hs].
    + destruct i as [|i]; cbn [lookup list_lookup].
      * intros [= <-] H2 H1 Hg2.
        destruct (runs_from_head l [x] x eq_refl) as (g & gs & Hr & Hg).
        rewrite Hr in H2. cbn in H2. injection H2 as <-.
        assert (s1 = s) as -> by congruence.
        assert (s2 = x) as -> by congruence. exact He.
      * apply (IH [x] x eq_refl i).
Qed.

(** X9: the views [VisitGroups] hands to the visitor are the runs of equal
    stacks: in a view every entry has a stack that [Equals] that of the
    first entry, and the first entry of the next view has a stack that does
    not. *)
Theorem VisitGroups_runs_of_equal_stacks (infos : list ThreadInfo) :
  Forall (fun g => exists s rest, g = s :: rest /\
            Forall (fun x => Equals (ThreadInfo.stack x)
                                    (ThreadInfo.stack s) = true) rest)
         (groups infos) /\
  forall i g1 g2 s1 s2,
    groups infos !! i = Some g1 -> groups infos !! S i = Some g2 ->
    head g1 = Some s1 -> head g2 = Some s2 ->
    Equals (ThreadInfo.stack s2) (ThreadInfo.stack s1) = false.
Proof.
  rewrite groups_runs. unfold runs. destruct infos as [|s l].
  - split; [constructor|]. intros i g1 g2 s1 s2 H. destruct i; discriminate.
  - split.
    + apply runs_from_equal; [reflexivity|constructor].
    + apply runs_from_adjacent. reflexivity.
Qed.

(** Three entries, the first two with the same stack: two groups. *)
Example groups_of_three :
  let a := mkStackTrace (5 :: replicate 15 0) 1 in
  let b := mkStackTrace (6 :: replicate 15 0) 1 in
  map (map ThreadInfo.tid)
      (groups [ThreadInfo.mk 1 a Status_OK ""; ThreadInfo.mk 2 a Status_OK "";
               ThreadInfo.mk 3 b Status_OK ""]) = [[1; 2]; [3]].
Proof. vm_compute. reflexivity. Qed.

(** ** Listing the threads *)

Lemma match_dot_prefix {T} (d : string) (a b : T) :
  match d with
  | String "." _ => a
  | _ => b
  end = if String.prefix "." d then a else b.
Proof.
  destruct d as [|c d']; [reflexivity|].
  destruct c as [[] [] [] [] [] [] [] []]; destruct d'; reflexivity.
Qed.

(** The conversion to [pid_t] leaves the values of a [pid_t] alone. *)
Lemma to_pid_t_id (v : Z) : in_pid_t v -> to_pid_t v = v.
Proof.
  unfold in_pid_t, to_pid_t. intros Hv.
  rewrite Z.mod_small by lia. lia.
Qed.

Lemma to_pid_t_range (v : Z) : in_pid_t (to_pid_t v).
Proof.
  unfold in_pid_t, to_pid_t.
  pose proof (Z.mod_pos_bound (v + 2147483648) 4294967296 ltac:(lia)). lia.
Qed.

(** X10: [ListThreads] adds to the vector it is given, after what the
    vector holds already, the ids of the entries of the task directory in
    the order [readdir] yields them, leaving out the entries whose name
    begins with a dot and those whose name is not a number; when the
    directory cannot be opened the vector is as it was and the status is an
    IOError.  Each id is what [safe_strtou32] parsed, converted to [pid_t]:
    every id added is a value of [pid_t], a number below 2^31 is added as
    parsed, and a number from 2^31 on is added less 2^32, so that 4294967295
    is added as -1. *)
Theorem ListThreads_appends_parsed_entries (e : Env) (tids : list Z) :
  let parsed :=
    omap (safe_strtou32 e)
         (List.filter (fun d => negb (String.prefix "." d))
                      (default [] (proc_self_task e))) in
  ListThreads e tids =
  match proc_self_task e with
  | None =>
      (mkStatus kIOError ("failed to open task dir: " ++ opendir_error e),
       tids)
  | Some entries => (Status_OK, tids ++ (to_pid_t <$> parsed))
  end /\
  Forall in_pid_t (to_pid_t <$> parsed) /\
  Forall2 (fun v t => (0 <= v < 2147483648 -> t = v) /\
                      (2147483648 <= v < 4294967296 -> t = v - 4294967296))
          parsed (to_pid_t <$> parsed).
Proof.
  cbv zeta. split; [|split].
  - unfold ListThreads.
    destruct (proc_self_task e) as [entries|]; [|reflexivity].
    change (default [] (Some entries)) with entries. f_equal. revert tids.
    induction entries as [|d entries IH]; intros tids.
    + cbn. rewrite app_nil_r. reflexivity.
    + cbn [fold_left List.filter]. rewrite match_dot_prefix.
      destruct (String.prefix "." d); cbn [negb]; [apply IH|].
      destruct (safe_strtou32 e d) as [tid|] eqn:Hd; rewrite IH;
        cbn [omap list_omap]; rewrite Hd.
      * rewrite <- app_assoc. reflexivity.
      * reflexivity.
  - apply Forall_fmap, Forall_forall. intros v _. apply to_pid_t_range.
  - apply Forall2_fmap_r, Forall2_diag. intros v. split; intros Hv.
    + apply to_pid_t_id. unfold in_pid_t. lia.
    + unfold to_pid_t.
      replace (v + 2147483648) with (v - 2147483648 + 1 * 4294967296) by lia.
      rewrite Z.mod_add, Z.mod_small by lia. lia.
Qed.

(** An entry named 4294967295 is listed as the thread -1. *)
Example ListThreads_narrows :
  let e := mkEnv (fun _ => 0) (fun _ => []) (fun _ => false) (fun _ => true)
                 (fun _ => []) 0 false (Some ["4294967295"; "7"]%string) ""
                 (fun s => if String.eqb s "7" then Some 7
                           else Some 4294967295)
                 (fun _ => None) (fun s => s) (fun _ l => l) in
  ListThreads e [] = (Status_OK, [-1; 7]).
Proof. reflexivity. Qed.

(** The task directory of the example environment: its two threads. *)
Example ListThreads_example :
  ListThreads blocked_env [3] = (Status_OK, [3; 7; 8]).
Proof. reflexivity. Qed.

(** ** Installing the handler *)

(** The cases of [InitSignalHandlerUnlocked]: whether the signal changes,
    the state before, and what [sigaction] reports for the two signals. *)
Ltac init_cases signum w :=
  unfold InitSignalHandlerUnlocked;
  let Heq := fresh "Heq" in
  let Hst := fresh "Hst" in
  let Hag := fresh "Hag" in
  let Has := fresh "Has" in
  destruct (Z.eqb_spec signum (g_stack_trace_signum w)) as [Heq|Heq];
  [rewrite <- ?Heq|rewrite ?(proj2 (Z.eqb_neq _ _) Heq)];
  cbn [negb andb];
  destruct (state w) eqn:Hst; cbn beta iota;
  try (destruct (sigactions w (g_stack_trace_signum w)) eqn:Hag;
       cbn beta iota; rewrite ?(proj2 (Z.eqb_neq _ _) Heq));
  try (destruct (sigactions w signum) eqn:Has; cbn beta iota).

(** Goals about handlers after the call: by cases on the signal asked about. *)
Ltac by_signal :=
  cbn in *;
  repeat match goal with
         | |- context [?a =? ?b] => destruct (Z.eqb_spec a b)
         | H : context [?a =? ?b] |- _ => destruct (Z.eqb_spec a b)
         end;
  subst; try congruence; try tauto; auto.

(** X11: [InitSignalHandlerUnlocked(signum)] keeps the handler installed for
    the signal the library uses and for no other: afterwards the library
    uses [signum], the handler is installed for [signum] exactly when the
    call returned true, and a signal used before has its default action
    back.  The call succeeds when the handler was installed for [signum]
    already, or when [signum] is new or not tried yet and its action is the
    default or to ignore it.  Nothing else changes.  This is for a call
    whose [sigaction]s succeed, so that it returns: the signal asked for,
    when it is a new one, and the signal in use are signals [sigaction]
    takes. *)
Theorem InitSignalHandlerUnlocked_installs (signum : Z) (w : World) :
  signal_ready w ->
  (signum <> g_stack_trace_signum w -> sigaction_accepts signum) ->
  exists b w',
    InitSignalHandlerUnlocked signum w = Done (b, w') /\
    same_memory w w' /\
    signal_ready w' /\
    g_stack_trace_signum w' = signum /\
    (b = true <-> sigactions w' signum = OurHandler) /\
    (b = true <->
     (state w = INITIALIZED /\ g_stack_trace_signum w = signum) \/
     ((g_stack_trace_signum w <> signum \/ state w = UNINITIALIZED) /\
      (sigactions w signum = SIG_DFL \/ sigactions w signum = SIG_IGN))) /\
    (g_stack_trace_signum w <> signum ->
     sigactions w (g_stack_trace_signum w) = OurHandler ->
     sigactions w' (g_stack_trace_signum w) = SIG_DFL).
Proof.
  intros [Hok Hacc] Hnew.
  assert (forall n, sigactions w n = OurHandler ->
                    state w = INITIALIZED /\ n = g_stack_trace_signum w) as Hok1
    by (intros n; apply Hok).
  assert (state w = INITIALIZED ->
          sigactions w (g_stack_trace_signum w) = OurHandler) as Hok2
    by (intros Hs; apply Hok; auto).
  assert (state w <> INIT_ERROR -> sigaction_accepts signum) as Hsig.
  { intros Hs. destruct (Z.eq_dec signum (g_stack_trace_signum w)) as [->|Hne];
      auto. }
  clear Hok.
  init_cases signum w;
    try (specialize (Hok2 eq_refl); congruence);
    try (apply Hok1 in Has; destruct Has; congruence);
    try (apply Hok1 in Hag; destruct Hag; congruence);
    (eexists _, _; split; [reflexivity|]);
    (split; [unfold same_memory; cbn; repeat split|]).
  all: split; [split;
               [unfold signal_setup_ok; intros n; split;
                [intros Hn|intros [Hs Hn]]; by_signal;
                try (apply Hok1 in Hn; destruct Hn; congruence)
               |cbn; intros Hs; first [apply Hsig; congruence
                                      |apply Hnew; congruence
                                      |congruence]]|].
  all: split; [reflexivity|].
  all: split; [split; intros; by_signal|].
  all: split; [split; [intros; try discriminate; by_signal
                      |intros; by_signal; intuition congruence]|].
  all: intros; by_signal.
Qed.

Lemma InitSignalHandlerUnlocked_installs_witness :
  exists b w',
    InitSignalHandlerUnlocked 10 (example_world [] [] []) = Done (b, w') /\
    g_stack_trace_signum w' = 10 /\
    sigactions w' 12 = SIG_DFL.
Proof.
  destruct (InitSignalHandlerUnlocked_installs 10 (example_world [] [] [])
              (example_world_ready [] [] []))
    as (b & w' & H1 & _ & _ & H2 & _ & _ & H3).
  { intros _. unfold sigaction_accepts. lia. }
  exists b, w'. split; [exact H1|]. split; [exact H2|].
  apply H3; [cbn; lia|reflexivity].
Defined.

(** X12: [InitSignalHandlerUnlocked] never replaces the handler of somebody
    else: a signal whose handler is neither ours, the default nor to ignore
    it keeps that handler, the call for such a signal returns false unless
    the library holds itself installed for it, and no signal but the one
    asked for and the one used before is touched.  This is for a call whose
    [sigaction]s succeed, so that it returns: the signal asked for, when it
    is a new one, and the signal in use or still to be tried are signals
    [sigaction] takes. *)
Theorem InitSignalHandlerUnlocked_keeps_foreign_handlers (signum : Z)
    (w : World) :
  (state w <> INIT_ERROR -> sigaction_accepts (g_stack_trace_signum w)) ->
  (signum <> g_stack_trace_signum w -> sigaction_accepts signum) ->
  exists b w',
    InitSignalHandlerUnlocked signum w = Done (b, w') /\
    (forall n, sigactions w n = OtherHandler ->
               sigactions w' n = OtherHandler) /\
    (forall n, n <> signum -> n <> g_stack_trace_signum w ->
               sigactions w' n = sigactions w n) /\
    (sigactions w signum = OtherHandler ->
     ~ (state w = INITIALIZED /\ g_stack_trace_signum w = signum) ->
     b = false).
Proof.
  intros _ _.
  init_cases signum w; (eexists _, _; split; [reflexivity|]).
  all: split; [intros n Hn; by_signal|].
  all: split; [intros n Hn1 Hn2; by_signal|].
  all: intros; by_signal; exfalso; auto.
Qed.

(** A signal that somebody else handles: the call for it fails and the
    handler stays. *)
Lemma InitSignalHandlerUnlocked_keeps_foreign_handlers_witness :
  let w := set_signal_setup 12 INITIALIZED
             (fun n => if n =? 10 then OtherHandler
                       else if n =? 12 then OurHandler else SIG_DFL)
             (example_world [] [] []) in
  exists b w',
    InitSignalHandlerUnlocked 10 w = Done (b, w') /\
    b = false /\ sigactions w' 10 = OtherHandler.
Proof.
  intros w.
  destruct (InitSignalHandlerUnlocked_keeps_foreign_handlers 10 w)
    as (b & w' & H1 & H2 & _ & H3).
  - intros _. cbn. unfold sigaction_accepts. lia.
  - intros _. unfold sigaction_accepts. lia.
  - exists b, w'. split; [exact H1|]. split.
    + apply H3; [reflexivity|]. intros [_ H]. discriminate.
    + apply H2. reflexivity.
Defined.

(** After a call the library uses the signal asked for and has made up its
    mind about it. *)
Lemma InitSignalHandlerUnlocked_state (signum : Z) (w : World) (b : bool)
    (w1 : World) :
  InitSignalHandlerUnlocked signum w = Done (b, w1) ->
  g_stack_trace_signum w1 = signum /\
  state w1 = (if b then INITIALIZED else INIT_ERROR) /\
  same_memory w w1.
Proof.
  init_cases signum w; intros [= <- <-]; cbn;
    (split; [reflexivity|]); (split; [reflexivity|]);
    unfold same_memory; cbn; repeat split.
Qed.

(** A call for the signal in use, once tried, changes nothing and answers by
    the state alone. *)
Lemma InitSignalHandlerUnlocked_settled (w : World) :
  state w <> UNINITIALIZED ->
  InitSignalHandlerUnlocked (g_stack_trace_signum w) w =
  Done (match state w with INITIALIZED => true | _ => false end,
        set_signal_setup (g_stack_trace_signum w) (state w) (sigactions w) w).
Proof.
  intros Hs. unfold InitSignalHandlerUnlocked. rewrite Z.eqb_refl.
  cbn [negb andb]. destruct (state w); [contradiction|reflexivity..].
Qed.

(** X13: the answer of [InitSignalHandlerUnlocked] for a signal is kept:
    a later call for the same signal returns what the first call returned and
    changes nothing, whatever has become of the action of the signal in
    between.  An error stays when the signal has become free, and a success
    stays when the handler is no longer installed. *)
Theorem InitSignalHandlerUnlocked_answer_is_kept (signum : Z) (w : World)
    (b : bool) (w1 : World) (acts : Z -> SigHandler) :
  InitSignalHandlerUnlocked signum w = Done (b, w1) ->
  let w2 := set_signal_setup (g_stack_trace_signum w1) (state w1) acts w1 in
  InitSignalHandlerUnlocked signum w2 = Done (b, w2).
Proof.
  intros (Hg & Hs & _)%InitSignalHandlerUnlocked_state. cbv zeta.
  set (w2 := set_signal_setup (g_stack_trace_signum w1) (state w1) acts w1).
  assert (g_stack_trace_signum w2 = signum) as Hg2 by exact Hg.
  assert (state w2 = if b then INITIALIZED else INIT_ERROR) as Hs2 by exact Hs.
  rewrite <- Hg2 at 1. rewrite InitSignalHandlerUnlocked_settled
    by (rewrite Hs2; destruct b; discriminate).
  rewrite Hs2. destruct b; unfold w2, set_signal_setup; cbn; rewrite Hs;
    reflexivity.
Qed.

Lemma InitSignalHandlerUnlocked_answer_is_kept_witness :
  let w1 := set_signal_setup 12 INIT_ERROR (fun _ => OtherHandler)
              (example_world [] [] []) in
  let w2 := set_signal_setup 12 INIT_ERROR (fun _ => SIG_DFL) w1 in
  InitSignalHandlerUnlocked 12 w2 = Done (false, w2).
Proof.
  apply (InitSignalHandlerUnlocked_answer_is_kept 12
           (set_signal_setup 12 UNINITIALIZED (fun _ => OtherHandler)
              (example_world [] [] []))
           false
           (set_signal_setup 12 INIT_ERROR (fun _ => OtherHandler)
              (example_world [] [] []))
           (fun _ => SIG_DFL)).
  reflexivity.
Defined.

(** X14: what [SetStackTraceSignal] returns decides what [TriggerAsync]
    does next: after OK a fresh collector never fails for want of the
    handler, it returns OK or, when the signal cannot be queued, NotFound;
    after InvalidArgument every [TriggerAsync] returns NotSupported,
    allocates no block and leaves the collector unused. *)
Theorem SetStackTraceSignal_decides_TriggerAsync (e : Env) (signum : Z)
    (this : nat) (tid : Z) (stk : nat) (w : World) (s : Status) (w1 : World) :
  SetStackTraceSignal signum w = Done (s, w1) ->
  collectors_ w1 !! this = Some (mkCollector 0 None) ->
  g_stack_trace_signum w1 = signum /\
  ((s = Status_OK /\
    exists w2,
      TriggerAsync e this tid stk w1 =
      Done (if sigqueue_ok e tid then Status_OK
            else mkStatus kNotFound
                   "unable to deliver signal: process may have exited", w2)) \/
   (s = mkStatus kInvalidArgument "unable to install signal handler" /\
    exists w2,
      TriggerAsync e this tid stk w1 =
      Done (mkStatus kNotSupported
              "unable to take thread stack: signal handler unavailable", w2) /\
      heap w2 = heap w1 /\ collectors_ w2 = collectors_ w1)).
Proof.
  unfold SetStackTraceSignal, bind.
  destruct (InitSignalHandlerUnlocked_Done signum w) as (b & w0 & Hinit & _).
  rewrite Hinit.
  pose proof (InitSignalHandlerUnlocked_state _ _ _ _ Hinit) as (Hg & Hs & _).
  intros Hret Hc.
  assert (w1 = w0 /\
          s = if b then Status_OK
              else mkStatus kInvalidArgument "unable to install signal handler")
    as [-> ->].
  { destruct b; cbn [negb] in Hret; unfold ret in Hret;
      injection Hret as <- <-; auto. }
  split; [exact Hg|].
  destruct (TriggerAsync_fresh e this tid stk w0 Hc)
    as (b' & w0' & Hinit' & Hsame' & Ht).
  rewrite InitSignalHandlerUnlocked_settled in Hinit'
    by (rewrite Hs; destruct b; discriminate).
  rewrite Hs in Hinit'. rewrite Ht.
  destruct b; injection Hinit' as <- <-; cbn [negb].
  - left. split; [reflexivity|].
    destruct (sigqueue_ok e tid); eexists; reflexivity.
  - right. split; [reflexivity|]. eexists. split; [reflexivity|].
    split; reflexivity.
Qed.

Lemma SetStackTraceSignal_decides_TriggerAsync_witness :
  exists w2,
    TriggerAsync blocked_env 0 7 0
      (set_signal_setup 10 INITIALIZED
         (fun n => if n =? 10 then OurHandler
                   else if n =? 12 then SIG_DFL
                   else if n =? 12 then OurHandler else SIG_DFL)
         (example_world [ThreadInfo_new] [mkCollector 0 None] [])) =
    Done (Status_OK, w2).
Proof.
  destruct (SetStackTraceSignal_decides_TriggerAsync blocked_env 10 0 7 0
              (example_world [ThreadInfo_new] [mkCollector 0 None] [])
              Status_OK
              (set_signal_setup 10 INITIALIZED
                 (fun n => if n =? 10 then OurHandler
                           else if n =? 12 then SIG_DFL
                           else if n =? 12 then OurHandler else SIG_DFL)
                 (example_world [ThreadInfo_new] [mkCollector 0 None] []))
              eq_refl eq_refl) as [_ [[_ H]|[H _]]].
  - exact H.
  - discriminate H.
Defined.

(** ** A collector is used once *)


Lemma TriggerAsync_used (e : Env) (this : nat) (tid : Z) (stk : nat)
    (w : World) (c : StackTraceCollector) :
  collectors_ w !! this = Some c ->
  sig_data_ c <> None \/ tid_ c <> 0 ->
  TriggerAsync e this tid stk w = Aborted.
Proof.
  intros Hc Hu. unfold TriggerAsync. unfold bind at 1. unfold get_collector.
  rewrite Hc. destruct c as [t [q|]]; cbn [sig_data_ tid_ andb negb] in *;
    [reflexivity|].
  destruct (Z.eqb_spec t 0) as [->|]; [|reflexivity].
  destruct Hu as [Hu|Hu]; contradiction.
Qed.

(** X15: a collector takes one [TriggerAsync].  When the call returns OK the
    collector holds the block of the queued signal, which names the target
    thread and the destination, and any further [TriggerAsync] on it aborts;
    when the call fails the collector is as before and may be tried again,
    and no block is left in use: the heap is as it was, up to one block
    that is freed already. *)
Theorem TriggerAsync_uses_collector_once (e : Env) (this : nat) (tid : Z)
    (stk : nat) (w : World) (s : Status) (w1 : World) :
  TriggerAsync e this tid stk w = Done (s, w1) ->
  (ok s = true ->
   collectors_ w1 !! this = Some (mkCollector tid (Some (length (heap w)))) /\
   heap w1 = heap w ++ [queued_cell tid stk] /\
   forall tid' stk', TriggerAsync e this tid' stk' w1 = Aborted) /\
  (ok s = false ->
   collectors_ w1 !! this = Some (mkCollector 0 None) /\
   (heap w1 = heap w \/ heap w1 = heap w ++ [undelivered_cell tid stk])).
Proof.
  intros H. pose proof (TriggerAsync_Done_fresh _ _ _ _ _ _ _ H) as Hc.
  destruct (TriggerAsync_fresh e this tid stk w Hc)
    as (b & w0 & _ & Hsame & Ht).
  destruct Hsame as (_ & Hc0 & _ & _ & Hh0 & _).
  rewrite Ht in H.
  assert (this < length (collectors_ w))%nat as Hlt
    by (eapply lookup_lt_Some, Hc).
  destruct b; cbn [negb] in H; [destruct (sigqueue_ok e tid)|];
    injection H as <- <-; (split; [intros Hok|intros Hok]);
    try discriminate Hok.
  - assert (collectors_
              (put_collector_at this (mkCollector tid (Some (length (heap w))))
                 (push_cell (queued_cell tid stk) w0)) !! this =
            Some (mkCollector tid (Some (length (heap w))))) as Hc1.
    { cbn. rewrite Hc0. apply list_lookup_insert_eq, Hlt. }
    split; [exact Hc1|]. split; [cbn; rewrite Hh0; reflexivity|].
    intros tid' stk'. eapply TriggerAsync_used; [exact Hc1|].
    left. discriminate.
  - split; [cbn; rewrite Hc0; exact Hc|]. right. cbn. rewrite Hh0. reflexivity.
  - split; [rewrite Hc0; exact Hc|]. left. exact Hh0.
Qed.

Lemma TriggerAsync_uses_collector_once_witness :
  match TriggerAsync blocked_env 0 7 0
          (example_world [ThreadInfo_new] [mkCollector 0 None] []) with
  | Done (s, w1) =>
      collectors_ w1 !! 0%nat = Some (mkCollector 7 (Some 0%nat))
  | _ => False
  end.
Proof.
  assert (exists s w1,
            TriggerAsync blocked_env 0 7 0
              (example_world [ThreadInfo_new] [mkCollector 0 None] []) =
            Done (s, w1) /\ ok s = true) as (s & w1 & Hr & Hok)
    by (vm_compute; eauto).
  rewrite Hr.
  apply (TriggerAsync_uses_collector_once blocked_env 0 7 0
           (example_world [ThreadInfo_new] [mkCollector 0 None] []) s w1 Hr).
  exact Hok.
Defined.

Lemma RevokeSigData_Done_collector (e : Env) (fuel this : nat) (w w1 : World)
    (c : StackTraceCollector) (p : nat) (b : bool) :
  collectors_ w !! this = Some c -> sig_data_ c = Some p ->
  RevokeSigData e fuel this w = Done (b, w1) ->
  collectors_ w1 = <[this := mkCollector (tid_ c) None]> (collectors_ w).
Proof.
  intros Hc Hsd. rewrite (RevokeSigData_unfold e fuel this w c p Hc Hsd).
  destruct (exchange e p kNotInUse w) as [[old w2]| | |] eqn:Hx;
    try discriminate.
  apply exchange_Done in Hx as (w0 & d & Hy & Hd & Hnf & -> & ->).
  apply yield_mem_le in Hy as [(Hc0 & _) _].
  assert (heap (put_cell p (set_sig (set_queued_to_tid kNotInUse) d) w0) !! p =
          Some (set_sig (set_queued_to_tid kNotInUse) d)) as Hd0
    by (eapply heap_put_cell_eq; eauto).
  destruct (queued_of d =? tid_ c).
  - rewrite (leak_and_forget p this (tid_ c) _ _ Hd0 Hnf).
    intros [= <- <-]. cbn. rewrite Hc0. reflexivity.
  - destruct (negb (queued_of d =? kDumpStarted)); [discriminate|].
    destruct (WaitUntil e fuel p MonoTime_Max _) as [[[] w3]| | |] eqn:Hw;
      try discriminate.
    apply WaitUntil_mem_le in Hw as (Hc3 & _).
    unfold bind at 1, delete, bind, deref.
    destruct (heap w3 !! p) as [d3|] eqn:Hd3; [|discriminate].
    destruct (alloc d3) eqn:Ha3; try discriminate;
      intros [= <- <-]; cbn; rewrite Hc3; cbn; rewrite Hc0; reflexivity.
Qed.

(** X16: [AwaitCollection] leaves the collector without its block: when it
    has returned, with OK or with TimedOut, the collector, which held a
    block before, names the thread it named before the call and holds
    nothing, and the other collectors are as they were; so its destructor
    does nothing, another [AwaitCollection] on it aborts, and so does
    another [TriggerAsync] unless the thread id is 0. *)
Theorem AwaitCollection_releases_collector (e : Env) (fuel this : nat)
    (deadline : Z) (w : World) (s : Status) (w' : World) :
  AwaitCollection e fuel this deadline w = Done (s, w') ->
  (s = Status_OK \/
   s = mkStatus kTimedOut
         "thread did not respond: maybe it is blocking signals") /\
  exists c p,
    collectors_ w !! this = Some c /\ sig_data_ c = Some p /\
    collectors_ w' = <[this := mkCollector (tid_ c) None]> (collectors_ w) /\
    collectors_ w' !! this = Some (mkCollector (tid_ c) None) /\
    (forall fuel', destroy_collector e fuel' this w' = Done (tt, w')) /\
    (forall fuel' deadline',
        AwaitCollection e fuel' this deadline' w' = Aborted) /\
    (tid_ c <> 0 ->
     forall tid' stk', TriggerAsync e this tid' stk' w' = Aborted).
Proof.
  unfold AwaitCollection at 1. unfold bind at 1. unfold get_collector at 1.
  destruct (collectors_ w !! this) as [c|] eqn:Hc; [|discriminate].
  destruct (sig_data_ c) as [p|] eqn:Hsd; [|discriminate].
  unfold bind at 1.
  destruct (WaitUntil e fuel p deadline w) as [[b1 w1]| | |] eqn:Hw;
    try discriminate.
  apply WaitUntil_mem_le in Hw as (Hc1 & _).
  unfold bind at 1.
  destruct (RevokeSigData e fuel this w1) as [[completed w2]| | |] eqn:Hr;
    try discriminate.
  apply (RevokeSigData_Done_collector e fuel this w1 w2 c p completed) in Hr;
    [|rewrite Hc1; exact Hc|exact Hsd].
  rewrite Hc1 in Hr.
  assert (this < length (collectors_ w))%nat as Hlt
    by (eapply lookup_lt_Some, Hc).
  intros Hret.
  assert (w' = w2 /\
          (s = Status_OK \/
           s = mkStatus kTimedOut
                 "thread did not respond: maybe it is blocking signals"))
    as [-> Hs].
  { destruct completed; cbn [negb] in Hret; unfold ret in Hret;
      injection Hret as <- <-; auto. }
  split; [exact Hs|]. exists c, p.
  assert (collectors_ w2 !! this = Some (mkCollector (tid_ c) None)) as Hc2
    by (rewrite Hr; apply list_lookup_insert_eq, Hlt).
  split; [reflexivity|]. split; [exact Hsd|].
  split; [exact Hr|]. split; [exact Hc2|]. split; [|split].
  - intros fuel'. unfold destroy_collector, bind, get_collector.
    rewrite Hc2. reflexivity.
  - intros fuel' deadline'. unfold AwaitCollection, bind, get_collector.
    rewrite Hc2. reflexivity.
  - intros Ht tid' stk'. eapply TriggerAsync_used; [exact Hc2|].
    right. exact Ht.
Qed.

Lemma AwaitCollection_releases_collector_witness :
  match AwaitCollection blocked_env 4 0 1000000000
          (example_world [ThreadInfo_new] [mkCollector 7 (Some 0%nat)]
                         [queued_cell 7 0]) with
  | Done (s, w') =>
      collectors_ w' = [mkCollector 7 None] /\
      AwaitCollection blocked_env 4 0 1000000000 w' = Aborted
  | _ => False
  end.
Proof.
  assert (exists s w',
            AwaitCollection blocked_env 4 0 1000000000
              (example_world [ThreadInfo_new] [mkCollector 7 (Some 0%nat)]
                             [queued_cell 7 0]) = Done (s, w'))
    as (s & w' & Hr) by (vm_compute; eauto).
  rewrite Hr.
  destruct (AwaitCollection_releases_collector blocked_env 4 0 1000000000
              _ s w' Hr) as (_ & c & p & Hc & _ & H2 & _ & _ & H4 & _).
  injection Hc as <-. split; [exact H2|apply H4].
Defined.

(** ** What the handlers leave alone *)

(** A handler writes no entry whose collector holds no block. *)
Lemma handler_trans_keeps_entry (e : Env) (busy : option nat) (q : nat)
    (w w1 : World) (i : nat) :
  Inv e busy w ->
  (forall col, collectors_ w !! i = Some col -> sig_data_ col = None) ->
  handler_trans e q w w1 -> infos_ w1 !! i = infos_ w !! i.
Proof.
  intros HI Hrel Ht.
  inversion Ht as [Hq|c Hq Hh|c t Hq Hh Ha Hcas|c t Hq Hh Ha Hcas
                   |c t info Hq Hh Ha Hi|c t Hq Hh Ha]; subst;
    try reflexivity.
  pose proof (Inv_cell_ok e busy w q c HI Hq) as Hok.
  unfold cell_ok in Hok. rewrite Hh in Hok.
  assert (alloc c = Live) as Hal by (destruct (alloc c); tauto).
  destruct HI as (_ & I2 & _).
  destruct (I2 q c Hq Hal) as (col & Hcol & Hsd).
  cbn. apply list_lookup_insert_ne. intros Heq. rewrite Heq in Hcol.
  rewrite (Hrel col Hcol) in Hsd. discriminate.
Qed.

Lemma handlers_trans_keeps_entry (e : Env) (busy : option nat) (qs : list nat)
    (w w' : World) (i : nat) :
  Inv e busy w ->
  (forall q, In q qs -> exists k, (k < n_yield w)%nat /\ In q (sched e k)) ->
  (forall col, collectors_ w !! i = Some col -> sig_data_ col = None) ->
  handlers_trans e qs w w' -> infos_ w' !! i = infos_ w !! i.
Proof.
  intros HI Hs Hrel Ht. induction Ht as [w|q qs w w1 w2 H1 _ IH];
    [reflexivity|].
  pose proof (handler_trans_world_le e q w w1 H1)
    as (Hc & _ & _ & _ & _ & _ & Hn & _).
  rewrite IH.
  - eapply handler_trans_keeps_entry; eauto.
  - eapply handler_trans_Inv; [exact HI| |exact H1]. apply Hs. left. reflexivity.
  - intros q' Hq'. rewrite Hn. apply Hs. right. exact Hq'.
  - rewrite Hc. exact Hrel.
Qed.

(** X17: while the invariant of the protocol holds, letting the other
    threads run is safe: whatever handlers the schedule runs, none touches a
    freed block or fails, the invariant holds afterwards, the collectors are
    as they were, every entry keeps its id, status and name, and an entry
    whose collector holds no block, or has no collector, is not written at
    all: once a collector has let go of its block the destination is the
    tracer's alone. *)
Theorem yield_is_safe (e : Env) (busy : option nat) (w : World) :
  Inv e busy w ->
  exists w',
    yield e w = Done (tt, w') /\ Inv e busy w' /\
    collectors_ w' = collectors_ w /\
    Forall2 info_le (infos_ w) (infos_ w') /\
    forall i, (forall col, collectors_ w !! i = Some col ->
                           sig_data_ col = None) ->
              infos_ w' !! i = infos_ w !! i.
Proof.
  intros HI. destruct (yield_Inv e busy w HI) as (w' & Hy & HI' & Hle & _).
  exists w'. split; [exact Hy|]. split; [exact HI'|].
  pose proof Hle as (Hc & _ & _ & _ & _ & _ & _ & _ & _ & Hi).
  split; [exact Hc|]. split; [exact Hi|].
  intros i Hrel. apply yield_Done in Hy as [_ Ht].
  apply (handlers_trans_keeps_entry e busy _ _ _ i (Inv_n_yield e busy w HI))
    in Ht; [exact Ht| |exact Hrel].
  intros q Hq. exists (n_yield w). split; [cbn; lia|exact Hq].
Qed.

(** A world for examples: one entry, its collector, and the block of a signal
    queued to thread 7. *)
Lemma Inv_one_queued (e : Env) :
  Inv e None (example_world [ThreadInfo_new] [mkCollector 7 (Some 0%nat)]
                            [queued_cell 7 0]).
Proof.
  unfold Inv. cbn. split.
  { repeat constructor; unfold queued_of, flag_of; cbn; lia. }
  split.
  { intros [|p] c Hp Hl; [|discriminate]. injection Hp as <-.
    exists (mkCollector 7 (Some 0%nat)). split; reflexivity. }
  split.
  { intros [|i] col p Hi Hs; [|discriminate]. injection Hi as <-.
    injection Hs as <-. exists (queued_cell 7 0). cbn.
    repeat split; try lia. intros t [= <-]. reflexivity. }
  split.
  { intros [|i] info Hi Hn; [|discriminate]. injection Hi as <-.
    cbn in Hn. contradiction. }
  split.
  { intros [|p] c Hp Hs; [|discriminate]. injection Hp as <-.
    cbn in Hs. lia. }
  split; [lia|]. split.
  { intros [|p] c Hp Hl Hz; [|discriminate]. injection Hp as <-.
    unfold queued_of, kNotInUse in Hz. cbn in Hz. lia. }
  intros [|i] info col Hi Hc Hf; [|discriminate]. injection Hi as <-.
  cbn in Hf. discriminate.
Qed.

Lemma yield_is_safe_witness :
  exists w',
    yield one_blocked_env
      (example_world [ThreadInfo_new] [mkCollector 7 (Some 0%nat)]
                     [queued_cell 7 0]) = Done (tt, w') /\
    collectors_ w' = [mkCollector 7 (Some 0%nat)].
Proof.
  destruct (yield_is_safe one_blocked_env None _
              (Inv_one_queued one_blocked_env))
    as (w' & H1 & _ & H2 & _).
  exists w'. split; [exact H1|exact H2].
Defined.

(** ** The destination holds what the handler collected *)

Lemma Traced_ext (e : Env) (w w' : World) :
  heap w' = heap w -> collectors_ w' = collectors_ w ->
  infos_ w' = infos_ w -> Traced e w -> Traced e w'.
Proof. unfold Traced. intros -> -> ->. auto. Qed.

(** A store to a block that leaves its handler where it is. *)
Lemma Traced_put_cell (e : Env) (p : nat) (d d' : Cell) (w : World) :
  Traced e w -> heap w !! p = Some d -> handler d' = handler d ->
  Traced e (put_cell p d' w).
Proof.
  intros HT Hd Hh i col q c Hc Hsd Hq. cbn in Hc, Hq.
  apply list_lookup_insert_Some in Hq.
  destruct Hq as [(<- & <- & _)|[Hne Hq]].
  - rewrite Hh. apply (HT i col p d Hc Hsd Hd).
  - apply (HT i col q c Hc Hsd Hq).
Qed.

(** A collector lets go of its block. *)
Lemma Traced_release (e : Env) (busy : option nat) (this p : nat) (tid : Z)
    (col : StackTraceCollector) (c' : Cell) (w : World) :
  Inv e busy w -> Traced e w ->
  collectors_ w !! this = Some col -> sig_data_ col = Some p ->
  Traced e (put_collector_at this (mkCollector tid None) (put_cell p c' w)).
Proof.
  intros HI HT Hcol Hsd i col' q c Hc Hsd' Hq. cbn in Hc, Hq.
  apply list_lookup_insert_Some in Hc.
  destruct Hc as [(_ & <- & _)|[Hne Hc]]; [discriminate|].
  apply list_lookup_insert_Some in Hq.
  destruct Hq as [(<- & <- & _)|[Hnq Hq]].
  - exfalso. destruct HI as (_ & _ & I3 & _).
    destruct (I3 i col' p Hc Hsd') as (x & Hx & _ & Hs1 & _).
    destruct (I3 this col p Hcol Hsd) as (y & Hy & _ & Hs2 & _).
    congruence.
  - apply (HT i col' q c Hc Hsd' Hq).
Qed.

(** A block that no handler has started on joins the heap. *)
Lemma Traced_push (e : Env) (c0 : Cell) (w : World) :
  Traced e w ->
  (forall t, handler c0 <> Collecting t /\ handler c0 <> Signalling t) ->
  ~ past_collect (handler c0) ->
  Traced e (push_cell c0 w).
Proof.
  intros HT Hh Hp i col q c Hc Hsd Hq. cbn in Hc, Hq.
  apply lookup_app_Some in Hq. destruct Hq as [Hq|[_ Hq]].
  - apply (HT i col q c Hc Hsd Hq).
  - apply list_lookup_singleton_Some in Hq as [_ <-]. split.
    + intros t [H|H]; destruct (Hh t) as [H1 H2]; contradiction.
    + intros H. contradiction.
Qed.

(** A fresh collector takes the block of its queued signal. *)
Lemma Traced_trigger (e : Env) (i : nat) (col : StackTraceCollector)
    (c0 : Cell) (w : World) :
  Traced e w -> (exists t, handler c0 = Pending t) ->
  Traced e (put_collector_at i (mkCollector (tid_ col) (Some (length (heap w))))
              (push_cell c0 w)).
Proof.
  intros HT [t0 Hh] j col' q c Hc Hsd Hq. cbn in Hc, Hq.
  apply lookup_app_Some in Hq. destruct Hq as [Hq|[_ Hq]].
  - apply list_lookup_insert_Some in Hc.
    destruct Hc as [(_ & <- & _)|[Hne Hc]].
    + cbn in Hsd. injection Hsd as <-. apply lookup_lt_Some in Hq. lia.
    + apply (HT j col' q c Hc Hsd Hq).
  - apply list_lookup_singleton_Some in Hq as [_ <-]. rewrite Hh. split.
    + intros t [H|H]; discriminate.
    + intros H. contradiction.
Qed.

(** An id, a status or a name is stored in an entry. *)
Lemma Traced_put_info (e : Env) (i : nat) (info info' : ThreadInfo)
    (w : World) :
  Traced e w -> infos_ w !! i = Some info ->
  ThreadInfo.stack info' = ThreadInfo.stack info ->
  Traced e (put_info_at i info' w).
Proof.
  intros HT Hi Hs j col q c Hc Hsd Hq. cbn in Hc, Hq.
  destruct (HT j col q c Hc Hsd Hq) as [H1 H2]. split; [exact H1|].
  intros Hp. destruct (H2 Hp) as (x & Hx & Hcx). cbn.
  destruct (decide (j = i)) as [->|Hne].
  - exists info'. split.
    + apply list_lookup_insert_eq. eapply lookup_lt_Some, Hi.
    + rewrite Hs. congruence.
  - exists x. split; [|exact Hcx]. rewrite list_lookup_insert_ne; auto.
Qed.

(** No collector holds a block. *)
Lemma Traced_idle (e : Env) (w : World) :
  (forall i col, collectors_ w !! i = Some col -> sig_data_ col = None) ->
  Traced e w.
Proof.
  intros Hn i col p c Hc Hsd. rewrite (Hn i col Hc) in Hsd. discriminate.
Qed.

(** One step of a handler. *)
Lemma handler_trans_Traced (e : Env) (busy : option nat) (q : nat)
    (w w1 : World) :
  Inv e busy w -> Traced e w -> handler_trans e q w w1 -> Traced e w1.
Proof.
  intros HI HT Ht.
  pose proof HI as (_ & I2 & I3 & _).
  inversion Ht as [Hq|c Hq Hh|c t Hq Hh Ha Hcas|c t Hq Hh Ha Hcas
                   |c t info Hq Hh Ha Hi|c t Hq Hh Ha]; subst; try exact HT;
    pose proof (Inv_cell_ok e busy w q c HI Hq) as Hok;
    unfold cell_ok in Hok; rewrite Hh in Hok;
    intros i col p c1 Hc Hsd Hp; cbn in Hc, Hp;
    apply list_lookup_insert_Some in Hp;
    (destruct Hp as [(<- & <- & _)|[Hne Hp]];
     [|try exact (HT i col p c1 Hc Hsd Hp)]); cbn [handler].
  - (* the CAS succeeds *)
    split; [|intros []].
    intros t' [[= <-]|H]; [|discriminate].
    destruct (I3 i col q Hc Hsd) as (x & Hx & _ & _ & _ & Hpend).
    assert (x = c) as -> by congruence. apply Hpend, Hh.
  - (* the CAS fails: not on a block a collector holds *)
    exfalso. destruct (I3 i col q Hc Hsd) as (x & Hx & Hal & _).
    assert (x = c) as -> by congruence. rewrite Hal in Hok.
    destruct Hok as (_ & Heq & _). unfold queued_of in Heq. contradiction.
  - (* Collect, on the block itself *)
    destruct (HT i col q c Hc Hsd Hq) as [H1 _].
    assert (t = tid_ col) as -> by (apply H1; left; exact Hh).
    split; [intros t' [H|[= <-]]; [discriminate|reflexivity]|].
    intros _. destruct (I3 i col q Hc Hsd) as (x & Hx & _ & Hs & _).
    assert (x = c) as -> by congruence. rewrite Hs in Hi |- *.
    eexists. split; [cbn; apply list_lookup_insert_eq;
                     eapply lookup_lt_Some, Hi|].
    cbn. eexists. reflexivity.
  - (* Collect, on another block *)
    destruct (HT i col p c1 Hc Hsd Hp) as [H1 H2]. split; [exact H1|].
    intros Hpc. destruct (H2 Hpc) as (x & Hx & Hcx). exists x.
    split; [|exact Hcx]. cbn. rewrite list_lookup_insert_ne; [exact Hx|].
    intros Heq.
    assert (alloc c = Live) as Hal by (destruct (alloc c); tauto).
    destruct (I2 q c Hq Hal) as (col' & Hc' & Hsd').
    rewrite Heq in Hc'. congruence.
  - (* Signal *)
    destruct (HT i col q c Hc Hsd Hq) as [_ H2].
    split; [intros t' [H|H]; discriminate|].
    intros _. apply H2. rewrite Hh. exact I.
Qed.

Lemma handlers_trans_Traced (e : Env) (busy : option nat) (qs : list nat)
    (w w' : World) :
  Inv e busy w ->
  (forall q, In q qs -> exists k, (k < n_yield w)%nat /\ In q (sched e k)) ->
  Traced e w -> handlers_trans e qs w w' -> Traced e w'.
Proof.
  intros HI Hs HT Ht. induction Ht as [w|q qs w w1 w2 H1 _ IH]; [exact HT|].
  pose proof (handler_trans_world_le e q w w1 H1)
    as (_ & _ & _ & _ & _ & _ & Hn & _).
  apply IH.
  - eapply handler_trans_Inv; [exact HI| |exact H1]. apply Hs. left. reflexivity.
  - intros q' Hq'. rewrite Hn. apply Hs. right. exact Hq'.
  - eapply handler_trans_Traced; eauto.
Qed.

(** What holds when the other threads have run. *)
Lemma yield_Traced (e : Env) (busy : option nat) (w w' : World) :
  Inv e busy w -> Traced e w -> yield e w = Done (tt, w') ->
  Inv e busy w' /\ Traced e w' /\ mem_le w w' /\
  forall i, (forall col, collectors_ w !! i = Some col ->
                         sig_data_ col = None) ->
            infos_ w' !! i = infos_ w !! i.
Proof.
  intros HI HT Hy.
  destruct (yield_Inv e busy w HI) as (w1 & Hy1 & HI1 & Hle & _).
  assert (w1 = w') as -> by congruence.
  split; [exact HI1|]. split; [|split; [exact Hle|]].
  - apply yield_Done in Hy as [_ Ht].
    apply (handlers_trans_Traced e busy _ _ _ (Inv_n_yield e busy w HI)) in Ht;
      [exact Ht| |apply (Traced_ext e w); auto].
    intros q Hq. exists (n_yield w). split; [cbn; lia|exact Hq].
  - intros i Hrel. apply yield_Done in Hy as [_ Ht].
    apply (handlers_trans_keeps_entry e busy _ _ _ i
             (Inv_n_yield e busy w HI)) in Ht; [exact Ht| |exact Hrel].
    intros q Hq. exists (n_yield w). split; [cbn; lia|exact Hq].
Qed.

Lemma kept_trans (e : Env) (busy : option nat) (a b c : World) :
  kept e busy a b -> kept e busy b c -> kept e busy a c.
Proof.
  intros (_ & _ & Hab & Sab) (HI & HT & Hbc & Sbc).
  split; [exact HI|]. split; [exact HT|].
  split; [eapply mem_le_trans; eauto|].
  intros i Hrel. rewrite Sbc; [apply Sab, Hrel|].
  destruct Hab as (-> & _). exact Hrel.
Qed.

(** Reading the clock or noting an observation changes nothing of that. *)
Lemma kept_note (e : Env) (busy : option nat) (w w' w'' : World) :
  kept e busy w w' ->
  heap w'' = heap w' -> collectors_ w'' = collectors_ w' ->
  infos_ w'' = infos_ w' -> n_yield w'' = n_yield w' -> mem_le w' w'' ->
  kept e busy w w''.
Proof.
  intros (HI & HT & Hle & Hs) H1 H2 H3 H4 Hle'.
  split; [apply (Inv_ext e busy w'); assumption|].
  split; [apply (Traced_ext e w'); assumption|].
  split; [eapply mem_le_trans; eauto|].
  intros i Hrel. rewrite H3. apply Hs, Hrel.
Qed.

Lemma yield_kept (e : Env) (busy : option nat) (w w' : World) :
  Inv e busy w -> Traced e w -> yield e w = Done (tt, w') -> kept e busy w w'.
Proof. intros HI HT Hy. apply yield_Traced; assumption. Qed.

Lemma load_complete_kept (e : Env) (busy : option nat) (p : nat) (w : World)
    (b : bool) (w' : World) :
  Inv e busy w -> Traced e w -> load_complete e p w = Done (b, w') ->
  kept e busy w w'.
Proof.
  intros HI HT Hl.
  apply load_complete_Done in Hl as (w1 & c & Hy & _ & _ & _ & ->).
  eapply kept_note; [apply yield_kept; eassumption|reflexivity..|].
  apply mem_le_observe.
Qed.

Lemma WaitUntil_loop_kept (e : Env) (busy : option nat) (p : nat)
    (deadline : Z) :
  forall (fuel : nat) (now : Z) (w : World) (b : bool) (w' : World),
    Inv e busy w -> Traced e w ->
    WaitUntil_loop e fuel p deadline now w = Done (b, w') ->
    kept e busy w w'.
Proof.
  induction fuel as [|fuel IH]; intros now w b w' HI HT;
    cbn [WaitUntil_loop]; destruct (now <? deadline); try discriminate;
    try (apply load_complete_kept; assumption).
  unfold bind at 1, sys_futex_wait at 1, ret at 1. unfold bind at 1.
  destruct (load_complete e p w) as [[c w1]| | |] eqn:Hl; try discriminate.
  apply (load_complete_kept e busy p w c w1 HI HT) in Hl. destruct c.
  - intros [= <- <-]. exact Hl.
  - unfold bind, MonoTime_Now. intros H.
    pose proof Hl as (HI1 & HT1 & _).
    apply IH in H.
    + eapply kept_trans; [|exact H].
      eapply kept_note; [exact Hl|reflexivity..|apply MonoTime_Now_mem_le].
    + apply Inv_clock, HI1.
    + apply (Traced_ext e w1); auto.
Qed.

Lemma WaitUntil_kept (e : Env) (busy : option nat) (fuel p : nat)
    (deadline : Z) (w : World) (b : bool) (w' : World) :
  Inv e busy w -> Traced e w ->
  WaitUntil e fuel p deadline w = Done (b, w') -> kept e busy w w'.
Proof.
  intros HI HT. unfold WaitUntil. unfold bind at 1.
  destruct (load_complete e p w) as [[c w1]| | |] eqn:Hl; try discriminate.
  apply (load_complete_kept e busy p w c w1 HI HT) in Hl. destruct c.
  - intros [= <- <-]. exact Hl.
  - unfold bind, MonoTime_Now. intros H.
    pose proof Hl as (HI1 & HT1 & _).
    apply (WaitUntil_loop_kept e busy) in H.
    + eapply kept_trans; [|exact H].
      eapply kept_note; [exact Hl|reflexivity..|apply MonoTime_Now_mem_le].
    + apply Inv_clock, HI1.
    + apply (Traced_ext e w1); auto.
Qed.

(** [RevokeSigData] with the destination: it returns; when it returns true
    the destination of the collector holds what the handler of the
    collector's thread collected, when it returns false the destination is
    still empty; the entries of the collectors that held no block are as
    they were. *)
Lemma RevokeSigData_collects (e : Env) (this : nat) (w : World)
    (col : StackTraceCollector) (p : nat) :
  EnvOk e -> Inv e None w -> Traced e w ->
  collectors_ w !! this = Some col -> sig_data_ col = Some p ->
  terminates (fun fuel => RevokeSigData e fuel this) w
    (fun completed w' =>
       Inv e None w' /\ Traced e w' /\ snap_le w w' /\
       collectors_ w' = <[this := mkCollector (tid_ col) None]> (collectors_ w) /\
       (forall i, (forall c, collectors_ w !! i = Some c -> sig_data_ c = None) ->
                  infos_ w' !! i = infos_ w !! i) /\
       (completed = true ->
        exists info, infos_ w' !! this = Some info /\
                     collected e (tid_ col) (ThreadInfo.stack info)) /\
       (completed = false ->
        forall info', infos_ w' !! this = Some info' ->
                      num_frames_ (ThreadInfo.stack info') = 0)).
Proof.
  intros He HI HT Hcol Hsd.
  assert (forall info, infos_ w !! this = Some info ->
                       ok (ThreadInfo.status info) = true) as Hst.
  { intros info Hi. destruct (ok (ThreadInfo.status info)) eqn:Hok; [reflexivity|].
    destruct HI as (_ & _ & _ & _ & _ & _ & _ & I8).
    specialize (I8 this info col Hi Hcol Hok). congruence. }
  destruct (yield_Inv e None w HI) as (w1 & Hy & HI1 & Hle1 & _).
  destruct (yield_Traced e None w w1 HI HT Hy) as (_ & HT1 & _ & Hs1).
  assert (collectors_ w1 = collectors_ w) as Hc1 by apply Hle1.
  assert (collectors_ w1 !! this = Some col) as Hcol1 by (rewrite Hc1; exact Hcol).
  pose proof HI1 as (_ & _ & I3 & I4 & _ & _ & I7 & _).
  destruct (I3 this col p Hcol1 Hsd) as (d & Hd & Ha & Hs & Htid & Hpend).
  pose proof (Inv_cell_ok _ _ _ _ _ HI1 Hd) as Hok.
  assert (alloc d <> Freed) as Hnf by (rewrite Ha; discriminate).
  pose proof (exchange_eq e p kNotInUse w w1 d Hy Hd Hnf) as Hx.
  assert (queued_of d <> kNotInUse) as Hnz.
  { intros Hz. specialize (I7 p d Hd Ha Hz). discriminate. }
  assert (forall info', infos_ w1 !! this = Some info' ->
                        ok (ThreadInfo.status info') = true) as Hst1
    by (apply (snap_le_status w w1); [apply mem_le_snap_le, Hle1|exact Hst]).
  set (d0 := set_sig (set_queued_to_tid kNotInUse) d) in *.
  assert (heap (put_cell p d0 w1) !! p = Some d0) as Hd0
    by (eapply heap_put_cell_eq; eauto).
  assert ((handler d = Pending (tid_ col) /\ queued_of d = tid_ col) \/
          queued_of d = kDumpStarted) as [[Hh Hq]|Hq].
  { unfold cell_ok in Hok. rewrite Ha in Hok.
    destruct (handler d) as [|t|t|t|] eqn:Hh; try contradiction.
    - left. destruct Hok as (_ & Hq & _). rewrite <- (Hpend t eq_refl). auto.
    - right. tauto.
    - right. tauto.
    - right. tauto. }
  - (* the signal was not handled: the block is leaked *)
    eapply terminates_ret.
    + intros fuel. rewrite (RevokeSigData_unfold e fuel this w col p Hcol Hsd), Hx.
      rewrite Hq, Z.eqb_refl.
      rewrite (leak_and_forget p this (tid_ col) d0 _ Hd0 Hnf).
      rewrite put_cell_put_cell. reflexivity.
    + split; [|split; [|split; [|split; [|split; [|split]]]]].
      * refine (Inv_release e None this p (tid_ col) w1 col d
                  (set_alloc Leaked d0) HI1 _ Hcol1 Hsd Hd _ _ Hst1).
        -- discriminate.
        -- unfold cell_ok. cbn. rewrite Hh. unfold queued_of. cbn. auto.
        -- cbn. discriminate.
      * apply (Traced_release e None this p (tid_ col) col _ w1 HI1 HT1 Hcol1 Hsd).
      * eapply snap_le_trans; [apply mem_le_snap_le, Hle1|apply snap_le_release].
      * cbn. rewrite Hc1. reflexivity.
      * intros i Hrel. cbn. apply Hs1, Hrel.
      * discriminate.
      * intros _ info' Hi'. cbn in Hi'.
        destruct (Z.eq_dec (num_frames_ (ThreadInfo.stack info')) 0) as [|Hn]; [assumption|].
        specialize (I4 this info' Hi' Hn). rewrite Hcol1 in I4.
        destruct col as [tc sd]. cbn in Hsd. subst sd.
        destruct I4 as (x & Hx' & Hpx). assert (x = d) as -> by congruence.
        rewrite Hh in Hpx. contradiction.
  - (* the handler has won its CAS: wait for it, then free the block *)
    assert (Inv e (Some p) (put_cell p d0 w1)) as HI2
      by (apply Inv_take_back; assumption).
    assert (Traced e (put_cell p d0 w1)) as HT2
      by (apply (Traced_put_cell e p d d0 w1 HT1 Hd); reflexivity).
    assert (held (put_cell p d0 w1) p) as Hh2 by (exists this, col; auto).
    assert (taken_back d0) as Htb0 by (split; [exact Ha|reflexivity]).
    destruct (WaitUntil_Max_terminates e p _ d0 He HI2 Hh2 Hd0 Htb0)
      as (F & b & w3 & (-> & HI3 & Hle3 & c3 & Hc3 & Htb3 & Hf3) & H3).
    destruct (WaitUntil_kept e (Some p) F p MonoTime_Max _ true w3 HI2 HT2
                (H3 F (le_n F))) as (_ & HT3 & _ & Hs3).
    assert (alloc c3 <> Freed) as Hnf3
      by (destruct Htb3 as [-> _]; discriminate).
    assert (collectors_ w3 = collectors_ w) as Hcw3
      by (destruct Hle3 as (-> & _); exact Hc1).
    assert (handler c3 = Returned) as Hr3.
    { destruct (taken_back_handler c3 (Inv_cell_ok _ _ _ _ _ HI3 Hc3) Htb3)
        as [[_ Hz]|[Hr _]]; [contradiction|exact Hr]. }
    exists F, true,
      (put_collector_at this (mkCollector (tid_ col) None)
         (put_cell p (set_alloc Freed c3) w3)).
    split.
    + split; [|split; [|split; [|split; [|split; [|split]]]]].
      * refine (Inv_release e (Some p) this p (tid_ col) w3 col c3
                  (set_alloc Freed c3) HI3 _ _ Hsd Hc3 _ _ _).
        -- intros q [= ->]. reflexivity.
        -- rewrite Hcw3. exact Hcol.
        -- unfold cell_ok. cbn. rewrite Hr3. exact I.
        -- cbn. discriminate.
        -- apply (snap_le_status w1 w3); [|exact Hst1].
           apply (mem_le_snap_le (put_cell p d0 w1) w3 Hle3).
      * apply (Traced_release e (Some p) this p (tid_ col) col _ w3 HI3 HT3);
          [rewrite Hcw3; exact Hcol|exact Hsd].
      * eapply snap_le_trans; [apply mem_le_snap_le, Hle1|].
        eapply snap_le_trans;
          [apply (mem_le_snap_le (put_cell p d0 w1) w3 Hle3)|apply snap_le_release].
      * cbn. rewrite Hcw3. reflexivity.
      * intros i Hrel. cbn. rewrite Hs3; [apply Hs1, Hrel|].
        cbn. rewrite Hc1. exact Hrel.
      * intros _. cbn.
        assert (collectors_ w3 !! this = Some col) as Hcol3
          by (rewrite Hcw3; exact Hcol).
        destruct (HT3 this col p c3 Hcol3 Hsd Hc3) as [_ Hpast].
        apply Hpast. rewrite Hr3. exact I.
      * discriminate.
    + intros fuel Hf.
      rewrite (RevokeSigData_unfold e fuel this w col p Hcol Hsd), Hx.
      assert ((queued_of d =? tid_ col) = false) as ->
          by (apply Z.eqb_neq; unfold kDumpStarted in Hq; lia).
      rewrite Hq, Z.eqb_refl. cbn [negb]. rewrite (H3 fuel Hf).
      apply (delete_and_forget p this (tid_ col) c3 w3 Hc3 Hnf3).
Qed.

(** [AwaitCollection] with the destination. *)
Lemma AwaitCollection_collects (e : Env) (this : nat) (deadline : Z)
    (w : World) (col : StackTraceCollector) (p : nat) :
  EnvOk e ->
  (exists j, forall m, (j <= m)%nat -> deadline <= clock e m) ->
  Inv e None w -> Traced e w ->
  collectors_ w !! this = Some col -> sig_data_ col = Some p ->
  terminates (fun fuel => AwaitCollection e fuel this deadline) w
    (fun s w' =>
       Inv e None w' /\ Traced e w' /\ snap_le w w' /\
       collectors_ w' = <[this := mkCollector (tid_ col) None]> (collectors_ w) /\
       (forall i, (forall c, collectors_ w !! i = Some c -> sig_data_ c = None) ->
                  infos_ w' !! i = infos_ w !! i) /\
       ((s = Status_OK /\
         exists info, infos_ w' !! this = Some info /\
                      collected e (tid_ col) (ThreadInfo.stack info)) \/
        (s = mkStatus kTimedOut
               "thread did not respond: maybe it is blocking signals" /\
         forall info', infos_ w' !! this = Some info' ->
                       num_frames_ (ThreadInfo.stack info') = 0))).
Proof.
  intros He Hdl HI HT Hcol Hsd.
  assert (held w p) as Hheld by (exists this, col; auto).
  destruct (WaitUntil_terminates e None p deadline w Hdl HI Hheld)
    as (F1 & b & w1 & [HI1 Hle1] & H1).
  destruct (WaitUntil_kept e None F1 p deadline w b w1 HI HT (H1 F1 (le_n F1)))
    as (_ & HT1 & _ & Hs1).
  assert (collectors_ w1 = collectors_ w) as Hc1 by apply Hle1.
  assert (collectors_ w1 !! this = Some col) as Hcol1 by (rewrite Hc1; exact Hcol).
  destruct (RevokeSigData_collects e this w1 col p He HI1 HT1 Hcol1 Hsd)
    as (F2 & completed & w2 & (HI2 & HT2 & Hle2 & Hc2 & Hs2 & Ht & Hf) & H2).
  exists (Nat.max F1 F2),
    (if negb completed
     then mkStatus kTimedOut
            "thread did not respond: maybe it is blocking signals"
     else Status_OK), w2.
  split.
  - split; [exact HI2|]. split; [exact HT2|].
    split; [eapply snap_le_trans; [apply mem_le_snap_le, Hle1|exact Hle2]|].
    split; [rewrite Hc2, Hc1; reflexivity|].
    split.
    + intros i Hrel. rewrite Hs2; [apply Hs1, Hrel|]. rewrite Hc1. exact Hrel.
    + destruct completed; cbn [negb]; [left|right]; auto.
  - intros fuel Hfuel. unfold AwaitCollection. unfold bind at 1, get_collector.
    rewrite Hcol, Hsd. unfold bind at 1. rewrite (H1 fuel) by lia.
    unfold bind at 1. rewrite (H2 fuel) by lia.
    destruct completed; reflexivity.
Qed.

(** ** The destructor and [GetThreadStack] *)

(** A collector that holds no block is replaced by another that holds none. *)
Lemma Inv_put_idle (e : Env) (busy : option nat) (c : nat) (t : Z)
    (col0 : StackTraceCollector) (w : World) :
  Inv e busy w -> collectors_ w !! c = Some col0 -> sig_data_ col0 = None ->
  Inv e busy (set_collectors (fun l => <[c := mkCollector t None]> l) w).
Proof.
  intros (I1 & I2 & I3 & I4 & I5 & I6 & I7 & I8) Hc Hsd.
  assert (c < length (collectors_ w))%nat as Hlt by (eapply lookup_lt_Some, Hc).
  unfold Inv. cbn [heap collectors_ infos_ n_yield set_collectors].
  rewrite length_insert.
  split; [exact I1|]. split.
  { intros p x Hx Hl. destruct (I2 p x Hx Hl) as (col & Hcol & Hs).
    exists col. split; [|exact Hs].
    rewrite list_lookup_insert_ne; [exact Hcol|].
    intros Heq. rewrite <- Heq in Hcol. congruence. }
  split.
  { intros i col p Hi Hs. apply list_lookup_insert_Some in Hi.
    destruct Hi as [(_ & <- & _)|[Hne Hi]]; [discriminate|].
    apply (I3 i col p Hi Hs). }
  split.
  { intros i info Hi Hn. specialize (I4 i info Hi Hn).
    destruct (decide (i = c)) as [->|Hne].
    - rewrite list_lookup_insert_eq by exact Hlt. rewrite Hc in I4.
      destruct col0 as [t0 sd]. cbn in Hsd. subst sd. exact I4.
    - rewrite list_lookup_insert_ne by congruence. exact I4. }
  split; [exact I5|]. split; [exact I6|]. split; [exact I7|].
  intros i info col Hi Hcol Hf. apply list_lookup_insert_Some in Hcol.
  destruct Hcol as [(_ & <- & _)|[Hne Hcol]]; [reflexivity|].
  apply (I8 i info col Hi Hcol Hf).
Qed.

Lemma Traced_put_idle (e : Env) (c : nat) (t : Z) (w : World) :
  Traced e w ->
  Traced e (set_collectors (fun l => <[c := mkCollector t None]> l) w).
Proof.
  intros HT i col p x Hi Hs Hp. cbn in Hi.
  apply list_lookup_insert_Some in Hi.
  destruct Hi as [(_ & <- & _)|[Hne Hi]]; [discriminate|].
  exact (HT i col p x Hi Hs Hp).
Qed.

(** The destructor of a collector that holds no block does nothing. *)
Lemma destroy_collector_idle (e : Env) (fuel this : nat) (w : World)
    (col : StackTraceCollector) :
  collectors_ w !! this = Some col -> sig_data_ col = None ->
  destroy_collector e fuel this w = Done (tt, w).
Proof.
  intros Hc Hsd. unfold destroy_collector, bind, get_collector.
  rewrite Hc, Hsd. reflexivity.
Qed.

(** What [RevokeSigData] leaves of the block: freed when it returns true,
    given up when it returns false. *)
Lemma RevokeSigData_Done_block (e : Env) (fuel this : nat) (w w1 : World)
    (c : StackTraceCollector) (p : nat) (b : bool) :
  collectors_ w !! this = Some c -> sig_data_ c = Some p ->
  RevokeSigData e fuel this w = Done (b, w1) ->
  exists d, heap w1 !! p = Some d /\
            alloc d = if b then Freed else Leaked.
Proof.
  intros Hc Hsd. rewrite (RevokeSigData_unfold e fuel this w c p Hc Hsd).
  destruct (exchange e p kNotInUse w) as [[old w2]| | |] eqn:Hx;
    try discriminate.
  apply exchange_Done in Hx as (w0 & d & Hy & Hd & Hnf & -> & ->).
  assert (heap (put_cell p (set_sig (set_queued_to_tid kNotInUse) d) w0) !! p =
          Some (set_sig (set_queued_to_tid kNotInUse) d)) as Hd0
    by (eapply heap_put_cell_eq; eauto).
  destruct (queued_of d =? tid_ c).
  - rewrite (leak_and_forget p this (tid_ c) _ _ Hd0 Hnf).
    intros [= <- <-].
    exists (set_alloc Leaked (set_sig (set_queued_to_tid kNotInUse) d)).
    split; [|reflexivity].
    cbn. apply list_lookup_insert_eq.
    rewrite length_insert. eapply lookup_lt_Some, Hd.
  - destruct (negb (queued_of d =? kDumpStarted)); [discriminate|].
    destruct (WaitUntil e fuel p MonoTime_Max _) as [[[] w3]| | |] eqn:Hw;
      try discriminate.
    unfold bind at 1, delete, bind, deref.
    destruct (heap w3 !! p) as [d3|] eqn:Hd3; [|discriminate].
    destruct (alloc d3) eqn:Ha3; try discriminate;
      intros [= <- <-]; exists (set_alloc Freed d3);
      (split; [|reflexivity]);
      cbn; apply list_lookup_insert_eq; eapply lookup_lt_Some, Hd3.
Qed.

(** X18: the destructor of a collector returns, whatever the thread of its
    signal does: it neither aborts nor waits for ever, although its wait
    has no deadline.  Afterwards the collector holds nothing and its block
    is in use no more: it is given up where the signal may still be
    delivered and freed where the handler is through with it, and no handler
    is at work on it.  The invariant of the protocol holds again and the
    entries keep their ids, statuses and names. *)
Theorem destroy_collector_gives_up_block (e : Env) (this : nat) (w : World)
    (col : StackTraceCollector) :
  EnvOk e -> Inv e None w -> collectors_ w !! this = Some col ->
  terminates (fun fuel => destroy_collector e fuel this) w
    (fun _ w' =>
       Inv e None w' /\ snap_le w w' /\
       collectors_ w' = <[this := mkCollector (tid_ col) None]> (collectors_ w) /\
       forall p, sig_data_ col = Some p ->
         exists c, heap w' !! p = Some c /\
                   (alloc c = Leaked \/ alloc c = Freed) /\
                   steps_left (handler c) = 0%nat).
Proof.
  intros He HI Hcol. destruct (sig_data_ col) as [p|] eqn:Hsd.
  - assert (forall info, infos_ w !! this = Some info ->
                         ok (ThreadInfo.status info) = true) as Hst.
    { intros info Hi.
      destruct (ok (ThreadInfo.status info)) eqn:Hok; [reflexivity|].
      destruct HI as (_ & _ & _ & _ & _ & _ & _ & I8).
      specialize (I8 this info col Hi Hcol Hok). congruence. }
    destruct (RevokeSigData_terminates e this w col p He HI Hcol Hsd Hst)
      as (F & b & w' & (HI' & Hsn & Hc' & _) & H).
    exists F, tt, w'. split.
    + split; [exact HI'|]. split; [exact Hsn|]. split; [exact Hc'|].
      intros p' [= <-].
      destruct (RevokeSigData_Done_block e F this w w' col p b Hcol Hsd
                  (H F (le_n F))) as (d & Hd & Ha).
      exists d. split; [exact Hd|].
      pose proof (Inv_cell_ok _ _ _ _ _ HI' Hd) as Hok.
      unfold cell_ok in Hok. rewrite Ha in Hok.
      destruct b; [split; [right; exact Ha|]|split; [left; exact Ha|]];
        destruct (handler d); try contradiction; reflexivity.
    + intros fuel Hf. unfold destroy_collector, bind at 1, get_collector.
      rewrite Hcol, Hsd. unfold bind. rewrite (H fuel Hf). reflexivity.
  - apply (terminates_ret _ _ _ tt w).
    + intros fuel. apply (destroy_collector_idle e fuel this w col Hcol Hsd).
    + split; [exact HI|]. split; [apply snap_le_refl|]. split; [|discriminate].
      symmetry. apply list_insert_id. rewrite Hcol.
      destruct col as [t sd]. cbn in Hsd. subst sd. reflexivity.
Qed.

Lemma destroy_collector_gives_up_block_witness :
  terminates (fun fuel => destroy_collector one_blocked_env fuel 0)
    (example_world [ThreadInfo_new] [mkCollector 7 (Some 0%nat)]
                   [queued_cell 7 0])
    (fun _ w' => collectors_ w' = [mkCollector 7 None]).
Proof.
  eapply terminates_weaken.
  - apply (destroy_collector_gives_up_block one_blocked_env 0
             (example_world [ThreadInfo_new] [mkCollector 7 (Some 0%nat)]
                            [queued_cell 7 0])
             (mkCollector 7 (Some 0%nat))).
    + apply example_env_ok. intros k p Hp. exists (S k). split; [lia|exact Hp].
    + apply Inv_one_queued.
    + reflexivity.
  - cbv beta. intros _ w' (_ & _ & Hc & _). exact Hc.
Defined.

(** X19: [GetThreadStack(tid, stack)] on an empty destination returns, with
    one of four statuses.  With OK the destination holds what the handler
    collected on the thread [tid] itself: [Collect(1)] run there.  With
    TimedOut the signal was queued and the destination holds no frame; with
    NotFound the signal could not be queued, with NotSupported the handler
    is not installed, and in both cases no entry is written.  On every way
    out the local collector holds no block, the invariant of the protocol
    holds, and the entries of the other collectors that hold no block are
    as they were.  The collector and the destination are taken at the same
    index [c], as the invariant pairs them; the clock comes to read a second
    more than at the call.  The signal set-up is as the library leaves it
    ([signal_ready]), so that the queued signal runs
    [HandleStackTraceSignal], and stays so; and [tid] is a value of [pid_t],
    which the system call takes. *)
Theorem GetThreadStack_collects (e : Env) (c : nat) (tid : Z) (w : World)
    (col0 : StackTraceCollector) (info0 : ThreadInfo) :
  EnvOk e -> signal_ready w -> in_pid_t tid ->
  Inv e None w -> Traced e w ->
  collectors_ w !! c = Some col0 -> sig_data_ col0 = None ->
  infos_ w !! c = Some info0 ->
  num_frames_ (ThreadInfo.stack info0) = 0 ->
  ok (ThreadInfo.status info0) = true ->
  (exists j, clock e (n_clock w) + one_second <= clock e j) ->
  terminates (fun fuel => GetThreadStack e fuel c tid c) w
    (fun s w' =>
       signal_ready w' /\
       Inv e None w' /\ Traced e w' /\
       (exists t, collectors_ w' = <[c := mkCollector t None]> (collectors_ w)) /\
       (forall i, i <> c ->
                  (forall col, collectors_ w !! i = Some col ->
                               sig_data_ col = None) ->
                  infos_ w' !! i = infos_ w !! i) /\
       ((s = Status_OK /\ sigqueue_ok e tid = true /\
         exists info, infos_ w' !! c = Some info /\
                      collected e tid (ThreadInfo.stack info)) \/
        (s = mkStatus kTimedOut
               "thread did not respond: maybe it is blocking signals" /\
         sigqueue_ok e tid = true /\
         forall info, infos_ w' !! c = Some info ->
                      num_frames_ (ThreadInfo.stack info) = 0) \/
        (s = mkStatus kNotFound
               "unable to deliver signal: process may have exited" /\
         sigqueue_ok e tid = false /\ infos_ w' = infos_ w) \/
        (s = mkStatus kNotSupported
               "unable to take thread stack: signal handler unavailable" /\
         infos_ w' = infos_ w))).
Proof.
  intros He Hready Htid HI HT Hc Hsd Hi Hn0 Hok0 (j0 & Hj0).
  (* the set-up is kept, whatever the call returns *)
  eapply terminates_weaken;
    [apply terminates_run
    |intros s w' (Hpost & fuel & Hrun);
     split; [apply (GetThreadStack_ready e fuel c tid c w s w' Hready Hrun)
            |exact Hpost]].
  set (wP := set_collectors (fun l => <[c := mkCollector 0 None]> l) w).
  assert (Inv e None wP) as HIP
    by (apply (Inv_put_idle e None c 0 col0 w); assumption).
  assert (Traced e wP) as HTP by (apply Traced_put_idle; exact HT).
  assert (c < length (collectors_ w))%nat as Hlt by (eapply lookup_lt_Some, Hc).
  assert (collectors_ wP !! c = Some (mkCollector 0 None)) as HcP
    by (cbn; apply list_lookup_insert_eq, Hlt).
  destruct (TriggerAsync_fresh e c tid c wP HcP) as (b & w0 & _ & Hsame & Ht).
  destruct Hsame as (S1 & S2 & S3 & S4 & S5 & S6 & S7 & S8).
  assert (Inv e None w0) as HI0 by (apply (Inv_ext e None wP); auto).
  assert (Traced e w0) as HT0 by (apply (Traced_ext e wP); auto).
  assert (collectors_ w0 !! c = Some (mkCollector 0 None)) as Hc0
    by (rewrite S2; exact HcP).
  assert (forall fuel,
            GetThreadStack e fuel c tid c w =
            (let* s := TriggerAsync e c tid c in
             if negb (ok s) then
               let* _ := destroy_collector e fuel c in ret s
             else
               let* now := MonoTime_Now e in
               let* s := AwaitCollection e fuel c (now + one_second) in
               if negb (ok s) then
                 let* _ := destroy_collector e fuel c in ret s
               else let* _ := destroy_collector e fuel c in ret Status_OK) wP)
    as Hrun by reflexivity.
  destruct b; cbn [negb] in Ht; [destruct (sigqueue_ok e tid) eqn:Hq|].
  - (* the signal is queued *)
    set (p := length (heap wP)) in *.
    set (wT := put_collector_at c (mkCollector tid (Some p))
                 (push_cell (queued_cell tid c) w0)) in *.
    assert (Inv e None wT) as HIT.
    { unfold wT, p. rewrite <- S5.
      apply (Inv_trigger e c tid w0 HI0 Hc0); [apply (tids_positive e He), Hq|].
      rewrite S1. intros info Hinfo. cbn in Hinfo. rewrite Hi in Hinfo.
      injection Hinfo as <-. auto. }
    assert (Traced e wT) as HTT.
    { unfold wT, p. rewrite <- S5.
      apply (Traced_trigger e c (mkCollector tid None) (queued_cell tid c) w0 HT0).
      exists tid. reflexivity. }
    set (now := clock e (n_clock wT)).
    set (wN := observe (ObsClock now) (set_n_clock S wT)).
    assert (now = clock e (n_clock w)) as Hnow.
    { unfold now, wT. cbn. rewrite S7. reflexivity. }
    assert (collectors_ wN !! c = Some (mkCollector tid (Some p))) as HcN.
    { cbn. apply list_lookup_insert_eq. rewrite S2. cbn.
      rewrite length_insert. exact Hlt. }
    destruct (AwaitCollection_collects e c (now + one_second) wN
                (mkCollector tid (Some p)) p He) as
      (F & s & w2 & (HI2 & HT2 & Hsn & Hc2 & Hs2 & Hres) & H2).
    { exists j0. intros m Hm. pose proof (clock_monotone e He j0 m Hm). lia. }
    { apply Inv_clock, HIT. }
    { apply (Traced_ext e wT); auto. }
    { exact HcN. }
    { reflexivity. }
    assert (collectors_ w2 !! c = Some (mkCollector tid None)) as Hc2c.
    { rewrite Hc2. apply list_lookup_insert_eq. eapply lookup_lt_Some, HcN. }
    exists F, s, w2. split.
    + split; [exact HI2|]. split; [exact HT2|]. split; [|split].
      * exists tid. rewrite Hc2. cbn. rewrite S2. cbn.
        rewrite !list_insert_insert_eq. reflexivity.
      * intros i Hne Hrel. rewrite Hs2.
        -- cbn. rewrite S1. reflexivity.
        -- cbn. rewrite S2. cbn. rewrite !list_lookup_insert_ne by congruence.
           exact Hrel.
      * cbn [tid_] in Hres. destruct Hres as [[-> Hcol]|[-> Hz]];
          [left|right; left]; auto.
    + intros fuel Hf. rewrite Hrun. unfold bind at 1. rewrite Ht.
      cbn [ok code Status_OK negb]. fold wT.
      unfold bind at 1, MonoTime_Now at 1. fold now. fold wN.
      unfold bind at 1. rewrite (H2 fuel Hf).
      destruct Hres as [[-> _]|[-> _]]; cbn [ok code Status_OK negb];
        unfold bind;
        rewrite (destroy_collector_idle e fuel c w2 _ Hc2c eq_refl);
        reflexivity.
  - (* the signal cannot be queued *)
    set (wU := push_cell (undelivered_cell tid c) w0) in *.
    apply (terminates_ret _ _ _
             (mkStatus kNotFound
                "unable to deliver signal: process may have exited") wU).
    + intros fuel. rewrite Hrun. unfold bind at 1. rewrite Ht.
      cbn [ok code negb]. unfold bind.
      rewrite (destroy_collector_idle e fuel c wU _ Hc0 eq_refl). reflexivity.
    + split; [apply Inv_push_dead; [exact HI0|exact I|discriminate|reflexivity]|].
      split.
      { apply Traced_push; [exact HT0| |].
        - intros t. split; discriminate.
        - intros []. }
      split; [exists 0; cbn; rewrite S2; reflexivity|].
      split; [intros i _ _; cbn; rewrite S1; reflexivity|].
      right. right. left. split; [reflexivity|]. split; [reflexivity|].
      cbn. rewrite S1. reflexivity.
  - (* the handler cannot be installed *)
    apply (terminates_ret _ _ _
             (mkStatus kNotSupported
                "unable to take thread stack: signal handler unavailable") w0).
    + intros fuel. rewrite Hrun. unfold bind at 1. rewrite Ht.
      cbn [ok code negb]. unfold bind.
      rewrite (destroy_collector_idle e fuel c w0 _ Hc0 eq_refl). reflexivity.
    + split; [exact HI0|]. split; [exact HT0|].
      split; [exists 0; rewrite S2; reflexivity|].
      split; [intros i _ _; rewrite S1; reflexivity|].
      right. right. right. split; [reflexivity|]. rewrite S1. reflexivity.
Qed.

Lemma Inv_one_idle (e : Env) :
  Inv e None (example_world [ThreadInfo_new] [mkCollector 0 None] []).
Proof. exact (Inv_reset e 1 _ (Inv_empty e) eq_refl). Qed.

(** A thread that runs its handler: its stack arrives in the destination,
    and the block of the signal is freed. *)
Example GetThreadStack_example :
  match GetThreadStack one_blocked_env 4 0 7 0
          (example_world [ThreadInfo_new] [mkCollector 0 None] []) with
  | Done (s, w') =>
      s = Status_OK /\ collectors_ w' = [mkCollector 7 None] /\
      (ThreadInfo.stack <$> infos_ w') =
        [mkStackTrace (4198433 :: 4198456 :: replicate 14 0) 2] /\
      alloc <$> heap w' = [Freed]
  | _ => False
  end.
Proof. vm_compute. auto. Qed.

(** A thread that blocks the signal: the call times out after its second and
    gives the block up, and the destination stays empty. *)
Example GetThreadStack_blocked :
  match GetThreadStack blocked_env 4 0 7 0
          (example_world [ThreadInfo_new] [mkCollector 0 None] []) with
  | Done (s, w') =>
      code s = kTimedOut /\ collectors_ w' = [mkCollector 7 None] /\
      (num_frames_ <$> (ThreadInfo.stack <$> infos_ w')) = [0] /\
      alloc <$> heap w' = [Leaked]
  | _ => False
  end.
Proof. vm_compute. auto. Qed.

Lemma GetThreadStack_collects_witness :
  terminates (fun fuel => GetThreadStack one_blocked_env fuel 0 7 0)
    (example_world [ThreadInfo_new] [mkCollector 0 None] [])
    (fun s w' =>
       Inv one_blocked_env None w' /\
       (s = Status_OK ->
        exists info, infos_ w' !! 0%nat = Some info /\
                     collected one_blocked_env 7 (ThreadInfo.stack info))).
Proof.
  eapply terminates_weaken.
  - apply (GetThreadStack_collects one_blocked_env 0 7
             (example_world [ThreadInfo_new] [mkCollector 0 None] [])
             (mkCollector 0 None) ThreadInfo_new).
    + apply example_env_ok. intros k p Hp. exists (S k). split; [lia|exact Hp].
    + apply example_world_ready.
    + unfold in_pid_t. lia.
    + apply Inv_one_idle.
    + apply Traced_idle. intros [|i] col Hi; [|discriminate].
      injection Hi as <-. reflexivity.
    + reflexivity.
    + reflexivity.
    + reflexivity.
    + reflexivity.
    + reflexivity.
    + exists 1%nat. vm_compute. discriminate.
  - cbv beta. intros s w' (_ & HI & _ & _ & _ & Hres). split; [exact HI|].
    intros ->. destruct Hres as [(_ & _ & H)|[(H & _)|[(H & _)|(H & _)]]];
      [exact H|discriminate..].
Defined.

(** ** What a snapshot delivers *)

Lemma paired_ext (w w' : World) :
  collectors_ w' = collectors_ w -> infos_ w' = infos_ w ->
  paired w -> paired w'.
Proof. unfold paired. intros -> ->. auto. Qed.

(** An entry keeps its id. *)
Lemma paired_put_info (i : nat) (info info' : ThreadInfo) (w : World) :
  paired w -> infos_ w !! i = Some info ->
  ThreadInfo.tid info' = ThreadInfo.tid info ->
  paired (put_info_at i info' w).
Proof.
  intros HP Hi Ht j x col p Hj Hc Hs. cbn in Hj, Hc.
  apply list_lookup_insert_Some in Hj.
  destruct Hj as [(<- & <- & _)|[Hne Hj]].
  - rewrite Ht. apply (HP i info col p Hi Hc Hs).
  - apply (HP j x col p Hj Hc Hs).
Qed.

(** The entry of a collector that holds no block gets an id. *)
Lemma paired_put_tid (i : nat) (info' : ThreadInfo) (w : World) :
  paired w ->
  (forall col, collectors_ w !! i = Some col -> sig_data_ col = None) ->
  paired (put_info_at i info' w).
Proof.
  intros HP Hidle j x col p Hj Hc Hs. cbn in Hj, Hc.
  apply list_lookup_insert_Some in Hj.
  destruct Hj as [(<- & <- & _)|[Hne Hj]].
  - rewrite (Hidle col Hc) in Hs. discriminate.
  - apply (HP j x col p Hj Hc Hs).
Qed.

(** A collector takes the block of the signal for the thread of its entry. *)
Lemma paired_trigger (i : nat) (t : Z) (sd : option nat) (c : Cell)
    (w : World) :
  paired w ->
  (forall info, infos_ w !! i = Some info -> ThreadInfo.tid info = t) ->
  paired (put_collector_at i (mkCollector t sd) (push_cell c w)).
Proof.
  intros HP Ht j x col p Hj Hc Hs. cbn in Hj, Hc.
  apply list_lookup_insert_Some in Hc.
  destruct Hc as [(<- & <- & _)|[Hne Hc]].
  - cbn. symmetry. apply Ht, Hj.
  - apply (HP j x col p Hj Hc Hs).
Qed.

(** The first loop of the snapshot pairs each collector it arms with the
    thread of its entry. *)
Lemma trigger_loop_paired (e : Env) (tids : list Z) :
  forall n i w w',
    Traced e w -> paired w ->
    trigger_loop e n tids i w = Done (tt, w') ->
    Traced e w' /\ paired w'.
Proof.
  induction n as [|n IH]; intros i w w' HT HP.
  { intros [= <-]. auto. }
  cbn [trigger_loop]. set (tid := default 0 (tids !! i)). intros H.
  apply bind_Done in H as ([] & wA & H1 & H).
  apply update_info_inv in H1 as (info & Hi & ->).
  apply bind_Done in H as (s & wB & H2 & H).
  apply bind_Done in H as ([] & wC & H3 & H).
  apply update_info_inv in H3 as (infoB & HiB & ->).
  set (wA := put_info_at i (set_info_tid tid info) w) in *.
  pose proof (TriggerAsync_Done_fresh e i tid i wA s wB H2) as Hfresh.
  assert (Traced e wA) as HTA
    by (apply (Traced_put_info e i info _ w HT Hi); reflexivity).
  assert (paired wA) as HPA.
  { apply paired_put_tid; [exact HP|]. intros col Hc.
    change (collectors_ wA) with (collectors_ w) in Hfresh.
    rewrite Hfresh in Hc. injection Hc as <-. reflexivity. }
  assert (infos_ wA !! i = Some (set_info_tid tid info)) as HiA.
  { cbn. apply list_lookup_insert_eq. eapply lookup_lt_Some, Hi. }
  destruct (TriggerAsync_fresh e i tid i wA Hfresh) as (b & w0 & _ & Hsame & Ht).
  destruct Hsame as (S1 & S2 & S3 & S4 & S5 & S6 & S7 & S8).
  assert (Traced e w0) as HT0 by (apply (Traced_ext e wA); auto).
  assert (paired w0) as HP0 by (apply (paired_ext wA); auto).
  assert (Traced e wB /\ paired wB) as [HTB HPB].
  { rewrite Ht in H2. destruct b; cbn [negb] in H2;
      [destruct (sigqueue_ok e tid)|]; injection H2 as <- <-.
    - split.
      + change (heap w) with (heap wA). rewrite <- S5.
        apply (Traced_trigger e i (mkCollector tid None) _ w0 HT0).
        exists tid. reflexivity.
      + apply paired_trigger; [exact HP0|]. intros x Hx.
        rewrite S1, HiA in Hx. injection Hx as <-. reflexivity.
    - split.
      + apply Traced_push; [exact HT0| |].
        * intros t. split; discriminate.
        * intros [].
      + apply (paired_ext w0); [reflexivity..|exact HP0].
    - auto. }
  refine (IH (S i) _ w' _ _ H).
  - apply (Traced_put_info e i infoB _ wB HTB HiB). reflexivity.
  - apply (paired_put_info i infoB _ wB HPB HiB). reflexivity.
Qed.

(** The loop that reads the names changes neither stacks nor ids. *)
Lemma names_loop_paired (e : Env) :
  forall n i w w',
    Traced e w -> paired w ->
    names_loop e n i w = Done (tt, w') ->
    Traced e w' /\ paired w'.
Proof.
  induction n as [|n IH]; intros i w w' HT HP.
  { intros [= <-]. auto. }
  cbn [names_loop]. intros H.
  apply bind_Done in H as (info & w1 & H1 & H).
  unfold get_info in H1.
  destruct (infos_ w !! i) as [x|] eqn:Hi; [|discriminate].
  injection H1 as <- <-.
  apply bind_Done in H as ([] & w2 & H2 & H).
  assert (Traced e w2 /\ paired w2) as [HT2 HP2].
  { destruct (negb (ok (ThreadInfo.status x))).
    - injection H2 as <-. auto.
    - destruct (comm e (ThreadInfo.tid x));
        apply update_info_inv in H2 as (y & Hy & ->);
        (split; [apply (Traced_put_info e i y _ w HT Hy)
                |apply (paired_put_info i y _ w HP Hy)]); reflexivity. }
  apply (IH (S i) w2 w' HT2 HP2 H).
Qed.

(** The last loop of the snapshot, with the destinations: when it returns,
    every entry that is OK holds the stack of its own thread. *)
Lemma await_loop_delivers (e : Env) (tids : list Z) (deadline : Z) :
  EnvOk e ->
  (exists j, forall m, (j <= m)%nat -> deadline <= clock e m) ->
  forall n i w,
    (i + n = length tids)%nat ->
    awaited e tids i w -> delivered e i w ->
    terminates (fun fuel => await_loop e fuel n deadline i) w
      (fun _ w' => awaited e tids (length tids) w' /\
                   delivered e (length tids) w').
Proof.
  intros He Hdl. induction n as [|n IH]; intros i w Hn Haw Hdv.
  { apply (terminates_ret _ _ _ tt w); [reflexivity|].
    rewrite Nat.add_0_r in Hn. subst i. auto. }
  pose proof Haw as (HI & Hlc & Htids & Hrec & Harm & Hnone & Hnf).
  pose proof Hdv as (HT & HP & Hdone).
  assert (length (infos_ w) = length tids) as Hli
    by (rewrite <- Htids, length_fmap; reflexivity).
  destruct (lookup_lt_is_Some_2 (infos_ w) i) as [info Hi]; [lia|].
  destruct (lookup_lt_is_Some_2 (collectors_ w) i) as [col Hcol]; [lia|].
  pose proof (proj1 (Forall_lookup _ _) Hrec i info Hi) as Hri.
  apply (terminates_ext
           (fun fuel =>
              let* s := if ok (ThreadInfo.status info)
                        then AwaitCollection e fuel i deadline
                        else ret (ThreadInfo.status info) in
              let* _ := update_info i (set_info_status s) in
              let* _ :=
                if negb (ok s) then
                  let* _ := modify (set_num_failed (fun n => n + 1)) in
                  let* _ := yield e in
                  let* info := get_info i in
                  if HasCollected (ThreadInfo.stack info) then abort else ret tt
                else ret tt in
              await_loop e fuel n deadline (S i))).
  { intros fuel. cbn [await_loop]. unfold bind at 1, get_info at 1.
    rewrite Hi. reflexivity. }
  eapply (terminates_bind _ _ _
            (fun s w1 =>
               Inv e None w1 /\ snap_le w w1 /\
               (exists col', collectors_ w1 = <[i := col']> (collectors_ w) /\
                             sig_data_ col' = None) /\
               recorded e (set_info_status s info) /\
               (ok s = false ->
                ok (ThreadInfo.status info) = false \/
                forall info', infos_ w1 !! i = Some info' ->
                              num_frames_ (ThreadInfo.stack info') = 0) /\
               Traced e w1 /\
               (forall j, (forall c, collectors_ w !! j = Some c ->
                                     sig_data_ c = None) ->
                          infos_ w1 !! j = infos_ w !! j) /\
               (ok s = true ->
                exists info1, infos_ w1 !! i = Some info1 /\
                              collected e (ThreadInfo.tid info)
                                        (ThreadInfo.stack info1)))).
  - destruct (ok (ThreadInfo.status info)) eqn:Hok.
    + destruct (Harm i (le_n _) info col Hi Hcol Hok) as [p Hp].
      eapply terminates_weaken.
      * apply (AwaitCollection_collects e i deadline w col p He Hdl HI HT Hcol Hp).
      * cbv beta. intros s w1 (HI1 & HT1 & Hsn & Hc1 & Hs1 & Hs).
        split; [exact HI1|]. split; [exact Hsn|].
        split; [eexists; split; [exact Hc1|reflexivity]|].
        assert (sigqueue_ok e (ThreadInfo.tid info) = true) as Hq.
        { unfold recorded in Hri.
          destruct Hri as [[_ Hq]|[[_ Hq]|[[Hs' _]|Hs']]]; auto;
            rewrite Hs' in Hok; discriminate. }
        rewrite (HP i info col p Hi Hcol Hp) in Hs.
        destruct Hs as [[-> Hgot]|[-> Hz]].
        -- split; [left; auto|]. split; [discriminate|].
           split; [exact HT1|]. split; [exact Hs1|]. intros _. exact Hgot.
        -- split; [right; left; auto|]. split; [intros _; right; exact Hz|].
           split; [exact HT1|]. split; [exact Hs1|]. discriminate.
    + apply (terminates_ret _ _ _ (ThreadInfo.status info) w); [reflexivity|].
      split; [exact HI|]. split; [apply snap_le_refl|].
      split; [|split; [|split; [|split; [|split]]]].
      * exists col. split; [symmetry; apply list_insert_id, Hcol|].
        destruct HI as (_ & _ & _ & _ & _ & _ & _ & I8).
        apply (I8 i info col Hi Hcol Hok).
      * destruct info. exact Hri.
      * intros _. left. reflexivity.
      * exact HT.
      * reflexivity.
      * congruence.
  - intros s w1 (HI1 & Hsn & (col' & Hc1 & Hsd') & Hrs & Hfail & HT1 & Hs1 & Hgot).
    cbv beta.
    destruct (Forall2_lookup_l _ _ _ _ _ (proj1 Hsn) Hi) as (info1 & Hi1 & Hle1).
    set (w2 := put_info_at i (set_info_status s info1) w1).
    assert (i < length (collectors_ w))%nat as Hltc by lia.
    assert (collectors_ w1 !! i = Some col') as Hc1i
      by (rewrite Hc1; apply list_lookup_insert_eq, Hltc).
    assert (Inv e None w2) as HI2.
    { apply (Inv_put_info e None i info1 _ w1 HI1 Hi1); [reflexivity|].
      cbn [set_info_status ThreadInfo.status]. intros Hf.
      destruct (Hfail Hf) as [Hf'|Hz].
      - left. destruct Hle1 as (_ & -> & _). exact Hf'.
      - right. split; [apply Hz, Hi1|].
        intros c Hc. rewrite Hc1i in Hc. injection Hc as <-. exact Hsd'. }
    assert (Traced e w2) as HT2
      by (apply (Traced_put_info e i info1 _ w1 HT1 Hi1); reflexivity).
    assert (Forall2 info_le (<[i := set_info_status s info]> (infos_ w))
              (infos_ w2)) as HR2.
    { cbn. apply Forall2_insert; [exact (proj1 Hsn)|].
      destruct Hle1 as (H1 & H2 & H3). unfold info_le. cbn. auto. }
    assert (exists w4,
              Inv e None w4 /\ collectors_ w4 = collectors_ w1 /\
              Forall2 info_le (infos_ w2) (infos_ w4) /\
              num_failed_ w4 = num_failed_ w1 + (if ok s then 0 else 1) /\
              Traced e w4 /\
              (forall j, (forall c, collectors_ w1 !! j = Some c ->
                                    sig_data_ c = None) ->
                         infos_ w4 !! j = infos_ w2 !! j) /\
              forall fuel,
                (let* _ := update_info i (set_info_status s) in
                 let* _ :=
                   if negb (ok s) then
                     let* _ := modify (set_num_failed (fun n => n + 1)) in
                     let* _ := yield e in
                     let* info := get_info i in
                     if HasCollected (ThreadInfo.stack info) then abort
                     else ret tt
                   else ret tt in
                 await_loop e fuel n deadline (S i)) w1 =
                await_loop e fuel n deadline (S i) w4)
      as (w4 & HI4 & Hc4 & HR4 & Hnf4 & HT4 & Hs4 & Hrun).
    { destruct (ok s) eqn:Hoks; cbn [negb].
      - exists w2. split; [exact HI2|]. split; [reflexivity|].
        split; [apply Forall2_diag, info_le_refl|]. split; [cbn; lia|].
        split; [exact HT2|]. split; [reflexivity|].
        intros fuel. unfold bind at 1. rewrite (update_info_Done _ _ _ _ Hi1).
        reflexivity.
      - set (w3 := set_num_failed (fun n => n + 1) w2).
        assert (Inv e None w3) as HI3 by (apply (Inv_ext e None w2); auto).
        assert (Traced e w3) as HT3 by (apply (Traced_ext e w2); auto).
        destruct (yield_Inv e None w3 HI3) as (w4 & Hy & HI4 & Hle4 & _).
        destruct (yield_Traced e None w3 w4 HI3 HT3 Hy) as (_ & HT4 & _ & Hs4).
        assert (infos_ w3 !! i = Some (set_info_status s info1)) as Hi3.
        { cbn. apply list_lookup_insert_eq. eapply lookup_lt_Some, Hi1. }
        destruct (mem_le_lookup_info _ _ _ _ Hle4 Hi3)
          as (info4 & Hi4 & (_ & Hst4 & _)).
        pose proof Hle4 as (Hcm & Hnm & _ & _ & _ & _ & _ & _ & _ & Him).
        exists w4. split; [exact HI4|]. split; [exact Hcm|].
        split; [exact Him|]. split; [rewrite Hnm; reflexivity|].
        split; [exact HT4|]. split; [exact Hs4|].
        intros fuel. unfold bind at 1. rewrite (update_info_Done _ _ _ _ Hi1).
        fold w2. unfold bind at 1. unfold bind at 1, modify at 1. fold w3.
        unfold bind at 1. rewrite Hy. unfold bind at 1, get_info at 1.
        rewrite Hi4.
        assert (HasCollected (ThreadInfo.stack info4) = false) as ->;
          [|reflexivity].
        unfold HasCollected.
        destruct (Z.eq_dec (num_frames_ (ThreadInfo.stack info4)) 0) as [->|Hnz];
          [reflexivity|exfalso].
        destruct HI4 as (_ & _ & _ & I4 & _).
        specialize (I4 i info4 Hi4 Hnz). rewrite Hcm in I4.
        change (collectors_ w3) with (collectors_ w1) in I4.
        rewrite Hc1i in I4. destruct col' as [t sd]. cbn in Hsd'. subst sd.
        rewrite Hst4 in I4. cbn in I4. congruence. }
    eapply terminates_ext; [exact Hrun|].
    assert (Forall2 info_le (<[i := set_info_status s info]> (infos_ w))
              (infos_ w4)) as HR.
    { eapply Forall2_trans; [|exact HR2|exact HR4]. apply info_le_trans. }
    (* the collectors up to [i] hold nothing any more *)
    assert (forall j c, (j <= i)%nat -> collectors_ w1 !! j = Some c ->
                        sig_data_ c = None) as Hidle1.
    { intros j c Hj Hc. rewrite Hc1 in Hc. apply list_lookup_insert_Some in Hc.
      destruct Hc as [(_ & <- & _)|[Hne Hc]]; [exact Hsd'|].
      apply (Hnone j c); [lia|exact Hc]. }
    apply (IH (S i) w4); [lia| |].
    + apply (awaited_step e tids i s info col' w w4 Haw Hi HI4);
        [rewrite Hc4; exact Hc1|exact Hsd'|exact HR| |exact Hrs].
      rewrite Hnf4. destruct Hsn as (_ & -> & _). reflexivity.
    + split; [exact HT4|]. split.
      * intros j x c p Hj Hc Hp. rewrite Hc4, Hc1 in Hc.
        apply list_lookup_insert_Some in Hc.
        destruct Hc as [(_ & <- & _)|[Hne Hc]]; [rewrite Hsd' in Hp; discriminate|].
        destruct (Forall2_lookup_r _ _ _ _ _ HR Hj) as (y & Hy & (Hty & _)).
        rewrite list_lookup_insert_ne in Hy by exact Hne.
        rewrite Hty. apply (HP j y c p Hy Hc Hp).
      * intros j x Hj Hx Hokx.
        rewrite Hs4 in Hx by (intros c Hc; apply (Hidle1 j c); [lia|exact Hc]).
        destruct (decide (j = i)) as [->|Hne].
        -- assert (infos_ w2 !! i = Some (set_info_status s info1)) as Hi2.
           { cbn. apply list_lookup_insert_eq. eapply lookup_lt_Some, Hi1. }
           rewrite Hi2 in Hx. injection Hx as <-.
           cbn [set_info_status ThreadInfo.status ThreadInfo.tid
                ThreadInfo.stack] in *.
           destruct (Hgot Hokx) as (info1' & Hi1' & Hcl).
           assert (info1' = info1) as -> by congruence.
           destruct Hle1 as (-> & _). exact Hcl.
        -- cbn in Hx. rewrite list_lookup_insert_ne in Hx by congruence.
           rewrite Hs1 in Hx by (intros c Hc; apply (Hnone j c); [lia|exact Hc]).
           apply (Hdone j x); [lia|exact Hx|exact Hokx].
Qed.

(** Sorting the entries of a snapshot that holds no collector. *)
Lemma Inv_sorted (e : Env) (f : list ThreadInfo -> list ThreadInfo)
    (w : World) :
  Inv e None w -> collectors_ w = [] ->
  Permutation (f (infos_ w)) (infos_ w) ->
  Inv e None (set_infos f w).
Proof.
  intros (I1 & I2 & I3 & I4 & I5 & I6 & I7 & I8) Hc Hperm.
  unfold Inv. cbn [heap collectors_ infos_ n_yield set_infos].
  split; [exact I1|]. split; [exact I2|]. split; [exact I3|].
  split; [|split; [exact I5|split; [rewrite Hc; cbn; lia|split; [exact I7|]]]].
  - intros i info Hi Hn. rewrite Hc. cbn.
    assert (info ∈ infos_ w) as Hin.
    { rewrite <- Hperm. eapply list_elem_of_lookup_2, Hi. }
    apply list_elem_of_lookup_1 in Hin as (j & Hj).
    specialize (I4 j info Hj Hn). rewrite Hc in I4. exact I4.
  - intros i info col _ Hcol. rewrite Hc in Hcol. discriminate.
Qed.

(** X20: what a snapshot delivers.  When [SnapshotAllStacks] has returned,
    every entry whose status is OK holds the stack of its own thread: what
    the handler collected, with [Collect(1)], on the thread whose id the
    entry carries, and not the stack of another thread or a buffer half
    written.  The snapshot leaves no collector and no block in use behind,
    and the invariant of the protocol holds, so that the same object can
    take the next snapshot.  The assumptions are those of the snapshot's
    return: the task directory readable, no debugger attached, the
    collaborators as [EnvOk] has them, a clock that comes to read a second
    more; and the signal set-up is as the library leaves it
    ([signal_ready]), so that a signal the snapshot queues runs
    [HandleStackTraceSignal], and stays so. *)
Theorem SnapshotAllStacks_delivers_own_stacks
    (e : Env) (entries : list string) (w0 : World) :
  EnvOk e ->
  IsBeingDebugged e = false ->
  proc_self_task e = Some entries ->
  signal_ready w0 ->
  Inv e None w0 -> collectors_ w0 = [] ->
  (exists j, clock e (n_clock w0) + one_second <= clock e j) ->
  terminates (SnapshotAllStacks e) w0
    (fun s w' =>
       signal_ready w' /\
       s = Status_OK /\
       Forall (fun info =>
                 ok (ThreadInfo.status info) = true ->
                 collected e (ThreadInfo.tid info) (ThreadInfo.stack info))
              (infos_ w') /\
       Inv e None w' /\ collectors_ w' = [] /\
       Forall (fun c => alloc c <> Live) (heap w')).
Proof.
  intros He Hdbg Hproc Hready HI0 Hc0 (j0 & Hj0).
  (* the set-up is kept, whatever the snapshot returns *)
  eapply terminates_weaken;
    [apply terminates_run
    |intros s w' (Hpost & fuel & Hrun);
     split; [apply (SnapshotAllStacks_ready e fuel w0 s w' Hready Hrun)
            |exact Hpost]].
  set (tids := snd (ListThreads e [])).
  assert (ListThreads e [] = (Status_OK, tids)) as HLT.
  { unfold tids, ListThreads. rewrite Hproc. reflexivity. }
  (* the vectors are reset *)
  set (wR := set_infos (fun _ => replicate (length tids) ThreadInfo_new)
               (set_collectors
                  (fun _ => replicate (length tids) (mkCollector 0 None))
                  (set_collectors (fun _ => []) w0))).
  assert (Inv e None wR) as HIR.
  { apply Inv_reset; [|reflexivity]. apply (Inv_ext e None w0); auto. }
  assert (forall i col, collectors_ wR !! i = Some col -> sig_data_ col = None)
    as HidleR.
  { intros i col Hi. cbn in Hi. apply lookup_replicate in Hi as [-> _].
    reflexivity. }
  assert (Traced e wR) as HTR by (apply Traced_idle, HidleR).
  assert (paired wR) as HPR.
  { intros j info col p _ Hc Hs. rewrite (HidleR j col Hc) in Hs. discriminate. }
  (* the signals are sent *)
  destruct (trigger_loop_Done e tids He (length tids) 0%nat wR)
    as (wT & HrunT & HtrT & HcapT & HncT); try exact HIR.
  { reflexivity. }
  { cbn. apply length_replicate. }
  { cbn. apply length_replicate. }
  { intros j _ Hj. cbn. split; apply lookup_replicate_2, Hj. }
  { intros j info Hj. lia. }
  { intros j Hj. lia. }
  destruct (trigger_loop_paired e tids _ _ wR wT HTR HPR HrunT) as [HTT HPT].
  assert (length (infos_ wT) = length tids) as HliT.
  { destruct HtrT as (_ & _ & <- & _). rewrite length_fmap. reflexivity. }
  (* the names are read *)
  assert (exists wN,
            (if capture_thread_names_ wT
             then names_loop e (length (infos_ wT)) 0
             else ret tt) wT = Done (tt, wN) /\
            triggered e tids wN /\ n_clock wN = n_clock wT /\
            Traced e wN /\ paired wN)
    as (wN & HrunN & HtrN & HncN & HTN & HPN).
  { destruct (capture_thread_names_ wT).
    - rewrite HliT.
      destruct (names_loop_Done e tids (length tids) 0%nat wT)
        as (wN & HrunN & HtrN & HncN); [reflexivity|exact HtrT|].
      exists wN. split; [exact HrunN|]. split; [exact HtrN|].
      split; [exact HncN|].
      apply (names_loop_paired e _ _ wT wN HTT HPT HrunN).
    - exists wT. auto 6. }
  assert (length (infos_ wN) = length tids) as HliN.
  { destruct HtrN as (_ & _ & <- & _). rewrite length_fmap. reflexivity. }
  (* the deadline is set *)
  set (now := clock e (n_clock w0)).
  set (wD := observe (ObsClock now)
               (set_n_clock S (set_num_failed (fun _ => 0) wN))).
  assert (awaited e tids 0 wD) as HawD.
  { destruct HtrN as (HI & Hlc & Htids & Hrec & Harm).
    split; [apply (Inv_ext e None wN); auto|].
    split; [exact Hlc|]. split; [exact Htids|]. split; [exact Hrec|].
    split; [intros j _; apply Harm|]. split; [intros j col Hj; lia|].
    reflexivity. }
  assert (delivered e 0 wD) as HdvD.
  { split; [apply (Traced_ext e wN); auto|].
    split; [apply (paired_ext wN); auto|]. intros j info Hj. lia. }
  assert (exists j, forall m, (j <= m)%nat -> now + one_second <= clock e m)
    as Hdl.
  { exists j0. intros m Hm. pose proof (clock_monotone e He j0 m Hm). lia. }
  apply (terminates_ext
           (fun fuel =>
              let* _ := await_loop e fuel (length tids) (now + one_second) 0 in
              let* _ := collectors_clear e fuel in
              let* _ := yield e in
              let* _ := modify (set_infos (std_sort e (fun a b =>
                          LessThan (ThreadInfo.stack a) (ThreadInfo.stack b)))) in
              ret Status_OK)
           (fun fuel w => SnapshotAllStacks e fuel w0) wD).
  2: { eapply terminates_bind.
       - apply (await_loop_delivers e tids (now + one_second) He Hdl
                  (length tids) 0%nat wD); [reflexivity|exact HawD|exact HdvD].
       - intros _ wA ((HIA & HlcA & HtidsA & HrecA & _ & HnoneA & HnfA) &
                      (HTA & HPA & HdoneA)). cbv beta.
         assert (forall j col, collectors_ wA !! j = Some col ->
                               sig_data_ col = None) as Hnone.
         { intros j col Hj. apply (HnoneA j col); [|exact Hj].
           rewrite <- HlcA. eapply lookup_lt_Some, Hj. }
         set (wC := set_collectors (fun _ => []) wA).
         assert (Inv e None wC) as HIC by (apply Inv_clear; assumption).
         assert (Traced e wC) as HTC.
         { apply Traced_idle. intros i col Hi. discriminate. }
         destruct (yield_Inv e None wC HIC) as (wY & Hy & HIY & HleY & _).
         destruct (yield_Traced e None wC wY HIC HTC Hy) as (_ & _ & _ & HsY).
         pose proof HleY as (HcY & _).
         assert (infos_ wY = infos_ wA) as HiY.
         { apply list_eq. intros i. apply HsY. intros col Hi. discriminate. }
         pose proof (sort_permutes e He
                       (fun a b => LessThan (ThreadInfo.stack a)
                                            (ThreadInfo.stack b))
                       (infos_ wY)) as Hperm.
         eapply terminates_ret.
         + intros fuel. unfold bind at 1.
           rewrite (collectors_clear_none e fuel wA Hnone). fold wC.
           unfold bind at 1. rewrite Hy. reflexivity.
         + split; [reflexivity|]. split; [|split; [|split]].
           * cbn [infos_ set_infos]. rewrite Hperm, HiY.
             apply Forall_lookup. intros j info Hj Hok.
             apply (HdoneA j info); [|exact Hj|exact Hok].
             rewrite <- HtidsA, length_fmap. eapply lookup_lt_Some, Hj.
           * apply Inv_sorted; [exact HIY|exact HcY|exact Hperm].
           * exact HcY.
           * apply Forall_lookup. intros p c Hp Hl.
             destruct HIY as (_ & I2 & _).
             destruct (I2 p c Hp Hl) as (col & Hcol & _).
             rewrite HcY in Hcol. discriminate. }
  intros fuel. unfold SnapshotAllStacks. rewrite Hdbg, HLT.
  cbn [ok code Status_OK negb].
  unfold bind at 1.
  rewrite (collectors_clear_none e fuel w0)
    by (intros j col Hj; rewrite Hc0 in Hj; discriminate).
  unfold bind at 1, modify at 1. unfold bind at 1, modify at 1.
  fold wR. unfold bind at 1. rewrite HrunT.
  unfold bind at 1, get at 1. unfold bind at 1. rewrite HrunN.
  unfold bind at 1, modify at 1. unfold bind at 1, MonoTime_Now at 1.
  cbn [n_clock set_num_failed]. rewrite HncN, HncT.
  change (n_clock wR) with (n_clock w0). fold now.
  unfold bind at 1, get at 1.
  cbn [infos_ observe set_n_clock set_num_failed]. rewrite HliN.
  reflexivity.
Qed.

Lemma SnapshotAllStacks_delivers_own_stacks_witness :
  terminates (SnapshotAllStacks one_blocked_env) (example_world [] [] [])
    (fun s w' =>
       s = Status_OK /\
       Forall (fun info =>
                 ok (ThreadInfo.status info) = true ->
                 collected one_blocked_env (ThreadInfo.tid info)
                           (ThreadInfo.stack info))
              (infos_ w') /\
       collectors_ w' = []).
Proof.
  eapply terminates_weaken.
  - apply (SnapshotAllStacks_delivers_own_stacks
             one_blocked_env ["."; ".."; "7"; "8"]%string
             (example_world [] [] [])).
    + apply example_env_ok. intros k p Hp. exists (S k). split; [lia|exact Hp].
    + reflexivity.
    + reflexivity.
    + apply example_world_ready.
    + apply Inv_empty.
    + reflexivity.
    + exists 1%nat. vm_compute. discriminate.
  - cbv beta. intros s w' (_ & Hs & Hd & _ & Hc & _). auto.
Defined.
